(* ===== verification/_CoqProject ===== *)
-Q . S2P
Prelude.v
Utf8.v
Str.v
Ffi.v
Glob.v
Pac.v
PacProgram.v
Proxy.v
Base64.v
Auth.v
Tests.v
WebTransport.v
Compression.v
Fetch.v
Ring.v
Net.v
Engine.v
Conn.v
Write.v
Tls.v
TlsLoss.v
Quic.v
System.v
ZigRing.v
Types.v
Lifetime.v
Reads.v
Stream.v
Scaffold.v
Bridge.v
Client.v
Http.v
Exchange.v
Pipeline.v
