(* ===== verification/Prelude.v ===== *)
(** * z-net, verified: the Rust engine and pipeline of the z-net networking stack

    The Rust part of z-net is a static library with a C ABI (engine/src/), called by
    Zig modules, and an asynchronous request pipeline (src/z_pipeline/pipeline.rs).
    This library is a shallow embedding of both with the theorems that make them
    correct, and with the theorems that pin down where they are not.

    ** The program and its model

    - [Ring]: the body ring shared with another process (lib.rs, [BodyRingDescriptor]
      and the slice computation of [net_read]); producer and consumer as an
      interleaved step function on the descriptor.
    - [Net]: what is not part of the program (sockets, mio, rustls, quinn-proto) as a
      class; its state is an arbitrary type [W] that every call may read and change.
      [NetLaws] holds the documented facts on lengths that the code relies on;
      [Net.Toy] is a concrete environment, used by the witnesses.
    - [Engine]: the struct [NetEngine] and its tables, the memory behind handles and
      ring pointers, the monad [M] of the exported functions, the program logic
      [wp], and the invariant [sys_wf].
    - [Conn], [Tls], [Quic]: the exported functions of lib.rs on TCP connections and
      rings, on standalone TLS sessions, on QUIC connections, one definition each
      with the source's name.  [Write] proves what [net_write] does, [TlsLoss] what
      the functions that feed a TLS session lose.
    - [System]: all of them together as one system with the other processes;
      [Types]: their machine types; [Lifetime]: handles over the life of an engine;
      [Stream]: the path of the bytes from a socket through a ring to its consumer;
      [Reads]: the path from a socket to the caller of [net_read], over the life of a
      connection.
    - [ZigRing], [Bridge], [Client]: the Zig side of the ABI.  z_body_ring.zig (the
      ring descriptor and the table of regions), the wrapper of z_network_bridge.zig,
      and the programs that use it beside the engine.
    - [Glob], [Pac], [PacProgram], [Proxy]: protocols/proxy.rs, from the glob matcher
      over the interpreter for PAC scripts to the exported functions; [PacProgram] is
      the syntax of the scripts and their meaning.
    - [Auth]: protocols/auth.rs, the challenge parser, the NTLM messages and the
      state machine per connection; [Base64] is the interface of the base64 crate,
      with RFC 4648 as an instance that is proved to satisfy it.  [Tests] runs the
      unit tests of the module on the model.
    - [WebTransport], [Compression], [Fetch]: the other modules of protocols/ with
      code in them; [Scaffold]: the handlers without state, the monitor, and the two
      exported functions that are placeholders.
    - [Http], [Exchange], [Pipeline]: pipeline.rs.  [Http] has messages and the traits
      of sockets and TLS connections, with the mocks the program implements them by;
      [Exchange] one request: the connection pools with their lock, the caches (a
      class), DNS, TLS, the exchange and the authentication retry; [Pipeline] what is
      around it: rate limiting, redirects and metrics.
    - [Prelude], [Utf8], [Str], [Ffi]: machine integers, outcomes, and the parts of
      the Rust standard library the code uses (UTF-8, [str] and [CStr] methods).

    The engine calls the ring and the environment; the pipeline calls the
    authentication engine; the Zig side sees the exported functions and, in shared
    memory, the rings.

    ** How the code is translated

    Integers are [Z] with their wrap-around written out ([u64], [i32], ...; release
    mode, where overflow wraps).  Strings are lists of scalar values, bytes are lists
    of [Z].  A computation ends as an [outcome]: a value, a panic, undefined
    behaviour (a dangling pointer, an unterminated C string, a slice or a copy that
    leaves its memory), or [Stuck] (out of fuel, or waiting for a lock for ever).
    Division by zero and a slice index out of range panic; since a panic ends the
    process, no mutex is ever poisoned and [lock().unwrap()] cannot fail.  Handles are addresses; memory that the
    caller may get wrong is a finite map, and a missing address is undefined
    behaviour.  Hash maps are [gmap]s; where the code iterates over one, the order is
    an argument and the theorems hold for every order.

    Fuel: [evaluate_minimal] allows one round more than its text has bytes, the glob
    matcher [glob_fuel] rounds; both are proved to be enough.  The loops that depend on
    the peer (TLS handshake, read and flush loops, the QUIC loops) take their fuel as
    an argument: [net_tls_create_spec], [net_tls_write_returns] and
    [net_http3_drive_counts] state when enough fuel exists, in terms of a measure on
    the library's state; so does [net_write_spec], by the class [Drains] (a successful
    [write_tls] takes output off the session).  [net_tls_read_never_ok] holds for any
    fuel.  The redirect
    loop is bounded by the caller's [max_redirects].

    ** What is proved

    - Engine: [system_safe] (no panic, no undefined behaviour, the invariant holds in
      every reachable state), the full behaviour of connecting, reading into a ring,
      polling and closing, isolation of connections ([connection_isolation]), and that
      no connection handle is ever handed out twice ([closed_handle_stays_closed]).
      Every call keeps the state in the machine types of the source and answers in the
      type of its signature ([engine_type_sound]). Bytes reach the consumer of a ring
      unharmed and in order whatever interleaves ([stream_in_order]), and so do the bytes
      a connection's reader gets, plain or by way of its TLS session, under all other use
      of the engine ([connection_stream]). The calls without
      a loop on a peer are stated with [returns], which excludes [Stuck].
    - Ring: refinement of a byte queue under every interleaving, in which no step
      divides by zero or leaves the buffer ([ring_fifo]), exactness of the slices, the
      watermarks.
    - TLS and QUIC: termination and result of creating and driving connections, dead
      handles stay dead, buffers are respected; a blocking read never succeeds, and what
      a session does not take of a read is lost ([tls_surplus_lost]).
    - Zig: its arithmetic on the ring agrees with the engine's wherever Zig's checks
      pass ([zig_ring_agrees]); registering a region may move all others and leaves the
      engine with dangling pointers ([region_pointers]); a program on the wrapper is a
      sequence of allowed calls, copies no text outside its array and goes wrong exactly
      on a failing read or write ([client_safe]), as long as it uses no connection of an engine it tore down
      ([stale_connection]).
    - Proxy: the glob matcher decides its pattern language; the PAC interpreter
      terminates on every input, and on every printed program it computes the reference
      meaning of its statements ([evaluate_program]), nested blocks and [else] branches
      included; parsing and discovery stay in bounds.
    - Authentication: the NTLM and realm round trips, at most one retry per challenge,
      commutation of connections, and which header of which response is answered
      ([auth_trap_once]).
    - WebTransport, compression, fetch: refinement of a session table; a FIFO of datagram
      pointers, whose bytes are safe only while their buffers are left alone
      ([datagrams_fifo], [drained_payload_overwritten]); stateless decoders, the exact
      calls of a fetch.
    - Pipeline: round trips of requests and responses; a transaction whose phases
      succeed delivers what the server said ([transact_delivers]), and its TLS
      connection carries nothing ([tls_carries_nothing]); redirects and their bound, for
      any request in the place of the program's own ([fetch_follows_chain]); metrics; and
      the defects of its locking and rate limiting, by which [fetch] never delivers: it is
      refused by the rate limiter or never returns ([fetch_never_delivers]).

    ** What is not modelled

    The Zig modules other than z_body_ring.zig and z_network_bridge.zig (another
    language, and most of them name host objects only); the example client, which
    calls functions the pipeline does not have; the internals of rustls, quinn-proto,
    mio, the url, base64, brotli and zstd crates and the Zawra functions of the host,
    which are parameters.  The random identifier of a pooled connection and the
    readings of the clock are arguments.  Addition of [Duration]s is unbounded (the
    source panics beyond 2^64 seconds), and timeouts of the pipeline fire for DNS only, since the one [SocketConnection] of the
    program never waits.

    ** Open

    Next: PAC scripts whose [if]s are indented in the middle of a program. *)

From Stdlib Require Export ZArith Lia.
From Stdlib Require Export Ascii.
From stdpp Require Export base list option numbers gmap strings.

#[export] Set Default Goal Selector "!".
Open Scope Z_scope.

(** ** Outcomes of a piece of Rust code

    A Rust function may return, panic (an abort here: the crate is built with
    [panic = "abort"] and every entry point is [extern "C"]), run into undefined
    behaviour through [unsafe], or never return (a lock taken twice by the same
    thread, a loop that makes no progress). *)

Inductive outcome (A : Type) : Type :=
| Ret (a : A)
| Panicked
| Undefined
| Stuck.
Arguments Ret {A} _.
Arguments Panicked {A}.
Arguments Undefined {A}.
Arguments Stuck {A}.

#[export] Instance outcome_ret : MRet outcome := fun A a => Ret a.
#[export] Instance outcome_bind : MBind outcome := fun A B f m =>
  match m with
  | Ret a => f a
  | Panicked => Panicked
  | Undefined => Undefined
  | Stuck => Stuck
  end.

Definition is_ret {A} (m : outcome A) : Prop := exists a, m = Ret a.

(** [o.unwrap()] and a slice that panics when its range is refused. *)
Definition unwrap {A} (o : option A) : outcome A :=
  match o with Some a => Ret a | None => Panicked end.

(** Code that only computes: it returns or panics, but never runs into undefined
    behaviour and never hangs. *)
Definition calm {A} (m : outcome A) : Prop := (exists a, m = Ret a) \/ m = Panicked.

Section Outcome.
Context {A B : Type}.

Lemma calm_ret (a : A) : calm (Ret a).
Proof. left. eauto. Qed.

Lemma calm_unwrap (o : option A) : calm (unwrap o).
Proof. destruct o; [left; eauto|by right]. Qed.

Lemma calm_bind (m : outcome A) (f : A -> outcome B) :
  calm m -> (forall a, calm (f a)) -> calm (m ≫= f).
Proof. intros [[a ->]| ->] Hf; [apply Hf|by right]. Qed.

Lemma outcome_bind_ret (a : A) (f : A -> outcome B) : (Ret a ≫= f) = f a.
Proof. reflexivity. Qed.

Lemma outcome_bind_inv (m : outcome A) (f : A -> outcome B) b :
  (m ≫= f) = Ret b -> exists a, m = Ret a /\ f a = Ret b.
Proof. destruct m; cbn; try discriminate. eauto. Qed.

Lemma unwrap_ret (o : option A) a : unwrap o = Ret a <-> o = Some a.
Proof. destruct o; cbn; split; congruence. Qed.
End Outcome.

(** ** Rust results

    [Result<A, E>], with the constructors' names of the source. *)

Inductive result (A E : Type) : Type :=
| Ok (a : A)
| Err (e : E).
Arguments Ok {A E} _.
Arguments Err {A E} _.

Definition map_err {A E F} (f : E -> F) (r : result A E) : result A F :=
  match r with Ok a => Ok a | Err e => Err (f e) end.

Definition map_ok {A B E} (f : A -> B) (r : result A E) : result B E :=
  match r with Ok a => Ok (f a) | Err e => Err e end.

Definition ok_or {A E} (o : option A) (e : E) : result A E :=
  match o with Some a => Ok a | None => Err e end.

(** The [?] operator inside code that may also panic or hang. *)
Definition rbind {A B E} (m : outcome (result A E)) (f : A -> outcome (result B E))
  : outcome (result B E) :=
  r ← m; match r with Ok a => f a | Err e => Ret (Err e) end.

Declare Scope rust_scope.
Delimit Scope rust_scope with rust.
Notation "x <-? m ; k" := (rbind m (fun x => k))
  (at level 20, m at level 100, k at level 200, only parsing) : rust_scope.

(** ** Machine integers

    A [w]-bit unsigned integer is a [Z] in [0, 2^w); [as] casts and release-mode
    arithmetic wrap. [usize] is 64 bits wide. *)

Definition wrap (w : Z) (z : Z) : Z := z mod 2 ^ w.
Definition u8 := wrap 8.
Definition u16 := wrap 16.
Definition u32 := wrap 32.
Definition u64 := wrap 64.
Definition usize := wrap 64.

(** [z as i32]: the low 32 bits read as two's complement. *)
Definition i32 (z : Z) : Z :=
  let r := z mod 2 ^ 32 in if r <? 2 ^ 31 then r else r - 2 ^ 32.

Definition wrapping_sub64 (a b : Z) : Z := u64 (a - b).

Definition in_u64 (z : Z) : Prop := 0 <= z < 2 ^ 64.
Definition in_u16 (z : Z) : Prop := 0 <= z < 2 ^ 16.
Definition in_u8 (z : Z) : Prop := 0 <= z < 2 ^ 8.
Definition in_i32 (z : Z) : Prop := - 2 ^ 31 <= z < 2 ^ 31.
#[export] Instance in_u8_dec z : Decision (in_u8 z) := _.
#[export] Instance in_i32_dec z : Decision (in_i32 z) := _.

#[export] Instance in_u16_dec z : Decision (in_u16 z) := _.
#[export] Instance in_u64_dec z : Decision (in_u64 z) := _.

Section MachineIntegers.
Lemma u64_small z : in_u64 z -> u64 z = z.
Proof. intros. apply Z.mod_small. assumption. Qed.

Lemma u64_range z : in_u64 (u64 z).
Proof. apply Z.mod_pos_bound. lia. Qed.

Lemma u8_range z : in_u8 (u8 z).
Proof. apply Z.mod_pos_bound. lia. Qed.

Lemma i32_range z : in_i32 (i32 z).
Proof.
  unfold i32, in_i32. pose proof (Z.mod_pos_bound z (2 ^ 32)).
  destruct (Z.ltb_spec (z mod 2 ^ 32) (2 ^ 31)); lia.
Qed.

Lemma u32_range z : 0 <= u32 z < 2 ^ 32.
Proof. apply Z.mod_pos_bound. lia. Qed.

Lemma wrapping_sub64_small a b :
  in_u64 b -> 0 <= a - b < 2 ^ 64 -> wrapping_sub64 a b = a - b.
Proof. intros. apply Z.mod_small. assumption. Qed.

Lemma i32_small z : 0 <= z < 2 ^ 31 -> i32 z = z.
Proof.
  intros. unfold i32. rewrite Z.mod_small by lia.
  destruct (Z.ltb_spec z (2 ^ 31)); lia.
Qed.

Lemma i32_id z : - 2 ^ 31 <= z < 2 ^ 31 -> i32 z = z.
Proof.
  intros. destruct (decide (0 <= z)); [apply i32_small; lia|]. unfold i32.
  replace (z mod 2 ^ 32) with (z + 2 ^ 32).
  2:{ rewrite <- (Z.mod_small (z + 2 ^ 32) (2 ^ 32)) by lia.
    rewrite <- (Z.mul_1_l (2 ^ 32)) at 1. apply Z_mod_plus_full. }
  destruct (Z.ltb_spec (z + 2 ^ 32) (2 ^ 31)); lia.
Qed.
End MachineIntegers.

(** ** Literals

    A Rust [str] is the list of its Unicode scalar values and a byte string the
    list of its bytes, both as [Z]; [lit] reads an ASCII literal. *)

Abbreviation char := Z (only parsing).
Abbreviation str := (list Z) (only parsing).
Abbreviation bytes := (list Z) (only parsing).

Definition ch (a : Ascii.ascii) : char := Z.of_N (Ascii.N_of_ascii a).
Arguments ch a%_char_scope.
Definition lit (s : string) : str := ch <$> String.list_ascii_of_string s.
Arguments lit s%_string_scope.

(** ** Finite relations and their closures *)

Section Closure.
Context {A : Type} (R : A -> A -> Prop).

(** An invariant of a transition relation holds of every reachable state. *)
Lemma rtc_invariant (P : A -> Prop) :
  (forall x y, P x -> R x y -> P y) -> forall x y, rtc R x y -> P x -> P y.
Proof. intros Hs x y Hr. induction Hr; eauto. Qed.
End Closure.

(** ** Generic list lemmas *)

Section Lists.
Context {A : Type}.

Lemma drop_cons_lookup (l : list A) i x :
  l !! i = Some x -> drop i l = x :: drop (S i) l.
Proof.
  revert i. induction l as [|a l IH]; intros [|i]; cbn; intros; simplify_eq; auto.
Qed.

Lemma drop_nil_ge (l : list A) i : (length l <= i)%nat -> drop i l = [].
Proof. apply drop_ge. Qed.

Lemma drop_length_app (l k : list A) : drop (length l) (l ++ k) = k.
Proof. apply drop_app_length. Qed.
End Lists.

Lemma alter_as_insert `{Countable K} {A} (f : A -> A) (m : gmap K A) k x :
  m !! k = Some x -> alter f k m = <[k := f x]> m.
Proof.
  intros Hk. apply map_eq. intros j. destruct (decide (j = k)) as [->|Hj].
  - by rewrite lookup_alter_eq, Hk, lookup_insert_eq.
  - by rewrite lookup_alter_ne, lookup_insert_ne.
Qed.

(** ** Automation

    [bool_facts] turns boolean comparisons into facts for [lia]; [decide_cmp]
    rewrites the comparisons of the goal whose value [lia] knows. *)

Ltac bool_facts :=
  repeat match goal with
  | H : (_ <? _) = true |- _ => apply Z.ltb_lt in H
  | H : (_ <? _) = false |- _ => apply Z.ltb_ge in H
  | H : (_ <=? _) = true |- _ => apply Z.leb_le in H
  | H : (_ <=? _) = false |- _ => apply Z.leb_gt in H
  | H : (_ =? _) = true |- _ => apply Z.eqb_eq in H
  | H : (_ =? _) = false |- _ => apply Z.eqb_neq in H
  | H : negb _ = true |- _ => apply negb_true_iff in H
  | H : negb _ = false |- _ => apply negb_false_iff in H
  | H : andb _ _ = true |- _ => apply andb_true_iff in H; destruct H
  | H : orb _ _ = false |- _ => apply orb_false_iff in H; destruct H
  end.

Ltac decide_cmp :=
  repeat match goal with
  | |- context [?a <? ?b] =>
      first [rewrite (proj2 (Z.ltb_lt a b)) by lia | rewrite (proj2 (Z.ltb_ge a b)) by lia]
  | |- context [?a <=? ?b] =>
      first [rewrite (proj2 (Z.leb_le a b)) by lia | rewrite (proj2 (Z.leb_gt a b)) by lia]
  | |- context [?a =? ?b] =>
      first [rewrite (proj2 (Z.eqb_eq a b)) by lia | rewrite (proj2 (Z.eqb_neq a b)) by lia]
  end.

(** A closed decidable proposition, by evaluating its decision. *)
Ltac by_eval := apply (bool_decide_unpack _); vm_compute; exact I.

(** [calm_tac] walks a straight-line computation. *)
Ltac calm_tac :=
  repeat first
    [ apply calm_ret | apply calm_unwrap | apply calm_bind; [|intros ?]
    | case_match | assumption ].

(** Split on every [match] of the goal, dropping the absurd branches. *)
Ltac split_matches := repeat (case_match; simplify_eq/=; try done); bool_facts.

Create HintDb rust.
#[export] Hint Resolve u64_range : rust.
