(* ===== verification/Utf8.v ===== *)
(** * UTF-8: the byte layout of a Rust [str]

    Offsets into a [str] are byte offsets, a slice whose ends are not on a
    character boundary panics, and text that crosses the C ABI is bytes. This
    file gives the byte length of a character, encoding, strict decoding
    ([str::from_utf8], [CStr::to_str]) and lossy decoding
    ([String::from_utf8_lossy], [CStr::to_string_lossy]), as the standard
    library documents them: one U+FFFD per maximal invalid prefix. *)

From S2P Require Import Prelude.

(** A Unicode scalar value. *)
Definition scalar (c : char) : Prop := 0 <= c < 0xD800 \/ 0xE000 <= c < 0x110000.
#[export] Instance scalar_dec c : Decision (scalar c) := _.

Definition len_utf8 (c : char) : nat :=
  if c <? 0x80 then 1 else if c <? 0x800 then 2 else if c <? 0x10000 then 3 else 4.

(** [s.len()] *)
Definition str_len (s : str) : nat := sum_list_with len_utf8 s.

Definition encode_char (c : char) : bytes :=
  if c <? 0x80 then [c]
  else if c <? 0x800 then [0xC0 + c / 64; 0x80 + c mod 64]
  else if c <? 0x10000 then
    [0xE0 + c / 4096; 0x80 + (c / 64) mod 64; 0x80 + c mod 64]
  else [0xF0 + c / 262144; 0x80 + (c / 4096) mod 64;
        0x80 + (c / 64) mod 64; 0x80 + c mod 64].

(** [s.as_bytes()], [s.into_bytes()] *)
Definition as_bytes (s : str) : bytes := s ≫= encode_char.

Definition between (lo b hi : Z) : bool := (lo <=? b) && (b <=? hi).
Definition cont (b : Z) : bool := between 0x80 b 0xBF.

(** The range of the second byte allowed after a lead byte of a 3- or 4-byte
    sequence (no overlong form, no surrogate, nothing above U+10FFFF). *)
Definition second_ok (b0 b1 : Z) : bool :=
  if b0 =? 0xE0 then between 0xA0 b1 0xBF
  else if b0 =? 0xED then between 0x80 b1 0x9F
  else if b0 =? 0xF0 then between 0x90 b1 0xBF
  else if b0 =? 0xF4 then between 0x80 b1 0x8F
  else cont b1.

(** One decoding step on a non-empty input: the character read ([None] for an
    invalid sequence) and the number of bytes it takes. *)
Definition decode_step (b0 : Z) (r : bytes) : option char * nat :=
  if b0 <? 0x80 then (Some b0, 1%nat)
  else if between 0xC2 b0 0xDF then
    match r with
    | b1 :: _ => if cont b1 then (Some ((b0 - 0xC0) * 64 + (b1 - 0x80)), 2%nat)
                 else (None, 1%nat)
    | [] => (None, 1%nat)
    end
  else if between 0xE0 b0 0xEF then
    match r with
    | b1 :: r1 =>
        if second_ok b0 b1 then
          match r1 with
          | b2 :: _ =>
              if cont b2
              then (Some ((b0 - 0xE0) * 4096 + (b1 - 0x80) * 64 + (b2 - 0x80)), 3%nat)
              else (None, 2%nat)
          | [] => (None, 2%nat)
          end
        else (None, 1%nat)
    | [] => (None, 1%nat)
    end
  else if between 0xF0 b0 0xF4 then
    match r with
    | b1 :: r1 =>
        if second_ok b0 b1 then
          match r1 with
          | b2 :: r2 =>
              if cont b2 then
                match r2 with
                | b3 :: _ =>
                    if cont b3
                    then (Some ((b0 - 0xF0) * 262144 + (b1 - 0x80) * 4096
                                + (b2 - 0x80) * 64 + (b3 - 0x80)), 4%nat)
                    else (None, 3%nat)
                | [] => (None, 3%nat)
                end
              else (None, 2%nat)
          | [] => (None, 2%nat)
          end
        else (None, 1%nat)
    | [] => (None, 1%nat)
    end
  else (None, 1%nat).

Fixpoint decode_fuel (fuel : nat) (bs : bytes) : list (option char) :=
  match fuel, bs with
  | S fuel, b0 :: r =>
      let '(c, n) := decode_step b0 r in
      c :: decode_fuel fuel (drop (Nat.pred n) r)
  | _, _ => []
  end.

Definition decode (bs : bytes) : list (option char) := decode_fuel (length bs) bs.

(** [String::from_utf8_lossy] *)
Definition from_utf8_lossy (bs : bytes) : str := default 0xFFFD <$> decode bs.

(** [str::from_utf8] *)
Definition from_utf8 (bs : bytes) : option str := mapM id (decode bs).

(** ** Encoding and decoding are inverse *)

Lemma encode_char_length c : length (encode_char c) = len_utf8 c.
Proof. unfold encode_char, len_utf8. by repeat case_match. Qed.

Lemma len_utf8_pos c : (1 <= len_utf8 c)%nat.
Proof. unfold len_utf8. repeat case_match; lia. Qed.

Lemma as_bytes_app s t : as_bytes (s ++ t) = as_bytes s ++ as_bytes t.
Proof. apply bind_app. Qed.

Lemma str_len_app s t : str_len (s ++ t) = (str_len s + str_len t)%nat.
Proof. apply sum_list_with_app. Qed.

Lemma as_bytes_length s : length (as_bytes s) = str_len s.
Proof.
  induction s as [|c s IH]; [done|]. cbn.
  rewrite length_app, encode_char_length. unfold as_bytes in IH. by rewrite IH.
Qed.

Lemma str_len_pos c s : (1 <= str_len (c :: s))%nat.
Proof. cbn. pose proof (len_utf8_pos c). lia. Qed.

Lemma str_len_length s : (length s <= str_len s)%nat.
Proof.
  induction s as [|c s IH]; [cbn; lia|]. cbn in *. pose proof (len_utf8_pos c). unfold str_len in IH. lia.
Qed.

(** [decode_step] reads back what [encode_char] wrote. *)
#[local] Ltac Zify.zify_post_hook ::= Z.div_mod_to_equations.

#[local] Ltac step_through :=
  unfold decode_step, second_ok, cont, between; cbn [app];
  repeat (decide_cmp; cbn [andb]);
  first [ repeat f_equal; lia
        | repeat (case_match; bool_facts); repeat f_equal; lia ].

Lemma decode_step_encode c r :
  scalar c ->
  exists b0 bs, encode_char c = b0 :: bs
    /\ decode_step b0 (bs ++ r) = (Some c, len_utf8 c).
Proof.
  intros Hc. unfold encode_char, len_utf8, scalar in *.
  destruct (Z.ltb_spec c 0x80); [|destruct (Z.ltb_spec c 0x800);
    [|destruct (Z.ltb_spec c 0x10000)]]; do 2 eexists; (split; [reflexivity|]).
  - step_through.
  - step_through.
  - step_through.
  - step_through.
Qed.

#[local] Ltac Zify.zify_post_hook ::= idtac.

Lemma decode_fuel_encode s fuel :
  Forall scalar s -> (str_len s <= fuel)%nat ->
  decode_fuel fuel (as_bytes s) = Some <$> s.
Proof.
  intros Hs. revert fuel. induction Hs as [|c s Hc Hs IH]; intros fuel Hf.
  { by destruct fuel. }
  destruct (decode_step_encode c (as_bytes s) Hc) as (b0 & bs & He & Hd).
  pose proof (encode_char_length c) as Hl. rewrite He in Hl. cbn in Hl, Hf.
  destruct fuel as [|fuel]; [lia|].
  change (as_bytes (c :: s)) with (encode_char c ++ as_bytes s).
  rewrite He. cbn. rewrite Hd. f_equal.
  replace (Nat.pred (len_utf8 c)) with (length bs) by lia.
  rewrite drop_length_app. apply IH. unfold str_len. lia.
Qed.

Lemma decode_as_bytes s : Forall scalar s -> decode (as_bytes s) = Some <$> s.
Proof. intros. apply decode_fuel_encode; [done|]. by rewrite as_bytes_length. Qed.

(** Text survives the trip through bytes, both ways of decoding. *)
Lemma from_utf8_lossy_as_bytes s :
  Forall scalar s -> from_utf8_lossy (as_bytes s) = s.
Proof.
  intros. unfold from_utf8_lossy. rewrite decode_as_bytes by done.
  rewrite <- list_fmap_compose. apply list_fmap_id.
Qed.

Lemma from_utf8_as_bytes s : Forall scalar s -> from_utf8 (as_bytes s) = Some s.
Proof.
  intros. unfold from_utf8. rewrite decode_as_bytes by done.
  clear. induction s as [|c s IH]; [done|]. cbn in *. by rewrite IH.
Qed.

Lemma decode_step_scalar b0 r c n :
  0 <= b0 -> decode_step b0 r = (Some c, n) -> scalar c.
Proof.
  intros Hb. unfold decode_step, second_ok, cont, between, scalar.
  repeat (case_match; simplify_eq/=; try done); intros; simplify_eq; bool_facts; lia.
Qed.

Lemma decode_step_zero b0 r n :
  0 <= b0 -> decode_step b0 r = (Some 0, n) -> b0 = 0.
Proof.
  intros Hb. unfold decode_step, second_ok, cont, between.
  repeat (case_match; simplify_eq/=; try done); intros; simplify_eq; bool_facts; lia.
Qed.

Lemma decode_fuel_Forall (P : char -> Prop) fuel bs :
  (forall b0 r c n, b0 ∈ bs -> decode_step b0 r = (Some c, n) -> P c) ->
  Forall (fun o => from_option P True o) (decode_fuel fuel bs).
Proof.
  revert bs. induction fuel as [|fuel IH]; intros [|b0 r] H; cbn; try done.
  destruct (decode_step b0 r) as [o n] eqn:E. constructor.
  { destruct o; cbn; [|done]. eapply H; [|exact E]. constructor. }
  apply IH. intros b1 r1 c m Hin. eapply H. constructor.
  rewrite <- (take_drop (Nat.pred n) r). apply elem_of_app. by right.
Qed.

Lemma lossy_Forall (P : char -> Prop) bs :
  P 0xFFFD ->
  (forall b0 r c n, b0 ∈ bs -> decode_step b0 r = (Some c, n) -> P c) ->
  Forall P (from_utf8_lossy bs).
Proof.
  intros Hr H. apply Forall_fmap. eapply Forall_impl.
  { by apply decode_fuel_Forall, H. }
  intros [c|]; cbn; auto.
Qed.

(** What a C string decodes to is valid text with no interior NUL. *)
Lemma lossy_scalar bs : Forall (fun b => 0 <= b) bs -> Forall scalar (from_utf8_lossy bs).
Proof.
  intros Hb. apply lossy_Forall; [unfold scalar; lia|]. intros b0 r c n Hin.
  apply decode_step_scalar. by rewrite Forall_forall in Hb; apply Hb.
Qed.

Lemma from_utf8_scalar bs s : Forall (fun b => 0 <= b) bs -> from_utf8 bs = Some s -> Forall scalar s.
Proof.
  intros Hb Hs. unfold from_utf8 in Hs.
  assert (Hd : Forall (fun o => from_option scalar True o) (decode bs)).
  { apply decode_fuel_Forall. intros b0 r c n Hin. apply decode_step_scalar.
    by rewrite Forall_forall in Hb; apply Hb. }
  revert s Hs. induction Hd as [|o l Ho _ IH]; intros s Hs; [by injection Hs as <-|]. cbn in Hs.
  destruct o as [c|]; [|done]. cbn in Hs. destruct (mapM id l) as [t|]; [|done]. injection Hs as <-.
  constructor; [done|by apply IH].
Qed.

Lemma lossy_nonzero bs :
  Forall (fun b => 0 < b) bs -> Forall (fun c => c <> 0) (from_utf8_lossy bs).
Proof.
  intros Hb. apply lossy_Forall; [done|]. intros b0 r c n Hin E ->.
  rewrite Forall_forall in Hb. pose proof (Hb _ Hin).
  apply decode_step_zero in E; lia.
Qed.

Lemma encode_char_zero c : scalar c -> c <> 0 -> Forall (fun b => b <> 0) (encode_char c).
Proof.
  unfold scalar, encode_char. intros Hc Hz. pose proof (Z.mod_pos_bound c 64).
  pose proof (Z.mod_pos_bound (c / 64) 64). pose proof (Z.mod_pos_bound (c / 4096) 64).
  assert (0 <= c / 64) by (apply Z.div_pos; lia).
  assert (0 <= c / 4096) by (apply Z.div_pos; lia).
  assert (0 <= c / 262144) by (apply Z.div_pos; lia).
  repeat case_match; repeat constructor; lia.
Qed.

Lemma as_bytes_nonzero s :
  Forall scalar s -> Forall (fun c => c <> 0) s -> Forall (fun b => b <> 0) (as_bytes s).
Proof.
  intros Hs. induction Hs as [|c s Hc Hs IH]; intros Hz; [done|]. inv Hz.
  change (as_bytes (c :: s)) with (encode_char c ++ as_bytes s).
  apply Forall_app; auto using encode_char_zero.
Qed.
