(* ===== verification/Str.v ===== *)
(** * The part of Rust's [str] API the program uses

    Standard-library operations on text, over the list of scalar values:
    trimming, splitting, searching (byte offsets), slicing by byte range (which
    panics off a character boundary), ASCII case folding, and decimal parsing
    and printing. The lemmas are shared by every parser of the development. *)

From S2P Require Import Prelude Utf8.

(** ** Character classes *)

(** [char::is_whitespace]: the Unicode White_Space property. *)
Definition is_whitespace (c : char) : bool :=
  between 9 c 13 || (c =? 0x20) || (c =? 0x85) || (c =? 0xA0) || (c =? 0x1680)
  || between 0x2000 c 0x200A || (c =? 0x2028) || (c =? 0x2029) || (c =? 0x202F)
  || (c =? 0x205F) || (c =? 0x3000).

Definition is_digit (c : char) : bool := between 48 c 57.

Definition to_ascii_lowercase (s : str) : str :=
  (fun c => if between 65 c 90 then c + 32 else c) <$> s.

(** ** Trimming *)

Fixpoint drop_while (P : char -> bool) (s : str) : str :=
  match s with
  | [] => []
  | c :: r => if P c then drop_while P r else s
  end.

Definition drop_while_end (P : char -> bool) (s : str) : str :=
  reverse (drop_while P (reverse s)).

Definition trim_start := drop_while is_whitespace.
Definition trim_end := drop_while_end is_whitespace.
Definition trim (s : str) : str := trim_end (trim_start s).
Definition trim_end_matches (c : char) := drop_while_end (Z.eqb c).
Definition trim_matches (c : char) (s : str) : str :=
  trim_end_matches c (drop_while (Z.eqb c) s).

(** ** Prefixes, suffixes, membership *)

Fixpoint strip_prefix (p s : str) : option str :=
  match p, s with
  | [], _ => Some s
  | a :: p, b :: s => if a =? b then strip_prefix p s else None
  | _ :: _, [] => None
  end.

Definition starts_with (p s : str) : bool := bool_decide (is_Some (strip_prefix p s)).
Definition ends_with (p s : str) : bool := starts_with (reverse p) (reverse s).
Definition contains_char (c : char) (s : str) : bool := existsb (Z.eqb c) s.
Definition str_eqb (s t : str) : bool := bool_decide (s = t).

(** ** Searching: byte offsets *)

Fixpoint find_at (P : str -> bool) (s : str) : option nat :=
  if P s then Some 0%nat
  else match s with
       | [] => None
       | c :: r => (fun n => (len_utf8 c + n)%nat) <$> find_at P r
       end.

Definition find_char (c : char) : str -> option nat := find_at (starts_with [c]).
Definition find_str (p : str) : str -> option nat := find_at (starts_with p).

Fixpoint rfind_char (c : char) (s : str) : option nat :=
  match s with
  | [] => None
  | x :: r =>
      match rfind_char c r with
      | Some n => Some (len_utf8 x + n)%nat
      | None => if x =? c then Some 0%nat else None
      end
  end.

(** ** Slicing: [s\[n..\]], [s\[..n\]], [s\[a..b\]]; [None] is a panic *)

Fixpoint slice_from (n : nat) (s : str) : option str :=
  match n with
  | O => Some s
  | _ => match s with
         | [] => None
         | c :: r => if (len_utf8 c <=? n)%nat then slice_from (n - len_utf8 c) r else None
         end
  end.

Fixpoint slice_to (n : nat) (s : str) : option str :=
  match n with
  | O => Some []
  | _ => match s with
         | [] => None
         | c :: r => if (len_utf8 c <=? n)%nat
                     then cons c <$> slice_to (n - len_utf8 c) r else None
         end
  end.

Definition slice (a b : nat) (s : str) : option str := slice_to b s ≫= slice_from a.

(** ** Splitting *)

Definition push_head (c : char) (l : list str) : list str :=
  match l with [] => [[c]] | h :: t => (c :: h) :: t end.

(** [s.split(c)] *)
Fixpoint split (c : char) (s : str) : list str :=
  match s with
  | [] => [[]]
  | x :: r => if x =? c then [] :: split c r else push_head x (split c r)
  end.

(** [s.split("\r\n")] *)
Fixpoint split_crlf (s : str) : list str :=
  match s with
  | [] => [[]]
  | 13 :: ((10 :: r) as t) => [] :: split_crlf r
  | x :: t => push_head x (split_crlf t)
  end.

(** [s.split_whitespace()] *)
Fixpoint split_ws_go (cur : str) (s : str) : list str :=
  match s with
  | [] => match cur with [] => [] | _ => [reverse cur] end
  | c :: r =>
      if is_whitespace c
      then match cur with
           | [] => split_ws_go [] r
           | _ => reverse cur :: split_ws_go [] r
           end
      else split_ws_go (c :: cur) r
  end.
Definition split_whitespace (s : str) : list str := split_ws_go [] s.

(** [s.split_once(c)] *)
Fixpoint split_once_by (P : char -> bool) (s : str) : option (str * str) :=
  match s with
  | [] => None
  | x :: r => if P x then Some ([], r) else prod_map (cons x) id <$> split_once_by P r
  end.
Definition split_once (c : char) : str -> option (str * str) := split_once_by (Z.eqb c).

(** [s.splitn(2, char::is_whitespace)]: the first piece and, if any, the rest. *)
Definition splitn2_ws (s : str) : str * option str :=
  match split_once_by is_whitespace s with
  | Some (a, b) => (a, Some b)
  | None => (s, None)
  end.

(** ** Decimal numbers *)

(** [s.parse::<u16>()]: an optional sign, at least one digit, no overflow. *)
Fixpoint parse_go (acc : Z) (s : str) : option Z :=
  match s with
  | [] => Some acc
  | c :: r => if is_digit c
              then let acc := acc * 10 + (c - 48) in
                   if acc <? 2 ^ 16 then parse_go acc r else None
              else None
  end.
Definition parse_u16 (s : str) : option Z :=
  match s with
  | [] => None
  | c :: r => if c =? ch "+" then match r with [] => None | _ => parse_go 0 r end else parse_go 0 s
  end.

(** [format!("{}", n)] for an unsigned [n] below 10^20. *)
Fixpoint decimal_go (fuel : nat) (n : Z) (acc : str) : str :=
  match fuel with
  | O => acc
  | S fuel => let acc := (48 + n mod 10) :: acc in
              if n <? 10 then acc else decimal_go fuel (n / 10) acc
  end.
Definition decimal (n : Z) : str := decimal_go 20 n [].

(** [pieces.join(sep)] *)
Fixpoint join (sep : str) (l : list str) : str :=
  match l with
  | [] => []
  | [s] => s
  | s :: l => s ++ sep ++ join sep l
  end.

(** ** Slices and searches *)

Section Slices.
Implicit Types (s a b : str) (c : char).

Lemma len_utf8_leb c n : (len_utf8 c <=? len_utf8 c + n)%nat = true.
Proof. apply Nat.leb_le. lia. Qed.

Lemma slice_from_0 s : slice_from 0 s = Some s.
Proof. by destruct s. Qed.

Lemma slice_to_0 s : slice_to 0 s = Some [].
Proof. by destruct s. Qed.

Lemma slice_from_cons c s n :
  slice_from (len_utf8 c + n) (c :: s) = slice_from n s.
Proof.
  cbn. rewrite len_utf8_leb.
  replace (len_utf8 c + n - len_utf8 c)%nat with n by lia.
  pose proof (len_utf8_pos c). by destruct (len_utf8 c + n)%nat eqn:E; [lia|].
Qed.

Lemma slice_to_cons c s n :
  slice_to (len_utf8 c + n) (c :: s) = cons c <$> slice_to n s.
Proof.
  cbn. rewrite len_utf8_leb.
  replace (len_utf8 c + n - len_utf8 c)%nat with n by lia.
  pose proof (len_utf8_pos c). by destruct (len_utf8 c + n)%nat eqn:E; [lia|].
Qed.

Lemma str_len_cons c s : str_len (c :: s) = (len_utf8 c + str_len s)%nat.
Proof. done. Qed.

Lemma slice_from_app a b : slice_from (str_len a) (a ++ b) = Some b.
Proof.
  induction a as [|c a IH]; [apply slice_from_0|].
  cbn [app]. by rewrite str_len_cons, slice_from_cons.
Qed.

Lemma slice_to_app a b : slice_to (str_len a) (a ++ b) = Some a.
Proof.
  induction a as [|c a IH]; [apply slice_to_0|].
  cbn [app]. by rewrite str_len_cons, slice_to_cons, IH.
Qed.

Lemma slice_from_all s : slice_from (str_len s) s = Some [].
Proof. rewrite <- (app_nil_r s) at 2. apply slice_from_app. Qed.

Lemma slice_to_all s : slice_to (str_len s) s = Some s.
Proof. rewrite <- (app_nil_r s) at 2. apply slice_to_app. Qed.

Lemma slice_from_skip a b n : slice_from (str_len a + n) (a ++ b) = slice_from n b.
Proof.
  induction a as [|c a IH]; [done|].
  cbn [app]. by rewrite str_len_cons, <- Nat.add_assoc, slice_from_cons.
Qed.

(** The text after a one-byte separator found at byte [str_len a]. *)
Lemma slice_after a c b :
  len_utf8 c = 1%nat -> slice_from (str_len a + 1) (a ++ c :: b) = Some b.
Proof.
  intros Hc. rewrite slice_from_skip, <- Hc, <- (Nat.add_0_r (len_utf8 c)).
  by rewrite slice_from_cons, slice_from_0.
Qed.

Lemma slice_middle a b d :
  slice (str_len a) (str_len a + str_len b) (a ++ b ++ d) = Some b.
Proof.
  unfold slice. rewrite <- str_len_app, app_assoc, slice_to_app. cbn.
  apply slice_from_app.
Qed.

(** A slice that does not panic cuts the text in two. *)
Lemma slice_from_inv n s t :
  slice_from n s = Some t -> exists a, s = a ++ t /\ str_len a = n.
Proof.
  revert n. induction s as [|c s IH]; intros n.
  { destruct n; cbn; [|done]. intros [= <-]. by exists []. }
  destruct n as [|n]; [intros [= <-]; by exists []|]. cbn.
  destruct (Nat.leb_spec (len_utf8 c) (S n)); [|done].
  intros (a & -> & Ha)%IH. exists (c :: a). rewrite str_len_cons. split; [done|lia].
Qed.

Lemma slice_to_inv n s t :
  slice_to n s = Some t -> exists b, s = t ++ b /\ str_len t = n.
Proof.
  revert n t. induction s as [|c s IH]; intros n t.
  { destruct n; cbn; [|done]. intros [= <-]. by exists []. }
  destruct n as [|n]; [intros [= <-]; by eexists|]. cbn.
  destruct (Nat.leb_spec (len_utf8 c) (S n)); [|done].
  destruct (slice_to (S n - len_utf8 c) s) as [u|] eqn:E; [|done].
  cbn. intros [= <-]. apply IH in E as (b & -> & Hu). exists b.
  rewrite str_len_cons. split; [done|lia].
Qed.

Lemma starts_with_char c x s : starts_with [c] (x :: s) = (c =? x).
Proof.
  unfold starts_with. cbn. destruct (Z.eqb_spec c x) as [->|Hn].
  - by apply bool_decide_eq_true_2.
  - apply bool_decide_eq_false_2. by intros [? [=]].
Qed.

Lemma find_char_app c a b : c ∉ a -> find_char c (a ++ c :: b) = Some (str_len a).
Proof.
  unfold find_char. induction a as [|x a IH]; intros Hc; cbn [app find_at].
  { by rewrite starts_with_char, Z.eqb_refl. }
  apply not_elem_of_cons in Hc as [Hx Hc]. rewrite starts_with_char.
  rewrite (proj2 (Z.eqb_neq c x)) by done. by rewrite IH.
Qed.

Lemma find_char_None c s : find_char c s = None <-> c ∉ s.
Proof.
  unfold find_char. induction s as [|x s IH]; cbn [find_at].
  { split; [intros _ H; inv H|done]. }
  rewrite starts_with_char, not_elem_of_cons. destruct (Z.eqb_spec c x) as [->|Hn].
  { split; [done|by intros [? _]]. }
  rewrite fmap_None, IH. tauto.
Qed.

Lemma find_char_Some c s n :
  find_char c s = Some n -> exists a b, s = a ++ c :: b /\ (c ∉ a) /\ n = str_len a.
Proof.
  intros H. destruct (decide (c ∈ s)) as [Hin|Hin].
  2:{ apply find_char_None in Hin. congruence. }
  apply list_elem_of_split_l in Hin as (a & b & -> & Hc).
  rewrite find_char_app in H by done. simplify_eq. eauto.
Qed.

Lemma find_at_bound P s n : find_at P s = Some n -> (n <= str_len s)%nat.
Proof.
  revert n. induction s as [|c s IH]; intros n; cbn [find_at]; case_match; try done.
  - intros; simplify_eq; lia.
  - intros; simplify_eq; lia.
  - rewrite str_len_cons. destruct (find_at P s) eqn:E; [|done].
    intros [= <-]. pose proof (IH _ eq_refl). lia.
Qed.

Lemma rfind_char_app c a b : c ∉ b -> rfind_char c (a ++ c :: b) = Some (str_len a).
Proof.
  intros Hb. assert (rfind_char c b = None) as Hn.
  { induction b as [|x b IH]; [done|]. apply not_elem_of_cons in Hb as [Hx Hb].
    cbn. rewrite IH by done. by rewrite (proj2 (Z.eqb_neq x c)) by done. }
  induction a as [|x a IH]; cbn; [by rewrite Hn, Z.eqb_refl|by rewrite IH].
Qed.

Lemma rfind_char_None c s : rfind_char c s = None <-> c ∉ s.
Proof.
  induction s as [|x s IH]; cbn.
  { split; [intros _ H; inv H|done]. }
  rewrite not_elem_of_cons. destruct (rfind_char c s) as [n|] eqn:E.
  { split; [done|]. intros [_ Hs]. apply IH in Hs. congruence. }
  destruct (Z.eqb_spec x c); naive_solver.
Qed.

Lemma rfind_char_Some c s n :
  rfind_char c s = Some n -> exists a b, s = a ++ c :: b /\ (c ∉ b) /\ n = str_len a.
Proof.
  intros H. destruct (decide (c ∈ s)) as [Hin|Hin].
  2:{ apply rfind_char_None in Hin. congruence. }
  apply list_elem_of_split_r in Hin as (a & b & -> & Hc).
  rewrite rfind_char_app in H by done. simplify_eq. eauto.
Qed.
End Slices.

(** ** Trimming *)

Section Trimming.
Implicit Types s : str.

Definition no_ws_ends s : Prop :=
  (forall c, head s = Some c -> is_whitespace c = false) /\
  (forall c, last s = Some c -> is_whitespace c = false).

Lemma drop_while_id P s :
  (forall c, head s = Some c -> P c = false) -> drop_while P s = s.
Proof. destruct s as [|c s]; [done|]. cbn. intros H. by rewrite H. Qed.

Lemma trim_id s : no_ws_ends s -> trim s = s.
Proof.
  intros [Hh Hl]. unfold trim, trim_start, trim_end, drop_while_end.
  rewrite (drop_while_id _ s) by done.
  rewrite drop_while_id, reverse_involutive; [done|].
  intros c. rewrite head_reverse. apply Hl.
Qed.

Lemma no_ws_ends_Forall s : Forall (fun c => is_whitespace c = false) s -> no_ws_ends s.
Proof.
  intros H. rewrite Forall_forall in H. split; intros c Hc; apply H.
  - by apply head_Some_elem_of.
  - by apply last_Some_elem_of.
Qed.

Lemma no_ws_ends_app a b :
  no_ws_ends a -> no_ws_ends b -> a <> [] -> b <> [] -> no_ws_ends (a ++ b).
Proof.
  intros [Ha _] [_ Hb] Na Nb. split; intros c.
  - destruct a; [done|]. apply Ha.
  - rewrite last_app. destruct (last b) eqn:E; [|by apply last_None in E]. intros [= <-]. by apply Hb.
Qed.

Lemma lower_no_ws s :
  Forall (fun c => is_whitespace c = false) (to_ascii_lowercase s)
  -> Forall (fun c => is_whitespace c = false) s.
Proof.
  unfold to_ascii_lowercase. rewrite Forall_fmap. intros H. eapply Forall_impl; [exact H|].
  intros c. cbn [compose]. unfold is_whitespace, between. destruct ((65 <=? c) && (c <=? 90)) eqn:E; [|done]. bool_facts. intros _.
  by decide_cmp.
Qed.

Lemma split_whitespace_token s :
  Forall (fun c => is_whitespace c = false) s -> s <> [] -> split_whitespace s = [s].
Proof.
  intros H Hne. unfold split_whitespace.
  assert (forall cur, cur ++ s <> [] -> split_ws_go cur s = [reverse cur ++ s]) as Hgo.
  { clear Hne. induction H as [|c s Hc Hs IH]; intros cur Hcur; cbn.
    - destruct cur; [done|]. by rewrite app_nil_r.
    - rewrite Hc, IH by done. by rewrite reverse_cons, <- app_assoc. }
  by apply (Hgo []).
Qed.

Lemma drop_while_app P a s :
  Forall (fun c => P c = true) a -> drop_while P (a ++ s) = drop_while P s.
Proof. intros H. induction H as [|c a Hc Ha IH]; [done|]. cbn. by rewrite Hc. Qed.

Lemma drop_while_end_snoc P s c :
  drop_while_end P (s ++ [c]) = if P c then drop_while_end P s else s ++ [c].
Proof.
  unfold drop_while_end. rewrite reverse_snoc. cbn [drop_while]. destruct (P c); [done|].
  by rewrite reverse_cons, reverse_involutive.
Qed.

Lemma trim_start_head a s :
  Forall (fun c => is_whitespace c = true) a ->
  (forall c, head s = Some c -> is_whitespace c = false) -> trim_start (a ++ s) = s.
Proof. intros Ha Hs. unfold trim_start. rewrite drop_while_app by done. by apply drop_while_id. Qed.

Lemma drop_while_suffix P s : exists a, s = a ++ drop_while P s /\ Forall (fun c => P c = true) a.
Proof.
  induction s as [|c s (a & Ha & Hf)]; [by exists []|]. cbn. destruct (P c) eqn:E.
  - exists (c :: a). cbn. rewrite <- Ha. auto.
  - by exists [].
Qed.

Lemma drop_while_end_prefix P s :
  exists b, s = drop_while_end P s ++ b /\ Forall (fun c => P c = true) b.
Proof.
  unfold drop_while_end. destruct (drop_while_suffix P (reverse s)) as (a & Ha & Hf).
  exists (reverse a). split; [|by apply Forall_reverse].
  by rewrite <- reverse_app, <- Ha, reverse_involutive.
Qed.

Lemma drop_while_Forall (P : char -> bool) (Q : char -> Prop) s :
  Forall Q s -> Forall Q (drop_while P s).
Proof. intros H. induction H; cbn; [done|]. case_match; auto. Qed.

Lemma drop_while_end_Forall (P : char -> bool) (Q : char -> Prop) s :
  Forall Q s -> Forall Q (drop_while_end P s).
Proof. intros. by apply Forall_reverse, drop_while_Forall, Forall_reverse. Qed.

Lemma trim_Forall (Q : char -> Prop) s : Forall Q s -> Forall Q (trim s).
Proof. intros. by apply drop_while_end_Forall, drop_while_Forall. Qed.

Lemma drop_while_head P s c : head (drop_while P s) = Some c -> P c = false.
Proof.
  induction s as [|x s IH]; [done|]. cbn. destruct (P x) eqn:E; [done|].
  by intros [= <-].
Qed.
(** Quotes around a text without quotes are taken off. *)
Lemma trim_matches_quoted c s : c ∉ s -> trim_matches c (c :: s ++ [c]) = s.
Proof.
  intros Hs. unfold trim_matches. cbn [drop_while]. rewrite Z.eqb_refl.
  assert (Hd : forall w, c ∉ w -> drop_while (Z.eqb c) w = w).
  { intros w Hw. apply drop_while_id. intros x Hx. apply Z.eqb_neq. intros <-.
    apply Hw, list_elem_of_lookup. exists 0%nat. by destruct w. }
  assert (Hr : drop_while_end (Z.eqb c) s = s).
  { unfold drop_while_end. rewrite Hd, reverse_involutive; [done|]. by rewrite elem_of_reverse. }
  unfold trim_end_matches. destruct s as [|x s]; [cbn; by rewrite Z.eqb_refl|].
  apply not_elem_of_cons in Hs as Hx. destruct Hx as [Hx _].
  cbn [app drop_while]. rewrite (proj2 (Z.eqb_neq c x)) by done.
  change (x :: s ++ [c]) with ((x :: s) ++ [c]). by rewrite drop_while_end_snoc, Z.eqb_refl.
Qed.
End Trimming.

(** ** Splitting and numbers *)

Section Splitting.
Implicit Types (s a b : str) (c : char).

Lemma split_no_sep c a : c ∉ a -> split c a = [a].
Proof.
  induction a as [|x a IH]; [done|]. intros [Hx Ha]%not_elem_of_cons. cbn.
  rewrite (proj2 (Z.eqb_neq x c)), IH by done. done.
Qed.

Lemma split_app c a b : c ∉ a -> split c (a ++ c :: b) = a :: split c b.
Proof.
  induction a as [|x a IH]; cbn; [by rewrite Z.eqb_refl|].
  intros [Hx Ha]%not_elem_of_cons.
  by rewrite (proj2 (Z.eqb_neq x c)), IH by done.
Qed.

Lemma split_not_nil c s : split c s <> [].
Proof. destruct s as [|x s]; cbn; [done|]. case_match; [done|]. by destruct (split c s). Qed.

Lemma join_cons_cons sep s t l : join sep (s :: t :: l) = s ++ sep ++ join sep (t :: l).
Proof. done. Qed.

Lemma join_split c s : join [c] (split c s) = s.
Proof.
  induction s as [|x s IH]; [done|]. cbn [split].
  destruct (split c s) as [|h t] eqn:E; [by destruct (split_not_nil c s)|].
  destruct (Z.eqb_spec x c) as [->|Hn].
  - rewrite join_cons_cons, IH. done.
  - cbn [push_head]. destruct t as [|h' t]; cbn in IH |- *; by rewrite IH.
Qed.

Lemma split_Forall c (Q : char -> Prop) s : Forall Q s -> Forall (Forall Q) (split c s).
Proof.
  intros H. induction H as [|x s Hx Hs IH]; cbn; [by repeat constructor|].
  case_match; [by constructor|]. destruct (split c s); [by repeat constructor|].
  inv IH. by repeat constructor.
Qed.

Lemma split_once_app c a b : c ∉ a -> split_once c (a ++ c :: b) = Some (a, b).
Proof.
  unfold split_once. induction a as [|x a IH]; cbn; [by rewrite Z.eqb_refl|].
  intros [Hx Ha]%not_elem_of_cons.
  by rewrite (proj2 (Z.eqb_neq c x)), IH by done.
Qed.

Lemma split_once_by_app (P : char -> bool) a c b :
  Forall (fun x => P x = false) a -> P c = true -> split_once_by P (a ++ c :: b) = Some (a, b).
Proof. intros Ha Hc. induction Ha as [|x a Hx Ha IH]; cbn; [by rewrite Hc|]. by rewrite Hx, IH. Qed.

Lemma split_once_by_None (P : char -> bool) a :
  Forall (fun x => P x = false) a -> split_once_by P a = None.
Proof. intros Ha. induction Ha as [|x a Hx Ha IH]; cbn; [done|]. by rewrite Hx, IH. Qed.

Lemma splitn2_ws_app a b :
  Forall (fun x => is_whitespace x = false) a -> splitn2_ws (a ++ 32 :: b) = (a, Some b).
Proof. intros. unfold splitn2_ws. by rewrite split_once_by_app. Qed.

Lemma splitn2_ws_single a :
  Forall (fun x => is_whitespace x = false) a -> splitn2_ws a = (a, None).
Proof. intros. unfold splitn2_ws. by rewrite split_once_by_None. Qed.

(** The pieces of a list printed with a separator and a blank. *)
Lemma split_join_blank c l s :
  Forall (fun t => c ∉ t) (s :: l) -> c <> 32 ->
  split c (join [c; 32] (s :: l)) = s :: (cons 32 <$> l).
Proof.
  intros H Hc. revert s H. induction l as [|t l IH]; intros s H; inv H.
  - by apply split_no_sep.
  - rewrite join_cons_cons. cbn [app]. rewrite split_app by done. cbn [split].
    rewrite (proj2 (Z.eqb_neq 32 c)) by done. cbn [fmap list_fmap]. by rewrite IH.
Qed.

Lemma split_once_None c a : c ∉ a -> split_once c a = None.
Proof.
  unfold split_once. induction a as [|x a IH]; cbn; [done|].
  intros [Hx Ha]%not_elem_of_cons.
  by rewrite (proj2 (Z.eqb_neq c x)), IH by done.
Qed.

Lemma parse_go_range acc s n : in_u16 acc -> parse_go acc s = Some n -> in_u16 n.
Proof.
  unfold in_u16, is_digit, between.
  revert acc. induction s as [|c s IH]; cbn; intros acc H; [by intros [= <-]|].
  unfold is_digit, between. repeat case_match; try done. bool_facts. apply IH. lia.
Qed.

Lemma parse_u16_range s n : parse_u16 s = Some n -> in_u16 n.
Proof.
  unfold parse_u16. repeat case_match; try done; apply parse_go_range; unfold in_u16; lia.
Qed.

Lemma parse_decimal_go fuel n acc :
  0 <= n < 2 ^ 16 -> n < 10 ^ Z.of_nat fuel ->
  parse_go 0 (decimal_go fuel n acc) = parse_go n acc.
Proof.
  revert n acc. induction fuel as [|fuel IH]; intros n acc Hn Hb.
  { cbn in Hb. assert (n = 0) as -> by lia. done. }
  assert (forall m, 0 <= m -> m * 10 + n mod 10 = n ->
    parse_go m ((48 + n mod 10) :: acc) = parse_go n acc) as Hd.
  { intros m Hm He. pose proof (Z.mod_pos_bound n 10).
    cbn. unfold is_digit, between. decide_cmp. cbn.
    replace (m * 10 + (48 + n mod 10 - 48)) with n by lia. decide_cmp. done. }
  pose proof (Z.div_mod n 10). cbn [decimal_go]. destruct (Z.ltb_spec n 10).
  - apply Hd; [lia|]. rewrite Z.mod_small; lia.
  - assert (0 <= n / 10) by (apply Z.div_pos; lia).
    rewrite IH; [apply Hd; lia| |].
    + split; [lia|]. apply Z.div_lt_upper_bound; lia.
    + apply Z.div_lt_upper_bound; [lia|].
      rewrite Nat2Z.inj_succ, Z.pow_succ_r in Hb; lia.
Qed.

(** Every character of a printed number is a digit. *)
Lemma decimal_go_digits fuel n acc :
  0 <= n -> Forall (fun c => is_digit c = true) acc ->
  Forall (fun c => is_digit c = true) (decimal_go fuel n acc).
Proof.
  revert n acc. induction fuel as [|fuel IH]; intros n acc Hn Ha; [done|].
  pose proof (Z.mod_pos_bound n 10). cbn.
  assert (Forall (fun c => is_digit c = true) ((48 + n mod 10) :: acc)).
  { constructor; [|done]. unfold is_digit, between. by decide_cmp. }
  case_match; [done|]. apply IH; [|done]. apply Z.div_pos; lia.
Qed.

Lemma decimal_digits n : 0 <= n -> Forall (fun c => is_digit c = true) (decimal n).
Proof. intros. by apply decimal_go_digits. Qed.

Lemma decimal_go_not_nil fuel n acc : acc <> [] -> decimal_go fuel n acc <> [].
Proof.
  revert n acc. induction fuel as [|fuel IH]; intros n acc Ha; [done|]. cbn.
  case_match; [done|]. by apply IH.
Qed.

Lemma decimal_go_S_not_nil fuel n acc : decimal_go (S fuel) n acc <> [].
Proof. cbn. case_match; [done|]. by apply decimal_go_not_nil. Qed.

Lemma decimal_not_nil n : decimal n <> [].
Proof. apply decimal_go_S_not_nil. Qed.

(** Printing then parsing a port gives it back. *)
Lemma parse_u16_decimal n : in_u16 n -> parse_u16 (decimal n) = Some n.
Proof.
  intros Hn. unfold in_u16 in Hn. pose proof (decimal_digits n ltac:(lia)) as Hd.
  pose proof (decimal_not_nil n) as Hne. unfold parse_u16.
  destruct (decimal n) as [|c r] eqn:E; [done|]. inv Hd.
  destruct (Z.eqb_spec c (ch "+")) as [->|_]; [done|]. rewrite <- E. unfold decimal.
  rewrite parse_decimal_go; [done|lia|]. cbn. lia.
Qed.
End Splitting.

#[export] Hint Resolve slice_from_0 slice_to_0 slice_from_app slice_to_app : rust.
#[export] Hint Resolve trim_Forall drop_while_Forall drop_while_end_Forall : rust.
#[export] Hint Resolve parse_u16_range : rust.
