(* ===== verification/Ffi.v ===== *)
(** * The C ABI: pointers, C strings and caller-owned buffers

    A pointer argument is an [option] ([None] is null). A C string is the bytes
    before its NUL. A caller-owned buffer is the list of bytes it really holds;
    writing past its end is undefined behaviour. *)

From S2P Require Import Prelude Utf8 Str.

(** [CStr::from_ptr(p)]: the bytes up to the first NUL; reading past the end of
    the allocation without meeting one is undefined. *)
Fixpoint cstr_from_ptr (mem : bytes) : outcome bytes :=
  match mem with
  | [] => Undefined
  | b :: r => if b =? 0 then Ret [] else t ← cstr_from_ptr r; Ret (b :: t)
  end.

(** [CStr::from_ptr(p).to_string_lossy().into_owned()] *)
Definition cstr_lossy (mem : bytes) : outcome str :=
  b ← cstr_from_ptr mem; Ret (from_utf8_lossy b).

(** [CString::new(s).unwrap()]: panics on an interior NUL. *)
Definition cstring_new (s : bytes) : outcome bytes :=
  if bool_decide (0 ∈ s) then Panicked else Ret (s ++ [0]).

(** [ptr::copy_nonoverlapping(data, out, n); *out.add(n) = 0] *)
Definition write_cstr (data : bytes) (out : bytes) : outcome bytes :=
  if (length data <? length out)%nat
  then Ret (data ++ [0] ++ drop (S (length data)) out)
  else Undefined.

(** The memory of a C string whose text is [s]. *)
Definition c_mem (s : str) : bytes := as_bytes s ++ [0].

(** ** Lemmas *)

Section CStrings.
Lemma cstr_from_ptr_nonzero mem b :
  cstr_from_ptr mem = Ret b -> Forall (fun x => 0 <= x) mem -> Forall (fun x => 0 < x) b.
Proof.
  revert b. induction mem as [|x mem IH]; intros b; cbn; [done|].
  destruct (Z.eqb_spec x 0) as [->|Hx]; [by intros [= <-]|].
  destruct (cstr_from_ptr mem) as [c| | |]; cbn; try done. intros [= <-] Hm. inv Hm.
  constructor; [lia|]. by apply IH.
Qed.

Lemma cstr_from_ptr_app b r :
  Forall (fun x => x <> 0) b -> cstr_from_ptr (b ++ 0 :: r) = Ret b.
Proof.
  intros H. induction H as [|x b Hx Hb IH]; [done|]. cbn.
  by rewrite (proj2 (Z.eqb_neq x 0)), IH.
Qed.

(** Valid text without NUL crosses the ABI unchanged. *)
Lemma cstr_lossy_c_mem s :
  Forall scalar s -> Forall (fun c => c <> 0) s -> cstr_lossy (c_mem s) = Ret s.
Proof.
  intros Hs Hz. unfold cstr_lossy, c_mem.
  rewrite cstr_from_ptr_app by by apply as_bytes_nonzero. cbn.
  by rewrite from_utf8_lossy_as_bytes.
Qed.

Lemma cstr_lossy_valid mem s :
  cstr_lossy mem = Ret s -> Forall (fun x => 0 <= x) mem ->
  Forall scalar s /\ Forall (fun c => c <> 0) s.
Proof.
  intros (b & Hb & Hs)%outcome_bind_inv Hm. simplify_eq/=.
  apply (cstr_from_ptr_nonzero _ _ Hb) in Hm. split.
  - apply lossy_scalar. eapply Forall_impl; [exact Hm|]. cbn. lia.
  - by apply lossy_nonzero.
Qed.

Lemma cstring_new_ok s :
  Forall scalar s -> Forall (fun c => c <> 0) s ->
  cstring_new (as_bytes s) = Ret (c_mem s).
Proof.
  intros Hs Hz. unfold cstring_new. rewrite bool_decide_eq_false_2; [done|].
  intros Hin. pose proof (as_bytes_nonzero s Hs Hz) as H.
  rewrite Forall_forall in H. by apply (H 0).
Qed.

Lemma write_cstr_ok data out :
  (length data < length out)%nat ->
  exists out', write_cstr data out = Ret out'
  /\ length out' = length out
  /\ take (S (length data)) out' = data ++ [0]
  /\ drop (S (length data)) out' = drop (S (length data)) out.
Proof.
  intros H. unfold write_cstr. rewrite (proj2 (Nat.ltb_lt _ _)) by done.
  eexists. split; [done|]. rewrite app_assoc.
  replace (S (length data)) with (length (data ++ [0])) by (rewrite length_app; cbn; lia).
  rewrite take_app_length, drop_app_length. split; [|done].
  rewrite !length_app, length_drop, ?length_app. cbn. lia.
Qed.
End CStrings.
