(* ===== verification/Glob.v ===== *)
(** * Glob matching ([glob_match] of engine/src/protocols/proxy.rs)

    The PAC interpreter's [shExpMatch] runs an index-based matcher that keeps
    one backtracking point. The file gives the loop as written, the language a
    glob denotes, and the proof that the loop terminates within a computed
    number of rounds and decides that language. *)

From S2P Require Import Prelude Utf8 Str.

Definition STAR : char := ch "*".
Definition QM : char := ch "?".

(** ** The code *)

(** [while si < str.len() { ... }]: [Ret None] is [return false], [Ret (Some p)]
    is the pattern index at which the loop ends. *)
Fixpoint glob_loop (fuel : nat) (pat s : str) (p si : nat) (star : option nat)
    (match_pos : nat) : outcome (option nat) :=
  match fuel with
  | O => Stuck
  | S fuel =>
      match s !! si with
      | None => Ret (Some p)
      | Some d =>
          if bool_decide (pat !! p = Some STAR)
          then glob_loop fuel pat s (S p) si (Some p) si
          else if bool_decide (pat !! p = Some QM \/ pat !! p = Some d)
          then glob_loop fuel pat s (S p) (S si) star match_pos
          else match star with
               | Some sp => glob_loop fuel pat s (S sp) (S match_pos) star (S match_pos)
               | None => Ret None
               end
      end
  end.

(** [while p < pat.len() && pat\[p\] == '*' { p += 1; }] *)
Fixpoint glob_stars (fuel : nat) (pat : str) (p : nat) : nat :=
  match fuel with
  | O => p
  | S fuel => if bool_decide (pat !! p = Some STAR) then glob_stars fuel pat (S p) else p
  end.

Definition glob_fuel (pat s : str) : nat :=
  S (length s * (length pat + length s + 2) + length pat + length s).

Definition glob_match (pattern s : str) : outcome bool :=
  r ← glob_loop (glob_fuel pattern s) pattern s 0 0 None 0;
  match r with
  | None => Ret false
  | Some p => Ret (glob_stars (length pattern) pattern p =? length pattern)%nat
  end.

(** ** The specification: the texts a glob denotes *)

Inductive Glob : str -> str -> Prop :=
| Glob_nil : Glob [] []
| Glob_star p s1 s2 : Glob p s2 -> Glob (STAR :: p) (s1 ++ s2)
| Glob_any p c s : Glob p s -> Glob (QM :: p) (c :: s)
| Glob_char p c s : c <> STAR -> Glob p s -> Glob (c :: p) (c :: s).

(** ** Inversion of the language at each kind of pattern character *)

Section Language.
Implicit Types p s : str.

Lemma Glob_nil_inv s : Glob [] s -> s = [].
Proof. intros H. by inv H. Qed.

Lemma Glob_star_inv p s :
  Glob (STAR :: p) s <-> exists k, (k <= length s)%nat /\ Glob p (drop k s).
Proof.
  split.
  - intros H. inv H.
    exists (length s1). rewrite drop_app_length, length_app. split; [lia|done].
  - intros (k & Hk & H). rewrite <- (take_drop k s). by constructor.
Qed.

Lemma Glob_plain_inv p s c :
  c <> STAR ->
  Glob (c :: p) s <-> exists d t, s = d :: t /\ (c = QM \/ c = d) /\ Glob p t.
Proof.
  intros Hc. split.
  - intros H. inv H; eauto 10.
  - intros (d & t & -> & Hd & H). destruct (decide (c = QM)) as [->|Hq].
    + by constructor.
    + destruct Hd as [->| ->]; [done|]. by constructor.
Qed.

(** A leading star absorbs any text in front. *)
Lemma Glob_star_absorb (pat : str) s (p i j : nat) :
  pat !! p = Some STAR -> (i <= j)%nat ->
  Glob (drop p pat) (drop j s) -> Glob (drop p pat) (drop i s).
Proof.
  intros Hp Hij. rewrite (drop_cons_lookup _ _ _ Hp), !Glob_star_inv.
  intros (k & Hk & H). rewrite drop_drop in H. rewrite length_drop in Hk.
  destruct (decide (j <= length s)%nat) as [Hj|Hj].
  - exists (j - i + k)%nat. rewrite length_drop, drop_drop. split; [lia|].
    by replace (i + (j - i + k))%nat with (j + k)%nat by lia.
  - exists (length s - i)%nat. rewrite length_drop, drop_drop. split; [lia|].
    rewrite (drop_ge s) in H by lia. by rewrite (drop_ge s) by lia.
Qed.

(** A star-free stretch of pattern consumes exactly as many characters. *)
Lemma Glob_segment (pat : str) s n : forall i k,
  (forall j, (i <= j < i + n)%nat -> pat !! j <> Some STAR) ->
  (i + n <= length pat)%nat -> (k <= length s)%nat ->
  Glob (drop i pat) (drop k s) ->
  (k + n <= length s)%nat /\ Glob (drop (i + n) pat) (drop (k + n) s).
Proof.
  induction n as [|n IH]; intros i k Hns Hl Hk H.
  { rewrite !Nat.add_0_r. split; [lia|done]. }
  destruct (lookup_lt_is_Some_2 pat i ltac:(lia)) as [c Hc].
  rewrite (drop_cons_lookup _ _ _ Hc) in H.
  apply Glob_plain_inv in H as (d & t & Ht & _ & H).
  2:{ intros ->. apply (Hns i); [lia|done]. }
  assert (k < length s)%nat as Hk'.
  { destruct (decide (k < length s)%nat); [done|]. rewrite drop_ge in Ht by lia. done. }
  assert (t = drop (S k) s) as ->.
  { destruct (lookup_lt_is_Some_2 s k Hk') as [x Hx].
    rewrite (drop_cons_lookup _ _ _ Hx) in Ht. by simplify_eq. }
  apply IH in H as [Hlen H]; [|intros j Hj; apply Hns; lia|lia|lia].
  split; [lia|]. by replace (i + S n)%nat with (S i + n)%nat by lia;
    replace (k + S n)%nat with (S k + n)%nat by lia.
Qed.
End Language.

(** ** The loop decides the language *)

Section Correctness.
Context (pat s : str).

(** The backtracking point lies before the cursor, with the stretch of pattern
    since then star-free and aligned with the text. *)
Definition loop_inv (p si : nat) (star : option nat) (m : nat) : Prop :=
  (p <= length pat)%nat /\ (si <= length s)%nat /\
  match star with
  | None => m = 0%nat
  | Some sp =>
      (sp < p)%nat /\ (m <= si)%nat /\ (p - S sp = si - m)%nat
      /\ forall j, (S sp <= j < p)%nat -> pat !! j <> Some STAR
  end.

(** The texts still to be tried: the cursor's, or a longer run for the star. *)
Definition alive (p si : nat) (star : option nat) (m : nat) : Prop :=
  Glob (drop p pat) (drop si s) \/
  exists sp k, star = Some sp /\ (m < k <= length s)%nat
  /\ Glob (drop (S sp) pat) (drop k s).

Definition loop_post (W : Prop) (r : option nat) : Prop :=
  match r with
  | None => ~ W
  | Some p => (p <= length pat)%nat /\ (W <-> Glob (drop p pat) [])
  end.

Definition measure (p si m : nat) : nat :=
  ((length s - m) * (length pat + length s + 2)
  + (length pat - p) + (length s - si))%nat.

Lemma loop_post_iff W W' r : (W <-> W') -> loop_post W' r -> loop_post W r.
Proof. destruct r; cbn; tauto. Qed.

(** What an older alternative gives at the cursor. *)
Lemma alternative_at_cursor p si sp m k :
  loop_inv p si (Some sp) m -> (m < k <= length s)%nat ->
  Glob (drop (S sp) pat) (drop k s) ->
  (k + (p - S sp) <= length s)%nat /\ Glob (drop p pat) (drop (k + (p - S sp)) s).
Proof.
  intros (Hp & Hsi & Hlt & Hm & Hd & Hns) Hk H.
  apply (Glob_segment _ _ (p - S sp)) in H as [Hl H];
    [|intros j Hj; apply Hns; lia|lia|lia].
  split; [done|]. by replace (S sp + (p - S sp))%nat with p in H by lia.
Qed.

Lemma alive_at_end p si star m :
  loop_inv p si star m -> s !! si = None ->
  alive p si star m <-> Glob (drop p pat) [].
Proof.
  intros Hinv Hs%lookup_ge_None. unfold alive. rewrite (drop_ge s si) by done.
  split; [|by left]. intros [H|(sp & k & -> & Hk & H)]; [done|].
  apply (alternative_at_cursor p si) with (m := m) in H as [Hl _]; [|done|done].
  destruct Hinv as (? & ? & ? & ? & ? & _). lia.
Qed.

Lemma alive_star p si star m :
  loop_inv p si star m -> pat !! p = Some STAR ->
  alive p si star m <-> alive (S p) si (Some p) si.
Proof.
  intros Hinv Hp. pose proof Hinv as (Hpl & Hsl & Hst). unfold alive.
  trans (Glob (drop p pat) (drop si s)).
  - split; [|by left]. intros [H|(sp & k & -> & Hk & H)]; [done|].
    destruct Hst as (? & ? & ? & _).
    apply (alternative_at_cursor p si) with (m := m) in H as [_ H]; [|done|done].
    eapply Glob_star_absorb; [done| |exact H]. lia.
  - rewrite (drop_cons_lookup _ _ _ Hp), Glob_star_inv. split.
    + intros (k & Hk & H). rewrite drop_drop in H. rewrite length_drop in Hk.
      destruct k as [|k]; [rewrite Nat.add_0_r in H; by left|].
      right. exists p, (si + S k)%nat. split; [done|]. split; [lia|done].
    + intros [H|(sp & k & [= <-] & Hk & H)].
      * exists 0%nat. rewrite drop_0. split; [lia|done].
      * exists (k - si)%nat. rewrite length_drop, drop_drop. split; [lia|].
        by replace (si + (k - si))%nat with k by lia.
Qed.

Lemma alive_match p si star m d :
  pat !! p <> Some STAR -> s !! si = Some d ->
  pat !! p = Some QM \/ pat !! p = Some d ->
  alive p si star m <-> alive (S p) (S si) star m.
Proof.
  intros Hns Hs Hd. unfold alive. rewrite (drop_cons_lookup _ _ _ Hs).
  destruct (pat !! p) as [c|] eqn:Hp; [|naive_solver].
  rewrite (drop_cons_lookup _ _ _ Hp), Glob_plain_inv by congruence.
  apply or_iff_compat_r. split; [naive_solver|]. intros H.
  eexists _, _. split; [done|]. split; [naive_solver|done].
Qed.

Lemma alive_mismatch p si d :
  pat !! p <> Some STAR -> s !! si = Some d ->
  ~ (pat !! p = Some QM \/ pat !! p = Some d) ->
  ~ Glob (drop p pat) (drop si s).
Proof.
  intros Hns Hs Hd. rewrite (drop_cons_lookup _ _ _ Hs).
  destruct (pat !! p) as [c|] eqn:Hp.
  - rewrite (drop_cons_lookup _ _ _ Hp), Glob_plain_inv by congruence. naive_solver.
  - rewrite drop_ge by by apply lookup_ge_None. by intros ?%Glob_nil_inv.
Qed.

Lemma alive_backtrack p si sp m :
  ~ Glob (drop p pat) (drop si s) -> (m < length s)%nat ->
  alive p si (Some sp) m <-> alive (S sp) (S m) (Some sp) (S m).
Proof.
  intros Hn Hm. unfold alive. split.
  - intros [H|(? & k & [= <-] & Hk & H)]; [done|].
    destruct (decide (k = S m)) as [->|]; [by left|].
    right. exists sp, k. split; [done|]. split; [lia|done].
  - intros [H|(? & k & [= <-] & Hk & H)]; right.
    + exists sp, (S m). split; [done|]. split; [lia|done].
    + exists sp, k. split; [done|]. split; [lia|done].
Qed.

Lemma glob_loop_correct fuel : forall p si star m,
  loop_inv p si star m -> (measure p si m < fuel)%nat ->
  exists r, glob_loop fuel pat s p si star m = Ret r
  /\ loop_post (alive p si star m) r.
Proof.
  induction fuel as [|fuel IH]; intros p si star m Hinv Hf; [lia|].
  pose proof Hinv as (Hp & Hsi & Hst). cbn.
  destruct (s !! si) as [d|] eqn:Hs.
  2:{ eexists. split; [done|]. split; [done|]. by apply alive_at_end. }
  pose proof (lookup_lt_Some _ _ _ Hs) as Hsl.
  case_bool_decide as Hstar.
  { pose proof (lookup_lt_Some _ _ _ Hstar).
    destruct (IH (S p) si (Some p) si) as (r & -> & Hr).
    - repeat split; intros; lia.
    - unfold measure in *. destruct star; destruct_and?; nia.
    - eexists. split; [done|]. eapply loop_post_iff, Hr. by apply alive_star. }
  case_bool_decide as Hd.
  { assert (p < length pat)%nat by (destruct Hd; eauto using lookup_lt_Some).
    destruct (IH (S p) (S si) star m) as (r & -> & Hr).
    - repeat split; [lia|lia|]. destruct star as [sp|]; [|done].
      destruct Hst as (? & ? & ? & Hns). repeat split; [lia|lia|lia|].
      intros j Hj. destruct (decide (j = p)) as [->|]; [done|]. apply Hns. lia.
    - unfold measure in *. lia.
    - eexists. split; [done|]. eapply loop_post_iff, Hr. by eapply alive_match. }
  pose proof (alive_mismatch p si d Hstar Hs Hd) as Hno.
  destruct star as [sp|].
  - destruct Hst as (? & ? & ? & Hns).
    destruct (IH (S sp) (S m) (Some sp) (S m)) as (r & -> & Hr).
    + repeat split; intros; lia.
    + unfold measure in *. replace (length s - m)%nat with (S (length s - S m)) in Hf by lia.
      nia.
    + eexists. split; [done|]. eapply loop_post_iff, Hr. apply alive_backtrack; [done|lia].
  - eexists. split; [done|]. cbn. intros [H|(? & ? & [=] & _)]. done.
Qed.

(** The trailing stars are skipped exactly when only stars are left. *)
Lemma glob_stars_correct fuel p :
  (p <= length pat)%nat -> (length pat - p <= fuel)%nat ->
  glob_stars fuel pat p = length pat <-> Glob (drop p pat) [].
Proof.
  revert p. induction fuel as [|fuel IH]; intros p Hp Hf; cbn.
  { rewrite drop_ge by lia. split; [intros _; constructor|lia]. }
  case_bool_decide as Hs.
  - pose proof (lookup_lt_Some _ _ _ Hs). rewrite IH by lia.
    rewrite (drop_cons_lookup _ _ _ Hs), Glob_star_inv. cbn. split.
    + intros Hg. by exists 0%nat.
    + intros (k & Hk & Hg). by destruct k.
  - destruct (pat !! p) as [c|] eqn:Hc.
    + pose proof (lookup_lt_Some _ _ _ Hc). split; [lia|].
      rewrite (drop_cons_lookup _ _ _ Hc), Glob_plain_inv by congruence.
      by intros (? & ? & ? & _).
    + apply lookup_ge_None in Hc. rewrite drop_ge by lia. split; [intros _; constructor|lia].
Qed.
End Correctness.

(** C24: [glob_match] always terminates, with an answer, and the answer is [true]
    exactly for the texts the glob denotes ([*] any run of characters, [?] any
    one character, every other character itself). *)
Theorem glob_match_decides (pattern s : str) :
  exists b, glob_match pattern s = Ret b /\ (b = true <-> Glob pattern s).
Proof.
  destruct (glob_loop_correct pattern s (glob_fuel pattern s) 0 0 None 0)
    as (r & Hr & Hpost).
  - repeat split; lia.
  - unfold measure, glob_fuel. lia.
  - unfold glob_match. rewrite Hr. cbn.
    assert (alive pattern s 0 0 None 0 <-> Glob pattern s) as HW.
    { unfold alive. rewrite !drop_0. split; [|by left].
      intros [H|(? & ? & [=] & _)]. done. }
    destruct r as [p|]; cbn in Hpost.
    + eexists. split; [done|]. destruct Hpost as [Hp Hpost].
      rewrite <- HW, Hpost, Nat.eqb_eq. apply glob_stars_correct; lia.
    + eexists. split; [done|]. rewrite <- HW. split; [done|tauto].
Qed.
