(* ===== verification/Pac.v ===== *)
(** * The PAC interpreter of engine/src/protocols/proxy.rs

    [match_brace], [eval_cond], [evaluate_minimal] and the entry point
    [znet_pac_evaluate], with every byte offset, slice and early return of the
    source. A slice that leaves a character boundary or runs past the text is
    [Panicked]; the [while] loop runs on fuel that is proved to be enough. *)

From S2P Require Import Prelude Utf8 Str Ffi Glob.

(** ** Brace matching *)

Definition OPEN : char := ch "{".
Definition CLOSE : char := ch "}".
Definition SEMI : char := ch ";".
Definition QUOTE : char := 34.
Definition NL : char := 10.
Definition CR : char := 13.

(** The loop over [s.char_indices()], with the [i32] counter [depth]. *)
Fixpoint match_brace_go (i : nat) (depth : Z) (s : str) : option nat :=
  match s with
  | [] => None
  | c :: r =>
      if c =? OPEN then match_brace_go (i + len_utf8 c)%nat (i32 (depth + 1)) r
      else if c =? CLOSE then
        let depth := i32 (depth - 1) in
        if depth =? 0 then Some i else match_brace_go (i + len_utf8 c)%nat depth r
      else match_brace_go (i + len_utf8 c)%nat depth r
  end.
Definition match_brace (s : str) : option nat := match_brace_go 0 0 s.

(** ** Conditions *)

Definition eval_cond (cond url host : str) : outcome bool :=
  let cond := trim (trim_end_matches OPEN (trim cond)) in
  match strip_prefix (lit "isPlainHostName(") cond with
  | Some rest =>
      let arg := trim_matches QUOTE (trim_end_matches (ch ")") rest) in
      Ret (negb (contains_char (ch ".") arg))
  | None =>
      let arg1 parts := trim_matches QUOTE (trim (nth 1 parts [])) in
      let arg0 parts := trim_matches QUOTE (trim (nth 0 parts [])) in
      let shexp :=
        match strip_prefix (lit "shExpMatch(") cond with
        | Some rest =>
            let parts := split (ch ",") (trim_end_matches (ch ")") rest) in
            if (2 <=? length parts)%nat
            then glob_match (arg1 parts) (arg0 parts)
            else Ret false
        | None => Ret false
        end in
      match strip_prefix (lit "dnsDomainIs(") cond with
      | Some rest =>
          let parts := split (ch ",") (trim_end_matches (ch ")") rest) in
          if (2 <=? length parts)%nat then Ret (ends_with (arg1 parts) host) else shexp
      | None => shexp
      end
  end.

(** ** Statements *)

(** The scan after the closing quote of a returned string. *)
Fixpoint semi_scan (idx : nat) (s : str) (default : nat) : nat :=
  match s with
  | [] => default
  | c :: r =>
      if c =? SEMI then S idx
      else if (c =? NL) || (negb (is_whitespace c) && negb (c =? CR)) then idx
      else semi_scan (idx + len_utf8 c)%nat r default
  end.

Definition RETURN : str := lit "return ".
Definition IF : str := lit "if ".

(** The value of a [return] statement at the head of [s], and the bytes consumed. *)
Definition return_value (s : str) : outcome (str * nat) :=
  let return_len := str_len RETURN in
  tail ← unwrap (slice_from return_len s);
  let value_offset := (return_len + (str_len tail - str_len (trim_start tail)))%nat in
  after_start ← unwrap (slice_from value_offset s);
  if starts_with [QUOTE] after_start then
    inner ← unwrap (slice_from 1 after_start);
    match find_char QUOTE inner with
    | Some close_quote =>
        val ← unwrap (slice 1 (1 + close_quote) after_start);
        after_quote ← unwrap (slice_from (1 + close_quote) after_start);
        let semi_offset := semi_scan 0 after_quote (str_len after_quote) in
        Ret (val, (value_offset + 1 + close_quote + semi_offset)%nat)
    | None => Ret (trim_matches QUOTE after_start, (value_offset + str_len after_start)%nat)
    end
  else
    match find_char NL after_start with
    | Some nl_idx =>
        line ← unwrap (slice_to nl_idx after_start);
        match find_char SEMI line with
        | Some semi_idx =>
            val ← unwrap (slice_to semi_idx after_start);
            Ret (trim val, (value_offset + (semi_idx + 1))%nat)
        | None => Ret (trim line, (value_offset + (nl_idx + 1))%nat)
        end
    | None =>
        match find_char SEMI after_start with
        | Some semi_idx =>
            val ← unwrap (slice_to semi_idx after_start);
            Ret (trim val, (value_offset + (semi_idx + 1))%nat)
        | None => Ret (trim after_start, (value_offset + str_len after_start)%nat)
        end
    end.

(** The value returned inside the block of an [if] whose condition holds. *)
Definition block_value (block : str) (last_return : option str) : outcome (option str) :=
  match find_str RETURN block with
  | None => Ret last_return
  | Some ret_off =>
      ret_stmt ← unwrap (slice_from ret_off block);
      ret_after ← unwrap (slice_from (str_len RETURN) ret_stmt);
      let ret_after := trim ret_after in
      if starts_with [QUOTE] ret_after then
        inner ← unwrap (slice_from 1 ret_after);
        match find_char QUOTE inner with
        | Some close_quote =>
            v ← unwrap (slice 1 (1 + close_quote) ret_after); Ret (Some v)
        | None => Ret (Some (trim_matches QUOTE ret_after))
        end
      else
        let line := nth 0 (split NL ret_after) [] in
        match find_char SEMI line with
        | Some semi => v ← unwrap (slice_to semi line); Ret (Some (trim v))
        | None => Ret (Some (trim line))
        end
  end.

(** ** The interpreter loop *)

(** What one round of [while pos < body.len()] does: go on at a new position
    with a new [last_return], stop the loop, or leave the function with [None].
    [pac_stmt] is the statement starting at [s], once [pos] has been advanced by
    the [skipped] bytes of white space in front of it. *)
Inductive round :=
| Next (pos : nat) (last_return : option str)
| Break (last_return : option str)
| ReturnNone.

Definition pac_stmt (body url host : str) (pos skipped : nat) (s : str)
    (last_return : option str) : outcome round :=
  if starts_with RETURN s then
    '(v, consumed) ← return_value s;
    Ret (Next (pos + consumed) (Some v))
  else if starts_with IF s then
    match find_char OPEN s with
    | None => Ret ReturnNone
    | Some cond_end =>
        cond ← unwrap (slice (str_len IF) cond_end s);
        matched ← eval_cond (trim cond) url host;
        let pos := (pos + (skipped + cond_end))%nat in
        block_with_brace ← unwrap (slice_from pos body);
        match match_brace block_with_brace with
        | None => Ret ReturnNone
        | Some close =>
            last_return ←
              (if (matched : bool)
               then block ← unwrap (slice 1 close block_with_brace);
                    block_value block last_return
               else Ret last_return);
            Ret (Next (pos + (close + 1)) last_return)
        end
    end
  else
    tail ← unwrap (slice_from pos body);
    match find_char SEMI tail with
    | Some semi => Ret (Next (pos + (semi + 1)) last_return)
    | None => Ret (Break last_return)
    end.

(** The head of the round: white space is skipped and [pos] moves past it. *)
Definition pac_round (body url host : str) (pos : nat) (last_return : option str)
  : outcome round :=
  rest ← unwrap (slice_from pos body);
  let s := trim_start rest in
  let skipped := (str_len rest - str_len s)%nat in
  pac_stmt body url host (pos + skipped) skipped s last_return.

Fixpoint pac_loop (fuel : nat) (body url host : str) (pos : nat)
    (last_return : option str) : outcome (option str) :=
  match fuel with
  | O => Stuck
  | S fuel =>
      if (pos <? str_len body)%nat then
        r ← pac_round body url host pos last_return;
        match r with
        | Next pos last_return => pac_loop fuel body url host pos last_return
        | Break last_return => Ret last_return
        | ReturnNone => Ret None
        end
      else Ret last_return
  end.

Definition MARKER : str := lit "FindProxyForURL".

Definition evaluate_minimal (src url host : str) : outcome (option str) :=
  match find_str MARKER src with
  | None => Ret None
  | Some idx =>
      from_marker ← unwrap (slice_from idx src);
      match find_char OPEN from_marker with
      | None => Ret None
      | Some body_start =>
          body_with_brace ← unwrap (slice_from (idx + body_start) src);
          match match_brace body_with_brace with
          | None => Ret None
          | Some end_ =>
              body ← unwrap (slice 1 end_ body_with_brace);
              pac_loop (S (str_len body)) body url host 0 None
          end
      end
  end.

(** ** The entry point

    The result is the returned [c_int] and the caller's buffer afterwards. *)
Definition znet_pac_evaluate (source url host : option bytes) (out : option bytes)
    (out_len : nat) : outcome (Z * option bytes) :=
  match source, url, host, out with
  | Some source, Some url, Some host, Some mem =>
      if (out_len =? 0)%nat then Ret (-1, out) else
      src ← cstr_lossy source;
      url_str ← cstr_lossy url;
      host_str ← cstr_lossy host;
      result ← evaluate_minimal src url_str host_str;
      match result with
      | None => Ret (-1, out)
      | Some s =>
          let b := as_bytes s in
          let n := Nat.min (length b) (out_len - 1) in
          mem ← write_cstr (take n b) mem;
          Ret (i32 (Z.of_nat n), Some mem)
      end
  | _, _, _, _ => Ret (-1, out)
  end.

(** ** Brace matching is exact *)

(** Opening minus closing braces. *)
Fixpoint balance (s : str) : Z :=
  match s with
  | [] => 0
  | c :: r => (if c =? OPEN then 1 else if c =? CLOSE then -1 else 0) + balance r
  end.

(** A text whose braces close in order: no prefix closes more than it opened,
    and everything opened is closed. *)
Definition bracketed (s : str) : Prop :=
  balance s = 0 /\ forall p, p `prefix_of` s -> 0 <= balance p.

Section Braces.
Implicit Types s a b : str.

Lemma prefix_cons_cases (P : str -> Prop) c s :
  (forall p, p `prefix_of` c :: s -> P p) <-> P [] /\ (forall p, p `prefix_of` s -> P (c :: p)).
Proof.
  split.
  - intros H. split; [apply H, prefix_nil|]. intros p Hp. by apply H, prefix_cons.
  - intros [H0 H1] [|x p] Hp; [done|].
    pose proof (prefix_cons_inv_1 _ _ _ _ Hp) as ->.
    apply H1. by eapply prefix_cons_inv_2.
Qed.

Definition brace_step (c : char) : Z :=
  if c =? OPEN then 1 else if c =? CLOSE then -1 else 0.

Lemma balance_cons c s : balance (c :: s) = brace_step c + balance s.
Proof. done. Qed.

Lemma brace_step_open : brace_step OPEN = 1.
Proof. done. Qed.

Lemma brace_step_close : brace_step CLOSE = -1.
Proof. done. Qed.

Lemma brace_step_other c : c <> OPEN -> c <> CLOSE -> brace_step c = 0.
Proof.
  intros. unfold brace_step. by rewrite !(proj2 (Z.eqb_neq _ _)) by done.
Qed.

(** At depth [d], byte [i]: the brace closing the block is the one at byte [n]. *)
Definition closes_at (i : nat) (d : Z) (s : str) (n : nat) : Prop :=
  exists a b, s = a ++ CLOSE :: b /\ n = (i + str_len a)%nat /\ d + balance a = 1
  /\ forall p, p `prefix_of` a -> 1 <= d + balance p.

Lemma closes_at_step i d c s n :
  1 <= d -> ~ (c = CLOSE /\ d = 1) ->
  closes_at (i + len_utf8 c) (d + brace_step c) s n <-> closes_at i d (c :: s) n.
Proof.
  intros Hd Hc. split.
  - intros (a & b & -> & -> & Hb & Hp). exists (c :: a), b.
    rewrite str_len_cons, prefix_cons_cases, balance_cons.
    repeat split; [lia|lia|cbn; lia|]. intros p Hpp. specialize (Hp p Hpp).
    rewrite balance_cons. lia.
  - intros ([|x a] & b & Heq & -> & Hb & Hp).
    { injection Heq as -> _. cbn in Hb. destruct Hc. split; [done|lia]. }
    injection Heq as <- ->. rewrite prefix_cons_cases in Hp. destruct Hp as [_ Hp].
    exists a, b. rewrite str_len_cons. rewrite balance_cons in Hb.
    repeat split; [lia|lia|]. intros p Hpp. specialize (Hp p Hpp).
    rewrite balance_cons in Hp. lia.
Qed.

Lemma closes_at_here i s n : closes_at i 1 (CLOSE :: s) n <-> n = i.
Proof.
  split.
  - intros ([|x a] & b & Heq & -> & Hb & Hp); [cbn; lia|].
    injection Heq as <- ->. rewrite prefix_cons_cases in Hp. destruct Hp as [_ Hp].
    specialize (Hp [] (prefix_nil _)). rewrite balance_cons, brace_step_close in Hp.
    cbn [balance] in Hp. lia.
  - intros ->. exists [], s. cbn. repeat split; [lia|]. intros p ->%prefix_nil_inv. cbn. lia.
Qed.

Lemma match_brace_go_spec s : forall i d n,
  1 <= d -> d + Z.of_nat (length s) < 2 ^ 31 ->
  match_brace_go i d s = Some n <-> closes_at i d s n.
Proof.
  induction s as [|c s IH]; intros i d n Hd Hl; cbn [match_brace_go].
  { split; [done|]. intros (a & b & H & _). by destruct a. }
  cbn [length] in Hl. destruct (Z.eqb_spec c OPEN) as [->|Hop].
  { rewrite i32_id, IH, <- closes_at_step by (lia || by intros [? ?]). done. }
  destruct (Z.eqb_spec c CLOSE) as [->|Hcl].
  - rewrite i32_id by lia. destruct (Z.eqb_spec (d - 1) 0) as [Hz|Hz].
    + replace d with 1 by lia. rewrite closes_at_here. naive_solver.
    + rewrite IH, <- closes_at_step by (lia || (intros [? ?]; lia)). done.
  - rewrite IH, <- closes_at_step by (lia || by intros [? ?]).
    by rewrite brace_step_other, Z.add_0_r.
Qed.

Lemma match_brace_open s :
  match_brace (OPEN :: s) = match_brace_go 1 1 s.
Proof. done. Qed.

(** Nothing is matched before a brace is opened. *)
Lemma match_brace_go_None s : forall i d,
  d <= 0 -> - 2 ^ 31 <= d - Z.of_nat (length s) -> OPEN ∉ s -> match_brace_go i d s = None.
Proof.
  induction s as [|c s IH]; intros i d Hd Hl Hno; [done|].
  apply not_elem_of_cons in Hno as [Hc Hno]. cbn [length] in Hl. cbn.
  rewrite (proj2 (Z.eqb_neq c OPEN)) by done. case_match; [|apply IH; [lia|lia|done]].
  rewrite i32_id by lia. rewrite (proj2 (Z.eqb_neq _ _)) by lia. apply IH; [lia|lia|done].
Qed.

Lemma bracketed_no_braces s : OPEN ∉ s -> CLOSE ∉ s -> bracketed s.
Proof.
  intros Ho Hc. assert (forall p, p `prefix_of` s -> balance p = 0) as H.
  { induction s as [|c s IH]; [by intros p ->%prefix_nil_inv|].
    apply not_elem_of_cons in Ho as [Ho Hos], Hc as [Hc Hcs].
    apply prefix_cons_cases. split; [done|]. intros p Hp. cbn.
    rewrite (proj2 (Z.eqb_neq c OPEN)), (proj2 (Z.eqb_neq c CLOSE)) by done.
    by apply IH. }
  split; [by apply H|]. intros p Hp. by rewrite H.
Qed.

Lemma balance_app a b : balance (a ++ b) = balance a + balance b.
Proof. induction a as [|c a IH]; cbn; lia. Qed.

(** A prefix of [a ++ b] is a prefix of [a] or [a] followed by a prefix of [b]. *)
Lemma prefix_app_cases p a b :
  p `prefix_of` a ++ b -> p `prefix_of` a \/ exists q, p = a ++ q /\ q `prefix_of` b.
Proof.
  revert p. induction a as [|x a IH]; intros p Hp; [right; by exists p|].
  destruct p as [|y p]; [left; apply prefix_nil|].
  pose proof (prefix_cons_inv_1 _ _ _ _ Hp) as ->.
  apply prefix_cons_inv_2, IH in Hp as [Hp|(q & -> & Hq)].
  - left. by apply prefix_cons.
  - right. by exists q.
Qed.

Lemma bracketed_app a b : bracketed a -> bracketed b -> bracketed (a ++ b).
Proof.
  intros [Ha Pa] [Hb Pb]. split; [rewrite balance_app; lia|].
  intros p [Hp|(q & -> & Hq)]%prefix_app_cases; [auto|].
  rewrite balance_app, Ha. by apply Pb.
Qed.

Lemma bracketed_block a : bracketed a -> bracketed (OPEN :: a ++ [CLOSE]).
Proof.
  intros [Ha Pa]. assert (balance [CLOSE] = -1) as Hc by done.
  split; [rewrite balance_cons, brace_step_open, balance_app; lia|].
  apply prefix_cons_cases. split; [done|]. intros p Hp.
  rewrite balance_cons, brace_step_open.
  apply prefix_app_cases in Hp as [Hp|(q & -> & Hq)]; [specialize (Pa p Hp); lia|].
  rewrite balance_app, Ha. destruct q as [|x q]; [cbn [balance]; lia|].
  pose proof (prefix_cons_inv_1 _ _ _ _ Hq) as ->.
  apply prefix_cons_inv_2, prefix_nil_inv in Hq as ->. lia.
Qed.

(** A text can be checked from left to right, at depth [d]. *)
Fixpoint brackets (d : Z) (s : str) : bool :=
  match s with
  | [] => d =? 0
  | c :: s => (0 <=? d + brace_step c) && brackets (d + brace_step c) s
  end.

Lemma brackets_spec s : forall d,
  0 <= d -> brackets d s = true <-> d + balance s = 0 /\ forall p, p `prefix_of` s -> 0 <= d + balance p.
Proof.
  induction s as [|c s IH]; intros d Hd; cbn [brackets].
  - rewrite Z.eqb_eq. cbn. split; [|lia]. intros ->. split; [done|]. intros p ->%prefix_nil_inv. cbn. lia.
  - rewrite andb_true_iff, Z.leb_le, prefix_cons_cases, balance_cons. split.
    + intros [Hc H]. apply IH in H as [Hb Hp]; [|done]. split; [lia|]. split; [cbn; lia|].
      intros p Hpp. rewrite balance_cons. specialize (Hp p Hpp). lia.
    + intros (Hb & _ & Hp). assert (Hc : 0 <= d + brace_step c).
      { specialize (Hp [] (prefix_nil _)). rewrite balance_cons in Hp. cbn in Hp. lia. }
      split; [done|]. apply IH; [done|]. split; [lia|]. intros p Hpp. specialize (Hp p Hpp).
      rewrite balance_cons in Hp. lia.
Qed.

#[export] Instance bracketed_dec s : Decision (bracketed s).
Proof.
  refine (cast_if (decide (brackets 0 s = true))); [by apply brackets_spec in e|].
  abstract (intros H; apply n; by apply brackets_spec).
Defined.
End Braces.

(** For a text that opens with a brace, [match_brace] finds the closing brace
    that belongs to it: the text in between is well bracketed, and whenever the
    text has such a block its end is the answer. *)
Theorem match_brace_exact (s : str) (n : nat) (Hlen : Z.of_nat (length s) + 1 < 2 ^ 31) :
  match_brace (OPEN :: s) = Some n <->
  exists body rest, s = body ++ CLOSE :: rest /\ n = S (str_len body) /\ bracketed body.
Proof.
  rewrite match_brace_open, match_brace_go_spec by lia. unfold closes_at, bracketed.
  split; intros (a & b & -> & -> & Hb & Hp); exists a, b; repeat split; try lia;
    intros p Hpp; specialize (Hp p Hpp); lia.
Qed.

Theorem match_brace_exact_witness :
  match_brace (lit "{a{b}c}d") = Some 6%nat <->
  exists body rest, lit "a{b}c}d" = body ++ CLOSE :: rest /\ 6%nat = S (str_len body)
                    /\ bracketed body.
Proof. apply (match_brace_exact (lit "a{b}c}d") 6). vm_compute. reflexivity. Defined.

(** ** Conditions *)

Section Conditions.
Implicit Types cond url host rest : str.

Lemma eval_cond_ret cond url host : exists b, eval_cond cond url host = Ret b.
Proof.
  unfold eval_cond. repeat case_match; eauto;
    match goal with |- context [glob_match ?p ?s] =>
    destruct (glob_match_decides p s) as (r & -> & _); eauto end.
Qed.

Lemma strip_prefix_app p s : strip_prefix p (p ++ s) = Some s.
Proof. induction p as [|c p IH]; [done|]. cbn. by rewrite Z.eqb_refl. Qed.

Lemma starts_with_app p s : starts_with p (p ++ s) = true.
Proof. unfold starts_with. rewrite strip_prefix_app. by apply bool_decide_eq_true_2. Qed.

Lemma strip_prefix_head_ne a p b s : a <> b -> strip_prefix (a :: p) (b :: s) = None.
Proof. intros H. cbn. by rewrite (proj2 (Z.eqb_neq a b)). Qed.

Lemma starts_with_head_ne a p b s : a <> b -> starts_with (a :: p) (b :: s) = false.
Proof.
  intros H. unfold starts_with. rewrite strip_prefix_head_ne by done.
  apply bool_decide_eq_false_2. by intros [? [=]].
Qed.

(** Trimming at the end keeps a first character that is not trimmed. *)
Lemma drop_while_end_cons P c s :
  P c = false -> drop_while_end P (c :: s) = c :: drop_while_end P s.
Proof.
  intros Hc. induction s as [|x s IH] using rev_ind.
  { change [c] with ([] ++ [c]). rewrite drop_while_end_snoc, Hc. done. }
  change (c :: s ++ [x]) with ((c :: s) ++ [x]).
  rewrite !drop_while_end_snoc. destruct (P x); [apply IH|done].
Qed.

Lemma trim_cons c s : is_whitespace c = false -> trim (c :: s) = c :: trim_end s.
Proof.
  intros Hc. unfold trim, trim_start, trim_end. cbn. rewrite Hc.
  by apply drop_while_end_cons.
Qed.

(** The condition text after [eval_cond]'s trimming. *)
Definition cond_text cond : str := trim (trim_end_matches OPEN (trim cond)).

Lemma cond_text_cons c s :
  is_whitespace c = false -> c <> OPEN -> exists t, cond_text (c :: s) = c :: t.
Proof.
  intros Hw Ho. unfold cond_text. rewrite trim_cons by done.
  unfold trim_end_matches. rewrite drop_while_end_cons.
  - rewrite trim_cons by done. eauto.
  - apply Z.eqb_neq. congruence.
Qed.

(** A well-delimited condition is kept as it is. *)
Lemma cond_text_call c s :
  is_whitespace c = false -> c <> OPEN ->
  cond_text (c :: s ++ lit ")") = c :: s ++ lit ")".
Proof.
  intros Hw Ho. unfold cond_text. change (lit ")") with [ch ")"].
  assert (trim (c :: s ++ [ch ")"]) = c :: s ++ [ch ")"]) as Ht.
  { rewrite trim_cons by done. unfold trim_end. by rewrite drop_while_end_snoc. }
  rewrite Ht. unfold trim_end_matches.
  change (c :: s ++ [ch ")"]) with ((c :: s) ++ [ch ")"]).
  by rewrite drop_while_end_snoc.
Qed.

(** A call's second argument, written as a quoted string after a comma. *)
Definition quoted_arg d : str := lit " " ++ [QUOTE] ++ d ++ [QUOTE].

Lemma call_parts a d :
  ch "," ∉ a -> ch "," ∉ d ->
  split (ch ",") (trim_end_matches (ch ")") (a ++ lit "," ++ quoted_arg d ++ lit ")"))
  = [a; quoted_arg d].
Proof.
  intros Ha Hd. unfold quoted_arg, trim_end_matches.
  change (lit ")") with [ch ")"].
  rewrite !app_assoc, drop_while_end_snoc, Z.eqb_refl, drop_while_end_snoc.
  rewrite (proj2 (Z.eqb_neq (ch ")") QUOTE)) by done. rewrite <- !app_assoc.
  change (lit "," ++ ?r) with (ch "," :: r). rewrite split_app by done. f_equal.
  apply split_no_sep. intros Hin. rewrite !elem_of_app in Hin.
  destruct Hin as [Hin|[Hin|[Hin|Hin]]]; [|by apply list_elem_of_singleton in Hin|done|];
    by apply list_elem_of_singleton in Hin.
Qed.

Lemma quoted_arg_value d :
  QUOTE ∉ d -> trim_matches QUOTE (trim (quoted_arg d)) = d.
Proof.
  intros Hd. unfold quoted_arg. replace (trim _) with (QUOTE :: d ++ [QUOTE]).
  - by apply trim_matches_quoted.
  - change (trim (lit " " ++ [QUOTE] ++ d ++ [QUOTE])) with (trim (QUOTE :: d ++ [QUOTE])).
    rewrite trim_cons by done. f_equal. unfold trim_end. by rewrite drop_while_end_snoc.
Qed.
End Conditions.

(** [dnsDomainIs(x, "d")] holds exactly when the host being resolved ends
    with [d], whatever the first argument is. *)
Theorem eval_dnsDomainIs (a d url host : str)
    (Ha : ch "," ∉ a) (Hd : ch "," ∉ d) (Hq : QUOTE ∉ d) :
  eval_cond (lit "dnsDomainIs(" ++ a ++ lit "," ++ quoted_arg d ++ lit ")") url host
  = Ret (ends_with d host).
Proof.
  pose proof (cond_text_call (ch "d") (lit "nsDomainIs(" ++ a ++ lit "," ++ quoted_arg d)
    eq_refl ltac:(done)) as Ht.
  unfold eval_cond. unfold cond_text in Ht. rewrite <- !app_assoc in Ht.
  change (lit "dnsDomainIs(" ++ ?r) with (ch "d" :: lit "nsDomainIs(" ++ r).
  rewrite Ht. change (ch "d" :: lit "nsDomainIs(" ++ ?r) with (lit "dnsDomainIs(" ++ r).
  rewrite strip_prefix_app, call_parts by done. cbn [length Nat.leb nth].
  rewrite quoted_arg_value by done. reflexivity.
Qed.

Theorem eval_dnsDomainIs_witness :
  ends_with (lit ".corp.example") (lit "api.corp.example") = true /\
  eval_cond (lit "dnsDomainIs(" ++ lit "host" ++ lit "," ++ quoted_arg (lit ".corp.example")
             ++ lit ")") [] (lit "api.corp.example")
  = Ret (ends_with (lit ".corp.example") (lit "api.corp.example")).
Proof.
  split; [vm_compute; reflexivity|].
  apply eval_dnsDomainIs; by_eval.
Defined.

(** [shExpMatch(x, "g")] matches the text of its first argument as written in
    the script against the glob [g]; neither the URL nor the host being resolved
    plays a role. *)
Theorem eval_shExpMatch (a g url host : str)
    (Ha : ch "," ∉ a) (Hg : ch "," ∉ g) (Hq : QUOTE ∉ g) :
  exists b,
    eval_cond (lit "shExpMatch(" ++ a ++ lit "," ++ quoted_arg g ++ lit ")") url host = Ret b
    /\ (b = true <-> Glob g (trim_matches QUOTE (trim a))).
Proof.
  destruct (glob_match_decides g (trim_matches QUOTE (trim a))) as (b & Hb & Hiff).
  exists b. split; [|done]. rewrite <- Hb.
  pose proof (cond_text_call (ch "s") (lit "hExpMatch(" ++ a ++ lit "," ++ quoted_arg g)
    eq_refl ltac:(done)) as Ht.
  unfold eval_cond. unfold cond_text in Ht. rewrite <- !app_assoc in Ht.
  change (lit "shExpMatch(" ++ ?r) with (ch "s" :: lit "hExpMatch(" ++ r).
  rewrite Ht. change (ch "s" :: lit "hExpMatch(" ++ ?r) with (lit "shExpMatch(" ++ r).
  rewrite strip_prefix_app, call_parts by done. cbn [length Nat.leb nth].
  rewrite quoted_arg_value by done. reflexivity.
Qed.

Theorem eval_shExpMatch_witness :
  exists b,
    eval_cond (lit "shExpMatch(" ++ lit "host" ++ lit "," ++ quoted_arg (lit "*.example")
               ++ lit ")") (lit "http://api.example/") (lit "api.example") = Ret b
    /\ (b = true <-> Glob (lit "*.example") (trim_matches QUOTE (trim (lit "host")))).
Proof. apply eval_shExpMatch; by_eval. Defined.

(** A condition that still carries the parentheses of an [if (...)] statement
    is false, for every URL and host. *)
Theorem eval_cond_parenthesised (cond url host : str) :
  eval_cond (ch "(" :: cond) url host = Ret false.
Proof.
  unfold eval_cond. destruct (cond_text_cons (ch "(") cond) as [t Ht]; [done|done|].
  unfold cond_text in Ht. rewrite Ht. reflexivity.
Qed.

(** Only [dnsDomainIs] looks at the host: every other condition, the plain
    host name test included, has the same value for all URLs and hosts. *)
Theorem eval_cond_ignores_host (cond url1 host1 url2 host2 : str)
    (H : strip_prefix (lit "dnsDomainIs(") (cond_text cond) = None) :
  eval_cond cond url1 host1 = eval_cond cond url2 host2.
Proof. unfold eval_cond. unfold cond_text in H. by rewrite !H. Qed.

Theorem eval_cond_ignores_host_witness :
  eval_cond (lit "isPlainHostName(host)") [] (lit "intranet")
  = eval_cond (lit "isPlainHostName(host)") [] (lit "www.example.com").
Proof. apply eval_cond_ignores_host. vm_compute. reflexivity. Defined.

(** ** The interpreter always answers *)

Section Totality.
Implicit Types (s body url host : str) (l : option str).

Lemma calm_eval_cond cond url host : calm (eval_cond cond url host).
Proof. left. apply eval_cond_ret. Qed.

Lemma calm_return_value s : calm (return_value s).
Proof. unfold return_value. calm_tac. Qed.

Lemma calm_block_value s l : calm (block_value s l).
Proof. unfold block_value. calm_tac. Qed.

Lemma calm_pac_round body url host pos l : calm (pac_round body url host pos l).
Proof.
  unfold pac_round, pac_stmt. calm_tac;
    auto using calm_return_value, calm_eval_cond, calm_block_value.
Qed.

Lemma return_value_consumes s v n : return_value s = Ret (v, n) -> (str_len RETURN <= n)%nat.
Proof.
  unfold return_value. generalize (str_len RETURN) as k. intros k.
  intros (tail & _ & H)%outcome_bind_inv.
  apply outcome_bind_inv in H as (after & _ & H).
  repeat first
    [ progress (repeat case_match; simplify_eq/=)
    | apply outcome_bind_inv in H as (? & _ & H) ]; lia.
Qed.

(** Every round that goes on moves forward. *)
Lemma pac_round_progress body url host pos l pos' l' :
  pac_round body url host pos l = Ret (Next pos' l') -> (pos < pos')%nat.
Proof.
  unfold pac_round, pac_stmt. intros (rest & _ & H)%outcome_bind_inv. case_match.
  { apply outcome_bind_inv in H as ([v n] & Hv & H). simplify_eq.
    apply return_value_consumes in Hv. change (str_len RETURN) with 7%nat in Hv. lia. }
  case_match.
  - case_match; [|done]. apply outcome_bind_inv in H as (? & _ & H).
    apply outcome_bind_inv in H as (? & _ & H). apply outcome_bind_inv in H as (? & _ & H).
    case_match; [|done]. apply outcome_bind_inv in H as (? & _ & H). simplify_eq. lia.
  - apply outcome_bind_inv in H as (? & _ & H). case_match; [|done]. simplify_eq. lia.
Qed.

Lemma calm_pac_loop fuel body url host : forall pos l,
  (str_len body - pos < fuel)%nat -> calm (pac_loop fuel body url host pos l).
Proof.
  induction fuel as [|fuel IH]; intros pos l Hf; [lia|]. cbn [pac_loop].
  destruct (Nat.ltb_spec pos (str_len body)) as [Hlt|Hge]; [|apply calm_ret].
  destruct (calm_pac_round body url host pos l) as [[r Hr]|Hr]; rewrite Hr; [|by right].
  cbn. destruct r as [pos' l'|l'|]; [|apply calm_ret|apply calm_ret].
  apply pac_round_progress in Hr. apply IH. lia.
Qed.
End Totality.

(** C25: evaluating a PAC script terminates on every input: it yields a rule, no
    rule, or a panic on a slice, and never runs out of the loop's fuel. *)
Theorem evaluate_minimal_terminates (src url host : str) :
  (exists r, evaluate_minimal src url host = Ret r)
  \/ evaluate_minimal src url host = Panicked.
Proof.
  fold (calm (evaluate_minimal src url host)). unfold evaluate_minimal.
  calm_tac. apply calm_pac_loop. lia.
Qed.

(** ** Scripts with a given body *)

Definition pac_script (body : str) : str :=
  lit "function FindProxyForURL(url, host) " ++ OPEN :: body ++ [CLOSE].

Section Scripts.
Implicit Types (s body url host v ws : str) (l : option str).

Lemma unwrap_some {A} (o : option A) a : o = Some a -> unwrap o = Ret a.
Proof. by intros ->. Qed.

(** Dropping the brace in front of a block. *)
Lemma slice_block body r : slice 1 (1 + str_len body) (OPEN :: body ++ r) = Some body.
Proof. apply (slice_middle [OPEN] body r). Qed.

Lemma evaluate_minimal_script body url host :
  bracketed body -> Z.of_nat (length body) < 2 ^ 31 - 8 ->
  evaluate_minimal (pac_script body) url host
  = pac_loop (S (str_len body)) body url host 0 None.
Proof.
  intros [Hb Hp] Hl. unfold evaluate_minimal, pac_script.
  change (lit "function FindProxyForURL(url, host) ")
    with (lit "function " ++ MARKER ++ lit "(url, host) ").
  rewrite <- app_assoc.
  change (find_str MARKER _) with (Some (str_len (lit "function "))). cbn match.
  rewrite slice_from_app. cbn [unwrap mbind outcome_bind].
  rewrite <- app_assoc, app_assoc, find_char_app by
    by_eval.
  rewrite slice_from_skip, slice_from_app. cbn [unwrap mbind outcome_bind].
  replace (match_brace (OPEN :: body ++ [CLOSE])) with (Some (1 + str_len body)%nat).
  - by rewrite slice_block.
  - symmetry. rewrite match_brace_open, match_brace_go_spec.
    + exists body, []. repeat split; [lia|]. intros p Hpp. specialize (Hp p Hpp). lia.
    + lia.
    + rewrite length_app. cbn [length]. lia.
Qed.

(** A round that starts at the text [ws ++ s]. *)
Lemma pac_round_at a ws s url host l :
  Forall (fun c => is_whitespace c = true) ws ->
  (forall c, head s = Some c -> is_whitespace c = false) ->
  pac_round (a ++ ws ++ s) url host (str_len a) l
  = pac_stmt (a ++ ws ++ s) url host (str_len (a ++ ws)) (str_len ws) s l.
Proof.
  intros Hw Hs. unfold pac_round. rewrite slice_from_app. cbn [unwrap mbind outcome_bind].
  rewrite trim_start_head, !str_len_app by done.
  by replace (str_len ws + str_len s - str_len s)%nat with (str_len ws) by lia.
Qed.

Definition return_stmt v : str := RETURN ++ [QUOTE] ++ v ++ [QUOTE; SEMI].

Lemma return_value_quoted v r :
  QUOTE ∉ v ->
  return_value (return_stmt v ++ r) = Ret (v, str_len (RETURN ++ [QUOTE] ++ v)).
Proof.
  intros Hv. unfold return_value, return_stmt. rewrite <- !app_assoc, slice_from_app.
  cbn [unwrap mbind outcome_bind]. set (q := [QUOTE] ++ v ++ [QUOTE; SEMI] ++ r).
  assert (trim_start q = q) as -> by by apply drop_while_id; intros ? [= <-].
  rewrite Nat.sub_diag, Nat.add_0_r, slice_from_app.
  cbn [unwrap mbind outcome_bind]. subst q. rewrite starts_with_app.
  change 1%nat with (str_len [QUOTE]) at 1.
  rewrite (slice_from_app [QUOTE]). cbn [unwrap mbind outcome_bind].
  change ([QUOTE; SEMI] ++ r) with (QUOTE :: SEMI :: r).
  rewrite find_char_app by done.
  change 1%nat with (str_len [QUOTE]).
  rewrite slice_middle. cbn [unwrap mbind outcome_bind].
  rewrite slice_from_skip, slice_from_app.
  cbn [unwrap mbind outcome_bind]. rewrite !str_len_app. do 2 f_equal.
  replace (semi_scan 0 (QUOTE :: SEMI :: r) _) with 0%nat by done. lia.
Qed.

Lemma pac_stmt_return body url host pos skipped v r l :
  QUOTE ∉ v ->
  pac_stmt body url host pos skipped (return_stmt v ++ r) l
  = Ret (Next (pos + str_len (RETURN ++ [QUOTE] ++ v)) (Some v)).
Proof.
  intros Hv. unfold pac_stmt. replace (starts_with RETURN _) with true.
  - by rewrite return_value_quoted.
  - unfold return_stmt. by rewrite <- app_assoc, starts_with_app.
Qed.

(** The closing quote and the semicolon left over by [return_value] are skipped. *)
Lemma pac_round_leftover a r url host l :
  pac_round (a ++ [QUOTE; SEMI] ++ r) url host (str_len a) l
  = Ret (Next (str_len (a ++ [QUOTE; SEMI])) l).
Proof.
  change (a ++ [QUOTE; SEMI] ++ r) with (a ++ [] ++ (QUOTE :: SEMI :: r)).
  rewrite pac_round_at by (done || intros ? [= <-]; done).
  rewrite app_nil_r, app_nil_l. unfold pac_stmt.
  replace (starts_with RETURN _) with false by done.
  replace (starts_with IF _) with false by done.
  rewrite slice_from_app. cbn [unwrap mbind outcome_bind].
  change (QUOTE :: SEMI :: r) with ([QUOTE] ++ SEMI :: r).
  rewrite find_char_app by by_eval.
  rewrite str_len_app. done.
Qed.

Lemma pac_loop_S fuel body url host pos l :
  pac_loop (S fuel) body url host pos l =
  if (pos <? str_len body)%nat then
  r ← pac_round body url host pos l;
  match r with
  | Next pos last_return => pac_loop fuel body url host pos last_return
  | Break last_return => Ret last_return
  | ReturnNone => Ret None
  end
  else Ret l.
Proof. done. Qed.

Lemma pac_loop_more fuel a b url host l :
  b <> [] ->
  pac_loop (S fuel) (a ++ b) url host (str_len a) l =
  r ← pac_round (a ++ b) url host (str_len a) l;
  match r with
  | Next pos last_return => pac_loop fuel (a ++ b) url host pos last_return
  | Break last_return => Ret last_return
  | ReturnNone => Ret None
  end.
Proof.
  intros Hb. rewrite pac_loop_S. rewrite (proj2 (Nat.ltb_lt _ _)); [done|].
  rewrite str_len_app. destruct b as [|c b]; [done|]. pose proof (str_len_pos c b). lia.
Qed.

Lemma pac_loop_end fuel a url host l :
  (0 < fuel)%nat -> pac_loop fuel a url host (str_len a) l = Ret l.
Proof. intros. destruct fuel; [lia|]. rewrite pac_loop_S. by rewrite Nat.ltb_irrefl. Qed.
End Scripts.

(** A straight-line body: [return] statements, each behind some white space. *)
Fixpoint returns (stmts : list (str * str)) : str :=
  match stmts with
  | [] => []
  | (ws, v) :: stmts => ws ++ return_stmt v ++ returns stmts
  end.

Definition quotable (v : str) : Prop := (QUOTE ∉ v) /\ (OPEN ∉ v) /\ (CLOSE ∉ v).
Definition blank (ws : str) : Prop := Forall (fun c => is_whitespace c = true) ws.
#[export] Instance blank_dec ws : Decision (blank ws) := _.
#[export] Instance quotable_dec v : Decision (quotable v) := _.

Section StraightLine.
Context (url host : str).

Lemma pac_loop_returns stmts : forall done fuel l,
  Forall (fun '(ws, v) => blank ws /\ quotable v) stmts ->
  (str_len (returns stmts) < fuel)%nat ->
  pac_loop fuel (done ++ returns stmts) url host (str_len done) l
  = Ret (match last stmts with Some (_, v) => Some v | None => l end).
Proof.
  induction stmts as [|[ws v] stmts IH]; intros dn fuel l Hs Hf.
  { rewrite app_nil_r, pac_loop_end; [done|lia]. }
  inv Hs. destruct H1 as [Hw (Hq & _ & _)]. cbn [returns] in *.
  assert (forall t, return_stmt v ++ t <> []) as Hne by done.
  rewrite !str_len_app in Hf. unfold return_stmt in Hf. rewrite !str_len_app in Hf.
  change (str_len RETURN) with 7%nat in Hf. change (str_len [QUOTE]) with 1%nat in Hf.
  change (str_len [QUOTE; SEMI]) with 2%nat in Hf.
  destruct fuel as [|[|fuel]]; [lia|lia|].
  rewrite pac_loop_more by (intros [_ ?]%app_eq_nil; by apply (Hne (returns stmts))).
  rewrite pac_round_at by (done || intros ? [= <-]; done).
  rewrite pac_stmt_return by done. cbn [mbind outcome_bind].
  set (mid := dn ++ ws ++ RETURN ++ [QUOTE] ++ v).
  replace (str_len (dn ++ ws) + str_len (RETURN ++ [QUOTE] ++ v))%nat with (str_len mid)
    by (subst mid; rewrite !str_len_app; lia).
  replace (dn ++ ws ++ return_stmt v ++ returns stmts)
    with (mid ++ [QUOTE; SEMI] ++ returns stmts)
    by (subst mid; unfold return_stmt; by rewrite <- !app_assoc).
  rewrite pac_loop_more, pac_round_leftover by done. cbn [mbind outcome_bind].
  rewrite app_assoc, IH by (done || lia).
  rewrite last_cons. by destruct (last stmts) as [[]|].
Qed.

Lemma bracketed_returns stmts :
  Forall (fun '(ws, v) => blank ws /\ quotable v) stmts -> bracketed (returns stmts).
Proof.
  induction 1 as [|[ws v] stmts [Hw (_ & Ho & Hc)] _ IH]; [apply bracketed_no_braces; apply not_elem_of_nil|].
  cbn [returns]. apply bracketed_app; [|apply bracketed_app; [|done]].
  - unfold blank in Hw. rewrite Forall_forall in Hw.
    apply bracketed_no_braces; intros Hin; by apply Hw in Hin.
  - apply bracketed_no_braces; unfold return_stmt; rewrite !not_elem_of_app;
      repeat split; try done; by_eval.
Qed.
End StraightLine.

(** On a body that is a sequence of [return "v";] statements the interpreter
    yields the value of the last one (and no rule when there is none): a
    [return] does not stop it. *)
Theorem evaluate_straight_line (stmts : list (str * str)) (url host : str)
    (Hs : Forall (fun '(ws, v) => blank ws /\ quotable v) stmts)
    (Hl : Z.of_nat (length (returns stmts)) < 2 ^ 31 - 8) :
  evaluate_minimal (pac_script (returns stmts)) url host = Ret (snd <$> last stmts).
Proof.
  rewrite evaluate_minimal_script by auto using bracketed_returns.
  pose proof (pac_loop_returns url host stmts [] _ None Hs (Nat.lt_succ_diag_r _)) as H.
  cbn [app] in H. change (str_len []) with 0%nat in H. rewrite H.
  by destruct (last stmts) as [[]|].
Qed.

Theorem evaluate_straight_line_witness :
  evaluate_minimal (pac_script (returns [(lit "  ", lit "PROXY a:80"); (lit " ", lit "DIRECT")]))
    [] (lit "h") = Ret (Some (lit "DIRECT")).
Proof.
  apply (evaluate_straight_line [(lit "  ", lit "PROXY a:80"); (lit " ", lit "DIRECT")]).
  - repeat constructor; by_eval.
  - vm_compute. reflexivity.
Defined.

(** ** [if] statements *)

Definition if_stmt (cond blk : str) : str := IF ++ cond ++ OPEN :: blk ++ [CLOSE].

Section IfStatements.
Context (url host : str).
Implicit Types (a cond blk ws v : str) (l : option str).

Lemma bracketed_if cond blk :
  OPEN ∉ cond -> CLOSE ∉ cond -> bracketed blk -> bracketed (if_stmt cond blk).
Proof.
  intros Ho Hc Hb. apply bracketed_app; [apply bracketed_no_braces; by_eval|].
  apply bracketed_app; [by apply bracketed_no_braces|]. by apply bracketed_block.
Qed.

Lemma bracketed_blank ws : blank ws -> bracketed ws.
Proof.
  unfold blank. intros Hw. rewrite Forall_forall in Hw.
  apply bracketed_no_braces; intros Hin; by apply Hw in Hin.
Qed.

Lemma find_str_after_blank ws s :
  blank ws -> find_str RETURN (ws ++ RETURN ++ s) = Some (str_len ws).
Proof.
  unfold find_str. intros Hw. induction Hw as [|c ws Hc Hw IH].
  { change (find_at (starts_with RETURN) ([] ++ RETURN ++ s))
      with (if starts_with RETURN (RETURN ++ s) then Some 0%nat else
      match RETURN ++ s with [] => None | c :: r =>
      (fun n => (len_utf8 c + n)%nat) <$> find_at (starts_with RETURN) r end).
    by rewrite starts_with_app. }
  cbn [app find_at]. replace (starts_with RETURN (c :: _)) with false.
  - by rewrite IH.
  - symmetry. apply starts_with_head_ne. by intros <-.
Qed.

Lemma block_value_return ws v l :
  blank ws -> QUOTE ∉ v -> block_value (ws ++ return_stmt v) l = Ret (Some v).
Proof.
  intros Hw Hq. unfold block_value, return_stmt.
  rewrite find_str_after_blank, slice_from_app by done. cbn [unwrap mbind outcome_bind].
  rewrite slice_from_app. cbn [unwrap mbind outcome_bind].
  assert (trim ([QUOTE] ++ v ++ [QUOTE; SEMI]) = [QUOTE] ++ v ++ [QUOTE; SEMI]) as ->.
  { change ([QUOTE] ++ v ++ [QUOTE; SEMI]) with (QUOTE :: v ++ [QUOTE; SEMI]).
    rewrite trim_cons by done. f_equal. change [QUOTE; SEMI] with ([QUOTE] ++ [SEMI]).
    rewrite app_assoc. unfold trim_end. by rewrite drop_while_end_snoc. }
  rewrite starts_with_app. change 1%nat with (str_len [QUOTE]) at 1.
  rewrite (slice_from_app [QUOTE]). cbn [unwrap mbind outcome_bind].
  change [QUOTE; SEMI] with (QUOTE :: [SEMI]). rewrite find_char_app by done.
  change 1%nat with (str_len [QUOTE]). rewrite slice_middle. done.
Qed.

Lemma find_open_if cond r :
  OPEN ∉ cond -> find_char OPEN (IF ++ cond ++ OPEN :: r) = Some (str_len (IF ++ cond)).
Proof.
  intros Ho. rewrite app_assoc. apply find_char_app. apply not_elem_of_app.
  split; [by_eval|done].
Qed.

Lemma match_brace_blk blk r :
  bracketed blk -> Z.of_nat (length (blk ++ CLOSE :: r)) < 2 ^ 31 - 1 ->
  match_brace (OPEN :: blk ++ CLOSE :: r) = Some (S (str_len blk)).
Proof.
  intros [Hb Hp] Hl. rewrite match_brace_open, match_brace_go_spec by lia.
  exists blk, r. repeat split; [lia|]. intros p Hpp. specialize (Hp p Hpp). lia.
Qed.

(** The statement at the head of [s = if cond { blk } r], at byte [str_len a],
    behind [str_len ws] bytes of white space. *)
Lemma pac_stmt_if body cond pos skipped r l :
  OPEN ∉ cond ->
  pac_stmt body url host pos skipped (IF ++ cond ++ OPEN :: r) l =
  matched ← eval_cond (trim cond) url host;
  block_with_brace ← unwrap (slice_from (pos + (skipped + str_len (IF ++ cond))) body);
  match match_brace block_with_brace with
  | None => Ret ReturnNone
  | Some close =>
      last_return ←
      (if (matched : bool)
      then block ← unwrap (slice 1 close block_with_brace); block_value block l
      else Ret l);
      Ret (Next (pos + (skipped + str_len (IF ++ cond)) + (close + 1)) last_return)
  end.
Proof.
  intros Ho. unfold pac_stmt.
  replace (starts_with RETURN _) with false by done. rewrite starts_with_app.
  rewrite find_open_if, str_len_app by done. rewrite slice_middle. done.
Qed.

(** The tail of a trimmed text that goes on after a non-blank character. *)
Lemma trim_end_keeps a c r : is_whitespace c = false -> exists r', trim_end (a ++ c :: r) = a ++ c :: r'.
Proof.
  intros Hc. unfold trim_end. induction r as [|x r (r' & IH)] using rev_ind.
  - exists []. by rewrite drop_while_end_snoc, Hc.
  - change (a ++ c :: r ++ [x]) with (a ++ (c :: r) ++ [x]). rewrite app_assoc, drop_while_end_snoc.
    destruct (is_whitespace x); [by exists r'|]. exists (r ++ [x]). by rewrite <- app_assoc.
Qed.

(** The first [return "v"] of a block is its value, wherever in the block it is. *)
Lemma block_value_first junk v rest l :
  find_str RETURN (junk ++ return_stmt v ++ rest) = Some (str_len junk) -> QUOTE ∉ v ->
  block_value (junk ++ return_stmt v ++ rest) l = Ret (Some v).
Proof.
  intros Hf Hq. unfold block_value. rewrite Hf, slice_from_app. cbn [unwrap mbind outcome_bind].
  unfold return_stmt. rewrite <- !app_assoc, slice_from_app. cbn [unwrap mbind outcome_bind].
  assert (Ht : exists r', trim ([QUOTE] ++ v ++ [QUOTE; SEMI] ++ rest) = [QUOTE] ++ v ++ QUOTE :: r').
  { change ([QUOTE] ++ v ++ [QUOTE; SEMI] ++ rest) with (QUOTE :: v ++ QUOTE :: (SEMI :: rest)).
    rewrite trim_cons by done. destruct (trim_end_keeps v QUOTE (SEMI :: rest) eq_refl) as (r' & ->). by exists r'. }
  destruct Ht as (r' & ->). rewrite starts_with_app. change 1%nat with (str_len [QUOTE]) at 1.
  rewrite (slice_from_app [QUOTE]). cbn [unwrap mbind outcome_bind].
  rewrite find_char_app by done. change 1%nat with (str_len [QUOTE]). by rewrite slice_middle.
Qed.

(** The first round on a body that starts with an [if]. *)
Lemma pac_loop_if fuel cond blk v tail :
  OPEN ∉ cond -> bracketed blk -> (forall l, block_value blk l = Ret (Some v)) ->
  Z.of_nat (length (if_stmt cond blk ++ tail)) < 2 ^ 31 - 8 ->
  pac_loop (S fuel) (if_stmt cond blk ++ tail) url host 0 None
  = (b ← eval_cond (trim cond) url host;
     pac_loop fuel (if_stmt cond blk ++ tail) url host (str_len (if_stmt cond blk))
       (if (b : bool) then Some v else None)).
Proof.
  intros Ho Hb Hv Hl. set (body := if_stmt cond blk ++ tail).
  assert (E : body = IF ++ cond ++ OPEN :: (blk ++ CLOSE :: tail)).
  { unfold body, if_stmt. by rewrite <- !app_assoc, <- app_comm_cons, <- app_assoc. }
  rewrite pac_loop_S, (proj2 (Nat.ltb_lt _ _)) by (rewrite E; apply str_len_pos).
  rewrite (pac_round_at [] [] body) by (done || (rewrite E; intros ? [= <-]; done)).
  destruct (eval_cond_ret (trim cond) url host) as [b Hb']. rewrite Hb'. cbn [mbind outcome_bind].
  change (str_len ([] ++ [])) with 0%nat. change (str_len []) with 0%nat. change ([] ++ [] ++ body) with body.
  rewrite E at 2. rewrite pac_stmt_if, Hb' by done. cbn [mbind outcome_bind].
  change (0 + (0 + ?k))%nat with k.
  replace (slice_from (str_len (IF ++ cond)) body) with (Some (OPEN :: blk ++ CLOSE :: tail))
    by (symmetry; rewrite E, app_assoc; apply slice_from_app). cbn [unwrap mbind outcome_bind].
  rewrite match_brace_blk; [|done|].
  2:{ unfold if_stmt in Hl. rewrite !length_app in *. cbn [length] in *. rewrite !length_app in *. cbn [length] in *. lia. }
  change (S (str_len blk)) with (1 + str_len blk)%nat at 1. rewrite slice_block.
  cbn [unwrap mbind outcome_bind]. rewrite Hv.
  replace (str_len (IF ++ cond) + (S _ + 1))%nat with (str_len (if_stmt cond blk)).
  2:{ unfold if_stmt. rewrite !str_len_app, !str_len_cons, !str_len_app.
      change (str_len [CLOSE]) with 1%nat. change (len_utf8 OPEN) with 1%nat. lia. }
  by destruct b.
Qed.

(** A round at text that is neither a [return] nor an [if] moves past the next
    semicolon, whatever it belongs to. *)
Lemma pac_round_other a ws c p r l :
  blank ws -> is_whitespace c = false -> starts_with RETURN (c :: p ++ SEMI :: r) = false ->
  starts_with IF (c :: p ++ SEMI :: r) = false -> SEMI ∉ c :: p ->
  pac_round (a ++ ws ++ (c :: p) ++ SEMI :: r) url host (str_len a) l
  = Ret (Next (str_len (a ++ ws ++ (c :: p) ++ [SEMI])) l).
Proof.
  intros Hw Hc Hr Hi Hs. rewrite pac_round_at by (done || (intros ? [= <-]; done)).
  unfold pac_stmt. cbn [app]. rewrite Hr, Hi. rewrite app_assoc, slice_from_app. cbn [unwrap mbind outcome_bind].
  rewrite app_comm_cons, find_char_app by done.
  rewrite !str_len_app, !str_len_cons, !str_len_app. change (str_len [SEMI]) with 1%nat. do 2 f_equal. lia.
Qed.

Lemma pac_round_break a ws c p l :
  blank ws -> is_whitespace c = false -> starts_with RETURN (c :: p) = false ->
  starts_with IF (c :: p) = false -> SEMI ∉ c :: p ->
  pac_round (a ++ ws ++ c :: p) url host (str_len a) l = Ret (Break l).
Proof.
  intros Hw Hc Hr Hi Hs. rewrite pac_round_at by (done || (intros ? [= <-]; done)).
  unfold pac_stmt. rewrite Hr, Hi. rewrite app_assoc, slice_from_app. cbn [unwrap mbind outcome_bind].
  by rewrite (proj2 (find_char_None _ _)).
Qed.
End IfStatements.

(** An [if] at the very start of the body, with a block that returns [v],
    gives [v] when its condition holds and no rule when it does not. *)
Theorem evaluate_if_block (cond ws v url host : str)
    (Ho : OPEN ∉ cond) (Hc : CLOSE ∉ cond) (Hw : blank ws) (Hv : quotable v)
    (Hl : Z.of_nat (length (if_stmt cond (ws ++ return_stmt v))) < 2 ^ 31 - 8) :
  evaluate_minimal (pac_script (if_stmt cond (ws ++ return_stmt v))) url host
  = (b ← eval_cond (trim cond) url host; Ret (if (b : bool) then Some v else None)).
Proof.
  assert (Hblk : bracketed (returns [(ws, v)]))
    by (apply bracketed_returns; constructor; [done|constructor]).
  cbn [returns] in Hblk. rewrite app_nil_r in Hblk.
  rewrite evaluate_minimal_script by (done || by apply bracketed_if).
  pose proof (pac_loop_if url host (str_len (if_stmt cond (ws ++ return_stmt v))) cond (ws ++ return_stmt v) v [])
    as E. rewrite app_nil_r in E. rewrite E; [|done|done| |done].
  2:{ intros l. by apply block_value_return; [|apply Hv]. }
  destruct (eval_cond _ _ _) as [b| | |]; cbn [mbind outcome_bind]; try done.
  by rewrite pac_loop_end by apply str_len_pos.
Qed.

Theorem evaluate_if_block_witness :
  evaluate_minimal
    (pac_script (if_stmt (lit "isPlainHostName(x) ") (lit " " ++ return_stmt (lit "DIRECT"))))
    [] (lit "www.example.com")
  = (b ← eval_cond (trim (lit "isPlainHostName(x) ")) [] (lit "www.example.com");
     Ret (if (b : bool) then Some (lit "DIRECT") else None)).
Proof. apply evaluate_if_block; by_eval. Defined.

(** [if (cond) {blk} else {alt;} rest]; [alt], [gap] and [rest] hold no other
    semicolon. *)
Definition else_script (cond blk w1 w2 alt gap rest : str) : str :=
  if_stmt cond blk ++ w1 ++ lit "else" ++ w2 ++ OPEN :: alt ++ SEMI :: gap ++ CLOSE :: rest.

Lemma bracketed_else cond blk w1 w2 alt gap rest :
  OPEN ∉ cond -> CLOSE ∉ cond -> blank w1 -> blank w2 -> blank gap ->
  bracketed blk -> bracketed alt -> bracketed rest ->
  bracketed (else_script cond blk w1 w2 alt gap (rest ++ [SEMI])).
Proof.
  intros. unfold else_script.
  replace (OPEN :: alt ++ SEMI :: gap ++ CLOSE :: rest ++ [SEMI])
    with ((OPEN :: (alt ++ [SEMI] ++ gap) ++ [CLOSE]) ++ rest ++ [SEMI])
    by (by rewrite <- !app_comm_cons, <- !app_assoc).
  assert (Hs : bracketed [SEMI]) by (apply bracketed_no_braces; by_eval).
  apply bracketed_app; [by apply bracketed_if|]. apply bracketed_app; [by apply bracketed_blank|].
  apply bracketed_app; [apply bracketed_no_braces; by_eval|]. apply bracketed_app; [by apply bracketed_blank|].
  apply bracketed_app; [|by apply bracketed_app]. apply bracketed_block, bracketed_app; [done|].
  apply bracketed_app; [done|by apply bracketed_blank].
Qed.

(** What follows the block of an [if] is lost.  The block's value is its first
    [return] in the text, under whatever inner condition; the [else] branch is
    passed over up to its semicolon, and the statement after it together with its
    closing brace: an [if]/[else] followed by a [return] gives the block's value or
    no rule, never a value of the other two. *)
Theorem evaluate_if_else (cond junk v after w1 w2 alt gap rest url host : str)
    (Ho : OPEN ∉ cond) (Hc : CLOSE ∉ cond)
    (Hb : bracketed (junk ++ return_stmt v ++ after))
    (Hfirst : find_str RETURN (junk ++ return_stmt v ++ after) = Some (str_len junk)) (Hq : QUOTE ∉ v)
    (Hw1 : blank w1) (Hw2 : blank w2) (Hgap : blank gap)
    (Halt : SEMI ∉ alt) (Hrest : SEMI ∉ rest) (Hba : bracketed alt) (Hbr : bracketed rest)
    (Hl : Z.of_nat (length (else_script cond (junk ++ return_stmt v ++ after) w1 w2 alt gap (rest ++ [SEMI])))
          < 2 ^ 31 - 8) :
  evaluate_minimal (pac_script
    (else_script cond (junk ++ return_stmt v ++ after) w1 w2 alt gap (rest ++ [SEMI]))) url host
  = (b ← eval_cond (trim cond) url host; Ret (if (b : bool) then Some v else None)).
Proof.
  set (blk := junk ++ return_stmt v ++ after) in *. set (a := if_stmt cond blk).
  set (p2 := lit "lse" ++ w2 ++ OPEN :: alt). set (t3 := gap ++ (CLOSE :: rest) ++ [SEMI]).
  assert (E : else_script cond blk w1 w2 alt gap (rest ++ [SEMI]) = a ++ w1 ++ (ch "e" :: p2) ++ SEMI :: t3).
  { unfold else_script, p2, t3. cbn [app]. by rewrite <- !app_assoc. }
  rewrite evaluate_minimal_script; [|by apply bracketed_else|done]. rewrite E in *.
  assert (Hn : exists n, str_len (a ++ w1 ++ (ch "e" :: p2) ++ SEMI :: t3) = S (S (S n))).
  { eexists. unfold a, if_stmt. change (IF ++ ?x) with (105 :: 102 :: 32 :: x). cbn [app]. reflexivity. }
  destruct Hn as [n ->]. rewrite (pac_loop_if url host _ cond blk v) by (done || (intros l; by apply block_value_first)).
  destruct (eval_cond (trim cond) url host) as [b| | |]; cbn [mbind outcome_bind]; try done.
  set (l := if b then Some v else None). fold a.
  rewrite pac_loop_more by (by destruct w1).
  rewrite pac_round_other; [|done|done|done|done|].
  2:{ unfold p2. rewrite not_elem_of_cons, !not_elem_of_app, not_elem_of_cons. split_and!; try done; [by_eval|].
      intros Hin. unfold blank in Hw2. rewrite Forall_forall in Hw2. by apply Hw2 in Hin. }
  cbn [mbind outcome_bind].
  assert (E3 : a ++ w1 ++ (ch "e" :: p2) ++ SEMI :: t3
    = (a ++ w1 ++ (ch "e" :: p2) ++ [SEMI]) ++ gap ++ (CLOSE :: rest) ++ SEMI :: []).
  { unfold t3. by rewrite <- !app_assoc. }
  rewrite E3. rewrite pac_loop_more by (by destruct gap).
  rewrite pac_round_other; [|done|done|done|done|by apply not_elem_of_cons].
  cbn [mbind outcome_bind]. rewrite pac_loop_end by lia. done.
Qed.

(** [if (...) { if (...) { return "A"; } return "B"; } else { return "C"; } return
    "D";] gives A or nothing. *)
Theorem evaluate_if_else_witness :
  evaluate_minimal (pac_script
    (else_script (lit "dnsDomainIs(host, x.org)") (lit " if false { " ++ return_stmt (lit "A") ++ lit " } " ++ return_stmt (lit "B"))
       [32] [32] (RETURN ++ QUOTE :: lit "C" ++ [QUOTE]) [32] ((32 :: RETURN ++ QUOTE :: lit "D" ++ [QUOTE]) ++ [SEMI])))
    [] (lit "www.x.org")
  = Ret (Some (lit "A"))
  /\ evaluate_minimal (pac_script
    (else_script (lit "dnsDomainIs(host, x.org)") (lit " if false { " ++ return_stmt (lit "A") ++ lit " } " ++ return_stmt (lit "B"))
       [32] [32] (RETURN ++ QUOTE :: lit "C" ++ [QUOTE]) [32] ((32 :: RETURN ++ QUOTE :: lit "D" ++ [QUOTE]) ++ [SEMI])))
    [] (lit "www.y.org")
  = Ret None.
Proof.
  split; (etransitivity; [apply (evaluate_if_else (lit "dnsDomainIs(host, x.org)") (lit " if false { ") (lit "A")
    (lit " } " ++ return_stmt (lit "B"))); by_eval|vm_compute; reflexivity]).
Defined.

(** An [if] that is indented never yields its value: the interpreter counts
    the white space in front of it twice, so it looks for the block's braces too
    far into the text. The script then gives no rule, and when the indentation is
    longer than the block the slice runs past the body and the process aborts. *)
Theorem evaluate_indented_if (ws cond blk url host : str)
    (Hw : blank ws) (Hne : ws <> [])
    (Ho : OPEN ∉ cond) (Hc : CLOSE ∉ cond) (Hbo : OPEN ∉ blk) (Hbc : CLOSE ∉ blk)
    (Hl : Z.of_nat (length (ws ++ if_stmt cond blk)) < 2 ^ 31 - 8) :
  let r := evaluate_minimal (pac_script (ws ++ if_stmt cond blk)) url host in
  (r = Ret None \/ r = Panicked)
  /\ ((str_len blk + 2 < str_len ws)%nat -> r = Panicked).
Proof.
  set (body := ws ++ if_stmt cond blk) in *. cbv zeta.
  assert (bracketed body) as Hb.
  { apply bracketed_app; [by apply bracketed_blank|].
    by apply bracketed_if, bracketed_no_braces. }
  rewrite evaluate_minimal_script by done.
  rewrite pac_loop_S, (proj2 (Nat.ltb_lt _ _)).
  2:{ subst body. destruct ws; [done|]. apply str_len_pos. }
  rewrite (pac_round_at [] ws (if_stmt cond blk)) by (done || intros ? [= <-]; done).
  change (pac_stmt _ _ _ _ _ (if_stmt cond blk) None) with
    (pac_stmt body url host (str_len ws) (str_len ws)
       (IF ++ cond ++ OPEN :: (blk ++ [CLOSE])) None).
  rewrite pac_stmt_if by done.
  destruct (eval_cond_ret (trim cond) url host) as [b ->]. cbn [mbind outcome_bind].
  replace (slice_from _ body) with (slice_from (str_len ws) (OPEN :: blk ++ [CLOSE])).
  2:{ subst body. unfold if_stmt. rewrite slice_from_skip, (app_assoc IF), Nat.add_comm.
      by rewrite slice_from_skip. }
  destruct (slice_from (str_len ws) (OPEN :: blk ++ [CLOSE])) as [t|] eqn:Ht.
  2:{ cbn [unwrap mbind outcome_bind]. split; [by right|done]. }
  apply slice_from_inv in Ht as (u & Hu & Hlen).
  assert (str_len u + str_len t = str_len blk + 2)%nat as Hsum.
  { rewrite <- str_len_app, <- Hu, str_len_cons, str_len_app.
    change (len_utf8 OPEN) with 1%nat. change (str_len [CLOSE]) with 1%nat. lia. }
  split; [left|lia].
  destruct u as [|c u]; [destruct ws as [|w ws]; [done|]; pose proof (str_len_pos w ws);
    change (str_len []) with 0%nat in Hlen; lia|].
  injection Hu as _ Hu. cbn [unwrap mbind outcome_bind]. unfold match_brace.
  rewrite match_brace_go_None; [done|lia| |].
  - apply (f_equal length) in Hu. subst body. unfold if_stmt in Hl.
    rewrite !length_app in *. cbn [length] in Hl, Hu. rewrite length_app in Hl.
    cbn [length] in Hl. lia.
  - intros Hin. assert (OPEN ∈ blk ++ [CLOSE]) as Hin' by (rewrite Hu; set_solver).
    apply elem_of_app in Hin' as [?|Hin']; [done|].
    by apply list_elem_of_singleton in Hin'.
Qed.

Theorem evaluate_indented_if_witness :
  let r := evaluate_minimal
    (pac_script (lit "  " ++ if_stmt (lit "isPlainHostName(x) ")
                                     (lit " " ++ return_stmt (lit "DIRECT")))) [] (lit "h") in
  (r = Ret None \/ r = Panicked)
  /\ ((str_len (lit " " ++ return_stmt (lit "DIRECT")) + 2 < str_len (lit "  "))%nat
      -> r = Panicked).
Proof. apply evaluate_indented_if; by_eval. Defined.

(** ** The C entry point *)

(** C29: [znet_pac_evaluate] stays within the caller's buffer: given C strings and
    a buffer of at least [out_len > 0] bytes it never runs into undefined
    behaviour and never hangs. It leaves the buffer alone when there is no rule;
    otherwise it writes the rule's first bytes, as many as fit before a final NUL,
    changes no byte behind that NUL, and returns how many it wrote. *)
Theorem znet_pac_evaluate_in_bounds (src url host : str) (mem : bytes) (out_len : nat)
    (Hs : Forall scalar src /\ Forall (fun c => c <> 0) src)
    (Hu : Forall scalar url /\ Forall (fun c => c <> 0) url)
    (Hh : Forall scalar host /\ Forall (fun c => c <> 0) host)
    (Hout : (0 < out_len <= length mem)%nat) (Hmax : Z.of_nat out_len <= 2 ^ 31) :
  match evaluate_minimal src url host with
  | Ret (Some v) =>
      let n := Nat.min (str_len v) (out_len - 1) in
      exists mem',
        znet_pac_evaluate (Some (c_mem src)) (Some (c_mem url)) (Some (c_mem host))
          (Some mem) out_len = Ret (Z.of_nat n, Some mem')
        /\ length mem' = length mem
        /\ take (S n) mem' = take n (as_bytes v) ++ [0]
        /\ drop (S n) mem' = drop (S n) mem
  | Ret None =>
      znet_pac_evaluate (Some (c_mem src)) (Some (c_mem url)) (Some (c_mem host))
        (Some mem) out_len = Ret (-1, Some mem)
  | r =>
      r = Panicked /\
      znet_pac_evaluate (Some (c_mem src)) (Some (c_mem url)) (Some (c_mem host))
        (Some mem) out_len = Panicked
  end.
Proof.
  unfold znet_pac_evaluate. rewrite (proj2 (Nat.eqb_neq out_len 0)) by lia.
  destruct Hs, Hu, Hh. rewrite !cstr_lossy_c_mem by done. cbn [mbind outcome_bind].
  destruct (evaluate_minimal_terminates src url host) as [[[v|] ->]| ->];
    cbn [mbind outcome_bind]; [|done|done].
  rewrite as_bytes_length. set (n := Nat.min (str_len v) (out_len - 1)).
  assert (length (take n (as_bytes v)) = n) as Hn.
  { rewrite length_take, as_bytes_length. lia. }
  destruct (write_cstr_ok (take n (as_bytes v)) mem) as (mem' & Hm & Hlen & Ht & Hd); [lia|].
  rewrite Hn in Ht, Hd. exists mem'. rewrite Hm. cbn [mbind outcome_bind].
  rewrite i32_small by lia. done.
Qed.

Theorem znet_pac_evaluate_in_bounds_witness :
  let src := pac_script (returns [(lit " ", lit "PROXY p:3128")]) in
  match evaluate_minimal src (lit "u") (lit "h") with
  | Ret (Some v) =>
      let n := Nat.min (str_len v) (8 - 1) in
      exists mem',
        znet_pac_evaluate (Some (c_mem src)) (Some (c_mem (lit "u"))) (Some (c_mem (lit "h")))
          (Some (replicate 8 7)) 8 = Ret (Z.of_nat n, Some mem')
        /\ length mem' = length (replicate 8 7)
        /\ take (S n) mem' = take n (as_bytes v) ++ [0]
        /\ drop (S n) mem' = drop (S n) (replicate 8 7)
  | Ret None =>
      znet_pac_evaluate (Some (c_mem src)) (Some (c_mem (lit "u"))) (Some (c_mem (lit "h")))
        (Some (replicate 8 7)) 8 = Ret (-1, Some (replicate 8 7))
  | r =>
      r = Panicked /\
      znet_pac_evaluate (Some (c_mem src)) (Some (c_mem (lit "u"))) (Some (c_mem (lit "h")))
        (Some (replicate 8 7)) 8 = Panicked
  end.
Proof.
  intros src. apply (znet_pac_evaluate_in_bounds src (lit "u") (lit "h") (replicate 8 7) 8);
    by_eval.
Defined.
