(* ===== verification/PacProgram.v ===== *)
(** * PAC programs (engine/src/protocols/proxy.rs)

    The statements that the PAC interpreter recognises, as syntax with a printer, and
    what they mean to it.  [Pac] has the interpreter itself, which works on byte
    offsets of the printed text; here the two are shown to agree. *)

From S2P Require Import Prelude Utf8 Str Ffi Glob Pac.

(** ** Syntax *)

(** The block of an [if], by its first [return]: none, a quoted value, or a bare one
    up to a semicolon. *)
Inductive block :=
| BNone (text : str)
| BQuoted (before v after : str)
| BBare (before v after : str).

(** [PSkip] is any other text up to a semicolon: an [else], a closing brace, an
    assignment.  White space may precede all but an [if]. *)
Inductive statement :=
| PReturn (ws v : str)
| PBare (ws v : str)
| PIf (cond : str) (blk : block)
| PSkip (ws text : str).

Definition bare_stmt (v : str) : str := RETURN ++ v ++ [SEMI].

Definition print_block (b : block) : str :=
  match b with
  | BNone text => text
  | BQuoted before v after => before ++ return_stmt v ++ after
  | BBare before v after => before ++ bare_stmt v ++ after
  end.

Definition print_stmt (s : statement) : str :=
  match s with
  | PReturn ws v => ws ++ return_stmt v
  | PBare ws v => ws ++ bare_stmt v
  | PIf cond blk => if_stmt cond (print_block blk)
  | PSkip ws text => ws ++ text ++ [SEMI]
  end.

Definition print (p : list statement) : str := p ≫= print_stmt.

(** ** Meaning *)

(** The last value stands until a statement gives another. *)
Definition block_meaning (b : block) (l : option str) : option str :=
  match b with BNone _ => l | BQuoted _ v _ => Some v | BBare _ v _ => Some (trim v) end.

Definition meaning_stmt (url host : str) (s : statement) (l : option str) : outcome (option str) :=
  match s with
  | PReturn _ v => Ret (Some v)
  | PBare _ v => Ret (Some (trim v))
  | PIf cond blk => b ← eval_cond (trim cond) url host; Ret (if (b : bool) then block_meaning blk l else l)
  | PSkip _ _ => Ret l
  end.

Fixpoint meaning (url host : str) (p : list statement) (l : option str) : outcome (option str) :=
  match p with
  | [] => Ret l
  | s :: p => l ← meaning_stmt url host s l; meaning url host p l
  end.

(** ** Well-formed programs *)

(** A bare value starts with something and ends at the semicolon, on its line. *)
Definition bare (v : str) : Prop :=
  (match head v with Some c => is_whitespace c = false /\ c <> QUOTE | None => False end)
  /\ (SEMI ∉ v) /\ (NL ∉ v).
#[export] Instance bare_dec v : Decision (bare v).
Proof. unfold bare. destruct (head v); apply _. Defined.

Definition block_ok (b : block) : Prop :=
  bracketed (print_block b)
  /\ match b with
     | BNone text => find_str RETURN text = None
     | BQuoted before v after =>
         find_str RETURN (print_block b) = Some (str_len before) /\ (QUOTE ∉ v)
     | BBare before v after =>
         find_str RETURN (print_block b) = Some (str_len before) /\ bare v
     end.

#[export] Instance block_ok_dec b : Decision (block_ok b).
Proof. destruct b; apply _. Defined.

(** Text that is neither a [return] nor an [if]. *)
Definition other (text : str) : Prop :=
  (match head text with Some c => is_whitespace c = false | None => True end)
  /\ (SEMI ∉ text) /\ starts_with RETURN text = false /\ starts_with IF text = false.
#[export] Instance other_dec v : Decision (other v).
Proof. unfold other. destruct (head v); apply _. Defined.

Definition stmt_ok (s : statement) : Prop :=
  match s with
  | PReturn ws v => blank ws /\ (QUOTE ∉ v)
  | PBare ws v => blank ws /\ bare v
  | PIf cond blk => (OPEN ∉ cond) /\ block_ok blk
  | PSkip ws text => blank ws /\ other text
  end.

#[export] Instance stmt_ok_dec s : Decision (stmt_ok s).
Proof. destruct s; apply _. Defined.

(** ** Texts *)

Section Texts.
Implicit Types (a p s t v : str).

(** A pattern without a semicolon is found before one or not at all. *)
Lemma starts_with_semi p a t : SEMI ∉ p -> starts_with p (a ++ SEMI :: t) = starts_with p a.
Proof.
  revert a. induction p as [|c p IH]; intros a Hp; [done|].
  apply not_elem_of_cons in Hp as [Hc Hp]. unfold starts_with in *. destruct a as [|x a]; cbn [app strip_prefix].
  - rewrite (proj2 (Z.eqb_neq c SEMI)) by done. done.
  - destruct (c =? x); [|done]. specialize (IH a Hp). exact IH.
Qed.

Lemma bare_cons v : bare v -> exists c v', v = c :: v' /\ is_whitespace c = false /\ c <> QUOTE.
Proof. intros [Hc _]. destruct v as [|c v']; [done|]. exists c, v'. by split. Qed.

Lemma trim_start_bare v t : bare v -> trim_start (v ++ t) = v ++ t.
Proof.
  intros (c & v' & -> & Hc & _)%bare_cons. unfold trim_start. cbn. by rewrite Hc.
Qed.

Lemma starts_with_quote_bare v t : bare v -> starts_with [QUOTE] (v ++ t) = false.
Proof. intros (c & v' & -> & _ & Hq)%bare_cons. by apply starts_with_head_ne. Qed.

(** Searching the line of a bare value. *)
Lemma bare_line v t nl :
  bare v -> find_char NL (v ++ SEMI :: t) = Some nl ->
  exists line, slice_to nl (v ++ SEMI :: t) = Some line /\ find_char SEMI line = Some (str_len v).
Proof.
  intros (_ & Hs & Hn) (a & b & E & Ha & ->)%find_char_Some. exists a. rewrite E, slice_to_app. split; [done|].
  assert (Hpre : exists a', a = v ++ SEMI :: a') .
  { clear Hs. revert a E Ha. induction v as [|x v IH]; intros a E Ha; cbn in E.
    - destruct a as [|y a]; [by injection E|]. injection E as <- E. by exists a.
    - apply not_elem_of_cons in Hn as [Hx Hn]. destruct a as [|y a]; [injection E as ->; done|].
      injection E as <- E. apply not_elem_of_cons in Ha as [_ Ha].
      destruct (IH Hn a E Ha) as [a' ->]. by exists a'. }
  destruct Hpre as [a' ->]. by apply find_char_app.
Qed.

Lemma return_value_bare v t :
  bare v -> return_value (bare_stmt v ++ t) = Ret (trim v, str_len (bare_stmt v)).
Proof.
  intros Hv. unfold return_value, bare_stmt. rewrite <- !app_assoc, slice_from_app. cbn [unwrap mbind outcome_bind].
  change ([SEMI] ++ t) with (SEMI :: t). rewrite trim_start_bare, Nat.sub_diag, Nat.add_0_r, slice_from_app by done.
  cbn [unwrap mbind outcome_bind]. rewrite starts_with_quote_bare by done.
  assert (Hlen : (str_len RETURN + (str_len v + 1))%nat = str_len (RETURN ++ v ++ [SEMI])) by (rewrite !str_len_app; done).
  pose proof Hv as (_ & Hs & _). destruct (find_char NL (v ++ SEMI :: t)) as [nl|] eqn:En.
  - destruct (bare_line v t nl Hv En) as (line & -> & Hl). cbn [unwrap mbind outcome_bind]. rewrite Hl, slice_to_app.
    cbn [unwrap mbind outcome_bind]. by rewrite Hlen.
  - rewrite find_char_app, slice_to_app by done. cbn [unwrap mbind outcome_bind]. by rewrite Hlen.
Qed.

(** Bare values in a block. *)
Lemma split_line c v t : c ∉ v -> exists r, nth 0 (split c (v ++ t)) [] = v ++ r.
Proof.
  intros Hv. induction v as [|x v IH]; [by eexists|]. apply not_elem_of_cons in Hv as [Hx Hv]. cbn.
  rewrite (proj2 (Z.eqb_neq x c)) by done. destruct (IH Hv) as [r Hr]. exists r.
  destruct (split c (v ++ t)) as [|l ls] eqn:E; [by apply split_not_nil in E|]. cbn in *. by rewrite Hr.
Qed.

Lemma block_value_bare before v after l :
  find_str RETURN (before ++ bare_stmt v ++ after) = Some (str_len before) -> bare v ->
  block_value (before ++ bare_stmt v ++ after) l = Ret (Some (trim v)).
Proof.
  intros Hf Hv. unfold block_value. rewrite Hf, slice_from_app. cbn [unwrap mbind outcome_bind].
  unfold bare_stmt. rewrite <- !app_assoc, slice_from_app. cbn [unwrap mbind outcome_bind].
  assert (Ht : exists r, trim (v ++ SEMI :: after) = v ++ SEMI :: r).
  { unfold trim. rewrite trim_start_bare by done. by apply trim_end_keeps. }
  change ([SEMI] ++ after) with (SEMI :: after). destruct Ht as [r ->]. rewrite starts_with_quote_bare by done.
  destruct Hv as (_ & Hs & Hn).
  destruct (split_line NL (v ++ [SEMI]) r) as [r' Hr]; [apply not_elem_of_app; split; [done|by_eval]|].
  rewrite <- app_assoc in Hr. cbn [app] in Hr. rewrite Hr, <- app_assoc. cbn [app].
  rewrite find_char_app, slice_to_app by done. done.
Qed.

Lemma block_value_meaning b l : block_ok b -> block_value (print_block b) l = Ret (block_meaning b l).
Proof.
  intros [_ Hb]. destruct b as [text|before v after|before v after]; cbn [print_block block_meaning] in *.
  - unfold block_value. by rewrite Hb.
  - apply block_value_first; apply Hb.
  - apply block_value_bare; apply Hb.
Qed.
End Texts.

(** ** Rounds *)

Section Rounds.
Context (url host : str).
Implicit Types (a ws text rest : str) (l : option str).

(** What an [other] text starts with, also when it is empty. *)
Lemma other_head text c rest :
  other text -> is_whitespace c = false ->
  forall x, head (text ++ c :: rest) = Some x -> is_whitespace x = false.
Proof. intros (Hh & _) Hc x. destruct text; cbn; by intros [= <-]. Qed.

Lemma pac_round_skip a ws text rest l :
  blank ws -> other text ->
  pac_round (a ++ (ws ++ text ++ [SEMI]) ++ rest) url host (str_len a) l
  = Ret (Next (str_len (a ++ ws ++ text ++ [SEMI])) l).
Proof.
  intros Hw Ho. pose proof Ho as (_ & Hs & Hr & Hi). rewrite <- !app_assoc. cbn [app].
  rewrite pac_round_at by (done || by eapply other_head). unfold pac_stmt.
  rewrite !starts_with_semi, Hr, Hi by by_eval. rewrite app_assoc, slice_from_app. cbn [unwrap mbind outcome_bind].
  rewrite find_char_app by done. rewrite !str_len_app. change (str_len [SEMI]) with 1%nat. do 2 f_equal. lia.
Qed.

(** What is left of a body when no semicolon follows. *)
Lemma pac_round_tail a ws text l :
  blank ws -> other text -> pac_round (a ++ ws ++ text) url host (str_len a) l = Ret (Break l).
Proof.
  intros Hw (Hh & Hs & Hr & Hi).
  rewrite pac_round_at by (done || (intros x Hx; destruct text; [done|by injection Hx as <-])). unfold pac_stmt.
  rewrite Hr, Hi, app_assoc, slice_from_app. cbn [unwrap mbind outcome_bind]. by rewrite (proj2 (find_char_None _ _)).
Qed.

Lemma pac_round_bare a ws v rest l :
  blank ws -> bare v ->
  pac_round (a ++ (ws ++ bare_stmt v) ++ rest) url host (str_len a) l
  = Ret (Next (str_len (a ++ ws ++ bare_stmt v)) (Some (trim v))).
Proof.
  intros Hw Hv. rewrite <- app_assoc, pac_round_at by (done || by intros ? [= <-]). unfold pac_stmt.
  assert (E : starts_with RETURN (bare_stmt v ++ rest) = true)
    by (unfold bare_stmt; rewrite <- app_assoc; apply starts_with_app).
  rewrite E, return_value_bare by done. cbn [mbind outcome_bind]. by rewrite app_assoc, !str_len_app.
Qed.

Lemma pac_round_return a ws v rest l :
  blank ws -> QUOTE ∉ v ->
  pac_round (a ++ (ws ++ return_stmt v) ++ rest) url host (str_len a) l
  = Ret (Next (str_len (a ++ ws ++ RETURN ++ [QUOTE] ++ v)) (Some v)).
Proof.
  intros Hw Hv. rewrite <- app_assoc, pac_round_at by (done || by intros ? [= <-]).
  rewrite pac_stmt_return by done. rewrite !str_len_app. do 2 f_equal. lia.
Qed.

Lemma pac_round_if a cond blk rest l :
  OPEN ∉ cond -> block_ok blk ->
  Z.of_nat (length (a ++ if_stmt cond (print_block blk) ++ rest)) < 2 ^ 31 - 8 ->
  pac_round (a ++ if_stmt cond (print_block blk) ++ rest) url host (str_len a) l
  = b ← eval_cond (trim cond) url host;
    Ret (Next (str_len (a ++ if_stmt cond (print_block blk))) (if (b : bool) then block_meaning blk l else l)).
Proof.
  intros Ho Hb Hl. set (t := print_block blk) in *.
  assert (E : if_stmt cond t ++ rest = IF ++ cond ++ OPEN :: (t ++ CLOSE :: rest)).
  { unfold if_stmt. by rewrite <- !app_assoc, <- app_comm_cons, <- app_assoc. }
  rewrite E in *. rewrite (pac_round_at a [] (IF ++ cond ++ OPEN :: (t ++ CLOSE :: rest)))
    by (done || (intros ? [= <-]; done)).
  rewrite app_nil_r, app_nil_l, pac_stmt_if by done.
  destruct (eval_cond_ret (trim cond) url host) as [b ->]. cbn [mbind outcome_bind]. change (str_len []) with 0%nat.
  rewrite Nat.add_0_l, slice_from_skip, (app_assoc IF cond), slice_from_app. cbn [unwrap mbind outcome_bind].
  rewrite match_brace_blk; [|apply Hb|rewrite !length_app in *; cbn [length] in *; rewrite !length_app in *; cbn [length] in *; lia].
  change (S (str_len t)) with (1 + str_len t)%nat at 1. rewrite slice_block. cbn [unwrap mbind outcome_bind].
  unfold t. rewrite block_value_meaning by done. fold t.
  assert (El : (str_len a + str_len (IF ++ cond) + (1 + str_len t + 1))%nat = str_len (a ++ if_stmt cond t)).
  { unfold if_stmt. rewrite !str_len_app, str_len_cons, !str_len_app.
    change (str_len [CLOSE]) with 1%nat. change (len_utf8 OPEN) with 1%nat. lia. }
  destruct b; cbn [mbind outcome_bind]; by rewrite El.
Qed.

(** A statement takes one or two rounds and fewer than its bytes. *)
Lemma pac_loop_stmt a s rest l :
  stmt_ok s -> Z.of_nat (length (a ++ print_stmt s ++ rest)) < 2 ^ 31 - 8 ->
  exists k, (0 < k <= str_len (print_stmt s))%nat /\ forall fuel,
    pac_loop (k + fuel) (a ++ print_stmt s ++ rest) url host (str_len a) l
    = l ← meaning_stmt url host s l;
      pac_loop fuel (a ++ print_stmt s ++ rest) url host (str_len (a ++ print_stmt s)) l.
Proof.
  intros Hs Hl. assert (Hne : print_stmt s ++ rest <> []).
  { destruct s as [ws v|ws v|cond blk|ws text]; cbn; try done; intros [E _]%app_eq_nil; apply app_eq_nil in E as [_ E];
      try done. by apply app_eq_nil in E as [_ ?]. }
  destruct s as [ws v|ws v|cond blk|ws text]; cbn [print_stmt meaning_stmt stmt_ok] in *.
  - exists 2%nat. split; [unfold return_stmt; rewrite !str_len_app; change (str_len RETURN) with 7%nat; lia|]. intros fuel.
    change (2 + fuel)%nat with (S (S fuel)). rewrite pac_loop_more, pac_round_return by (done || apply Hs).
    cbn [mbind outcome_bind]. set (mid := a ++ ws ++ RETURN ++ [QUOTE] ++ v).
    assert (E : a ++ (ws ++ return_stmt v) ++ rest = mid ++ [QUOTE; SEMI] ++ rest)
      by (subst mid; unfold return_stmt; by rewrite <- !app_assoc).
    rewrite E, pac_loop_more, pac_round_leftover by done. cbn [mbind outcome_bind].
    replace (mid ++ [QUOTE; SEMI]) with (a ++ ws ++ return_stmt v); [done|].
    subst mid. unfold return_stmt. by rewrite <- !app_assoc.
  - exists 1%nat. split; [unfold bare_stmt; rewrite !str_len_app; change (str_len RETURN) with 7%nat; lia|]. intros fuel.
    cbn [Nat.add]. by rewrite pac_loop_more, pac_round_bare by (done || apply Hs).
  - exists 1%nat. split; [unfold if_stmt; rewrite !str_len_app; change (str_len IF) with 3%nat; lia|]. intros fuel.
    cbn [Nat.add]. rewrite pac_loop_more, pac_round_if by (done || apply Hs).
    by destruct (eval_cond (trim cond) url host).
  - exists 1%nat. split; [rewrite !str_len_app; change (str_len [SEMI]) with 1%nat; lia|]. intros fuel.
    cbn [Nat.add]. by rewrite pac_loop_more, pac_round_skip by (done || apply Hs).
Qed.

Lemma pac_loop_program p ws text : forall a l fuel,
  Forall stmt_ok p -> blank ws -> other text ->
  Z.of_nat (length (a ++ print p ++ ws ++ text)) < 2 ^ 31 - 8 ->
  (str_len (print p ++ ws ++ text) < fuel)%nat ->
  pac_loop fuel (a ++ print p ++ ws ++ text) url host (str_len a) l = meaning url host p l.
Proof.
  induction p as [|s p IH]; intros a l fuel Hp Hw Ho Hl Hf; cbn [print mbind list_bind app meaning] in *.
  - destruct fuel as [|fuel]; [lia|]. destruct (ws ++ text) as [|x t] eqn:E.
    + rewrite app_nil_r. apply pac_loop_end. lia.
    + rewrite pac_loop_more, <- E, pac_round_tail by done. done.
  - inv Hp. fold (print p) in *. rewrite <- app_assoc in *.
    destruct (pac_loop_stmt a s (print p ++ ws ++ text) l) as (k & Hk & Hloop); [done|done|].
    rewrite str_len_app in Hf. replace fuel with (k + (fuel - k))%nat by lia. rewrite Hloop.
    destruct (meaning_stmt url host s l) as [l'| | |]; cbn [mbind outcome_bind]; try done.
    rewrite app_assoc. apply IH; try done; [by rewrite <- app_assoc|]. lia.
Qed.
End Rounds.

(** ** Properties *)

(** C26: the PAC interpreter computes the meaning of its programs.  For every list of
    [return] statements, unindented [if]s and other statements, whatever the blocks
    hold (nested ones included), and any rest without a semicolon, evaluating the
    printed program gives what the statements mean one after the other: a [return]
    gives a value that a later one replaces, an [if] gives its block's first [return]
    when its condition holds, and everything else is skipped. *)
Theorem evaluate_program (p : list statement) (ws text url host : str)
    (Hp : Forall stmt_ok p) (Hw : blank ws) (Ho : other text)
    (Hb : bracketed (print p ++ ws ++ text)) (Hl : Z.of_nat (length (print p ++ ws ++ text)) < 2 ^ 31 - 8) :
  evaluate_minimal (pac_script (print p ++ ws ++ text)) url host = meaning url host p None.
Proof.
  rewrite evaluate_minimal_script by done.
  exact (pac_loop_program url host p ws text [] None _ Hp Hw Ho Hl (Nat.lt_succ_diag_r _)).
Qed.

(** [if dnsDomainIs(host, "x.org"){ if false { return "A"; } return B; } else { x; } return DIRECT;]
    and a rest without a semicolon. *)
Definition toy_pac : list statement :=
  [PIf (lit "dnsDomainIs(host, x.org)") (BQuoted (lit " if false { ") (lit "A") (lit " } return B; "));
   PSkip [32] (lit "else { x"); PSkip [32] (lit "} return " ++ [QUOTE] ++ lit "C" ++ [QUOTE]);
   PBare [NL; 32] (lit "DIRECT ");
   PIf (lit "shExpMatch(" ++ [QUOTE] ++ lit "ab" ++ [QUOTE] ++ lit ", " ++ [QUOTE] ++ lit "?b" ++ [QUOTE] ++ lit ")")
     (BBare (lit " ") (lit "PROXY p:80") (lit " "))].

Theorem evaluate_program_witness :
  evaluate_minimal (pac_script (print toy_pac ++ [NL] ++ lit "x")) [] (lit "www.x.org") = Ret (Some (lit "PROXY p:80"))
  /\ meaning [] (lit "www.x.org") (take 3 toy_pac) None = Ret (Some (lit "A")).
Proof.
  split; [|vm_compute; reflexivity].
  etransitivity; [apply (evaluate_program toy_pac [NL] (lit "x")); by_eval|vm_compute; reflexivity].
Defined.
