(* ===== verification/Proxy.v ===== *)
(** * System proxy discovery and PAC result rules (engine/src/protocols/proxy.rs)

    [znet_proxy_discover_env] copies the proxy environment variables to the
    caller; [znet_proxy_parse_first] turns a PAC result string such as
    ["PROXY a:80; SOCKS5 b:1080; DIRECT"] into one [CProxyHop]. *)

From S2P Require Import Prelude Utf8 Str Ffi.

(** ** Data *)

Inductive ProxyScheme := Direct | Http | Socks5 | Socks4.
#[export] Instance ProxyScheme_eq_dec : EqDecision ProxyScheme.
Proof. solve_decision. Defined.

Record ProxyRule := mkProxyRule { scheme : ProxyScheme; host : str; port : Z }.
#[export] Instance ProxyRule_eq_dec : EqDecision ProxyRule.
Proof. solve_decision. Defined.

(** The C mirror: the scheme's code, the memory of the host's C string, the port
    and a null [auth_header]. *)
Record CProxyHop := mkCProxyHop
  { c_scheme : Z; c_host : bytes; c_port : Z; c_auth_header : option bytes }.

(** ** Discovery *)

Definition PROXY_VARS : list str :=
  lit <$> ["HTTP_PROXY"; "HTTPS_PROXY"; "NO_PROXY";
           "http_proxy"; "https_proxy"; "no_proxy"]%string.

(** The text built by the loop over the variables; [env] is the process
    environment ([env::var]). *)
Definition env_text (env : str -> option str) : str :=
  fold_left
    (fun buf var =>
       match env var with
       | Some v => buf ++ var ++ [ch "="] ++ v ++ [10]
       | None => buf
       end) PROXY_VARS [].

Definition znet_proxy_discover_env (env : str -> option str) (out : option bytes)
    (out_len : nat) : outcome (Z * option bytes) :=
  match out with
  | None => Ret (-1, out)
  | Some mem =>
      if (out_len =? 0)%nat then Ret (-1, out) else
      let b := as_bytes (env_text env) in
      if (out_len <=? length b)%nat then Ret (-2, out) else
      mem ← write_cstr b mem;
      Ret (i32 (Z.of_nat (length b)), Some mem)
  end.

(** ** Rules *)

Definition parse_host_port (s : str) (sch : ProxyScheme) : outcome (option ProxyRule) :=
  let s := trim s in
  match rfind_char (ch ":") s with
  | None => Ret None
  | Some colon =>
      h ← unwrap (slice_to colon s);
      p ← unwrap (slice_from (colon + 1) s);
      match parse_u16 p with
      | Some n => Ret (Some (mkProxyRule sch h n))
      | None => Ret None
      end
  end.

(** One [part] of the [for] loop: the new value of [found]. *)
Definition rule_part (found : option ProxyRule) (part : str) : outcome (option ProxyRule) :=
  let p := trim part in
  match strip_prefix (lit "PROXY ") p with
  | Some rest => parse_host_port rest Http
  | None =>
      match strip_prefix (lit "SOCKS5 ") p with
      | Some rest => parse_host_port rest Socks5
      | None =>
          match strip_prefix (lit "SOCKS4 ") p with
          | Some rest => parse_host_port rest Socks4
          | None => if str_eqb p (lit "DIRECT")
                    then Ret (Some (mkProxyRule Direct [] 0)) else Ret found
          end
      end
  end.

Fixpoint rule_loop (found : option ProxyRule) (parts : list str) : outcome (option ProxyRule) :=
  match parts with
  | [] => Ret found
  | p :: parts => found ← rule_part found p; rule_loop found parts
  end.

Definition scheme_code (s : ProxyScheme) : Z :=
  match s with Direct => 0 | Http => 1 | Socks5 => 2 | Socks4 => 3 end.

(** [out] tells whether the caller's pointer is non-null; the hop in the result is
    what is stored through it. *)
Definition znet_proxy_parse_first (rule : option bytes) (out : option unit)
  : outcome (Z * option CProxyHop) :=
  match rule, out with
  | Some mem, Some _ =>
      rstr ← cstr_lossy mem;
      found ← rule_loop None (split (ch ";") rstr);
      match found with
      | Some r =>
          host_c ← cstring_new (as_bytes (host r));
          Ret (0, Some (mkCProxyHop (scheme_code (scheme r)) host_c (port r) None))
      | None => Ret (-1, None)
      end
  | _, _ => Ret (-1, None)
  end.

(** ** The rules as printed text *)

Definition scheme_word (s : ProxyScheme) : str :=
  match s with
  | Direct => lit "DIRECT"
  | Http => lit "PROXY "
  | Socks5 => lit "SOCKS5 "
  | Socks4 => lit "SOCKS4 "
  end.

Definition print_rule (r : ProxyRule) : str :=
  match scheme r with
  | Direct => scheme_word Direct
  | s => scheme_word s ++ host r ++ lit ":" ++ decimal (port r)
  end.

(** Rules a PAC result can carry: a host without separators or blanks in front. *)
Definition printable (r : ProxyRule) : Prop :=
  in_u16 (port r) /\ (ch ";" ∉ host r) /\ Forall scalar (host r)
  /\ Forall (fun c => c <> 0) (host r)
  /\ (is_whitespace <$> head (host r)) <> Some true
  /\ (scheme r = Direct -> host r = [] /\ port r = 0).

#[export] Instance printable_dec r : Decision (printable r) := _.

Lemma printable_head r c :
  printable r -> head (host r) = Some c -> is_whitespace c = false.
Proof.
  intros (_ & _ & _ & _ & H & _) Hc. rewrite Hc in H. cbn in H. by destruct is_whitespace.
Qed.

Definition hop_of (r : ProxyRule) : CProxyHop :=
  mkCProxyHop (scheme_code (scheme r)) (c_mem (host r)) (port r) None.

(** ** Lemmas *)

Section Rules.
Implicit Types (r : ProxyRule) (s : str).

Lemma digit_facts c :
  is_digit c = true -> is_whitespace c = false /\ c <> ch ":" /\ c <> ch ";"
  /\ scalar c /\ c <> 0.
Proof.
  unfold is_digit, is_whitespace, between, scalar, ch. cbn. intros. bool_facts.
  repeat split; lia.
Qed.

Lemma decimal_facts n :
  0 <= n -> (ch ":" ∉ decimal n) /\ (ch ";" ∉ decimal n)
  /\ Forall scalar (decimal n) /\ Forall (fun c => c <> 0) (decimal n)
  /\ (forall c, last (decimal n) = Some c -> is_whitespace c = false).
Proof.
  intros Hn. pose proof (decimal_digits n Hn) as Hd. rewrite Forall_forall in Hd.
  repeat split.
  - intros Hin. by apply Hd, digit_facts in Hin as (_ & ? & _).
  - intros Hin. by apply Hd, digit_facts in Hin as (_ & _ & ? & _).
  - apply Forall_forall. intros c Hin. by apply digit_facts, Hd.
  - apply Forall_forall. intros c Hin. by apply digit_facts, Hd.
  - intros c [l Hl]%last_Some. apply digit_facts, Hd. rewrite Hl.
    apply elem_of_app. right. by apply list_elem_of_singleton.
Qed.

(** Parsing reads back a printed host and port. *)
Lemma parse_host_port_print h n sch :
  (forall c, head h = Some c -> is_whitespace c = false) -> in_u16 n ->
  parse_host_port (h ++ lit ":" ++ decimal n) sch = Ret (Some (mkProxyRule sch h n)).
Proof.
  intros Hh Hn. destruct (decimal_facts n) as (Hc & _ & _ & _ & Hl); [apply Hn|].
  unfold parse_host_port. rewrite trim_id.
  - change (lit ":" ++ decimal n) with (ch ":" :: decimal n).
    rewrite rfind_char_app by done.
    rewrite slice_to_app. cbn [unwrap mbind outcome_bind].
    rewrite slice_after by done. cbn [unwrap mbind outcome_bind].
    by rewrite parse_u16_decimal.
  - split.
    + destruct h as [|x h]; [by intros c [= <-]|]. intros c. apply Hh.
    + intros c. pose proof (decimal_not_nil n) as Hne.
      rewrite app_assoc, last_app. destruct (last (decimal n)) as [d|] eqn:E.
      * intros [= <-]. by apply Hl.
      * apply last_None in E. done.
Qed.

Lemma parse_host_port_inv s sch r :
  parse_host_port s sch = Ret (Some r) ->
  scheme r = sch /\ in_u16 (port r)
  /\ exists p, trim s = host r ++ ch ":" :: p /\ (ch ":" ∉ p) /\ parse_u16 p = Some (port r).
Proof.
  unfold parse_host_port. destruct (rfind_char (ch ":") (trim s)) as [n|] eqn:E; [|done].
  apply rfind_char_Some in E as (a & b & -> & Hb & ->).
  rewrite slice_to_app. cbn [unwrap mbind outcome_bind].
  rewrite slice_after by done. cbn [unwrap mbind outcome_bind].
  destruct (parse_u16 b) as [m|] eqn:Hm; [|done]. intros [= <-]. cbn.
  repeat split; [by eapply parse_u16_range| |eauto].
  apply parse_u16_range in Hm. apply Hm.
Qed.

Lemma parse_host_port_ret s sch : exists o, parse_host_port s sch = Ret o.
Proof.
  unfold parse_host_port. destruct (rfind_char (ch ":") (trim s)) as [n|] eqn:E; [|eauto].
  apply rfind_char_Some in E as (a & b & -> & Hb & ->).
  rewrite slice_to_app. cbn [unwrap mbind outcome_bind].
  rewrite slice_after by done. cbn [unwrap mbind outcome_bind].
  case_match; eauto.
Qed.

(** A printed rule sets [found], whatever it was. *)
Lemma rule_part_print found ws r :
  Forall (fun c => is_whitespace c = true) ws -> printable r ->
  rule_part found (ws ++ print_rule r) = Ret (Some r).
Proof.
  intros Hw Hp. pose proof (fun c => printable_head r c Hp) as Hh.
  destruct r as [sch h n], Hp as (Hn & _ & _ & _ & _ & Hd). cbn in *.
  assert (trim (ws ++ print_rule (mkProxyRule sch h n)) = print_rule (mkProxyRule sch h n)) as Ht.
  { unfold trim. rewrite trim_start_head; [|done|].
    - destruct (decimal_facts n) as (_ & _ & _ & _ & Hl); [apply Hn|].
      unfold trim_end, drop_while_end. rewrite drop_while_id, reverse_involutive; [done|].
      intros c. rewrite head_reverse. unfold print_rule. cbn [scheme host port].
      destruct sch; [by intros [= <-]| | |]; rewrite !app_assoc, last_app;
        pose proof (decimal_not_nil n) as Hne;
        destruct (last (decimal n)) as [d|] eqn:E;
        (apply last_None in E; done) || (intros [= <-]; by apply Hl).
    - intros c. by destruct sch; intros [= <-]. }
  unfold rule_part. rewrite Ht. unfold print_rule. cbn [scheme].
  destruct sch; cbn [host port].
  - destruct Hd as [-> ->]; done.
  - change (strip_prefix (lit "PROXY ") _) with (Some (h ++ lit ":" ++ decimal n)).
    by apply parse_host_port_print.
  - change (strip_prefix (lit "PROXY ") _) with (@None str).
    change (strip_prefix (lit "SOCKS5 ") _) with (Some (h ++ lit ":" ++ decimal n)).
    by apply parse_host_port_print.
  - change (strip_prefix (lit "PROXY ") _) with (@None str).
    change (strip_prefix (lit "SOCKS5 ") _) with (@None str).
    change (strip_prefix (lit "SOCKS4 ") _) with (Some (h ++ lit ":" ++ decimal n)).
    by apply parse_host_port_print.
Qed.
End Rules.

Section RuleLists.
Implicit Types (r : ProxyRule) (rs : list ProxyRule).

Lemma rule_loop_app found l1 l2 :
  rule_loop found (l1 ++ l2) = (f ← rule_loop found l1; rule_loop f l2).
Proof.
  revert found. induction l1 as [|p l1 IH]; intros found; [done|]. cbn.
  destruct (rule_part found p); cbn; auto.
Qed.

Lemma print_rule_no_semi r : printable r -> ch ";" ∉ print_rule r.
Proof.
  intros (Hn & Hs & _). destruct (decimal_facts (port r)) as (_ & Hd & _); [apply Hn|].
  unfold print_rule. destruct (scheme r); [by_eval| | |];
    rewrite !not_elem_of_app; repeat split; try done; by_eval.
Qed.

Lemma print_rule_text r :
  printable r -> Forall scalar (print_rule r) /\ Forall (fun c => c <> 0) (print_rule r).
Proof.
  intros (Hn & _ & Hs & Hz & _).
  destruct (decimal_facts (port r)) as (_ & _ & Hds & Hdz & _); [apply Hn|].
  unfold print_rule. destruct (scheme r); [by split; by_eval| | |];
    rewrite !Forall_app; repeat split; try done; by_eval.
Qed.

(** A rule list as one PAC result string. *)
Definition print_rules rs : str := join (lit "; ") (print_rule <$> rs).

Lemma print_rules_text rs :
  Forall printable rs ->
  Forall scalar (print_rules rs) /\ Forall (fun c => c <> 0) (print_rules rs).
Proof.
  intros H. unfold print_rules. induction H as [|r rs Hr Hrs IH]; [done|].
  apply print_rule_text in Hr as [Ha Hb]. cbn [fmap list_fmap].
  destruct (print_rule <$> rs) as [|t ts]; [done|]. rewrite join_cons_cons.
  destruct IH as [IHa IHb]. rewrite !Forall_app. repeat split; try done; by_eval.
Qed.

Lemma split_print_rules r rs :
  Forall printable (r :: rs) ->
  split (ch ";") (print_rules (r :: rs))
  = print_rule r :: ((fun r => lit " " ++ print_rule r) <$> rs).
Proof.
  unfold print_rules. revert r. induction rs as [|r' rs IH]; intros r H; inv H.
  { cbn. by apply split_no_sep, print_rule_no_semi. }
  cbn [fmap list_fmap] in *. rewrite join_cons_cons.
  change (lit "; " ++ ?t) with (ch ";" :: (lit " " ++ t)).
  rewrite split_app by by apply print_rule_no_semi. f_equal.
  inv H3. assert (forall t l s, split (ch ";") s = t :: l ->
    split (ch ";") (lit " " ++ s) = (lit " " ++ t) :: l) as Hsp.
  { intros t l s E. change (split (ch ";") (lit " " ++ s))
      with (push_head (ch " ") (split (ch ";") s)). by rewrite E. }
  by apply Hsp, IH; constructor.
Qed.

Lemma rule_loop_print found rs :
  Forall printable rs ->
  rule_loop found ((fun r => lit " " ++ print_rule r) <$> rs)
  = Ret (match last rs with Some r => Some r | None => found end).
Proof.
  intros H. revert found. induction H as [|r rs Hr Hrs IH]; intros found; [done|].
  cbn [fmap list_fmap rule_loop]. rewrite rule_part_print by (done || by repeat constructor).
  cbn [mbind outcome_bind]. rewrite IH, last_cons. by destruct (last rs).
Qed.

Lemma rule_loop_print_rules r rs :
  Forall printable (r :: rs) ->
  rule_loop None (split (ch ";") (print_rules (r :: rs))) = Ret (last (r :: rs)).
Proof.
  intros H. rewrite split_print_rules by done. inv H. cbn [rule_loop].
  pose proof (rule_part_print None [] r (Forall_nil_2 _) H2) as Hp. cbn [app] in Hp.
  rewrite Hp. cbn [mbind outcome_bind]. rewrite rule_loop_print, last_cons by done.
  by destruct (last rs).
Qed.
End RuleLists.

(** C27: [znet_proxy_parse_first] inverts the printing of a rule list, but gives
    the last rule of the list: on ["PROXY a:1; SOCKS5 b:2; DIRECT"] it is the
    [DIRECT] that reaches the caller. Hosts and ports come back unchanged. *)
Theorem parse_first_gives_last (r : ProxyRule) (rs : list ProxyRule)
    (H : Forall printable (r :: rs)) :
  znet_proxy_parse_first (Some (c_mem (print_rules (r :: rs)))) (Some tt)
  = Ret (0, hop_of <$> last (r :: rs)).
Proof.
  unfold znet_proxy_parse_first. pose proof (print_rules_text _ H) as [Hs Hz].
  rewrite cstr_lossy_c_mem by done. cbn [mbind outcome_bind].
  rewrite rule_loop_print_rules by done. cbn [mbind outcome_bind].
  destruct (last (r :: rs)) as [x|] eqn:E; [|by apply last_None in E].
  apply last_Some in E as [l El]. rewrite El in H. apply Forall_app in H as [_ H].
  inv H. destruct H2 as (_ & _ & Hxs & Hxz & _). by rewrite cstring_new_ok.
Qed.

Theorem parse_first_gives_last_witness :
  znet_proxy_parse_first
    (Some (c_mem (print_rules [mkProxyRule Http (lit "a.corp") 3128;
                               mkProxyRule Socks5 (lit "b") 1080]))) (Some tt)
  = Ret (0, hop_of <$> last [mkProxyRule Http (lit "a.corp") 3128;
                             mkProxyRule Socks5 (lit "b") 1080]).
Proof. apply parse_first_gives_last. by_eval. Defined.

(** What [found] may hold: a 16-bit port and a host that a C string can carry. *)
Definition rule_ok (r : ProxyRule) : Prop :=
  in_u16 (port r) /\ Forall scalar (host r) /\ Forall (fun c => c <> 0) (host r).

Section Safety.
Lemma strip_prefix_Forall (Q : char -> Prop) p s t :
  Forall Q s -> strip_prefix p s = Some t -> Forall Q t.
Proof.
  revert s. induction p as [|a p IH]; intros [|b s] H; cbn; try done;
    try (by intros [= <-]). case_match; [|done]. inv H. by apply IH.
Qed.

Lemma parse_host_port_ok s sch :
  Forall scalar s -> Forall (fun c => c <> 0) s ->
  exists o, parse_host_port s sch = Ret o /\ from_option rule_ok True o.
Proof.
  intros Hs Hz. destruct (parse_host_port_ret s sch) as [[r|] Hr]; [|by exists None].
  exists (Some r). split; [done|]. apply parse_host_port_inv in Hr as (_ & Hp & p & Ht & _).
  apply trim_Forall in Hs, Hz. rewrite Ht in Hs, Hz.
  apply Forall_app in Hs as [Hs _], Hz as [Hz _]. done.
Qed.

Lemma rule_part_ok found part :
  from_option rule_ok True found ->
  Forall scalar part -> Forall (fun c => c <> 0) part ->
  exists o, rule_part found part = Ret o /\ from_option rule_ok True o.
Proof.
  intros Hf Hs%trim_Forall Hz%trim_Forall. unfold rule_part.
  repeat case_match; eauto;
    try (eapply parse_host_port_ok; eapply strip_prefix_Forall; eassumption).
  eexists. split; [done|]. by repeat split; cbn.
Qed.

Lemma rule_loop_ok parts : forall found,
  from_option rule_ok True found ->
  Forall (Forall scalar) parts -> Forall (Forall (fun c => c <> 0)) parts ->
  exists o, rule_loop found parts = Ret o /\ from_option rule_ok True o.
Proof.
  induction parts as [|p parts IH]; intros found Hf Hs Hz; [cbn; eauto|].
  inv Hs. inv Hz. destruct (rule_part_ok found p) as (o & Ho & Hok); [done..|].
  cbn. rewrite Ho. by apply IH.
Qed.
End Safety.

(** C28: on every C string [znet_proxy_parse_first] returns: its [unwrap] of
    [CString::new] never panics and no slice leaves the text. It answers 0 exactly
    when it stores a hop; the hop then has a scheme code of 0 to 3, a 16-bit port,
    a null [auth_header] and a well-formed C string as host. *)
Theorem parse_first_safe (text : bytes)
    (H : Forall (fun b => 0 < b) text) :
  exists rc hop, znet_proxy_parse_first (Some (text ++ [0])) (Some tt) = Ret (rc, hop)
    /\ (rc = 0 <-> hop <> None) /\ (rc = 0 \/ rc = -1)
    /\ forall h, hop = Some h ->
         0 <= c_scheme h <= 3 /\ in_u16 (c_port h) /\ c_auth_header h = None
         /\ exists s, c_host h = c_mem s /\ Forall (fun c => c <> 0) s.
Proof.
  unfold znet_proxy_parse_first.
  assert (cstr_lossy (text ++ [0]) = Ret (from_utf8_lossy text)) as Hc.
  { unfold cstr_lossy. rewrite cstr_from_ptr_app; [done|].
    eapply Forall_impl; [exact H|]. cbn. lia. }
  rewrite Hc. cbn [mbind outcome_bind].
  assert (Forall scalar (from_utf8_lossy text)) as Hs.
  { apply lossy_scalar. eapply Forall_impl; [exact H|]. cbn. lia. }
  apply lossy_nonzero in H.
  destruct (rule_loop_ok (split (ch ";") (from_utf8_lossy text)) None)
    as (o & -> & Ho); [done|by apply split_Forall..|]. cbn [mbind outcome_bind].
  destruct o as [r|].
  - destruct Ho as (Hp & Hrs & Hrz). rewrite cstring_new_ok by done. cbn [mbind outcome_bind].
    eexists _, _. split; [done|]. split; [done|]. split; [by left|].
    intros h [= <-]. cbn. split; [by destruct (scheme r)|].
    split; [done|]. split; [done|]. eauto.
  - eexists _, _. split; [done|]. split; [|split; [by right|done]]. split; [done|done].
Qed.

Theorem parse_first_safe_witness :
  exists rc hop, znet_proxy_parse_first (Some ([80; 82; 79; 88; 89; 32; 255; 58; 49] ++ [0])) (Some tt)
                 = Ret (rc, hop)
    /\ (rc = 0 <-> hop <> None) /\ (rc = 0 \/ rc = -1)
    /\ forall h, hop = Some h ->
         0 <= c_scheme h <= 3 /\ in_u16 (c_port h) /\ c_auth_header h = None
         /\ exists s, c_host h = c_mem s /\ Forall (fun c => c <> 0) s.
Proof. apply parse_first_safe. by_eval. Defined.

(** [znet_proxy_discover_env] either refuses ([-1] for no buffer, [-2] when
    the text and its NUL do not fit) and leaves the buffer as it was, or stores
    the whole text followed by a NUL, touches nothing behind it, and returns the
    text's length. *)
Theorem discover_env_in_bounds (env : str -> option str) (mem : bytes) (out_len : nat)
    (Hout : (0 < out_len <= length mem)%nat) (Hmax : Z.of_nat out_len <= 2 ^ 31) :
  let b := as_bytes (env_text env) in
  if (length b <? out_len)%nat then
    exists mem', znet_proxy_discover_env env (Some mem) out_len
                 = Ret (Z.of_nat (length b), Some mem')
      /\ length mem' = length mem
      /\ take (S (length b)) mem' = b ++ [0]
      /\ drop (S (length b)) mem' = drop (S (length b)) mem
  else znet_proxy_discover_env env (Some mem) out_len = Ret (-2, Some mem).
Proof.
  intros b. unfold znet_proxy_discover_env. rewrite (proj2 (Nat.eqb_neq out_len 0)) by lia.
  fold b. destruct (Nat.ltb_spec (length b) out_len) as [Hlt|Hge].
  - rewrite (proj2 (Nat.leb_gt out_len (length b))) by done.
    destruct (write_cstr_ok b mem) as (mem' & Hm & Hr); [lia|].
    exists mem'. rewrite Hm. cbn [mbind outcome_bind]. by rewrite i32_small by lia.
  - by rewrite (proj2 (Nat.leb_le out_len (length b))).
Qed.

Theorem discover_env_in_bounds_witness :
  let env v := if decide (v = lit "HTTP_PROXY") then Some (lit "http://p:1") else None in
  let b := as_bytes (env_text env) in
  if (length b <? 32)%nat then
    exists mem', znet_proxy_discover_env env (Some (replicate 40 9)) 32
                 = Ret (Z.of_nat (length b), Some mem')
      /\ length mem' = length (replicate 40 9)
      /\ take (S (length b)) mem' = b ++ [0]
      /\ drop (S (length b)) mem' = drop (S (length b)) (replicate 40 9)
  else znet_proxy_discover_env env (Some (replicate 40 9)) 32 = Ret (-2, Some (replicate 40 9)).
Proof. intros env. apply (discover_env_in_bounds env (replicate 40 9) 32); by_eval. Defined.
