(* ===== verification/Base64.v ===== *)
(** * Base64, as the authentication code uses it

    The [base64] crate is not part of the program: the model takes its standard
    engine as an interface, with the facts of RFC 4648 the code relies on.
    [Rfc4648] is a concrete engine that satisfies them. *)

From S2P Require Import Prelude Utf8 Str.

Definition is_byte (b : Z) : bool := between 0 b 255.

(** [base64::engine::general_purpose::STANDARD] *)
Class Base64 := {
  b64_encode : bytes -> str;
  b64_decode : str -> option bytes;
}.

Class Base64Laws `(Base64) : Prop := {
  b64_decode_encode b : Forall (fun x => is_byte x = true) b -> b64_decode (b64_encode b) = Some b;
  b64_encode_no_space b :
    Forall (fun x => is_byte x = true) b -> Forall (fun c => is_whitespace c = false) (b64_encode b);
  b64_encode_nil b : b64_encode b = [] -> b = [];
}.

(** ** A concrete engine *)

Module Rfc4648.

Definition digit (n : Z) : char :=
  if n <? 26 then 65 + n
  else if n <? 52 then 71 + n
  else if n <? 62 then n - 4
  else if n =? 62 then 43 else 47.

Definition value (c : char) : option Z :=
  if between 65 c 90 then Some (c - 65)
  else if between 97 c 122 then Some (c - 71)
  else if between 48 c 57 then Some (c + 4)
  else if c =? 43 then Some 62
  else if c =? 47 then Some 63 else None.

Definition PAD : char := 61.

Fixpoint encode (b : bytes) : str :=
  match b with
  | [] => []
  | [x] => [digit (x / 4); digit ((x mod 4) * 16); PAD; PAD]
  | [x; y] => [digit (x / 4); digit ((x mod 4) * 16 + y / 16);
               digit ((y mod 16) * 4); PAD]
  | x :: y :: z :: r =>
      digit (x / 4) :: digit ((x mod 4) * 16 + y / 16)
      :: digit ((y mod 16) * 4 + z / 64) :: digit (z mod 64) :: encode r
  end.

(** The last group, with its padding. *)
Definition decode_last (a b c d : char) : option bytes :=
  v ← value a; w ← value b;
  if c =? PAD then
    if (d =? PAD) && (w mod 16 =? 0) then Some [v * 4 + w / 16] else None
  else
    x ← value c;
    if d =? PAD then
      if x mod 4 =? 0 then Some [v * 4 + w / 16; (w mod 16) * 16 + x / 4] else None
    else
      y ← value d;
      Some [v * 4 + w / 16; (w mod 16) * 16 + x / 4; (x mod 4) * 64 + y].

Fixpoint decode (s : str) : option bytes :=
  match s with
  | [] => Some []
  | [a; b; c; d] => decode_last a b c d
  | a :: b :: c :: d :: r =>
      v ← value a; w ← value b; x ← value c; y ← value d;
      t ← decode r;
      Some (v * 4 + w / 16 :: (w mod 16) * 16 + x / 4 :: (x mod 4) * 64 + y :: t)
  | _ => None
  end.

Definition sextet (n : Z) : bool := between 0 n 63.

Lemma value_digit n : sextet n = true -> value (digit n) = Some n.
Proof.
  unfold sextet, digit, value, between, ch. cbn. intros.
  repeat case_match; bool_facts; try (f_equal; lia); exfalso; simplify_eq; lia.
Qed.

Lemma digit_not_pad n : sextet n = true -> (digit n =? PAD) = false.
Proof.
  unfold sextet, digit, between, PAD, ch. cbn. intros. apply Z.eqb_neq.
  repeat case_match; bool_facts; lia.
Qed.

Lemma digit_no_space n : sextet n = true -> is_whitespace (digit n) = false.
Proof.
  unfold sextet, digit, is_whitespace, between, ch. cbn. intros.
  repeat case_match; bool_facts; lia.
Qed.

#[local] Ltac Zify.zify_post_hook ::= Z.div_mod_to_equations.

Lemma sextets x y z :
  is_byte x = true -> is_byte y = true -> is_byte z = true ->
  sextet (x / 4) = true /\ sextet ((x mod 4) * 16) = true
  /\ sextet ((x mod 4) * 16 + y / 16) = true /\ sextet ((y mod 16) * 4) = true
  /\ sextet ((y mod 16) * 4 + z / 64) = true /\ sextet (z mod 64) = true.
Proof. unfold is_byte, sextet, between. intros. repeat split; lia. Qed.

(** Induction by groups of three bytes. *)
Lemma bytes3_ind (P : bytes -> Prop) :
  P [] -> (forall x, P [x]) -> (forall x y, P [x; y]) ->
  (forall x y z r, P r -> P (x :: y :: z :: r)) -> forall b, P b.
Proof.
  intros H0 H1 H2 H3. fix IH 1. intros [|x [|y [|z r]]]; [exact H0|exact (H1 x)|exact (H2 x y)|].
  apply H3, IH.
Qed.

Lemma decode_last_group v w x y :
  sextet v = true -> sextet w = true -> sextet x = true -> sextet y = true ->
  decode_last (digit v) (digit w) (digit x) (digit y)
  = Some [v * 4 + w / 16; (w mod 16) * 16 + x / 4; (x mod 4) * 64 + y].
Proof.
  intros. unfold decode_last. rewrite !value_digit, !digit_not_pad by done.
  reflexivity.
Qed.

Lemma decode_group v w x y c r :
  sextet v = true -> sextet w = true -> sextet x = true -> sextet y = true ->
  decode (digit v :: digit w :: digit x :: digit y :: c :: r)
  = (t ← decode (c :: r);
     Some (v * 4 + w / 16 :: (w mod 16) * 16 + x / 4 :: (x mod 4) * 64 + y :: t)).
Proof.
  intros. change (decode (digit v :: digit w :: digit x :: digit y :: c :: r)) with
    (v ← value (digit v); w ← value (digit w); x ← value (digit x); y ← value (digit y);
     t ← decode (c :: r);
     Some (v * 4 + w / 16 :: (w mod 16) * 16 + x / 4 :: (x mod 4) * 64 + y :: t)).
  by rewrite !value_digit.
Qed.

Lemma decode_encode b : Forall (fun x => is_byte x = true) b -> decode (encode b) = Some b.
Proof.
  induction b as [|x|x y|x y z r IH] using bytes3_ind; intros H.
  - done.
  - inv H. destruct (sextets x x x) as (? & ? & _); [done..|].
    change (decode (encode [x]))
      with (decode_last (digit (x / 4)) (digit ((x mod 4) * 16)) PAD PAD).
    unfold decode_last. rewrite !value_digit by done. cbn [mbind option_bind].
    rewrite Z.eqb_refl, (proj2 (Z.eqb_eq (x mod 4 * 16 mod 16) 0)) by lia. cbn [andb].
    do 2 f_equal. lia.
  - inv H. inv H3. destruct (sextets x y y) as (? & ? & ? & ? & _); [done..|].
    change (decode (encode [x; y])) with
      (decode_last (digit (x / 4)) (digit ((x mod 4) * 16 + y / 16))
         (digit ((y mod 16) * 4)) PAD).
    unfold decode_last. rewrite !value_digit, digit_not_pad by done.
    cbn [mbind option_bind].
    rewrite Z.eqb_refl, (proj2 (Z.eqb_eq _ _)) by lia.
    unfold is_byte, between in *. repeat f_equal; lia.
  - inv H. inv H3. inv H4. destruct (sextets x y z) as (? & ? & ? & ? & ? & ?); [done..|].
    specialize (IH H5). cbn [encode]. unfold is_byte, between in *.
    destruct (encode r) as [|c t] eqn:E.
    + injection IH as <-.
      match goal with |- decode [?a; ?b; ?c; ?d] = _ =>
        change (decode_last a b c d = Some [x; y; z]) end.
      rewrite decode_last_group by done. repeat f_equal; lia.
    + rewrite decode_group, IH by done. cbn [mbind option_bind]. repeat f_equal; lia.
Qed.

Lemma encode_no_space b :
  Forall (fun x => is_byte x = true) b -> Forall (fun c => is_whitespace c = false) (encode b).
Proof.
  induction b as [|x|x y|x y z r IH] using bytes3_ind; intros H.
  - constructor.
  - inv H. destruct (sextets x x x) as (? & ? & _); [done..|].
    repeat constructor; by apply digit_no_space.
  - inv H. inv H3. destruct (sextets x y y) as (? & ? & ? & ? & _); [done..|].
    repeat constructor; by apply digit_no_space.
  - inv H. inv H3. inv H4. destruct (sextets x y z) as (? & ? & ? & ? & ? & ?); [done..|].
    cbn [encode]. repeat constructor; auto using digit_no_space.
Qed.

#[export] Instance engine : Base64 := { b64_encode := encode; b64_decode := decode }.

#[export] Instance engine_laws : Base64Laws engine.
Proof.
  split; [apply decode_encode|apply encode_no_space|].
  by intros [|x [|y [|z r]]].
Qed.

End Rfc4648.
