(* ===== verification/Auth.v ===== *)
(** * The authentication challenge state machine (engine/src/protocols/auth.rs)

    Parsing of [WWW-Authenticate] / [Proxy-Authenticate] values, the NTLM and
    Negotiate responses, and the per-connection [AuthEngine]: [observe] records a
    challenge, [build_retry_header] answers it. The engine's map sits behind one
    mutex, so each call is one atomic step on the map. The base64 crate is the
    interface [Base64]; the Kerberos library of the [enterprise-auth] feature is
    the parameter [kerberos]. *)

From S2P Require Import Prelude Utf8 Str Base64.

(** ** Data *)

Inductive AuthScheme :=
| Basic | Digest | Ntlm | Negotiate | Bearer | Unknown (other : str).
#[export] Instance AuthScheme_eq_dec : EqDecision AuthScheme.
Proof. solve_decision. Defined.

Inductive AuthPhase := Idle | ChallengeReceived | Authenticated.
#[export] Instance AuthPhase_eq_dec : EqDecision AuthPhase.
Proof. solve_decision. Defined.

Record AuthState := mkAuthState {
  phase : AuthPhase;
  st_scheme : option AuthScheme;
  st_realm : option str;
  ntlm_challenge : option bytes;
  retried : bool;
}.

(** [AuthState::default()] *)
Definition AuthState_default : AuthState := mkAuthState Idle None None None false.

Inductive AuthHeader := Authorization | ProxyAuthorization.

Record AuthChallenge := mkAuthChallenge {
  ac_scheme : AuthScheme;
  ac_realm : option str;
  ac_payload : bytes;
  ac_header : AuthHeader;
}.

Inductive AuthError :=
| UnsupportedScheme | MissingCredentials | Backend (msg : str).

(** ** Parsing *)

Definition AuthScheme_parse (token : str) : AuthScheme :=
  let t := to_ascii_lowercase token in
  if str_eqb t (lit "basic") then Basic
  else if str_eqb t (lit "digest") then Digest
  else if str_eqb t (lit "ntlm") then Ntlm
  else if str_eqb t (lit "negotiate") then Negotiate
  else if str_eqb t (lit "bearer") then Bearer
  else Unknown t.

(** One round of [for raw in rest.split(',')]. *)
Definition realm_step (realm : option str) (raw : str) : option str :=
  match split_once (ch "=") (trim raw) with
  | Some (k, v) =>
      if str_eqb (to_ascii_lowercase (trim k)) (lit "realm")
      then Some (trim_matches 34 (trim v)) else realm
  | None => realm
  end.

Section Code.
Context {B64 : Base64} (kerberos : option (result unit str)).

Definition parse_challenge (header : AuthHeader) (value : str) : option AuthChallenge :=
  let value := trim value in
  let '(first, second) := splitn2_ws value in
  let scheme := AuthScheme_parse first in
  let rest := default [] second in
  let realm := fold_left realm_step (split (ch ",") rest) None in
  let payload :=
  match scheme with
  | Negotiate | Ntlm =>
      match split_whitespace rest with
      | token :: _ => default [] (b64_decode token)
      | [] => []
      end
  | _ => []
  end in
  Some (mkAuthChallenge scheme realm payload header).

(** ** Responses *)

(** [n.to_le_bytes()] for a [u32] *)
Definition to_le_bytes (n : Z) : bytes :=
  [n mod 256; (n / 256) mod 256; (n / 65536) mod 256; (n / 16777216) mod 256].

Definition NTLMSSP : bytes := [0x4E; 0x54; 0x4C; 0x4D; 0x53; 0x53; 0x50; 0x00].

Definition ntlm_type1_buf : bytes :=
  NTLMSSP ++ to_le_bytes 1 ++ to_le_bytes 0x000082B7
  ++ [0; 0; 0; 0] ++ [0; 0; 0; 0] ++ [0; 0; 0; 0] ++ [0; 0; 0; 0]
  ++ [0; 0; 0; 0; 0; 0; 0; 0] ++ to_le_bytes 0.
Definition ntlm_type1_message : str := b64_encode ntlm_type1_buf.

Definition ntlm_type3_buf : bytes := NTLMSSP ++ to_le_bytes 3 ++ replicate 48 0.
Definition ntlm_type3_message (challenge : bytes) : result str AuthError :=
  if (length challenge <? 32)%nat then Err (Backend (lit "short NTLM Type-2"))
  else Ok (b64_encode ntlm_type3_buf).

Definition KERBEROS_OFF : str :=
  lit "Kerberos / Negotiate requires the 'enterprise-auth' feature (needs sspi on Windows or libgssapi + MIT/Heimdal on POSIX). Build with: cargo build --features enterprise-auth".

(** [kerberos] is [None] in a build without the [enterprise-auth] feature, and
    otherwise what the system library answers; the token is empty either way. *)
Definition kerberos_apreq_token (target_host : str) : result str AuthError :=
  match kerberos with
  | None => Err (Backend KERBEROS_OFF)
  | Some (Err e) => Err (Backend e)
  | Some (Ok _) => Ok (b64_encode [])
  end.

Definition basic_credential (host : str) : result str AuthError :=
  Ok (b64_encode (as_bytes (lit ":"))).

Definition build_auth_response (scheme : AuthScheme) (challenge : bytes) (target_host : str)
  : result str AuthError :=
  match scheme with
  | Ntlm =>
      match challenge with
      | [] => Ok (lit "NTLM " ++ ntlm_type1_message)
      | _ => match ntlm_type3_message challenge with
          | Ok m => Ok (lit "NTLM " ++ m)
          | Err e => Err e
          end
      end
  | Negotiate =>
      match kerberos_apreq_token target_host with
      | Ok token => Ok (lit "Negotiate " ++ token)
      | Err e => Err e
      end
  | Basic =>
      match basic_credential target_host with
      | Ok c => Ok (lit "Basic " ++ c)
      | Err e => Err e
      end
  | _ => Err UnsupportedScheme
  end.

(** ** The engine *)

(** [states.entry(key).or_default()] *)
Definition entry_or_default (states : gmap str AuthState) (key : str) : AuthState :=
  default AuthState_default (states !! key).

(** What [observe] writes to the entry when it has parsed the challenge [c]. *)
Definition record_challenge (st : AuthState) (c : AuthChallenge) : AuthState :=
  mkAuthState ChallengeReceived (Some (ac_scheme c)) (ac_realm c) (ntlm_challenge st) false.

Definition set_phase (st : AuthState) (p : AuthPhase) (r : bool) : AuthState :=
  mkAuthState p (st_scheme st) (st_realm st) (ntlm_challenge st) r.

Definition observe (states : gmap str AuthState) (conn_key : str) (status : Z)
  (www_auth proxy_auth : option str)
  : gmap str AuthState * option AuthChallenge :=
  let st := entry_or_default states conn_key in
  let challenged o h :=
  match o ≫= parse_challenge h with
  | Some c => (<[conn_key := record_challenge st c]> states, Some c)
  | None => (<[conn_key := st]> states, None)
  end in
  if status =? 401 then challenged www_auth Authorization
  else if status =? 407 then challenged proxy_auth ProxyAuthorization
  else if between 200 status 299
  then (<[conn_key := set_phase st Authenticated (retried st)]> states, None)
  else (<[conn_key := st]> states, None).

Definition ALREADY_RETRIED : AuthError := Backend (lit "auth already retried once").

Definition build_retry_header (states : gmap str AuthState) (conn_key : str)
  (challenge : AuthChallenge) (target_host : str)
  : gmap str AuthState * result (AuthHeader * str) AuthError :=
  let st := entry_or_default states conn_key in
  if retried st then (<[conn_key := st]> states, Err ALREADY_RETRIED)
  else match build_auth_response (ac_scheme challenge) (ac_payload challenge) target_host with
  | Err e => (<[conn_key := st]> states, Err e)
  | Ok value =>
      (<[conn_key := set_phase st Authenticated true]> states,
      Ok (ac_header challenge, value))
  end.

(** [AuthEngine::new()] *)
Definition AuthEngine_new : gmap str AuthState := ∅.

(** ** Runs of the engine *)

(** A call of the engine, with its connection key. *)
Inductive auth_call :=
| CallObserve (key : str) (status : Z) (www proxy : option str)
| CallRetry (key : str) (challenge : AuthChallenge) (host : str).

Definition call_key (c : auth_call) : str :=
  match c with CallObserve k _ _ _ => k | CallRetry k _ _ => k end.

Inductive auth_reply :=
| ReplyObserve (c : option AuthChallenge)
| ReplyRetry (r : result (AuthHeader * str) AuthError).

Definition run_call (s : gmap str AuthState) (c : auth_call) : gmap str AuthState * auth_reply :=
  match c with
  | CallObserve k status www proxy => prod_map id ReplyObserve (observe s k status www proxy)
  | CallRetry k challenge host => prod_map id ReplyRetry (build_retry_header s k challenge host)
  end.

Inductive auth_step (s : gmap str AuthState) : gmap str AuthState -> Prop :=
| auth_step_call c : auth_step s (fst (run_call s c)).

(** States reachable from [AuthEngine::new()]. *)
Definition reachable (s : gmap str AuthState) : Prop := rtc auth_step ∅ s.

(** The calls of one trap-and-retry in [Pipeline::execute_request]: a response is
    observed and, when it carries a challenge, answered. *)
Definition exchange (s : gmap str AuthState) (k : str) (status : Z)
  (www proxy : option str) (host : str)
  : gmap str AuthState * option (result (AuthHeader * str) AuthError) :=
  match observe s k status www proxy with
  | (s, None) => (s, None)
  | (s, Some c) => let '(s, r) := build_retry_header s k c host in (s, Some r)
  end.

Fixpoint exchanges (n : nat) (s : gmap str AuthState) (k : str) (status : Z)
  (www proxy : option str) (host : str)
  : gmap str AuthState * list (option (result (AuthHeader * str) AuthError)) :=
  match n with
  | O => (s, [])
  | S n => let '(s, r) := exchange s k status www proxy host in
      let '(s, rs) := exchanges n s k status www proxy host in (s, r :: rs)
  end.

Fixpoint run_calls (s : gmap str AuthState) (cs : list auth_call) : gmap str AuthState :=
  match cs with
  | [] => s
  | c :: cs => run_calls (fst (run_call s c)) cs
  end.

(** The calls that put a new challenge on connection [k]. *)
Definition challenges (k : str) (c : auth_call) : bool :=
  match c with
  | CallObserve k' status www proxy =>
      str_eqb k' k && (((status =? 401) && bool_decide (is_Some www))
  || ((status =? 407) && bool_decide (is_Some proxy)))
  | CallRetry _ _ _ => false
  end.
End Code.

(** ** The invariant of an entry *)

Definition entry_inv (st : AuthState) : Prop :=
  (phase st = ChallengeReceived -> is_Some (st_scheme st) /\ retried st = false)
  /\ (retried st = true -> phase st = Authenticated)
  /\ ntlm_challenge st = None.

Definition engine_inv (s : gmap str AuthState) : Prop := map_Forall (fun _ => entry_inv) s.

(** ** Lemmas *)

Section Facts.
Context {B64 : Base64} (kerberos : option (result unit str)).
Implicit Types (s : gmap str AuthState) (c : AuthChallenge) (k : str).

Lemma parse_challenge_some h v : exists c, parse_challenge h v = Some c.
Proof. unfold parse_challenge. destruct (splitn2_ws (trim v)). eauto. Qed.

(** Every call writes one entry: the one of its key. *)
Lemma run_call_writes s call :
  exists st, fst (run_call kerberos s call) = <[call_key call := st]> s.
Proof.
  destruct call as [k status www proxy|k c host]; cbn.
  - unfold observe. repeat case_match; eauto.
  - unfold build_retry_header. repeat case_match; eauto.
Qed.

(** What a call does depends on its own entry only. *)
Lemma run_call_local s s' call :
  s !! call_key call = s' !! call_key call ->
  snd (run_call kerberos s call) = snd (run_call kerberos s' call)
  /\ fst (run_call kerberos s call) !! call_key call
  = fst (run_call kerberos s' call) !! call_key call.
Proof.
  destruct call as [k status www proxy|k c host]; cbn; intros H;
    unfold observe, build_retry_header, entry_or_default; rewrite H;
    repeat case_match; cbn; by rewrite !lookup_insert_eq.
Qed.

Lemma run_call_frame s call k :
  k <> call_key call -> fst (run_call kerberos s call) !! k = s !! k.
Proof. intros Hk. destruct (run_call_writes s call) as [st ->]. by rewrite lookup_insert_ne. Qed.

(** A connection that has used its one retry. *)
Definition spent s k : Prop := exists st, s !! k = Some st /\ retried st = true.

Lemma spent_call s k call :
  spent s k -> challenges k call = false -> spent (fst (run_call kerberos s call)) k.
Proof.
  intros (st & Hk & Hr) Hc. destruct (decide (k = call_key call)) as [->|Hne].
  2:{ exists st. by rewrite run_call_frame. }
  destruct call as [k status www proxy|k c host]; cbn in Hk |- *.
  - unfold observe, entry_or_default. rewrite Hk. cbn [default from_option id].
    cbn [challenges call_key] in Hc. unfold str_eqb in Hc.
    rewrite bool_decide_eq_true_2 in Hc by done.
    destruct (status =? 401), (status =? 407), www, proxy; try discriminate Hc;
      cbn [mbind option_bind]; try case_match; cbn; eexists; (split; [apply lookup_insert_eq|done]).
  - unfold build_retry_header, entry_or_default. rewrite Hk. cbn. rewrite Hr.
    exists st. split; [apply lookup_insert_eq|done].
Qed.

Lemma spent_calls s k cs :
  spent s k -> Forall (fun call => challenges k call = false) cs -> spent (run_calls kerberos s cs) k.
Proof.
  revert s. induction cs as [|c cs IH]; intros s H Hcs; [done|]. inv Hcs.
  apply IH; [|done]. by apply spent_call.
Qed.

Lemma spent_refused s k c host :
  spent s k -> build_retry_header kerberos s k c host = (s, Err ALREADY_RETRIED).
Proof.
  intros (st & Hk & Hr). unfold build_retry_header, entry_or_default. rewrite Hk. cbn.
  rewrite Hr. by rewrite insert_id.
Qed.

Lemma entry_inv_default : entry_inv AuthState_default.
Proof. by repeat split. Qed.

Lemma entry_inv_lookup s k : engine_inv s -> entry_inv (entry_or_default s k).
Proof.
  intros H. unfold entry_or_default. destruct (s !! k) eqn:E; cbn.
  - by eapply H.
  - apply entry_inv_default.
Qed.

Lemma entry_inv_record st c : entry_inv st -> entry_inv (record_challenge st c).
Proof. intros (_ & _ & H). split_and!; cbn; [eauto|discriminate|exact H]. Qed.

Lemma entry_inv_authenticated st r : entry_inv st -> entry_inv (set_phase st Authenticated r).
Proof. intros (_ & _ & H). split_and!; cbn; [discriminate|done|exact H]. Qed.

Lemma engine_inv_step s call : engine_inv s -> engine_inv (fst (run_call kerberos s call)).
Proof.
  intros H. pose proof (entry_inv_lookup s (call_key call) H) as He.
  destruct call as [k status www proxy|k c host]; cbn [call_key] in He; cbn;
    unfold observe, build_retry_header; repeat case_match; cbn;
    apply map_Forall_insert_2; auto using entry_inv_record, entry_inv_authenticated.
Qed.

End Facts.

(** Whatever calls are made, an entry of the engine keeps its invariant: a
    connection waiting for an answer has a scheme and may still retry, one that
    has retried counts as authenticated, and no Type-2 blob is ever stored. *)
Theorem engine_inv_reachable {B64 : Base64} (kerberos : option (result unit str))
    (s : gmap str AuthState) (H : reachable kerberos s) : engine_inv s.
Proof.
  unfold reachable in H. eapply (rtc_invariant (auth_step kerberos)); [|exact H|].
  - intros x y Hx []. by apply engine_inv_step.
  - apply map_Forall_empty.
Qed.

Theorem engine_inv_reachable_witness :
  engine_inv (fst (run_call (B64 := Rfc4648.engine) None ∅
    (CallObserve (lit "h:80:http") 401 (Some (lit "NTLM")) None))).
Proof.
  apply (engine_inv_reachable (B64 := Rfc4648.engine) None). apply rtc_once. constructor.
Defined.

(** Calls on different connections commute: in either order they leave the
    same engine and get the same replies, so requests on separate connections do
    not disturb each other's handshakes. *)
Theorem calls_commute {B64 : Base64} (kerberos : option (result unit str))
    (s : gmap str AuthState) (a b : auth_call) (H : call_key a <> call_key b) :
  let '(sa, ra) := run_call kerberos s a in
  let '(sb, rb) := run_call kerberos s b in
  run_call kerberos sa b = (fst (run_call kerberos sb a), rb)
  /\ snd (run_call kerberos sb a) = ra.
Proof.
  pose proof (run_call_local kerberos s (fst (run_call kerberos s a)) b) as [Hb1 Hb2].
  { by rewrite run_call_frame. }
  pose proof (run_call_local kerberos s (fst (run_call kerberos s b)) a) as [Ha1 Ha2].
  { by rewrite run_call_frame. }
  destruct (run_call kerberos s a) as [sa ra] eqn:Ea, (run_call kerberos s b) as [sb rb] eqn:Eb.
  cbn in *. split; [|done].
  destruct (run_call kerberos sa b) as [sab rab] eqn:Eab. cbn in *. subst rab. f_equal.
  apply map_eq. intros k.
  pose proof (run_call_frame kerberos sa b k) as F1. rewrite Eab in F1. cbn in F1.
  pose proof (run_call_frame kerberos sb a k) as F2.
  pose proof (run_call_frame kerberos s a k) as F3. rewrite Ea in F3. cbn in F3.
  pose proof (run_call_frame kerberos s b k) as F4. rewrite Eb in F4. cbn in F4.
  destruct (decide (k = call_key a)) as [->|Hka].
  - rewrite F1, <- Ha2 by done. done.
  - rewrite F2 by done. destruct (decide (k = call_key b)) as [->|Hkb]; [done|].
    by rewrite F1, F3, F4.
Qed.

Theorem calls_commute_witness :
  let a := CallObserve (lit "a") 401 (Some (lit "Basic")) None in
  let b := CallObserve (lit "b") 407 None (Some (lit "NTLM")) in
  let run := run_call (B64 := Rfc4648.engine) None in
  let '(sa, ra) := run ∅ a in
  let '(sb, rb) := run ∅ b in
  run sa b = (fst (run sb a), rb) /\ snd (run sb a) = ra.
Proof. apply (calls_commute (B64 := Rfc4648.engine) None ∅). by_eval. Defined.

(** Once a retry header has been built for a connection, no later call
    obtains a second one before a new challenge arrives on that connection:
    every further attempt is refused and leaves the engine as it is, whatever
    other calls (on this or on other connections) happened in between. *)
Theorem retried_at_most_once {B64 : Base64} (kerberos : option (result unit str))
    (s s1 : gmap str AuthState) (k : str) (c c' : AuthChallenge) (host host' : str)
    (v : AuthHeader * str) (cs : list auth_call)
    (Hok : build_retry_header kerberos s k c host = (s1, Ok v))
    (Hcs : Forall (fun call => challenges k call = false) cs) :
  build_retry_header kerberos (run_calls kerberos s1 cs) k c' host'
  = (run_calls kerberos s1 cs, Err ALREADY_RETRIED).
Proof.
  apply spent_refused, spent_calls; [|done].
  unfold build_retry_header in Hok. repeat case_match; simplify_eq.
  eexists. split; [apply lookup_insert_eq|done].
Qed.

Theorem retried_at_most_once_witness :
  let c := mkAuthChallenge Ntlm None [] Authorization in
  let cs := [CallObserve (lit "a") 200 None None; CallObserve (lit "b") 401 (Some (lit "NTLM")) None] in
  let s1 := fst (build_retry_header (B64 := Rfc4648.engine) None ∅ (lit "a") c (lit "a")) in
  let s2 := run_calls (B64 := Rfc4648.engine) None s1 cs in
  build_retry_header (B64 := Rfc4648.engine) None s2 (lit "a") c (lit "a") = (s2, Err ALREADY_RETRIED).
Proof.
  apply (retried_at_most_once (B64 := Rfc4648.engine) None ∅ _ _
           (mkAuthChallenge Ntlm None [] Authorization) _ (lit "a") (lit "a")
           (Authorization, lit "NTLM " ++ ntlm_type1_message (B64 := Rfc4648.engine))).
  - vm_compute. reflexivity.
  - repeat constructor.
Defined.

(** C36: a server that challenges every request of one connection is answered
    every time: each observed challenge clears [retried], so [n] rounds of
    observe-and-answer give [n] times the same answer, and the engine never
    says that the connection has already retried. *)
Theorem exchanges_always_answered {B64 : Base64} (kerberos : option (result unit str))
    (n : nat) (s : gmap str AuthState) (k v host : str) (c : AuthChallenge)
    (Hc : parse_challenge Authorization v = Some c) :
  snd (exchanges kerberos n s k 401 (Some v) None host)
  = replicate n (Some match build_auth_response kerberos (ac_scheme c) (ac_payload c) host with
                      | Ok value => Ok (Authorization, value)
                      | Err e => Err e
                      end).
Proof.
  assert (Hh : ac_header c = Authorization).
  { unfold parse_challenge in Hc. destruct (splitn2_ws (trim v)). by simplify_eq/=. }
  revert s. induction n as [|n IH]; intros s; [done|]. cbn [exchanges].
  unfold exchange, observe. cbn [Z.eqb Pos.eqb mbind option_bind]. rewrite Hc.
  unfold build_retry_header, entry_or_default at 1.
  rewrite lookup_insert_eq. cbn [default from_option id retried record_challenge].
  destruct (build_auth_response _ _ _ _) eqn:E.
  - rewrite (surjective_pairing (exchanges _ n _ _ _ _ _ _)), IH. cbn. by rewrite Hh.
  - by rewrite (surjective_pairing (exchanges _ n _ _ _ _ _ _)), IH.
Qed.

Theorem exchanges_always_answered_witness :
  snd (exchanges (B64 := Rfc4648.engine) None 3 ∅ (lit "k") 401 (Some (lit "Basic realm=x")) None (lit "h"))
  = replicate 3 (Some (Ok (Authorization, lit "Basic Og=="))).
Proof.
  apply (exchanges_always_answered (B64 := Rfc4648.engine) None 3 ∅ (lit "k") (lit "Basic realm=x")
           (lit "h") (mkAuthChallenge Basic (Some (lit "x")) [] Authorization)).
  vm_compute. reflexivity.
Defined.

(** ** What a challenge parses to *)

Section Parsing.
Context {B64 : Base64} {Laws : Base64Laws B64}.

Lemma parse_challenge_token h scheme rest :
  Forall (fun c => is_whitespace c = false) scheme -> scheme <> [] -> no_ws_ends rest -> rest <> [] ->
  parse_challenge h (scheme ++ 32 :: rest)
  = Some (mkAuthChallenge (AuthScheme_parse scheme)
  (fold_left realm_step (split (ch ",") rest) None)
  match AuthScheme_parse scheme with
  | Negotiate | Ntlm =>
      match split_whitespace rest with
      | token :: _ => default [] (b64_decode token)
      | [] => []
      end
  | _ => []
  end h).
Proof.
  intros Hs Hne Hr Hrne. unfold parse_challenge.
  rewrite trim_id.
  - by rewrite splitn2_ws_app.
  - change (scheme ++ 32 :: rest) with (scheme ++ [32] ++ rest). split.
    + intros c. destruct scheme; [done|]. apply no_ws_ends_Forall in Hs. apply Hs.
    + intros c. rewrite last_app. cbn [app].
      destruct rest as [|x rest]; [done|]. rewrite last_cons_cons.
      destruct (last (x :: rest)) eqn:E; [|by apply last_None in E]. intros [= <-]. by apply Hr.
Qed.

Lemma parse_challenge_bare h scheme :
  Forall (fun c => is_whitespace c = false) scheme ->
  parse_challenge h scheme = Some (mkAuthChallenge (AuthScheme_parse scheme) None [] h).
Proof.
  intros Hs. unfold parse_challenge. rewrite trim_id, splitn2_ws_single by auto using no_ws_ends_Forall.
  by destruct (AuthScheme_parse scheme).
Qed.

Lemma AuthScheme_parse_nil s : AuthScheme_parse s = Ntlm -> s <> [].
Proof. by intros ? ->. Qed.

Lemma AuthScheme_parse_ntlm s :
  to_ascii_lowercase s = lit "ntlm" ->
  AuthScheme_parse s = Ntlm /\ Forall (fun c => is_whitespace c = false) s.
Proof.
  intros H. split; [unfold AuthScheme_parse; by rewrite H|].
  apply lower_no_ws. rewrite H. repeat constructor.
Qed.

(** A blob printed after an [NTLM] token, in any letter case, is read back. *)
Lemma parse_ntlm h scheme blob :
  to_ascii_lowercase scheme = lit "ntlm" -> Forall (fun b => is_byte b = true) blob ->
  exists realm, parse_challenge h (scheme ++ 32 :: b64_encode blob)
  = Some (mkAuthChallenge Ntlm realm blob h)
  \/ (blob = [] /\ b64_encode blob = []).
Proof.
  intros [Hp Hs]%AuthScheme_parse_ntlm Hb.
  destruct (decide (b64_encode blob = [])) as [He|He].
  { exists None. right. split; [by apply b64_encode_nil|done]. }
  eexists. left. pose proof (b64_encode_no_space blob Hb) as Hn.
  rewrite parse_challenge_token, Hp; auto using no_ws_ends_Forall, AuthScheme_parse_nil.
  by rewrite split_whitespace_token, b64_decode_encode.
Qed.

(** Parameters as a server prints them. *)
Definition show_param (p : str * str) : str := fst p ++ [ch "="; 34] ++ snd p ++ [34].
Definition show_challenge (scheme : str) (ps : list (str * str)) : str :=
  scheme ++ 32 :: join [ch ","; 32] (show_param <$> ps).

Definition param_ok (p : str * str) : Prop :=
  ((ch "," ∉ fst p) /\ (ch "=" ∉ fst p) /\ no_ws_ends (fst p) /\ fst p <> [])
  /\ (ch "," ∉ snd p) /\ (34 ∉ snd p).
#[export] Instance param_ok_dec p : Decision (param_ok p).
Proof.
  unfold param_ok, no_ws_ends.
  assert (forall o, Decision (forall c : char, o = Some c -> is_whitespace c = false)).
  { intros [c|]; [|by left]. destruct (is_whitespace c) eqn:E; [right|left].
    - intros H. specialize (H c eq_refl). congruence.
    - by intros ? [= <-]. }
  apply _.
Defined.

(** The realm a reader of the list would expect: the last parameter so named. *)
Definition realm_of (ps : list (str * str)) : option str :=
  snd <$> last (filter (fun p => to_ascii_lowercase (fst p) = lit "realm") ps).

Lemma show_param_ends p : param_ok p -> no_ws_ends (show_param p) /\ (ch "," ∉ show_param p).
Proof.
  intros [(Hk1 & Hk2 & Hk3 & Hk4) [Hv1 Hv2]]. split.
  - unfold show_param. apply no_ws_ends_app; [done| |done|done].
    split; [by intros ? [= <-]|]. intros c. rewrite !last_app. cbn. by intros [= <-].
  - unfold show_param. rewrite !not_elem_of_app. split_and!; [done| |done|];
      rewrite ?not_elem_of_cons; by_eval.
Qed.

Lemma realm_step_param r p :
  param_ok p ->
  realm_step r (show_param p)
  = (if str_eqb (to_ascii_lowercase (fst p)) (lit "realm") then Some (snd p) else r)
  /\ realm_step r (32 :: show_param p) = realm_step r (show_param p).
Proof.
  intros Hp. pose proof (show_param_ends p Hp) as [He _].
  assert (Ht : trim (32 :: show_param p) = trim (show_param p)) by reflexivity.
  split; [|unfold realm_step; by rewrite Ht].
  destruct Hp as [(Hk1 & Hk2 & Hk3 & Hk4) [Hv1 Hv2]].
  unfold realm_step. rewrite trim_id by done. unfold show_param at 1. cbn [app].
  rewrite split_once_app, (trim_id (fst p)) by done.
  rewrite trim_id, trim_matches_quoted by
    (done || (split; [by intros ? [= <-]|intros c; rewrite last_cons, last_app; cbn; by intros [= <-]])).
  done.
Qed.

Lemma realm_fold r ps :
  Forall param_ok ps ->
  fold_left realm_step (show_param <$> ps) r
  = match realm_of ps with Some v => Some v | None => r end
  /\ fold_left realm_step (cons 32 <$> (show_param <$> ps)) r
  = match realm_of ps with Some v => Some v | None => r end.
Proof.
  intros H. revert r. induction H as [|p ps Hp Hps IH]; intros r; [done|].
  cbn [fmap list_fmap fold_left]. destruct (realm_step_param r p Hp) as [H1 H2].
  rewrite H2, H1. rewrite !(proj1 (IH _)), !(proj2 (IH _)).
  assert (E : realm_of (p :: ps) = match realm_of ps with
    | Some v => Some v
    | None => if str_eqb (to_ascii_lowercase (fst p)) (lit "realm") then Some (snd p) else None end).
  { unfold realm_of, str_eqb. rewrite filter_cons.
    destruct (decide _) as [Hr|Hr];
      [rewrite last_cons, bool_decide_eq_true_2 by done|rewrite bool_decide_eq_false_2 by done];
      by destruct (last _). }
  rewrite E. destruct (realm_of ps), (str_eqb _ _); done.
Qed.

Lemma AuthScheme_parse_lower s t :
  to_ascii_lowercase s = to_ascii_lowercase t -> AuthScheme_parse s = AuthScheme_parse t.
Proof. unfold AuthScheme_parse. by intros ->. Qed.
End Parsing.

(** C35: the first leg of the NTLM handshake.  A Type-2 blob printed in base64
    after [NTLM] (in any letter case) is parsed back byte for byte, and the answer
    built from it is the 44-byte Type-1 message when the blob is empty, an error
    when it is shorter than 32 bytes, and the 60-byte Type-3 message otherwise,
    each with the NTLMSSP signature and its message number in the payload. *)
Theorem ntlm_handshake `{Base64Laws} (kerberos : option (result unit str))
    (h : AuthHeader) (scheme host : str) (blob : bytes)
    (Hs : to_ascii_lowercase scheme = lit "ntlm")
    (Hb : Forall (fun b => is_byte b = true) blob) (Hne : blob <> []) :
  exists c, parse_challenge h (scheme ++ 32 :: b64_encode blob) = Some c
  /\ ac_scheme c = Ntlm /\ ac_payload c = blob /\ ac_header c = h
  /\ (let answer payload := build_auth_response kerberos (ac_scheme c) payload host in
      let message n size m :=
        take 8 m = NTLMSSP /\ take 4 (drop 8 m) = to_le_bytes n /\ length m = size in
      (exists t m, answer [] = Ok (lit "NTLM " ++ t) /\ b64_decode t = Some m
                   /\ message 1 44%nat m)
      /\ if (length blob <? 32)%nat then answer blob = Err (Backend (lit "short NTLM Type-2"))
         else exists t m, answer blob = Ok (lit "NTLM " ++ t) /\ b64_decode t = Some m
                          /\ message 3 60%nat m).
Proof.
  destruct (parse_ntlm h scheme blob Hs Hb) as [realm [Hc|[? _]]]; [|done].
  eexists. split; [exact Hc|]. split; [done|]. split; [done|]. split; [done|].
  cbn zeta beta. cbn [ac_scheme build_auth_response]. split.
  { eexists _, ntlm_type1_buf. split; [reflexivity|]. split; [|by repeat split].
    apply b64_decode_encode. by_eval. }
  destruct blob as [|b blob]; [done|]. unfold ntlm_type3_message.
  destruct (length (b :: blob) <? 32)%nat; [done|].
  eexists _, ntlm_type3_buf. split; [reflexivity|]. split; [|by repeat split].
  apply b64_decode_encode. by_eval.
Qed.

Theorem ntlm_handshake_witness :
  exists c, parse_challenge (B64 := Rfc4648.engine) Authorization
              (lit "NtLm" ++ 32 :: Rfc4648.encode (replicate 40 7)) = Some c
  /\ ac_payload c = replicate 40 7.
Proof.
  destruct (ntlm_handshake (H := Rfc4648.engine) (H0 := Rfc4648.engine_laws) None Authorization (lit "NtLm") (lit "h")
              (replicate 40 7)) as (c & H1 & _ & H3 & _).
  - by_eval.
  - by_eval.
  - by_eval.
  - by exists c.
Defined.

(** The realm of a challenge survives printing and parsing: of the printed
    parameters the last one named [realm], in any letter case, is taken, unquoted;
    without one there is no realm.  (Values must not contain a comma: the parser
    splits inside quotes.) *)
Theorem parse_realm_roundtrip {B64 : Base64} (h : AuthHeader) (scheme : str)
    (ps : list (str * str))
    (Hs : Forall (fun c => is_whitespace c = false) scheme) (Hne : scheme <> [])
    (Hps : Forall param_ok ps) (Hpne : ps <> []) :
  exists payload, parse_challenge h (show_challenge scheme ps)
    = Some (mkAuthChallenge (AuthScheme_parse scheme) (realm_of ps) payload h).
Proof.
  destruct ps as [|p ps]; [done|]. inversion Hps as [|? ? Hp Hps']; subst.
  destruct (show_param_ends p Hp) as [Hends Hcomma].
  assert (Hne' : forall q, show_param q <> []) by (intros [[|? ?] ?]; done).
  assert (Hrest : no_ws_ends (join [ch ","; 32] (show_param <$> p :: ps))
                  /\ join [ch ","; 32] (show_param <$> p :: ps) <> []).
  { clear Hps Hpne Hcomma. revert p Hp Hends. induction ps as [|q ps IH]; intros p Hp Hends; [split; [exact Hends|apply Hne']|].
    inversion Hps' as [|? ? Hq Hps'']; subst.
    destruct (IH Hps'' q Hq (proj1 (show_param_ends q Hq))) as [Hi1 Hi2].
    cbn [fmap list_fmap] in *. rewrite join_cons_cons. split.
    - apply no_ws_ends_app; [done| |done|done]. split; [by intros ? [= <-]|].
      intros c. rewrite last_app. destruct (last (join _ _)) eqn:E; [|by apply last_None in E].
      intros [= <-]. by apply Hi1.
    - intros [? _]%app_nil. by apply (Hne' p). }
  destruct Hrest as [Hr1 Hr2]. eexists. unfold show_challenge.
  rewrite parse_challenge_token by done. repeat f_equal.
  cbn [fmap list_fmap]. rewrite split_join_blank; [|
    constructor; [done|]; apply Forall_fmap; eapply Forall_impl; [exact Hps'|];
    intros q Hq; apply (show_param_ends q Hq) | done].
  cbn [fold_left]. destruct (realm_step_param None p Hp) as [-> _].
  rewrite (proj2 (realm_fold _ _ Hps')).
  unfold realm_of, str_eqb. rewrite filter_cons.
  destruct (decide _) as [Hr|Hr];
    [rewrite last_cons, bool_decide_eq_true_2 by done|rewrite bool_decide_eq_false_2 by done];
    by destruct (last _).
Qed.

Theorem parse_realm_roundtrip_witness :
  exists payload, parse_challenge (B64 := Rfc4648.engine) Authorization
      (lit "Digest qop=" ++ [34] ++ lit "auth" ++ [34] ++ lit ", Realm=" ++ [34] ++ lit "W X" ++ [34])
  = Some (mkAuthChallenge Digest (Some (lit "W X")) payload Authorization).
Proof.
  apply (parse_realm_roundtrip (B64 := Rfc4648.engine) Authorization (lit "Digest")
           [(lit "qop", lit "auth"); (lit "Realm", lit "W X")]).
  - by_eval.
  - by_eval.
  - by_eval.
  - done.
Defined.
