(* ===== verification/Tests.v ===== *)
(** * The repository's own unit tests (engine/src/protocols/auth.rs, [mod tests])

    Each test as a boolean that evaluates the model; an [unwrap] of [None] is a
    failing test.  They run on the base64 engine of [Base64.Rfc4648]. *)

From S2P Require Import Prelude Str Base64 Auth.

Section Tests.
#[local] Existing Instance Rfc4648.engine.

(** [u32::from_le_bytes] *)
Definition from_le_bytes (b : bytes) : option Z :=
  match b with
  | [b0; b1; b2; b3] => Some (b0 + 256 * b1 + 65536 * b2 + 16777216 * b3)
  | _ => None
  end.

Definition parse_basic_challenge : bool :=
  match parse_challenge Authorization (lit "Basic realm=" ++ [34] ++ lit "WallyWorld" ++ [34]) with
  | Some c => bool_decide (ac_scheme c = Basic) && bool_decide (ac_realm c = Some (lit "WallyWorld"))
  | None => false
  end.

Definition parse_ntlm_challenge : bool :=
  let challenge_b64 := b64_encode (replicate 32 0) in
  match parse_challenge ProxyAuthorization (lit "NTLM " ++ challenge_b64) with
  | Some c => bool_decide (ac_scheme c = Ntlm) && (length (ac_payload c) =? 32)%nat
  | None => false
  end.

Definition build_ntlm_type1_round_trips : bool :=
  match b64_decode ntlm_type1_message with
  | Some decoded =>
      bool_decide (take 8 decoded = lit "NTLMSSP" ++ [0])
      && bool_decide (from_le_bytes (take 4 (drop 8 decoded)) = Some 1)
  | None => false
  end.

(** The repository's tests pass on the model. *)
Theorem unit_tests_pass :
  parse_basic_challenge = true /\ parse_ntlm_challenge = true /\ build_ntlm_type1_round_trips = true.
Proof. by_eval. Qed.
End Tests.
