(* ===== verification/WebTransport.v ===== *)
(** * WebTransport sessions, streams and datagrams (engine/src/protocols/webtransport.rs)

    A session handle is the address of a boxed [WTSession]; besides the boxes the
    module keeps one global registry of queues behind a mutex.  [world] is both:
    the heap of live boxes and the registry.  The address of a new box is chosen
    by the allocator, so it is an argument of the call that allocates.  What a queued
    datagram points to belongs to the socket layer: [traffic] adds that memory. *)

From S2P Require Import Prelude.

(** ** Data *)

Record WTSession := mkWTSession {
  session_id : Z;
  outgoing_streams : Z;
  incoming_streams : Z;
  datagrams_queued : Z;
  max_sessions : Z;
  datagrams_enabled : bool;
}.

Record WTStream := mkWTStream {
  stream_id : Z;
  is_bidi : bool;
  is_writable : bool;
  is_readable : bool;
}.

(** The payload is not copied: a datagram is its address and length. *)
Record WTDatagram := mkWTDatagram {
  dg_session_id : Z;
  data_ptr : Z;
  data_len : Z;
}.

#[export] Instance WTSession_eq_dec : EqDecision WTSession.
Proof. solve_decision. Defined.
#[export] Instance WTStream_eq_dec : EqDecision WTStream.
Proof. solve_decision. Defined.
#[export] Instance WTDatagram_eq_dec : EqDecision WTDatagram.
Proof. solve_decision. Defined.

Record WtRegistry := mkWtRegistry {
  sessions : list WTSession;
  streams : list WTStream;
  datagrams : list WTDatagram;
}.

Definition WtRegistry_new : WtRegistry := mkWtRegistry [] [] [].

Record world := mkWorld {
  boxes : gmap Z WTSession;
  reg : WtRegistry;
}.
#[export] Instance WtRegistry_eq_dec : EqDecision WtRegistry.
Proof. solve_decision. Defined.
#[export] Instance world_eq_dec : EqDecision world.
Proof. solve_decision. Defined.

Definition world_init : world := mkWorld ∅ WtRegistry_new.

Definition NULL : Z := 0.

(** ** Operations *)

Definition znet_wt_create_session (w : world) (addr : Z) (id max : Z) (dgrams : bool) : world * Z :=
  if max <=? u32 (Z.of_nat (length (sessions (reg w)))) then (w, NULL)
  else
    let session := mkWTSession id 0 0 0 max dgrams in
    (mkWorld (<[addr := session]> (boxes w))
       (mkWtRegistry (sessions (reg w) ++ [session]) (streams (reg w)) (datagrams (reg w))),
     addr).

Definition add_stream (s : WTSession) : WTSession :=
  mkWTSession (session_id s) (u32 (outgoing_streams s + 1)) (incoming_streams s)
    (datagrams_queued s) (max_sessions s) (datagrams_enabled s).

Definition add_datagram (s : WTSession) : WTSession :=
  mkWTSession (session_id s) (outgoing_streams s) (incoming_streams s)
    (u32 (datagrams_queued s + 1)) (max_sessions s) (datagrams_enabled s).

(** A handle that is not the address of a live box is undefined behaviour. *)
Definition znet_wt_open_stream (w : world) (handle id : Z) (bidi : bool) : outcome (world * Z) :=
  if handle =? NULL then Ret (w, -1)
  else match boxes w !! handle with
       | None => Undefined
       | Some s =>
           Ret (mkWorld (<[handle := add_stream s]> (boxes w))
                  (mkWtRegistry (sessions (reg w))
                     (streams (reg w) ++ [mkWTStream id bidi true bidi]) (datagrams (reg w))), 0)
       end.

Definition znet_wt_queue_datagram (w : world) (handle sid data len : Z) : outcome (world * Z) :=
  if (handle =? NULL) || (data =? NULL) then Ret (w, -1)
  else match boxes w !! handle with
       | None => Undefined
       | Some s =>
           if negb (datagrams_enabled s) then Ret (w, -2)
           else Ret (mkWorld (<[handle := add_datagram s]> (boxes w))
                       (mkWtRegistry (sessions (reg w)) (streams (reg w))
                          (datagrams (reg w) ++ [mkWTDatagram sid data len])), 0)
       end.

Definition znet_wt_close_session (w : world) (handle : Z) : outcome (world * Z) :=
  if handle =? NULL then Ret (w, -1)
  else match boxes w !! handle with
       | None => Undefined
       | Some _ => Ret (mkWorld (delete handle (boxes w)) (reg w), 0)
       end.

(** [while n < max { match pop_front ... }]; [out] is the caller's array, and a
    write behind its end is undefined behaviour. *)
Fixpoint drain_loop (q out : list WTDatagram) (n max : nat)
  : outcome (list WTDatagram * list WTDatagram * nat) :=
  if (n <? max)%nat then
    match q with
    | dg :: q =>
        if (n <? length out)%nat then drain_loop q (<[n := dg]> out) (S n) max else Undefined
    | [] => Ret (q, out, n)
    end
  else Ret (q, out, n).

(** [out] is [None] for a null pointer. *)
Definition znet_wt_drain_datagrams (w : world) (out : option (list WTDatagram)) (max : nat)
  : outcome (world * option (list WTDatagram) * nat) :=
  match out with
  | None => Ret (w, None, 0%nat)
  | Some out =>
      '(q, out, n) ← drain_loop (datagrams (reg w)) out 0 max;
      Ret (mkWorld (boxes w) (mkWtRegistry (sessions (reg w)) (streams (reg w)) q), Some out, n)
  end.

(** ** Runs *)

Inductive wt_call :=
| CCreate (addr id max : Z) (dgrams : bool)
| COpen (handle id : Z) (bidi : bool)
| CQueue (handle sid data len : Z)
| CClose (handle : Z)
| CDrain (out : list WTDatagram) (max : nat).

(** What the caller sees of a call: its return code and the datagrams handed out. *)
Definition wt_step (w : world) (c : wt_call) : outcome (world * (Z * list WTDatagram)) :=
  match c with
  | CCreate addr id max d => let '(w, r) := znet_wt_create_session w addr id max d in Ret (w, (r, []))
  | COpen h id b => '(w, r) ← znet_wt_open_stream w h id b; Ret (w, (r, []))
  | CQueue h sid d l => '(w, r) ← znet_wt_queue_datagram w h sid d l; Ret (w, (r, []))
  | CClose h => '(w, r) ← znet_wt_close_session w h; Ret (w, (r, []))
  | CDrain out max =>
      '(w, out, n) ← znet_wt_drain_datagrams w (Some out) max;
      Ret (w, (Z.of_nat n, take n (default [] out)))
  end.

Fixpoint wt_run (w : world) (cs : list wt_call) : outcome (world * list (Z * list WTDatagram)) :=
  match cs with
  | [] => Ret (w, [])
  | c :: cs => '(w, r) ← wt_step w c; '(w, rs) ← wt_run w cs; Ret (w, r :: rs)
  end.

(** ** The memory behind the datagrams

    The registry keeps addresses; what a datagram says is in the memory of the socket
    layer, which goes on writing to it.  An event is a call or such a write. *)

Definition memory : Type := Z -> Z.

Inductive wt_event :=
| ECall (c : wt_call)
| EStore (addr : Z) (bs : bytes).

Definition store (m : memory) (addr : Z) (bs : bytes) : memory :=
  fun x => if (addr <=? x) && (x <? addr + Z.of_nat (length bs)) then nth (Z.to_nat (x - addr)) bs 0 else m x.

(** What is read through the pointer of a datagram. *)
Definition payload (m : memory) (dg : WTDatagram) : bytes :=
  (fun i => m (data_ptr dg + Z.of_nat i)) <$> seq 0 (Z.to_nat (data_len dg)).

Definition with_payload (m : memory) (dg : WTDatagram) : WTDatagram * bytes := (dg, payload m dg).

(** The datagrams accepted by a run, in order. *)
Fixpoint accepted (cs : list wt_call) (rs : list (Z * list WTDatagram)) : list WTDatagram :=
  match cs, rs with
  | CQueue _ sid d l :: cs, (0, _) :: rs => mkWTDatagram sid d l :: accepted cs rs
  | _ :: cs, _ :: rs => accepted cs rs
  | _, _ => []
  end.

(** A run with its memory: the datagrams accepted, each with what it said when it was
    queued, and those handed out, each with what it says then. *)
Fixpoint traffic (w : world) (m : memory) (es : list wt_event)
  : outcome (world * memory * (list (WTDatagram * bytes) * list (WTDatagram * bytes))) :=
  match es with
  | [] => Ret (w, m, ([], []))
  | EStore addr bs :: es => traffic w (store m addr bs) es
  | ECall c :: es =>
      '(w, (r, ds)) ← wt_step w c;
      '(w, m', (ins, outs)) ← traffic w m es;
      Ret (w, m', ((with_payload m <$> accepted [c] [(r, ds)]) ++ ins, (with_payload m <$> ds) ++ outs))
  end.

(** A write leaves the buffer of a datagram alone. *)
Definition apart (addr : Z) (bs : bytes) (dg : WTDatagram) : Prop :=
  addr + Z.of_nat (length bs) <= data_ptr dg \/ data_ptr dg + data_len dg <= addr.

(** No write of the run hits the buffer of a datagram that is in the queue. *)
Fixpoint left_alone (w : world) (es : list wt_event) : Prop :=
  match es with
  | [] => True
  | EStore addr bs :: es => Forall (apart addr bs) (datagrams (reg w)) /\ left_alone w es
  | ECall c :: es => match wt_step w c with Ret (w, _) => left_alone w es | _ => True end
  end.

(** ** Specification of the handles

    [spec] maps each live handle to what its owner knows of it: whether datagrams
    are enabled, and how many streams and datagrams it has accepted so far. *)

Record spec_session := mkSpec { sp_dgrams : bool; sp_streams : Z; sp_datagrams : Z }.

(** The calls a client may make: only on handles it holds, with the allocator
    handing out fresh non-null addresses and output arrays long enough. *)
Definition allowed (live : gmap Z spec_session) (c : wt_call) : Prop :=
  match c with
  | CCreate addr _ _ _ => addr <> NULL /\ live !! addr = None
  | COpen h _ _ | CQueue h _ _ _ | CClose h => h = NULL \/ is_Some (live !! h)
  | CDrain out max => (max <= length out)%nat
  end.

Definition spec_next (live : gmap Z spec_session) (c : wt_call) (r : Z) : gmap Z spec_session :=
  match c with
  | CCreate addr _ _ d => if r =? NULL then live else <[addr := mkSpec d 0 0]> live
  | COpen h _ _ =>
      if r =? 0
      then alter (fun s => mkSpec (sp_dgrams s) (sp_streams s + 1) (sp_datagrams s)) h live else live
  | CQueue h _ _ _ =>
      if r =? 0
      then alter (fun s => mkSpec (sp_dgrams s) (sp_streams s) (sp_datagrams s + 1)) h live else live
  | CClose h => delete h live
  | CDrain _ _ => live
  end.

(** The box of a handle and its owner's knowledge agree; counters are 32 bits wide. *)
Definition agrees (s : WTSession) (sp : spec_session) : Prop :=
  datagrams_enabled s = sp_dgrams sp
  /\ outgoing_streams s = u32 (sp_streams sp)
  /\ datagrams_queued s = u32 (sp_datagrams sp).

Definition implements (w : world) (live : gmap Z spec_session) : Prop :=
  live !! NULL = None
  /\ forall h, match boxes w !! h, live !! h with
               | Some s, Some sp => agrees s sp
               | None, None => True
               | _, _ => False
               end.

(** A run of allowed calls against the specification. *)
Inductive client_run : world -> gmap Z spec_session -> list wt_call -> world -> gmap Z spec_session
  -> Prop :=
| client_nil w live : client_run w live [] w live
| client_cons w live c w1 r ds cs w2 live2 :
    allowed live c -> wt_step w c = Ret (w1, (r, ds)) ->
    client_run w1 (spec_next live c r) cs w2 live2 ->
    client_run w live (c :: cs) w2 live2.

(** ** Lemmas *)

(** The sessions a run created. *)
Fixpoint created (cs : list wt_call) (rs : list (Z * list WTDatagram)) : nat :=
  match cs, rs with
  | CCreate _ _ _ _ :: cs, (r, _) :: rs => ((if (r =? NULL)%Z then 0 else 1) + created cs rs)%nat
  | _ :: cs, _ :: rs => created cs rs
  | _, _ => 0%nat
  end.

Definition no_null_alloc (c : wt_call) : Prop :=
  match c with CCreate addr _ _ _ => addr <> NULL | _ => True end.
#[export] Instance no_null_alloc_dec c : Decision (no_null_alloc c).
Proof. destruct c; apply _. Defined.

Lemma drain_loop_spec q out n max :
  (n <= length out)%nat -> (max <= length out)%nat ->
  exists out', drain_loop q out n max
    = Ret (drop (max - n) q, out', (n + min (max - n) (length q))%nat)
  /\ length out' = length out
  /\ take (n + min (max - n) (length q)) out' = take n out ++ take (max - n) q.
Proof.
  revert out n. induction q as [|dg q IH]; intros out n Hn Hm; cbn [drain_loop].
  - assert (Hz : (n + min (max - n) 0 = n)%nat) by lia.
    destruct (Nat.ltb_spec n max); exists out; cbn [length]; rewrite Hz, drop_nil, take_nil, app_nil_r; done.
  - destruct (Nat.ltb_spec n max) as [Hlt|Hge].
    + rewrite (proj2 (Nat.ltb_lt _ _)) by lia.
      destruct (IH (<[n:=dg]> out) (S n)) as (out' & -> & Hl & Ht); [rewrite length_insert; lia..|].
      rewrite length_insert in Hl.
      exists out'. replace (max - n)%nat with (S (max - S n)) by lia. cbn [drop length].
      replace (n + min (S (max - S n)) (S (length q)))%nat
        with (S n + min (max - S n) (length q))%nat by lia.
      split_and!; [done|done|]. rewrite Ht.
      rewrite (take_S_r _ n dg) by (apply list_lookup_insert_eq; lia).
      rewrite take_insert_ge by lia. by rewrite <- app_assoc.
    + exists out. replace (max - n)%nat with 0%nat by lia. cbn [drop take min length].
      rewrite Nat.add_0_r, app_nil_r. done.
Qed.

(** A drain hands out the oldest datagrams and leaves the others. *)
Lemma drain_step w out max w' r ds :
  wt_step w (CDrain out max) = Ret (w', (r, ds)) -> (max <= length out)%nat ->
  ds = take max (datagrams (reg w)) /\ datagrams (reg w') = drop max (datagrams (reg w))
  /\ r = Z.of_nat (length ds) /\ boxes w' = boxes w /\ sessions (reg w') = sessions (reg w).
Proof.
  intros H Hm. cbn in H. destruct (drain_loop_spec (datagrams (reg w)) out 0 max) as (out' & E & Hl & Ht);
    [lia..|]. rewrite E in H. cbn in H. injection H as <- <- <-. cbn.
  rewrite Nat.sub_0_r in *. cbn in Ht. rewrite Ht. split_and!; try done.
  rewrite take_0. change ([] ++ ?x) with x. by rewrite length_take.
Qed.

Lemma drain_loop_queue q out n max q' out' n' :
  drain_loop q out n max = Ret (q', out', n') ->
  q = drop n (take n' out') ++ q' /\ (n <= n')%nat /\ length out' = length out
  /\ (forall i, (i < n)%nat -> out' !! i = out !! i) /\ ((n <= length out)%nat -> (n' <= length out)%nat).
Proof.
  revert out n. induction q as [|dg q IH]; intros out n H; cbn [drain_loop] in H.
  - assert (Ret ([], out, n) = Ret (q', out', n')) as [= <- <- <-] by (by destruct (_ <? _)%nat).
    rewrite app_nil_r. split_and!; try done. symmetry. apply drop_ge. rewrite length_take. lia.
  - destruct (Nat.ltb_spec n max).
    + destruct (Nat.ltb_spec n (length out)); [|done].
      apply IH in H as (Hq & Hn & Hl & Hi & Hb). rewrite length_insert in Hl, Hb.
      split_and!; [|lia|done| |lia].
      * rewrite (drop_cons_lookup _ n dg); [cbn; by rewrite <- Hq|].
        rewrite lookup_take, decide_True, Hi by lia. apply list_lookup_insert_eq. lia.
      * intros i Hin. rewrite Hi by lia. apply list_lookup_insert_ne. lia.
    + injection H as <- <- <-. split_and!; try done.
      rewrite drop_ge; [done|]. rewrite length_take. lia.
Qed.

Ltac wt_cases H :=
  cbn in H; unfold znet_wt_create_session, znet_wt_open_stream, znet_wt_queue_datagram,
    znet_wt_close_session in H;
  repeat (case_match; simplify_eq/=); bool_facts.

(** Queues and registrations of one call. *)
Lemma step_queue w c w' r ds :
  wt_step w c = Ret (w', (r, ds)) ->
  datagrams (reg w) ++ accepted [c] [(r, ds)] = ds ++ datagrams (reg w').
Proof.
  intros H. destruct c as [addr id max d|h id b|h sid d l|h|out max].
  1-4: wt_cases H; cbn; by rewrite ?app_nil_r.
  cbn in H. destruct (drain_loop _ _ _ _) as [[[q out'] n]| | |] eqn:E; try discriminate.
  cbn in H. injection H as <- <- <-. cbn. rewrite app_nil_r.
  by apply drain_loop_queue in E as (-> & _).
Qed.

Lemma step_sessions w c w' r ds :
  wt_step w c = Ret (w', (r, ds)) -> no_null_alloc c ->
  length (sessions (reg w')) = (length (sessions (reg w)) + created [c] [(r, ds)])%nat.
Proof.
  intros H Hc. destruct c as [addr id max d|h id b|h sid d l|h|out max].
  1-4: wt_cases H; cbn in Hc |- *; rewrite ?length_app; decide_cmp; cbn; lia.
  cbn in H. destruct (drain_loop _ _ _ _) as [[[q out'] n]| | |] eqn:E; try discriminate.
  cbn in H. injection H as <- <- <-. cbn. lia.
Qed.

Lemma accepted_cons c cs r rs : accepted (c :: cs) (r :: rs) = accepted [c] [r] ++ accepted cs rs.
Proof. destruct c, r as [[| |] ?]; done. Qed.
Lemma created_cons c cs r rs : created (c :: cs) (r :: rs) = (created [c] [r] + created cs rs)%nat.
Proof. destruct c, r as [? ?]; cbn; lia. Qed.

Lemma wt_run_cons w c cs w' rs :
  wt_run w (c :: cs) = Ret (w', rs) ->
  exists w1 r ds rs1, wt_step w c = Ret (w1, (r, ds)) /\ wt_run w1 cs = Ret (w', rs1)
    /\ rs = (r, ds) :: rs1.
Proof.
  cbn. intros ([w1 [r ds]] & H1 & ([w2 rs2] & H2 & H3)%outcome_bind_inv)%outcome_bind_inv.
  simplify_eq. eauto 10.
Qed.

Lemma run_sessions w cs w' rs :
  wt_run w cs = Ret (w', rs) -> Forall no_null_alloc cs ->
  length (sessions (reg w')) = (length (sessions (reg w)) + created cs rs)%nat.
Proof.
  revert w rs. induction cs as [|c cs IH]; intros w rs H Hc.
  - cbn in H. injection H as <- <-. cbn. lia.
  - apply wt_run_cons in H as (w1 & r & ds & rs1 & H1 & H2 & ->). inv Hc.
    rewrite created_cons. apply IH in H2; [|done]. apply step_sessions in H1; [|done]. lia.
Qed.

(** ** Properties *)

(** The reply the specification promises to an allowed call. *)
Definition reply_ok (live : gmap Z spec_session) (c : wt_call) (r : Z) : Prop :=
  match c with
  | CCreate addr _ _ _ => r = addr \/ r = NULL
  | COpen h _ _ | CClose h => r = if h =? NULL then -1 else 0
  | CQueue h _ data _ =>
      r = if (h =? NULL) || (data =? NULL) then -1
          else if from_option sp_dgrams false (live !! h) then 0 else -2
  | CDrain _ max => 0 <= r <= Z.of_nat max
  end.

Lemma u32_succ n : u32 (u32 n + 1) = u32 (n + 1).
Proof. unfold u32, wrap. by rewrite Zplus_mod_idemp_l. Qed.

Lemma agrees_stream s sp :
  agrees s sp -> agrees (add_stream s) (mkSpec (sp_dgrams sp) (sp_streams sp + 1) (sp_datagrams sp)).
Proof. intros (H1 & H2 & H3). split_and!; cbn; [done| |done]. by rewrite H2, u32_succ. Qed.

Lemma agrees_datagram s sp :
  agrees s sp -> agrees (add_datagram s) (mkSpec (sp_dgrams sp) (sp_streams sp) (sp_datagrams sp + 1)).
Proof. intros (H1 & H2 & H3). split_and!; cbn; [done|done|]. by rewrite H3, u32_succ. Qed.

Lemma implements_live w live h :
  implements w live -> is_Some (live !! h) ->
  exists s sp, boxes w !! h = Some s /\ live !! h = Some sp /\ agrees s sp.
Proof.
  intros [_ Hi] [sp Hsp]. specialize (Hi h). rewrite Hsp in Hi.
  destruct (boxes w !! h) as [s|]; [|done]. eauto.
Qed.

(** Updating both sides at the same address keeps them in agreement. *)
Lemma implements_insert w live h s sp r :
  implements w live -> h <> NULL -> agrees s sp ->
  implements (mkWorld (<[h := s]> (boxes w)) r) (<[h := sp]> live).
Proof.
  intros [Hn Hi] Hh Ha. split; [by rewrite lookup_insert_ne|].
  intros k. cbn. destruct (decide (k = h)) as [->|Hk]; [by rewrite !lookup_insert_eq|].
  rewrite !lookup_insert_ne by done. apply Hi.
Qed.

Lemma implements_alter w live h s f r :
  implements w live -> is_Some (live !! h) ->
  (forall sp, live !! h = Some sp -> agrees s (f sp)) ->
  implements (mkWorld (<[h := s]> (boxes w)) r) (alter f h live).
Proof.
  intros Hi [sp Hsp] Hf. rewrite (alter_as_insert f live h sp) by done.
  apply implements_insert; auto. intros ->. destruct Hi as [Hn _]. congruence.
Qed.

Lemma implements_step w live c :
  implements w live -> allowed live c ->
  exists w' r ds, wt_step w c = Ret (w', (r, ds)) /\ implements w' (spec_next live c r)
                  /\ reply_ok live c r.
Proof.
  intros Hi Ha. pose proof Hi as [Hn Hb]. destruct c as [addr id max d|h id b|h sid data l|h|out max].
  - cbn. unfold znet_wt_create_session. destruct (max <=? _).
    + exists w, NULL, []. by split_and!; [| |right].
    + destruct Ha as [Hne Hf]. eexists _, addr, []. split_and!; [done| |by left].
      rewrite (proj2 (Z.eqb_neq _ _)) by done. by apply implements_insert.
  - cbn. unfold znet_wt_open_stream. destruct Ha as [->|Hl].
    + exists w, (-1), []. by split_and!.
    + destruct (implements_live w live h Hi Hl) as (s & sp & Hs & Hsp & Hag).
      assert (h <> NULL) by congruence. rewrite (proj2 (Z.eqb_neq _ _)), Hs by done. cbn.
      eexists _, 0, []. split_and!; [done| |done].
      apply implements_alter; [done..|]. intros sp' ?. simplify_eq. by apply agrees_stream.
  - cbn. unfold znet_wt_queue_datagram. destruct Ha as [->|Hl].
    + exists w, (-1), []. by split_and!.
    + destruct (implements_live w live h Hi Hl) as (s & sp & Hs & Hsp & Hag).
      assert (h <> NULL) by congruence. rewrite (proj2 (Z.eqb_neq h _)) by done. cbn [orb].
      rewrite Hsp. cbn [from_option].
      destruct (data =? NULL); [exists w, (-1), []; by split_and!|].
      rewrite Hs, <- (proj1 Hag). destruct (datagrams_enabled s); cbn [negb].
      * eexists _, 0, []. split_and!; [done| |done].
        apply implements_alter; [done..|]. intros sp' ?. simplify_eq. by apply agrees_datagram.
      * exists w, (-2), []. by split_and!.
  - cbn. unfold znet_wt_close_session. destruct Ha as [->|Hl].
    + exists w, (-1), []. split_and!; [done| |done]. by rewrite delete_id.
    + destruct (implements_live w live h Hi Hl) as (s & sp & Hs & Hsp & Hag).
      assert (h <> NULL) by congruence. rewrite (proj2 (Z.eqb_neq h _)), Hs by done.
      eexists _, 0, []. split_and!; [done| |done]. split; cbn.
      * rewrite lookup_delete_None. by right.
      * intros k. destruct (decide (k = h)) as [->|Hk]; [by rewrite !lookup_delete_eq|].
        rewrite !lookup_delete_ne by done. apply Hb.
  - cbn in Ha. destruct (wt_step w (CDrain out max)) as [[w' [r ds]]| | |] eqn:E.
    2-4: cbn in E; destruct (drain_loop_spec (datagrams (reg w)) out 0 max) as (? & E' & _);
      [lia..|]; by rewrite E' in E.
    destruct (drain_step _ _ _ _ _ _ E Ha) as (-> & _ & -> & Hbx & _).
    exists w', (Z.of_nat (length (take max (datagrams (reg w))))), (take max (datagrams (reg w))).
    split_and!; [done| |]; cbn [spec_next reply_ok].
    + split; [done|]. by rewrite Hbx.
    + rewrite length_take. lia.
Qed.

Lemma client_run_implements w live cs w' live' :
  client_run w live cs w' live' -> implements w live -> implements w' live'.
Proof.
  intros H. induction H as [|w live c w1 r ds cs w2 live2 Ha Hs _ IH]; [done|]. intros Hi.
  destruct (implements_step w live c Hi Ha) as (w'' & r' & ds' & E & Hi' & _).
  rewrite Hs in E. injection E as <- <- <-. auto.
Qed.

Lemma implements_init : implements world_init ∅.
Proof. split; [done|]. intros h. by rewrite !lookup_empty. Qed.

(** C30: the module implements its handle specification.  After any run of a
    client that only uses handles it holds, the next allowed call runs without
    undefined behaviour, replies as specified (-1 for a null argument, -2 for a
    session without datagrams, 0 otherwise), and the boxes are exactly the live
    handles, with the streams and datagrams accepted through each of them counted
    modulo 2^32. *)
Theorem wt_handles_safe (cs : list wt_call) (w : world) (live : gmap Z spec_session) (c : wt_call)
    (Hrun : client_run world_init ∅ cs w live) (Ha : allowed live c) :
  exists w' r ds, wt_step w c = Ret (w', (r, ds)) /\ implements w' (spec_next live c r)
                  /\ reply_ok live c r.
Proof. apply implements_step; [|done]. eapply client_run_implements; [done|apply implements_init]. Qed.

Theorem wt_handles_safe_witness :
  exists w' r ds, wt_step (fst (znet_wt_create_session world_init 64 7 2 true)) (CQueue 64 7 128 5)
                  = Ret (w', (r, ds))
    /\ implements w' (spec_next {[64 := mkSpec true 0 0]} (CQueue 64 7 128 5) r)
    /\ reply_ok {[64 := mkSpec true 0 0]} (CQueue 64 7 128 5) r.
Proof.
  apply (wt_handles_safe [CCreate 64 7 2 true]); [|right; by eexists].
  eapply client_cons; [split; done|reflexivity|apply client_nil].
Defined.

(** A write that leaves a datagram's buffer alone does not change what it says. *)
Lemma payload_store m addr bs dg : apart addr bs dg -> payload (store m addr bs) dg = payload m dg.
Proof.
  intros H. apply list_fmap_ext. intros _ i Hi%list_elem_of_lookup_2%elem_of_seq. unfold store, apart in *.
  destruct (_ && _) eqn:E; [|done]. apply andb_true_iff in E. lia.
Qed.

(** One event: what was queued and what has come is what has gone and what is queued,
    as descriptors and as bytes. *)
Lemma call_payloads m w c w' r ds :
  wt_step w c = Ret (w', (r, ds)) ->
  (with_payload m <$> datagrams (reg w)) ++ (with_payload m <$> accepted [c] [(r, ds)])
  = (with_payload m <$> ds) ++ (with_payload m <$> datagrams (reg w')).
Proof. intros H%step_queue. by rewrite <- !fmap_app, H. Qed.

Lemma fst_with_payload m (l : list WTDatagram) : fst <$> (with_payload m <$> l) = l.
Proof. rewrite <- list_fmap_compose. apply list_fmap_id. Qed.

Lemma store_payloads m addr bs (l : list WTDatagram) :
  Forall (apart addr bs) l -> with_payload (store m addr bs) <$> l = with_payload m <$> l.
Proof.
  intros H. apply Forall_fmap_ext_1. eapply Forall_impl; [exact H|]. intros dg Hd. unfold with_payload.
  by rewrite payload_store.
Qed.

(** C31: datagrams are a first-in first-out queue of pointers.  In any run, with the
    socket layer writing to memory as it likes, the datagrams handed out, in order,
    followed by those still queued are exactly those queued before followed by those
    accepted meanwhile.  The bytes are not copied: each datagram is handed out with the
    pointer that was queued, and says what is there by then.  If no write hits the
    buffer of a queued datagram, each says what it said when it was queued, and the
    bytes form the same queue. *)
Theorem datagrams_fifo (w w' : world) (m m' : memory) (es : list wt_event)
    (ins outs : list (WTDatagram * bytes)) (H : traffic w m es = Ret (w', m', (ins, outs))) :
  datagrams (reg w) ++ (fst <$> ins) = (fst <$> outs) ++ datagrams (reg w')
  /\ (left_alone w es ->
      (with_payload m <$> datagrams (reg w)) ++ ins = outs ++ (with_payload m' <$> datagrams (reg w'))).
Proof.
  revert w m ins outs H. induction es as [|[c|addr bs] es IH]; intros w m ins outs H.
  - cbn in H. injection H as <- <- <- <-. cbn. by rewrite !app_nil_r.
  - cbn [traffic] in H. apply outcome_bind_inv in H as ([w1 [r ds]] & H1 & H).
    apply outcome_bind_inv in H as ([[w2 m2] [ins2 outs2]] & H2 & H).
    pose proof (step_queue _ _ _ _ _ H1) as Hd. pose proof (call_payloads m _ _ _ _ _ H1) as Hp.
    revert H Hd Hp. generalize (accepted [c] [(r, ds)]). intros new H Hd Hp. injection H as -> -> <- <-.
    destruct (IH _ _ _ _ H2) as [IHd IHp]. split.
    + rewrite !fmap_app, !fst_with_payload, app_assoc, Hd, <- app_assoc, IHd.
      by rewrite app_assoc.
    + cbn [left_alone]. rewrite H1. intros Hl. rewrite app_assoc, Hp, <- app_assoc.
      by rewrite (IHp Hl), app_assoc.
  - cbn [traffic] in H. destruct (IH _ _ _ _ H) as [IHd IHp]. split; [done|]. intros [Ha Hl].
    by rewrite <- (IHp Hl), store_payloads.
Qed.

Module Traffic.
Definition m : memory := fun x => if (128 <=? x) && (x <=? 130) then 7 else 0.
(** Two datagrams of three bytes; the buffer of the first is written to again only when
    it has been handed out. *)
Definition events : list wt_event :=
  [ECall (CCreate 64 7 2 true); ECall (CQueue 64 7 128 3); EStore 256 [1; 2; 3]; ECall (CQueue 64 9 256 3);
   ECall (CDrain [mkWTDatagram 0 0 0] 1); EStore 128 [9; 9; 9]; ECall (CDrain [mkWTDatagram 0 0 0] 1)].
End Traffic.

Theorem datagrams_fifo_witness :
  exists w' m' ins outs, traffic world_init Traffic.m Traffic.events = Ret (w', m', (ins, outs))
  /\ (fst <$> ins) = (fst <$> outs) ++ datagrams (reg w')
  /\ ins = outs ++ (with_payload m' <$> datagrams (reg w'))
  /\ outs = [(mkWTDatagram 7 128 3, [7; 7; 7]); (mkWTDatagram 9 256 3, [1; 2; 3])].
Proof.
  eexists _, _, _, _. split; [reflexivity|].
  destruct (datagrams_fifo world_init _ Traffic.m _ Traffic.events _ _ eq_refl) as [H1 H2].
  split; [exact H1|]. split; [|reflexivity]. apply H2.
  unfold Traffic.events. cbn. split; [|by split; [constructor; [unfold apart; cbn; lia|]|]].
  constructor; [unfold apart; cbn; lia|done].
Defined.

(** A buffer that is used again before the drain: the consumer gets the pointer that was
    queued and reads the new bytes, whatever was there when it was queued. *)
Theorem drained_payload_overwritten (w : world) (m : memory) (s : WTSession) (h sid data : Z) (bs : bytes)
    (dg : WTDatagram) (out : list WTDatagram) (Hh : h <> NULL) (Hd : data <> NULL) (Hs : boxes w !! h = Some s)
    (He : datagrams_enabled s = true) (Hq : datagrams (reg w) = []) :
  exists w' m' old, traffic w m [ECall (CQueue h sid data (Z.of_nat (length bs))); EStore data bs; ECall (CDrain (dg :: out) 1)]
  = Ret (w', m', ([(mkWTDatagram sid data (Z.of_nat (length bs)), old)],
                  [(mkWTDatagram sid data (Z.of_nat (length bs)), bs)])).
Proof.
  cbn [traffic]. unfold wt_step, znet_wt_queue_datagram.
  rewrite !(proj2 (Z.eqb_neq _ _)), Hs, He by done. cbn. rewrite Hq. cbn.
  eexists _, _, _. repeat f_equal. unfold with_payload. f_equal. unfold payload. cbn. rewrite Nat2Z.id.
  apply list_eq_same_length with (n := length bs); [done|by rewrite length_fmap, length_seq|].
  intros i x y Hi Hx Hy. rewrite list_lookup_fmap, lookup_seq_lt in Hx by done. cbn in Hx. simplify_eq.
  unfold store. assert (E : (data <=? data + Z.of_nat i) && (data + Z.of_nat i <? data + Z.of_nat (length bs)) = true) by lia.
  rewrite E, Z.add_simpl_l, Nat2Z.id. by rewrite (nth_lookup_Some _ _ _ _ Hy).
Qed.

Theorem drained_payload_overwritten_witness :
  exists w' m' old, traffic (fst (znet_wt_create_session world_init 64 7 2 true)) Traffic.m
    [ECall (CQueue 64 7 128 3); EStore 128 [1; 2; 3]; ECall (CDrain [mkWTDatagram 0 0 0] 1)]
  = Ret (w', m', ([(mkWTDatagram 7 128 3, old)], [(mkWTDatagram 7 128 3, [1; 2; 3])])).
Proof.
  eapply (drained_payload_overwritten (fst (znet_wt_create_session world_init 64 7 2 true)) Traffic.m _ 64 7 128
    [1; 2; 3] (mkWTDatagram 0 0 0) []); [done|done|reflexivity|reflexivity|reflexivity].
Defined.

(** Closing a session does not give its place back.  Whatever has been closed
    in a run, once it has created [max] sessions every further request with that
    limit (or a smaller one) is refused, and changes nothing. *)
Theorem closed_sessions_count (cs : list wt_call) (w : world) (rs : list (Z * list WTDatagram))
    (addr id max : Z) (d : bool)
    (H : wt_run world_init cs = Ret (w, rs)) (Hn : Forall no_null_alloc cs)
    (Hb : Z.of_nat (created cs rs) < 2 ^ 32) (Hmax : max <= Z.of_nat (created cs rs)) :
  znet_wt_create_session w addr id max d = (w, NULL).
Proof.
  apply run_sessions in H; [|done]. cbn in H. unfold znet_wt_create_session, u32, wrap.
  rewrite H, Z.mod_small by lia. by decide_cmp.
Qed.

Theorem closed_sessions_count_witness :
  exists w rs, wt_run world_init [CCreate 64 7 1 true; CClose 64] = Ret (w, rs)
  /\ boxes w = ∅ /\ znet_wt_create_session w 64 8 1 true = (w, NULL).
Proof.
  eexists _, _. split; [reflexivity|]. split; [reflexivity|].
  eapply (closed_sessions_count [CCreate 64 7 1 true; CClose 64]); [reflexivity|by_eval..].
Defined.
