(* ===== verification/Compression.v ===== *)
(** * Brotli and Zstd decoders (engine/src/protocols/compression.rs)

    A decoder handle is the address of a one-byte box; every [feed] wraps its
    input in a fresh decoder of the [brotli] or [zstd] crate and reads from it
    once.  The crates are the interface [Decoders]; [Stored] is a concrete pair
    of decoders for the witnesses. *)

From S2P Require Import Prelude.

(** [read] on a fresh decoder: the contents of the output slice afterwards, and
    the number of bytes produced.  A [zstd] decoder may also refuse to be built. *)
Class Decoders := {
  brotli_read : bytes -> bytes -> bytes * result nat unit;
  zstd_new : bytes -> bool;
  zstd_read : bytes -> bytes -> bytes * result nat unit;
}.

(** What [std::io::Read::read] documents: at most the whole slice is written. *)
Class DecodersLaws `(Decoders) : Prop := {
  brotli_length i o : length (fst (brotli_read i o)) = length o;
  brotli_bound i o n : snd (brotli_read i o) = Ok n -> (n <= length o)%nat;
  zstd_length i o : length (fst (zstd_read i o)) = length o;
  zstd_bound i o n : snd (zstd_read i o) = Ok n -> (n <= length o)%nat;
}.

Inductive codec := Brotli | Zstd.

(** The live [DecoderState] boxes. *)
Definition handles := gset Z.

Definition NULL : Z := 0.

(** [addr] is the address the allocator chooses for the box. *)
Definition znet_brotli_decoder_new (hs : handles) (addr : Z) : handles * Z := ({[addr]} ∪ hs, addr).
Definition znet_zstd_decoder_new (hs : handles) (addr : Z) : handles * Z := ({[addr]} ∪ hs, addr).

Definition znet_brotli_decoder_finish (handle : Z) : Z := 0.
Definition znet_zstd_decoder_finish (handle : Z) : Z := 0.

(** Dropping a box that is not live is undefined. *)
Definition znet_brotli_decoder_free (hs : handles) (handle : Z) : outcome handles :=
  if handle =? NULL then Ret hs
  else if decide (handle ∈ hs) then Ret (hs ∖ {[handle]}) else Undefined.
Definition znet_zstd_decoder_free (hs : handles) (handle : Z) : outcome handles :=
  if handle =? NULL then Ret hs
  else if decide (handle ∈ hs) then Ret (hs ∖ {[handle]}) else Undefined.

(** The functions of one codec. *)
Definition decoder_new (c : codec) :=
  match c with Brotli => znet_brotli_decoder_new | Zstd => znet_zstd_decoder_new end.
Definition decoder_finish (c : codec) :=
  match c with Brotli => znet_brotli_decoder_finish | Zstd => znet_zstd_decoder_finish end.
Definition decoder_free (c : codec) :=
  match c with Brotli => znet_brotli_decoder_free | Zstd => znet_zstd_decoder_free end.

Lemma decoder_free_codec c hs h : decoder_free c hs h = znet_brotli_decoder_free hs h.
Proof. by destruct c. Qed.

Section Code.
Context {D : Decoders}.

(** The caller's memory: each pointer is null ([None]) or gives the bytes of the
    input, the bytes of the output buffer, the cell of [out_produced].  The result
    is the return code, the output buffer and that cell. *)
Definition znet_brotli_decoder_feed (hs : handles) (handle : Z)
  (input out_buf : option bytes) (out_produced : option Z)
  : outcome (Z * option bytes * option Z) :=
  match handle =? NULL, input, out_buf, out_produced with
  | false, Some inp, Some out, Some _ =>
      if decide (handle ∈ hs) then
      match brotli_read inp out with
      | (out, Ok n) => Ret (0, Some out, Some (Z.of_nat n))
      | (out, Err _) => Ret (-2, Some out, out_produced)
      end
      else Undefined
  | _, _, _, _ => Ret (-1, out_buf, out_produced)
  end.

Definition znet_zstd_decoder_feed (hs : handles) (handle : Z)
  (input out_buf : option bytes) (out_produced : option Z)
  : outcome (Z * option bytes * option Z) :=
  match handle =? NULL, input, out_buf, out_produced with
  | false, Some inp, Some out, Some _ =>
      if decide (handle ∈ hs) then
      if zstd_new inp then
      match zstd_read inp out with
      | (out, Ok n) => Ret (0, Some out, Some (Z.of_nat n))
      | (out, Err _) => Ret (-3, Some out, out_produced)
      end
      else Ret (-2, out_buf, out_produced)
      else Undefined
  | _, _, _, _ => Ret (-1, out_buf, out_produced)
  end.

Definition feed (c : codec) :=
  match c with Brotli => znet_brotli_decoder_feed | Zstd => znet_zstd_decoder_feed end.

(** ** Sessions of a client *)

Inductive dec_call :=
| DNew (addr : Z)
| DFeed (handle : Z) (input out : bytes)
| DFinish (handle : Z)
| DFree (handle : Z).

(** What a call answers: its code (or handle), and for a feed the bytes produced. *)
Definition dec_step (c : codec) (hs : handles) (call : dec_call) : outcome (handles * (Z * bytes)) :=
  match call with
  | DNew addr => let '(hs, h) := decoder_new c hs addr in Ret (hs, (h, []))
  | DFeed h inp out =>
      '(r, out, n) ← feed c hs h (Some inp) (Some out) (Some 0);
      Ret (hs, (r, take (Z.to_nat (default 0 n)) (default [] out)))
  | DFinish h => Ret (hs, (decoder_finish c h, []))
  | DFree h => hs ← decoder_free c hs h; Ret (hs, (0, []))
  end.

Fixpoint dec_run (c : codec) (hs : handles) (calls : list dec_call)
  : outcome (handles * list (Z * bytes)) :=
  match calls with
  | [] => Ret (hs, [])
  | call :: calls =>
      '(hs, r) ← dec_step c hs call; '(hs, rs) ← dec_run c hs calls; Ret (hs, r :: rs)
  end.

(** What decoding one chunk alone, from the start of a stream, answers. *)
Definition one_shot (c : codec) (inp out : bytes) : Z * bytes :=
  match c with
  | Brotli => match brotli_read inp out with
      | (out, Ok n) => (0, take n out)
      | (_, Err _) => (-2, [])
      end
  | Zstd => if zstd_new inp
      then match zstd_read inp out with
      | (out, Ok n) => (0, take n out)
      | (_, Err _) => (-3, [])
      end
      else (-2, [])
  end.
End Code.

(** A client that only uses the handles it holds; [live] are those. *)
Fixpoint well_behaved (live : handles) (calls : list dec_call) : bool :=
  match calls with
  | [] => true
  | DNew addr :: calls =>
      bool_decide (addr <> NULL) && bool_decide (addr ∉ live)
      && well_behaved ({[addr]} ∪ live) calls
  | DFeed h _ _ :: calls => bool_decide (h <> NULL) && bool_decide (h ∈ live) && well_behaved live calls
  | DFinish _ :: calls => well_behaved live calls
  | DFree h :: calls =>
      bool_decide (h = NULL \/ h ∈ live)
      && well_behaved (if h =? NULL then live else live ∖ {[h]}) calls
  end.

(** The answers of such a client when every chunk stands alone. *)
Definition alone {D : Decoders} (c : codec) (call : dec_call) : Z * bytes :=
  match call with
  | DNew addr => (addr, [])
  | DFeed _ inp out => one_shot c inp out
  | DFinish _ | DFree _ => (0, [])
  end.

Lemma feed_live {D : Decoders} c hs h inp out :
  h <> NULL -> h ∈ hs ->
  dec_step c hs (DFeed h inp out) = Ret (hs, one_shot c inp out).
Proof.
  intros Hn Hh. unfold dec_step, feed, one_shot.
  destruct c; unfold znet_brotli_decoder_feed, znet_zstd_decoder_feed;
    rewrite (proj2 (Z.eqb_neq _ _)), decide_True by done; repeat case_match; cbn;
    by rewrite ?Nat2Z.id.
Qed.

(** ** A concrete pair of decoders

    Stored data with a magic byte in front, as a stream that must be decoded from
    its beginning. *)
Module Stored.
Definition MAGIC : Z := 0x5A.
Definition read (inp out : bytes) : bytes * result nat unit :=
  match inp with
  | m :: body =>
      if m =? MAGIC
      then (take (length out) body ++ drop (length body) out, Ok (min (length body) (length out)))
      else (out, Err tt)
  | [] => (out, Ok 0%nat)
  end.

Definition decoders : Decoders :=
  {| brotli_read := read; zstd_new := fun _ => true; zstd_read := read |}.

Lemma read_length i o : length (fst (read i o)) = length o.
Proof.
  destruct i as [|m body]; [done|]. cbn [read]. destruct (m =? MAGIC); [|done].
  cbn [fst]. rewrite length_app, length_take, length_drop. lia.
Qed.

Lemma read_bound i o n : snd (read i o) = Ok n -> (n <= length o)%nat.
Proof.
  destruct i as [|m body]; [intros [= <-]; lia|]. cbn [read]. destruct (m =? MAGIC); [|done].
  intros [= <-]. lia.
Qed.

Lemma stored_laws : DecodersLaws decoders.
Proof. split; cbn; eauto using read_length, read_bound. Qed.
End Stored.

(** ** Properties *)

(** The contract of one feed.  On a live handle and non-null pointers it
    always returns: 0 exactly when the library decodes the chunk, then it reports
    at most the capacity and leaves the decoded bytes in the buffer, whose size is
    unchanged; any null pointer gives -1 and nothing is written; on an error the
    produced count is not touched. *)
Theorem feed_contract `{DecodersLaws} (c : codec) (hs : handles) (h : Z)
    (input out : option bytes) (produced : option Z) (Hh : h = NULL \/ h ∈ hs) :
  exists r out' produced', feed c hs h input out produced = Ret (r, out', produced')
  /\ (r = -1 <-> h = NULL \/ input = None \/ out = None \/ produced = None)
  /\ (r = -1 -> out' = out)
  /\ (r <> 0 -> produced' = produced)
  /\ (length (default [] out') = length (default [] out))
  /\ (r = 0 -> exists inp o o' n, input = Some inp /\ out = Some o /\ out' = Some o'
        /\ produced' = Some n /\ 0 <= n <= Z.of_nat (length o)
        /\ one_shot c inp o = (0, take (Z.to_nat n) o')).
Proof.
  destruct (decide (h = NULL)) as [->|Hn].
  { exists (-1), out, produced. destruct c; cbn; (split_and!; [done|split; auto|done..]). }
  destruct input as [inp|], out as [o|], produced as [p|];
    try (exists (-1), (Some o), (Some p) || exists (-1), (Some o), None
         || exists (-1), None, (Some p) || exists (-1), None, None;
         destruct c; cbn; unfold znet_brotli_decoder_feed, znet_zstd_decoder_feed;
         rewrite (proj2 (Z.eqb_neq _ _)) by done; (split_and!; [done|split; auto|done..])).
  destruct Hh as [?|Hh]; [done|].
  destruct c; cbn; unfold znet_brotli_decoder_feed, znet_zstd_decoder_feed;
    rewrite (proj2 (Z.eqb_neq _ _)), decide_True by done.
  - pose proof (brotli_length inp o) as Hl. pose proof (brotli_bound inp o) as Hb.
    destruct (brotli_read inp o) as [o' [n|e]] eqn:E; cbn in Hl, Hb.
    + exists 0, (Some o'), (Some (Z.of_nat n)). specialize (Hb n eq_refl).
      split_and!; try done; [naive_solver|intros _].
      exists inp, o, o', (Z.of_nat n). split_and!; try done; [lia..|].
      by rewrite Nat2Z.id; cbn [one_shot]; rewrite ?Hz, E.
    + exists (-2), (Some o'), (Some p). split_and!; try done; naive_solver.
  - destruct (zstd_new inp) eqn:Hz.
    2:{ exists (-2), (Some o), (Some p). split_and!; try done; naive_solver. }
    pose proof (zstd_length inp o) as Hl. pose proof (zstd_bound inp o) as Hb.
    destruct (zstd_read inp o) as [o' [n|e]] eqn:E; cbn in Hl, Hb.
    + exists 0, (Some o'), (Some (Z.of_nat n)). specialize (Hb n eq_refl).
      split_and!; try done; [naive_solver|intros _].
      exists inp, o, o', (Z.of_nat n). split_and!; try done; [lia..|].
      by rewrite Nat2Z.id; cbn [one_shot]; rewrite ?Hz, E.
    + exists (-3), (Some o'), (Some p). split_and!; try done; naive_solver.
Qed.

Theorem feed_contract_witness :
  exists r out' produced',
    feed (D := Stored.decoders) Zstd {[16]} 16 (Some [0x5A; 1; 2]) (Some [0; 0; 0]) (Some 9)
    = Ret (r, out', produced')
  /\ length (default [] out') = 3%nat.
Proof.
  destruct (feed_contract (H := Stored.decoders) (H0 := Stored.stored_laws) Zstd {[16]} 16
              (Some [0x5A; 1; 2]) (Some [0; 0; 0]) (Some 9))
    as (r & o & p & H1 & _ & _ & _ & H2 & _).
  - right. by_eval.
  - exists r, o, p. by split.
Defined.

(** C39: the decoders keep no state between calls.  For any client that uses only
    handles it holds, a run never meets undefined behaviour, and each chunk is
    answered exactly as if it were fed alone to a fresh decoder: a chunk that
    continues a stream is decoded without the bytes before it. *)
Theorem chunks_decoded_alone {D : Decoders} (c : codec) (live : handles) (calls : list dec_call)
    (H : well_behaved live calls = true) :
  exists hs, dec_run c live calls = Ret (hs, alone c <$> calls).
Proof.
  revert live H. induction calls as [|[addr|h inp out|h|h] calls IH]; intros live H; [by eexists| | | |].
  - cbn [well_behaved] in H. bool_facts. destruct (IH _ H0) as [hs E]. exists hs.
    destruct c; cbn; by rewrite E.
  - cbn [well_behaved] in H. bool_facts. apply bool_decide_eq_true in H, H1.
    destruct (IH _ H0) as [hs E]. exists hs. cbn [dec_run].
    rewrite feed_live by done. cbn. by rewrite E.
  - cbn [well_behaved] in H. destruct (IH _ H) as [hs E]. exists hs.
    destruct c; cbn; by rewrite E.
  - cbn [well_behaved] in H. bool_facts. apply bool_decide_eq_true in H.
    destruct (IH _ H0) as [hs E]. exists hs. cbn [dec_run dec_step].
    rewrite decoder_free_codec. unfold znet_brotli_decoder_free.
    destruct (Z.eqb_spec h NULL) as [->|Hn]; [cbn; by rewrite E|].
    destruct H as [?|H]; [done|]. rewrite decide_True by done. cbn. by rewrite E.
Qed.

(** A stream cut in two: its second half alone is not decodable. *)
Theorem chunks_decoded_alone_witness :
  let calls := [DNew 16; DFeed 16 [0x5A; 1; 2] [0; 0; 0; 0]; DFeed 16 [3; 4] [0; 0; 0; 0]; DFree 16] in
  (exists hs, dec_run (D := Stored.decoders) Brotli ∅ calls
              = Ret (hs, alone (D := Stored.decoders) Brotli <$> calls))
  /\ alone (D := Stored.decoders) Brotli <$> calls = [(16, []); (0, [1; 2]); (-2, []); (0, [])]
  /\ one_shot (D := Stored.decoders) Brotli [0x5A; 1; 2; 3; 4] [0; 0; 0; 0] = (0, [1; 2; 3; 4]).
Proof.
  split; [|by split]. apply (chunks_decoded_alone (D := Stored.decoders) Brotli ∅
    [DNew 16; DFeed 16 [0x5A; 1; 2] [0; 0; 0; 0]; DFeed 16 [3; 4] [0; 0; 0; 0]; DFree 16]).
  reflexivity.
Defined.
