(* ===== verification/Fetch.v ===== *)
(** * The fetch middleware: cookies and history (engine/src/protocols/fetch/mod.rs)

    The [Zawra_*] functions are the browser's; they are the interface [Zawra], and
    every call of one is recorded, since what the middleware does is what it hands
    to them.  A [Url] of the [url] crate is the two views the code takes of it. *)

From S2P Require Import Prelude Utf8 Str Ffi.

(** [Zawra_Hash_String] fills two words; [Zawra_Cookie_GetForDomain] gets a zeroed
    buffer and returns a code and what the buffer holds afterwards.  Both may
    depend on everything the browser was told before. *)
Inductive event :=
| HashString (input : bytes)
| CookieGet (hi lo : Z) (len : nat)
| CookiePut (hi lo : Z) (name value : bytes) (expiry flags : Z)
| HistoryPut (hi lo : Z) (url title : bytes) (ts : Z).
#[export] Instance event_eq_dec : EqDecision event.
Proof. solve_decision. Defined.

Class Zawra := {
  hash_string : bytes -> Z * Z;
  cookie_get : list event -> Z -> Z -> bytes -> Z * bytes;
}.

(** The browser stores a C string when it answers 0. *)
Class ZawraLaws `(Zawra) : Prop := {
  cookie_get_terminated log hi lo buf :
    fst (cookie_get log hi lo buf) = 0 -> 0 ∈ snd (cookie_get log hi lo buf);
}.

Record Url := mkUrl { host_str : option str; url_as_str : str }.
#[export] Instance Url_eq_dec : EqDecision Url.
Proof. solve_decision. Defined.

(** The URL standard: neither a host nor a serialised URL contains a NUL. *)
Definition url_ok (u : Url) : Prop :=
  Forall (fun c => scalar c /\ c <> 0) (default [] (host_str u))
  /\ Forall (fun c => scalar c /\ c <> 0) (url_as_str u).
#[export] Instance scalar_dec c : Decision (scalar c).
Proof. unfold scalar. apply _. Defined.
#[export] Instance url_ok_dec u : Decision (url_ok u).
Proof. unfold url_ok. apply _. Defined.

Record FetchEngine := mkFetchEngine { request_headers : gmap str str }.
Definition FetchEngine_new : FetchEngine := mkFetchEngine ∅.

Section Code.
Context {Zw : Zawra}.

(** Each method takes and returns the calls made so far. *)
Definition inject_cookies (log : list event) (u : Url) : outcome (list event * str) :=
  match host_str u with
  | None => Ret (log, [])
  | Some host =>
      host_c ← cstring_new (as_bytes host);
      let '(hi, lo) := hash_string host_c in
      let log := log ++ [HashString host_c; CookieGet hi lo 4096] in
      match cookie_get log hi lo (replicate 4096 0) with
      | (0, buf) => s ← cstr_lossy buf; Ret (log, s)
      | _ => Ret (log, [])
      end
  end.

Definition store_cookie (log : list event) (u : Url) (cookie_str : str) : outcome (list event) :=
  match host_str u with
  | None => Ret log
  | Some host =>
      host_c ← cstring_new (as_bytes host);
      match split (ch ";") cookie_str with
      | [] => Ret log
      | part :: _ =>
          match split (ch "=") part with
          | k :: v :: _ =>
              name ← cstring_new (as_bytes (trim k));
              value ← cstring_new (as_bytes (trim v));
              let '(hi, lo) := hash_string host_c in
              Ret (log ++ [HashString host_c; CookiePut hi lo name value 0 0])
          | _ => Ret log
          end
      end
  end.

(** [now] is the system clock, in seconds since 1970. *)
Definition record_history (log : list event) (u : Url) (title : str) (now : Z)
  : outcome (list event) :=
  url_c ← cstring_new (as_bytes (url_as_str u));
  title_c ← cstring_new (as_bytes title);
  let '(hi, lo) := hash_string url_c in
  Ret (log ++ [HashString url_c; HistoryPut hi lo url_c title_c now]).

Definition COOKIE : str := lit "Cookie".

Definition fetch (e : FetchEngine) (log : list event) (u : Url) (now : Z)
  : outcome (FetchEngine * list event) :=
  '(log, cookies) ← inject_cookies log u;
  let headers := if bool_decide (cookies = []) then ∅ else {[COOKIE := cookies]} in
  log ← store_cookie log u (lit "session_id=12345; Path=/; HttpOnly");
  log ← record_history log u (lit "Zawra Browser Page") now;
  Ret (mkFetchEngine headers, log).
End Code.

(** ** Lemmas *)

Definition plain (s : str) : Prop := Forall (fun c => scalar c /\ c <> 0) s.

Lemma plain_cstring s : plain s -> cstring_new (as_bytes s) = Ret (c_mem s).
Proof. intros [H1 H2]%Forall_and. by apply cstring_new_ok. Qed.

Lemma plain_trim s : plain s -> plain (trim s).
Proof. apply trim_Forall. Qed.

Lemma plain_app a b : plain (a ++ b) <-> plain a /\ plain b.
Proof. apply Forall_app. Qed.


Lemma cstr_from_ptr_total mem : 0 ∈ mem -> exists b, cstr_from_ptr mem = Ret b.
Proof.
  induction mem as [|x mem IH]; [by intros ?%elem_of_nil|].
  intros H. cbn. destruct (Z.eqb_spec x 0); [eauto|].
  apply elem_of_cons in H as [?|H]; [congruence|].
  destruct (IH H) as [b ->]. by eexists.
Qed.

(** The text before the first separator, if there is one after it. *)
Lemma split_two (c : char) a b :
  (c ∉ a) -> exists v l, split c (a ++ c :: b) = a :: v :: l /\ (c ∉ v)
                         /\ (exists r, b = v ++ r /\ head r = if bool_decide (c ∈ b) then Some c else None).
Proof.
  intros Ha. rewrite split_app by done. induction b as [|x b IH].
  - exists [], []. split_and!; [done|by intros ?%elem_of_nil|]. by exists [].
  - cbn [split]. destruct (Z.eqb_spec x c) as [->|Hx].
    + exists [], (split c b). split_and!; [done|by intros ?%elem_of_nil|].
      exists (c :: b). rewrite bool_decide_eq_true_2 by by left. done.
    + destruct IH as (v & l & E & Hv & r & -> & Hr). injection E as ->.
      exists (x :: v), l. split_and!; [done|by rewrite not_elem_of_cons|].
      exists r. split; [done|]. rewrite Hr.
      by rewrite (bool_decide_ext _ (c ∈ x :: v ++ r)) by (rewrite elem_of_cons; naive_solver).
Qed.

(** ** Properties *)

(** What is stored for a cookie [name=value; attributes].  The call hands over
    the trimmed name and the trimmed text between the first and the second [=]: the
    whole value only when the value contains no [=] itself, and otherwise the value
    cut at its first [=]. *)
Theorem store_cookie_value {Zw : Zawra} (log : list event) (u : Url) (host name value attrs : str)
    (Hh : host_str u = Some host) (Hhp : plain host)
    (Hn : (ch "=" ∉ name) /\ (ch ";" ∉ name) /\ plain name)
    (Hv : (ch ";" ∉ value) /\ plain value)
    (Ha : attrs = [] \/ head attrs = Some (ch ";")) :
  exists stored rest, value = stored ++ rest
  /\ (rest = [] <-> ch "=" ∉ value) /\ (ch "=" ∉ stored) /\ (rest <> [] -> head rest = Some (ch "="))
  /\ let '(hi, lo) := hash_string (c_mem host) in
     store_cookie log u (name ++ ch "=" :: value ++ attrs)
     = Ret (log ++ [HashString (c_mem host);
                    CookiePut hi lo (c_mem (trim name)) (c_mem (trim stored)) 0 0]).
Proof.
  destruct Hn as (Hn1 & Hn2 & Hn3), Hv as [Hv1 Hv2].
  assert (Hs : ch ";" ∉ name ++ ch "=" :: value)
    by (rewrite not_elem_of_app, not_elem_of_cons; split_and!; [done|by_eval|done]).
  assert (Hp : exists l, split (ch ";") (name ++ ch "=" :: value ++ attrs) = (name ++ ch "=" :: value) :: l).
  { destruct Ha as [->|Ha].
    - rewrite app_nil_r. exists []. by apply split_no_sep.
    - destruct attrs as [|c attrs]; [done|]. injection Ha as ->.
      exists (split (ch ";") attrs). rewrite app_comm_cons, app_assoc. by apply split_app. }
  destruct Hp as [l Hp].
  destruct (split_two (ch "=") name value Hn1) as (v & l' & E & Hv' & r & -> & Hr).
  apply plain_app in Hv2 as [Hv2 _].
  exists v, r. split_and!; [done| |done| |].
  - split.
    + intros ->. by rewrite app_nil_r.
    + intros Hno. rewrite bool_decide_eq_false_2 in Hr by done. by destruct r.
  - intros Hne. destruct (bool_decide _); [done|]. by destruct r.
  - destruct (hash_string (c_mem host)) as [hi lo] eqn:Eh. unfold store_cookie. rewrite Hh.
    rewrite (plain_cstring host Hhp). cbn [mbind outcome_bind]. rewrite Hp, E.
    rewrite !plain_cstring by auto using plain_trim. cbn [mbind outcome_bind]. by rewrite Eh.
Qed.

Module Toy.
#[local] Instance zawra : Zawra :=
  {| hash_string := fun b => (Z.of_nat (length b), 7);
     cookie_get := fun _ _ _ buf => (0, lit "k=v" ++ 0 :: drop 4 buf) |}.
Lemma zawra_laws : ZawraLaws zawra.
Proof. split. intros. cbn [snd cookie_get zawra]. apply elem_of_app. right. by left. Qed.
End Toy.

Theorem store_cookie_value_witness :
  let u := mkUrl (Some (lit "h")) (lit "http://h/") in
  exists stored rest, lit "YWI==" = stored ++ rest
  /\ store_cookie (Zw := Toy.zawra) [] u (lit "token=YWI==; Secure")
     = Ret [HashString (c_mem (lit "h")); CookiePut 2 7 (c_mem (lit "token")) (c_mem (trim stored)) 0 0]
  /\ (ch "=" ∉ stored).
Proof.
  destruct (store_cookie_value (Zw := Toy.zawra) [] (mkUrl (Some (lit "h")) (lit "http://h/"))
    (lit "h") (lit "token") (lit "YWI==") (lit "; Secure")) as (st & r & H1 & _ & H3 & H4 & H5).
  - done.
  - unfold plain. by_eval.
  - unfold plain. by_eval.
  - unfold plain. by_eval.
  - by right.
  - exists st, r. split; [exact H1|]. split; [exact H5|exact H3].
Defined.

(** C40: one fetch.  For a URL with a host, it always completes; the request carries
    the browser's cookies for this host as its only header, or no header at all,
    whatever the engine held from the fetch before; and it makes exactly these
    calls in this order: look up the cookies under the host's hash, store the
    session cookie under the same hash, record the visit under the URL's hash. *)
Theorem fetch_spec `{ZawraLaws} (e : FetchEngine) (log : list event) (u : Url) (host : str) (now : Z)
    (Hu : url_ok u) (Hh : host_str u = Some host) :
  let hostc := c_mem host in let urlc := c_mem (url_as_str u) in
  let '(hi, lo) := hash_string hostc in let '(uhi, ulo) := hash_string urlc in
  let asked := log ++ [HashString hostc; CookieGet hi lo 4096] in
  let '(code, buf) := cookie_get asked hi lo (replicate 4096 0) in
  exists cookies,
    (if code =? 0 then cstr_lossy buf = Ret cookies else cookies = [])
    /\ fetch e log u now
       = Ret (mkFetchEngine (if bool_decide (cookies = []) then ∅ else {[COOKIE := cookies]}),
              asked ++ [HashString hostc;
                        CookiePut hi lo (c_mem (lit "session_id")) (c_mem (lit "12345")) 0 0]
                    ++ [HashString urlc;
                        HistoryPut uhi ulo urlc (c_mem (lit "Zawra Browser Page")) now]).
Proof.
  destruct Hu as [Hp1 Hp2]. rewrite Hh in Hp1. cbn [default from_option id] in Hp1.
  cbv zeta.
  destruct (hash_string (c_mem host)) as [hi lo] eqn:E1.
  destruct (hash_string (c_mem (url_as_str u))) as [uhi ulo] eqn:E2.
  set (asked := log ++ [HashString (c_mem host); CookieGet hi lo 4096]).
  destruct (cookie_get asked hi lo (replicate 4096 0)) as [code buf] eqn:E3.
  assert (Hinj : exists cookies,
    (if code =? 0 then cstr_lossy buf = Ret cookies else cookies = [])
    /\ inject_cookies log u = Ret (asked, cookies)).
  { unfold inject_cookies. rewrite Hh, plain_cstring by done. cbn [mbind outcome_bind].
    rewrite E1. change (log ++ [HashString (c_mem host); CookieGet hi lo 4096]) with asked.
    rewrite E3.
    destruct (Z.eqb_spec code 0) as [->|Hc].
    - destruct (cstr_from_ptr_total buf) as [b Hb].
      { pose proof (cookie_get_terminated asked hi lo (replicate 4096 0)) as Ht.
        rewrite E3 in Ht. by apply Ht. }
      exists (from_utf8_lossy b). unfold cstr_lossy. rewrite Hb. by split.
    - exists []. split; [done|]. by destruct code. }
  destruct Hinj as (cookies & Hc & Hinj). exists cookies. split; [done|].
  unfold fetch. rewrite Hinj. cbn [mbind outcome_bind].
  assert (Hst : store_cookie asked u (lit "session_id=12345; Path=/; HttpOnly")
    = Ret (asked ++ [HashString (c_mem host);
             CookiePut hi lo (c_mem (lit "session_id")) (c_mem (lit "12345")) 0 0])).
  { unfold store_cookie. rewrite Hh, (plain_cstring host) by done. cbn [mbind outcome_bind].
    rewrite E1. reflexivity. }
  rewrite Hst. cbn [mbind outcome_bind]. unfold record_history.
  rewrite !plain_cstring by (done || by_eval). cbn [mbind outcome_bind]. rewrite E2.
  by rewrite <- app_assoc.
Qed.

Theorem fetch_spec_witness :
  exists cookies, cookies = lit "k=v" /\
  fetch (Zw := Toy.zawra) (mkFetchEngine {[lit "Cookie" := lit "stale"]}) []
    (mkUrl (Some (lit "h")) (lit "http://h/")) 5
  = Ret (mkFetchEngine {[COOKIE := cookies]},
         [HashString (c_mem (lit "h")); CookieGet 2 7 4096;
          HashString (c_mem (lit "h"));
          CookiePut 2 7 (c_mem (lit "session_id")) (c_mem (lit "12345")) 0 0;
          HashString (c_mem (lit "http://h/"));
          HistoryPut 10 7 (c_mem (lit "http://h/")) (c_mem (lit "Zawra Browser Page")) 5]).
Proof.
  destruct (fetch_spec (H := Toy.zawra) (H0 := Toy.zawra_laws) (mkFetchEngine {[lit "Cookie" := lit "stale"]}) []
    (mkUrl (Some (lit "h")) (lit "http://h/")) (lit "h") 5) as (cookies & Hc & Hf).
  - by_eval.
  - done.
  - exists (lit "k=v"). split; [done|]. vm_compute in Hc. injection Hc as <-. exact Hf.
Defined.
