(* ===== verification/Ring.v ===== *)
(** * The body ring: a shared-memory byte queue (engine/src/lib.rs)

    [BodyRingDescriptor], the part of [net_read] that fills it, and the two
    watermarks.  The engine is the only producer; the consumer lives in another
    process and only advances [tail].  Producer and consumer interleave: [step]
    splits the producer at its shared accesses (loading the counters, copying the
    bytes into the free cells, publishing the new head), and the consumer may move
    at any point in between. *)

From S2P Require Import Prelude.

(** ** Data *)

(** [buffer] is the memory behind [buffer_ptr]; [head] and [tail] are the counters
    the atomics hold, 64 bits wide. *)
Record BodyRing := mkRing {
  buffer : bytes;
  capacity : Z;
  head : Z;
  tail : Z;
  is_closed : bool;
}.
#[export] Instance BodyRing_eq_dec : EqDecision BodyRing.
Proof. solve_decision. Defined.

Definition set_buffer (r : BodyRing) (b : bytes) : BodyRing :=
  mkRing b (capacity r) (head r) (tail r) (is_closed r).
Definition set_head (r : BodyRing) (h : Z) : BodyRing :=
  mkRing (buffer r) (capacity r) h (tail r) (is_closed r).
Definition set_tail (r : BodyRing) (t : Z) : BodyRing :=
  mkRing (buffer r) (capacity r) (head r) t (is_closed r).

(** ** The producer's side of [net_read] *)

(** [a % b] on unsigned integers. *)
Definition urem (a b : Z) : outcome Z := if b =? 0 then Panicked else Ret (a mod b).

(** The [IoSliceMut]s handed to [read_vectored], as start and length; [None] when
    the ring is full.  The guard also keeps [%] from a zero capacity. *)
Definition write_slices (h t cap : Z) : outcome (option (list (Z * Z))) :=
  if cap <=? wrapping_sub64 h t then Ret None
  else
    head_idx ← urem h cap;
    tail_idx ← urem t cap;
    if tail_idx <=? head_idx
    then Ret (Some [(head_idx, cap - head_idx); (0, tail_idx)])
    else Ret (Some [(head_idx, tail_idx - head_idx)]).

(** [from_raw_parts_mut]: a slice that leaves the memory behind [buffer_ptr] is
    undefined behaviour. *)
Definition in_buffer (buf : bytes) (s : Z * Z) : bool :=
  (0 <=? fst s) && (0 <=? snd s) && (fst s + snd s <=? Z.of_nat (length buf)).
Definition from_raw_parts_mut (buf : bytes) (slices : list (Z * Z)) : outcome (list (Z * Z)) :=
  if forallb (in_buffer buf) slices then Ret slices else Undefined.

(** Both together, on the counters as they are now. *)
Definition ring_slices (r : BodyRing) : outcome (option (list (Z * Z))) :=
  sl ← write_slices (head r) (tail r) (capacity r);
  match sl with
  | None => Ret None
  | Some sl => sl ← from_raw_parts_mut (buffer r) sl; Ret (Some sl)
  end.

(** The cells of a list of slices, in the order [read_vectored] fills them. *)
Definition cells (slices : list (Z * Z)) : list Z :=
  slices ≫= (fun s => seqZ (fst s) (snd s)).

(** What [read_vectored] does to the buffer; its slices are inside, by
    [from_raw_parts_mut]. *)
Fixpoint write_cells (buf : bytes) (idxs : list Z) (data : bytes) : bytes :=
  match idxs, data with
  | i :: idxs, b :: data => write_cells (<[Z.to_nat i := b]> buf) idxs data
  | _, _ => buf
  end.

(** [head.wrapping_sub(tail) as usize] *)
Definition available_read (r : BodyRing) : Z := wrapping_sub64 (head r) (tail r).

Definition over_high_water (r : BodyRing) : bool :=
  usize (capacity r * 95) / 100 <? available_read r.
Definition under_low_water (r : BodyRing) : bool :=
  available_read r <? usize (capacity r * 50) / 100.

(** ** Producer and consumer *)

Inductive producer :=
| PIdle
| PLoaded (slices : list (Z * Z))
| PCopied (n : Z).

Record state := mkState { ring : BodyRing; pc : producer }.

Inductive event :=
| Load
| Copy (data : bytes)
| Commit
| Consume (k : nat).

(** The bytes a consumer reads: [k] cells from [tail] on. *)
Definition peek (r : BodyRing) (k : nat) : list (option Z) :=
  (fun i => buffer r !! Z.to_nat ((tail r + i) mod capacity r)) <$> seqZ 0 (Z.of_nat k).

(** One step; the result carries what the consumer took.  [Stuck] means that the
    event cannot happen: a copy of more than the slices hold, or a consumer that
    takes more than it sees. *)
Definition step (s : state) (e : event) : outcome (state * list (option Z)) :=
  let r := ring s in
  match e, pc s with
  | Load, PIdle =>
      sl ← ring_slices r;
      match sl with
      | Some sl => Ret (mkState r (PLoaded sl), [])
      | None => Ret (mkState r PIdle, [])
      end
  | Copy data, PLoaded sl =>
      if (length data <=? length (cells sl))%nat
      then Ret (mkState (set_buffer r (write_cells (buffer r) (cells sl) data))
                   (PCopied (Z.of_nat (length data))), [])
      else Stuck
  | Commit, PCopied n => Ret (mkState (set_head r (u64 (head r + n))) PIdle, [])
  | Consume k, p =>
      if Z.of_nat k <=? available_read r
      then Ret (mkState (set_tail r (u64 (tail r + Z.of_nat k))) p, peek r k)
      else Stuck
  | _, _ => Stuck
  end.

Fixpoint run (s : state) (es : list event) : outcome (state * list (option Z)) :=
  match es with
  | [] => Ret (s, [])
  | e :: es => '(s, out) ← step s e; '(s, out') ← run s es; Ret (s, out ++ out')
  end.

(** The bytes the producer published: those of each copy that was committed. *)
Fixpoint published (pending : bytes) (es : list event) : bytes :=
  match es with
  | [] => []
  | Copy data :: es => published data es
  | Commit :: es => pending ++ published [] es
  | _ :: es => published pending es
  end.

(** ** Representation

    [T] counts all bytes ever consumed, so that [tail] is [T] modulo 2^64; the queue
    [q] sits in the cells from [T] on. *)

Record rep (r : BodyRing) (T : Z) (q : bytes) : Prop := mkRep {
  rep_cap : 0 < capacity r < 2 ^ 57;
  rep_buffer : Z.of_nat (length (buffer r)) = capacity r;
  rep_T : 0 <= T;
  rep_tail : tail r = u64 T;
  rep_head : head r = u64 (T + Z.of_nat (length q));
  rep_size : Z.of_nat (length q) <= capacity r;
  rep_cells : forall i b, q !! i = Some b ->
    buffer r !! Z.to_nat ((T + Z.of_nat i) mod capacity r) = Some b;
}.

(** The counters may wrap only where wrapping does not move the cells. *)
Definition wrap_ok (r : BodyRing) (N : Z) : Prop := (capacity r | 2 ^ 64) \/ N < 2 ^ 64.

(** What the producer holds while it fills the ring whose queue is [q]. *)
Definition pc_inv (r : BodyRing) (T : Z) (q : bytes) (p : producer) (pending : bytes) : Prop :=
  let H := T + Z.of_nat (length q) in
  match p with
  | PIdle => pending = []
  | PLoaded sl => pending = [] /\ exists free, free <= capacity r - Z.of_nat (length q)
      /\ cells sl = (fun i => (H + i) mod capacity r) <$> seqZ 0 free
  | PCopied n => n = Z.of_nat (length pending)
      /\ n <= capacity r - Z.of_nat (length q)
      /\ forall i b, pending !! i = Some b ->
           buffer r !! Z.to_nat ((H + Z.of_nat i) mod capacity r) = Some b
  end.

(** ** Arithmetic of the cells *)

Section Cells.
Context (cap : Z) (Hcap : 0 < cap).

Lemma urem_ret a : urem a cap = Ret (a mod cap).
Proof. unfold urem. by rewrite (proj2 (Z.eqb_neq _ _)) by lia. Qed.

Lemma u64_mod n : 0 <= n -> (cap | 2 ^ 64) \/ n < 2 ^ 64 -> u64 n mod cap = n mod cap.
Proof.
  intros Hn [[k Hk]|Hlt].
  - unfold u64, wrap. rewrite Hk, Z.mul_comm.
    rewrite Z.rem_mul_r by nia. rewrite Z.mul_comm, Z_mod_plus_full. apply Z.mod_mod. lia.
  - by rewrite u64_small.
Qed.

Lemma mod_seqZ a n b :
  (a mod cap) = b -> 0 <= n -> b + n <= cap -> (fun i => (a + i) mod cap) <$> seqZ 0 n = seqZ b n.
Proof.
  intros <- Hn Hb. apply list_eq. intros i. rewrite list_lookup_fmap.
  pose proof (Z.mod_pos_bound a cap Hcap).
  destruct (decide (Z.of_nat i < n)) as [Hi|Hi].
  - rewrite !lookup_seqZ_lt by lia. cbn. f_equal.
    rewrite <- Z.add_mod_idemp_l, Z.mod_small by lia. lia.
  - rewrite !lookup_seqZ_ge by lia. done.
Qed.

(** The slices are exactly the free cells, in ring order from [head] on. *)
Lemma write_slices_cells h t H T :
  0 <= T <= H -> H - T < cap -> h mod cap = H mod cap -> t mod cap = T mod cap ->
  wrapping_sub64 h t = H - T ->
  exists sl, write_slices h t cap = Ret (Some sl)
  /\ cells sl = (fun i => (H + i) mod cap) <$> seqZ 0 (cap - (H - T)).
Proof.
  intros HT Hu Hh Ht Hs. unfold write_slices. rewrite !urem_ret, Hs, Hh, Ht. decide_cmp. cbn [mbind outcome_bind].
  pose proof (Z.mod_pos_bound H cap Hcap). pose proof (Z.mod_pos_bound T cap Hcap).
  pose proof (Z.div_mod H cap). pose proof (Z.div_mod T cap).
  destruct (Z.leb_spec (T mod cap) (H mod cap)).
  - assert (H / cap = T / cap) by nia. eexists. split; [done|]. unfold cells. cbn [mbind list_bind fst snd].
    rewrite app_nil_r. replace (cap - (H - T)) with ((cap - H mod cap) + T mod cap) by lia.
    rewrite seqZ_app by lia. rewrite fmap_app, (mod_seqZ H _ (H mod cap)) by lia. f_equal.
    rewrite <- (mod_seqZ (H + (cap - H mod cap)) (T mod cap) 0) at 1; [|
      replace (H + (cap - H mod cap)) with ((H / cap + 1) * cap) by lia; apply Z_mod_mult | lia..].
    replace (seqZ (0 + (cap - H mod cap)) (T mod cap))
      with (Z.add (cap - H mod cap) <$> seqZ 0 (T mod cap)) by (rewrite fmap_add_seqZ; f_equal; lia).
    rewrite <- list_fmap_compose. apply list_fmap_ext. intros i x _. cbn [compose]. f_equal. lia.
  - assert (H / cap = T / cap + 1) by nia. eexists. split; [done|]. unfold cells. cbn [mbind list_bind fst snd].
    rewrite app_nil_r, (mod_seqZ H _ (H mod cap)) by lia. f_equal. lia.
Qed.

(** Cells of a window no longer than the ring are distinct. *)
Lemma window_distinct a i j :
  0 <= i < cap -> 0 <= j < cap -> (a + i) mod cap = (a + j) mod cap -> i = j.
Proof.
  intros Hi Hj E.
  pose proof (Z.div_mod (a + i) cap ltac:(lia)). pose proof (Z.div_mod (a + j) cap ltac:(lia)).
  assert ((a + i) / cap = (a + j) / cap) by nia. nia.
Qed.
End Cells.

(** Whatever the counters are, the slices of a ring are in its buffer. *)
Lemma ring_slices_ok r :
  0 <= capacity r -> Z.of_nat (length (buffer r)) = capacity r ->
  ring_slices r = write_slices (head r) (tail r) (capacity r)
  /\ exists o, ring_slices r = Ret o.
Proof.
  intros Hc Hl. unfold ring_slices, write_slices.
  destruct (Z.leb_spec (capacity r) (wrapping_sub64 (head r) (tail r))) as [_|Hlt].
  { split; [done|]. by exists None. }
  assert (Hpos : 0 < capacity r).
  { pose proof (u64_range (head r - tail r)) as Hu. unfold in_u64 in Hu. unfold wrapping_sub64 in Hlt.
    destruct (decide (capacity r = 0)) as [E|]; [|lia]. rewrite E in Hlt. lia. }
  rewrite !(urem_ret _ Hpos). cbn [mbind outcome_bind].
  pose proof (Z.mod_pos_bound (head r) (capacity r) Hpos). pose proof (Z.mod_pos_bound (tail r) (capacity r) Hpos).
  unfold from_raw_parts_mut, in_buffer. rewrite Hl.
  destruct (Z.leb_spec (tail r mod capacity r) (head r mod capacity r)); cbn [mbind outcome_bind forallb fst snd];
    decide_cmp; cbn [andb mbind outcome_bind]; by (split; [|eexists]).
Qed.

Lemma ring_slices_bound r sl :
  0 <= capacity r -> ring_slices r = Ret (Some sl) -> Z.of_nat (length (cells sl)) <= capacity r.
Proof.
  intros Hc H. unfold ring_slices, write_slices in H. case_match; [done|].
  apply outcome_bind_inv in H as (o & H1 & H2).
  apply outcome_bind_inv in H1 as (hi & Eh & H1). apply outcome_bind_inv in H1 as (ti & Et & H1).
  unfold urem in Eh, Et. destruct (Z.eqb_spec (capacity r) 0) as [|Hne]; [done|]. simplify_eq.
  pose proof (Z.mod_pos_bound (head r) (capacity r)). pose proof (Z.mod_pos_bound (tail r) (capacity r)).
  assert (Hsl : o = Some sl).
  { destruct o as [sl'|]; [|done]. apply outcome_bind_inv in H2 as (sl2 & H2 & [= <-]).
    unfold from_raw_parts_mut in H2. by case_match; simplify_eq. }
  clear H2. subst o. destruct (Z.leb_spec (tail r mod capacity r) (head r mod capacity r)); injection H1 as <-;
    unfold cells; cbn; rewrite ?length_app, ?length_seqZ; cbn; lia.
Qed.

Lemma write_cells_length buf idxs data : length (write_cells buf idxs data) = length buf.
Proof.
  revert buf data. induction idxs as [|i idxs IH]; intros buf [|b data]; cbn; try done.
  by rewrite IH, length_insert.
Qed.

Lemma write_cells_other buf idxs data x :
  0 <= x -> Forall (fun i => 0 <= i) idxs -> (forall k, (k < length data)%nat -> idxs !! k <> Some x) ->
  write_cells buf idxs data !! Z.to_nat x = buf !! Z.to_nat x.
Proof.
  intros Hx. revert buf data. induction idxs as [|i idxs IH]; intros buf [|b data] Hi H; cbn; try done.
  inv Hi. rewrite IH; [|done|].
  - apply list_lookup_insert_ne. intros E. apply (H 0%nat); [cbn; lia|]. cbn. f_equal. lia.
  - intros k Hk. apply (H (S k)). cbn. lia.
Qed.

Lemma write_cells_at buf idxs data k x b :
  Forall (fun i => 0 <= i < Z.of_nat (length buf)) idxs -> NoDup idxs ->
  idxs !! k = Some x -> data !! k = Some b -> write_cells buf idxs data !! Z.to_nat x = Some b.
Proof.
  revert buf data k. induction idxs as [|i idxs IH]; intros buf [|c data] [|k] Hi Hd Hk Hb;
    cbn in *; try done.
  - simplify_eq. inv Hi. inv Hd. rewrite write_cells_other; [|lia|by eapply Forall_impl; [done|]; cbn; lia|].
    + apply list_lookup_insert_eq. lia.
    + intros j _ Hj. match goal with H : _ ∉ _ |- _ => apply H end. by eapply list_elem_of_lookup_2.
  - inv Hi. inv Hd. eapply IH; try done. by rewrite length_insert.
Qed.

(** ** The representation is kept by every step *)

Section Rep.
Context (r : BodyRing) (T : Z) (q : bytes) (Hr : rep r T q).

Let cap := capacity r.
Let H := T + Z.of_nat (length q).

Lemma wrapping_sub_counters a l : 0 <= l < 2 ^ 64 -> wrapping_sub64 (u64 (a + l)) (u64 a) = l.
Proof.
  intros Hl. unfold wrapping_sub64, u64, wrap. rewrite <- Zminus_mod.
  replace (a + l - a) with l by lia. by apply Z.mod_small.
Qed.

Lemma available_rep : available_read r = Z.of_nat (length q).
Proof.
  unfold available_read. rewrite (rep_head _ _ _ Hr), (rep_tail _ _ _ Hr).
  apply wrapping_sub_counters. pose proof (rep_cap _ _ _ Hr). pose proof (rep_size _ _ _ Hr). lia.
Qed.

Lemma slices_rep :
  wrap_ok r H ->
  (Z.of_nat (length q) = cap -> write_slices (head r) (tail r) cap = Ret None)
  /\ (Z.of_nat (length q) < cap ->
  exists sl, write_slices (head r) (tail r) cap = Ret (Some sl)
  /\ cells sl = (fun i => (H + i) mod cap) <$> seqZ 0 (cap - Z.of_nat (length q))).
Proof.
  intros Hw. pose proof available_rep as Ha. unfold available_read in Ha. split; intros Hq.
  - unfold write_slices. rewrite Ha. by decide_cmp.
  - pose proof (rep_cap _ _ _ Hr). pose proof (rep_T _ _ _ Hr).
    destruct (write_slices_cells cap ltac:(unfold cap; lia) (head r) (tail r) H T) as (sl & E & Hc).
    + unfold H; lia.
    + unfold H; lia.
    + rewrite (rep_head _ _ _ Hr). apply u64_mod; [unfold cap; lia|lia|exact Hw].
    + rewrite (rep_tail _ _ _ Hr). apply u64_mod; [unfold cap; lia|lia|].
      destruct Hw as [?|?]; [by left|right]. unfold H in *. lia.
    + rewrite Ha. unfold H. lia.
    + exists sl. split; [exact E|]. rewrite Hc. do 3 f_equal. unfold H. lia.
Qed.

Lemma ring_slices_rep : ring_slices r = write_slices (head r) (tail r) cap.
Proof. apply ring_slices_ok; [pose proof (rep_cap _ _ _ Hr); lia|apply Hr]. Qed.

Lemma free_cells_facts free :
  free <= cap - Z.of_nat (length q) ->
  let idxs := (fun i => (H + i) mod cap) <$> seqZ 0 free in
  NoDup idxs /\ Forall (fun i => 0 <= i < Z.of_nat (length (buffer r))) idxs
  /\ (forall k x, idxs !! k = Some x -> x = (H + Z.of_nat k) mod cap /\ Z.of_nat k < free)
  /\ (forall j k, (j < length q)%nat -> idxs !! k <> Some ((T + Z.of_nat j) mod cap)).
Proof.
  intros Hf idxs. pose proof (rep_cap _ _ _ Hr) as Hcap. fold cap in Hcap.
  assert (Hc0 : 0 < cap) by lia.
  assert (Hk : forall k x, idxs !! k = Some x -> x = (H + Z.of_nat k) mod cap /\ Z.of_nat k < free).
  { intros k x. unfold idxs. rewrite list_lookup_fmap, fmap_Some.
    intros (y & [-> Hy]%lookup_seqZ & ->). split; [by rewrite Z.add_0_l|done]. }
  split_and!.
  - apply NoDup_alt. intros i j x Hi Hj. apply Hk in Hi as [-> Hi], Hj as [E Hj].
    apply (window_distinct cap Hc0) in E; lia.
  - apply Forall_lookup. intros k x Hx. apply Hk in Hx as [-> _].
    rewrite (rep_buffer _ _ _ Hr). apply Z.mod_pos_bound. lia.
  - exact Hk.
  - intros j k Hj Hx. apply Hk in Hx as [E Hlt]. unfold H in E.
    replace (T + Z.of_nat (length q) + Z.of_nat k) with (T + (Z.of_nat (length q) + Z.of_nat k)) in E by lia.
    apply (window_distinct cap Hc0) in E; lia.
Qed.

(** Copying into free cells leaves the queue alone and places the data. *)
Lemma copy_rep sl free data :
  free <= cap - Z.of_nat (length q) ->
  cells sl = (fun i => (H + i) mod cap) <$> seqZ 0 free ->
  (length data <= length (cells sl))%nat ->
  let r' := set_buffer r (write_cells (buffer r) (cells sl) data) in
  rep r' T q /\ pc_inv r' T q (PCopied (Z.of_nat (length data))) data.
Proof.
  intros Hf Hc Hd r'. destruct (free_cells_facts free Hf) as (Hnd & Hfa & Hk & Hdis).
  rewrite <- Hc in Hnd, Hfa, Hk, Hdis.
  pose proof (rep_cap _ _ _ Hr) as Hcap. fold cap in Hcap.
  assert (Hlen : Z.of_nat (length (cells sl)) = Z.max 0 free).
  { rewrite Hc, length_fmap, length_seqZ. lia. }
  split.
  - split; try apply Hr; cbn.
    + rewrite write_cells_length. apply Hr.
    + intros i b Hb. rewrite write_cells_other.
      * by apply (rep_cells _ _ _ Hr).
      * apply Z.mod_pos_bound. lia.
      * eapply Forall_impl; [exact Hfa|]. cbn. lia.
      * intros k _. apply Hdis. by eapply lookup_lt_Some.
  - split; [done|]. pose proof (rep_size _ _ _ Hr) as Hsz. fold cap in Hsz. cbn. split.
    + change (capacity r) with cap. destruct data; cbn [length] in *; lia.
    + intros i b Hb. apply lookup_lt_Some in Hb as Hi.
      destruct (lookup_lt_is_Some_2 (cells sl) i) as [x Hx]; [lia|].
      destruct (Hk i x Hx) as [-> _]. by apply (write_cells_at _ _ _ i _ _ Hfa Hnd Hx).
Qed.

Lemma commit_rep pending :
  pc_inv r T q (PCopied (Z.of_nat (length pending))) pending ->
  rep (set_head r (u64 (head r + Z.of_nat (length pending)))) T (q ++ pending).
Proof.
  intros (_ & Hn & Hp). split; try apply Hr; cbn.
  - rewrite (rep_head _ _ _ Hr), length_app. unfold u64, wrap. rewrite Zplus_mod_idemp_l.
    f_equal. lia.
  - rewrite length_app. lia.
  - intros i b Hb. destruct (decide (i < length q)%nat).
    + rewrite lookup_app_l in Hb by lia. by apply (rep_cells _ _ _ Hr).
    + rewrite lookup_app_r in Hb by lia. apply Hp in Hb. rewrite <- Hb. do 3 f_equal. lia.
Qed.

Lemma peek_rep k :
  wrap_ok r H -> (k <= length q)%nat -> peek r k = Some <$> take k q.
Proof.
  intros Hw Hk. apply list_eq. intros i. unfold peek. rewrite !list_lookup_fmap.
  pose proof (rep_cap _ _ _ Hr). pose proof (rep_T _ _ _ Hr).
  destruct (decide (i < k)%nat) as [Hi|Hi].
  - rewrite lookup_seqZ_lt by lia. rewrite lookup_take, decide_True by done.
    destruct (lookup_lt_is_Some_2 q i) as [b Hb]; [lia|]. rewrite Hb. cbn. f_equal.
    rewrite <- (rep_cells _ _ _ Hr i b Hb). do 2 f_equal.
    rewrite (rep_tail _ _ _ Hr), Z.add_0_l, <- Z.add_mod_idemp_l by lia.
    rewrite u64_mod, Z.add_mod_idemp_l by (lia || (destruct Hw; [by left|right; unfold H in *; lia])). done.
  - rewrite lookup_seqZ_ge, lookup_take, decide_False by lia. done.
Qed.

Lemma consume_rep k :
  (k <= length q)%nat ->
  rep (set_tail r (u64 (tail r + Z.of_nat k))) (T + Z.of_nat k) (drop k q).
Proof.
  intros Hk. pose proof (rep_T _ _ _ Hr). split; cbn; try apply Hr; rewrite ?length_drop.
  - lia.
  - rewrite (rep_tail _ _ _ Hr). unfold u64, wrap. by rewrite Zplus_mod_idemp_l.
  - rewrite (rep_head _ _ _ Hr). f_equal. lia.
  - pose proof (rep_size _ _ _ Hr). lia.
  - intros i b. rewrite lookup_drop. intros Hb. rewrite <- (rep_cells _ _ _ Hr _ _ Hb).
    do 3 f_equal. lia.
Qed.

Lemma pc_inv_consume p pending k :
  (k <= length q)%nat -> pc_inv r T q p pending ->
  pc_inv (set_tail r (u64 (tail r + Z.of_nat k))) (T + Z.of_nat k) (drop k q) p pending.
Proof.
  intros Hk. unfold pc_inv. rewrite length_drop.
  replace (T + Z.of_nat k + Z.of_nat (length q - k)) with (T + Z.of_nat (length q)) by lia.
  destruct p as [|sl|n]; [done| |]; cbn.
  - intros (Hp & free & Hf & Hc). split; [done|]. exists free. split; [lia|done].
  - intros (Hn & Hle & Hp). split_and!; [done|lia|done].
Qed.
End Rep.

(** ** Properties *)

(** [BodyRingDescriptor] as the other side creates it. *)
Definition ring_init (buf : bytes) : BodyRing := mkRing buf (Z.of_nat (length buf)) 0 0 false.

Lemma rep_init buf : 0 < Z.of_nat (length buf) < 2 ^ 57 -> rep (ring_init buf) 0 [].
Proof. intros H. split; cbn; try done; lia. Qed.

Lemma wrap_ok_mono r r' n m : capacity r' = capacity r -> m <= n -> wrap_ok r n -> wrap_ok r' m.
Proof. intros E Hm [Hd|Hn]; [left; by rewrite E|right; lia]. Qed.

Lemma step_inv s e s' out T q pending N :
  step s e = Ret (s', out) -> rep (ring s) T q -> pc_inv (ring s) T q (pc s) pending ->
  T + Z.of_nat (length q) <= N -> wrap_ok (ring s) N ->
  exists T' q' pending', rep (ring s') T' q' /\ pc_inv (ring s') T' q' (pc s') pending'
    /\ capacity (ring s') = capacity (ring s)
    /\ pending' = match e with Copy data => data | Commit => [] | _ => pending end
    /\ T + Z.of_nat (length q) + Z.of_nat (length (match e with Commit => pending | _ => [] end))
       = T' + Z.of_nat (length q')
    /\ Some <$> (q ++ match e with Commit => pending | _ => [] end) = out ++ (Some <$> q').
Proof.
  intros Hs Hr Hp HN Hw. destruct s as [r p]; cbn in *.
  assert (Hw' : wrap_ok r (T + Z.of_nat (length q))) by (by eapply wrap_ok_mono).
  destruct e as [|data| |k].
  - destruct p as [|sl|n]; cbn in Hs; try discriminate.
    exists T, q, pending. rewrite app_nil_r, Z.add_0_r.
    pose proof (slices_rep r T q Hr Hw') as [Hfull Hfree]. rewrite (ring_slices_rep r T q Hr) in Hs.
    destruct (decide (Z.of_nat (length q) = capacity r)) as [He|He].
    + rewrite Hfull in Hs by done. by simplify_eq/=.
    + pose proof (rep_size _ _ _ Hr). destruct Hfree as (sl & E & Hc); [lia|].
      rewrite E in Hs. simplify_eq/=. split_and!; try done. eexists. by split; [|exact Hc].
  - destruct p as [|sl|n]; cbn in Hs; try discriminate.
    destruct (length data <=? length (cells sl))%nat eqn:El; [|done]. apply Nat.leb_le in El.
    destruct Hp as (-> & free & Hf & Hc). simplify_eq/=.
    exists T, q, data. rewrite app_nil_r, Z.add_0_r.
    destruct (copy_rep r T q Hr sl free data Hf Hc El) as [Hr1 Hp1].
    split; [exact Hr1|]. split; [exact Hp1|]. split_and!; try done; cbn; lia.
  - destruct p as [|sl|n]; cbn in Hs; try discriminate.
    pose proof Hp as (-> & _). simplify_eq/=. exists T, (q ++ pending), [].
    split_and!; try done; [by apply commit_rep|rewrite length_app; lia].
  - assert (Hs' : (if Z.of_nat k <=? available_read r
      then Ret (mkState (set_tail r (u64 (tail r + Z.of_nat k))) p, peek r k) else Stuck)
      = Ret (s', out)) by (by destruct p).
    destruct (Z.leb_spec (Z.of_nat k) (available_read r)) as [Hk|]; [|done]. simplify_eq/=.
    rewrite (available_rep r T q Hr) in Hk. exists (T + Z.of_nat k), (drop k q), pending.
    rewrite app_nil_r, Z.add_0_r, (peek_rep r T q Hr) by (done || lia). split_and!; try done.
    + apply consume_rep; [done|lia].
    + apply (pc_inv_consume r T q p pending k); [lia|done].
    + rewrite length_drop. lia.
    + by rewrite <- fmap_app, take_drop.
Qed.

Lemma published_cons pending e es :
  published pending (e :: es)
  = match e with Commit => pending | _ => [] end
    ++ published (match e with Copy data => data | Commit => [] | _ => pending end) es.
Proof. by destruct e. Qed.

Lemma run_inv s es s' out T q pending :
  run s es = Ret (s', out) -> rep (ring s) T q -> pc_inv (ring s) T q (pc s) pending ->
  wrap_ok (ring s) (T + Z.of_nat (length q) + Z.of_nat (length (published pending es))) ->
  exists T' q' pending', rep (ring s') T' q' /\ pc_inv (ring s') T' q' (pc s') pending'
    /\ Some <$> (q ++ published pending es) = out ++ (Some <$> q').
Proof.
  revert s out T q pending. induction es as [|e es IH]; intros s out T q pending Hrun Hr Hp Hw.
  - cbn in Hrun. simplify_eq. exists T, q, pending. cbn. by rewrite app_nil_r.
  - cbn in Hrun. destruct (step s e) as [[s1 o1]| | |] eqn:Es; [|done..]. cbn in Hrun.
    destruct (run s1 es) as [[s2 o2]| | |] eqn:Er; [|done..]. cbn in Hrun. simplify_eq.
    rewrite published_cons in *. rewrite length_app in Hw.
    destruct (step_inv _ _ _ _ _ _ _ _ Es Hr Hp (Z.le_refl _)) as (T1 & q1 & p1 & Hr1 & Hp1 & Hc & -> & Hl & Ho).
    { eapply wrap_ok_mono; [done| |exact Hw]. lia. }
    destruct (IH _ _ _ _ _ Er Hr1 Hp1) as (T2 & q2 & p2 & Hr2 & Hp2 & Ho2).
    { eapply wrap_ok_mono; [exact Hc| |exact Hw]. lia. }
    exists T2, q2, p2. split_and!; [done|done|].
    rewrite app_assoc, fmap_app, Ho, <- app_assoc, <- fmap_app, Ho2. by rewrite app_assoc.
Qed.

(** No step of a ring in order can fail; it may only be one that cannot happen. *)
Lemma step_safe s e T q :
  rep (ring s) T q -> step s e = Stuck \/ exists x, step s e = Ret x.
Proof.
  intros Hr. unfold step. destruct e, (pc s); try (by left); repeat case_match; try (by left); try (right; by eexists).
  destruct (ring_slices_ok (ring s)) as (_ & o & ->); [pose proof (rep_cap _ _ _ Hr); lia|apply Hr|].
  right. destruct o; by eexists.
Qed.

(** C5: the ring is a first-in first-out byte queue under every interleaving of
    producer and consumer.  Starting empty, in any sequence of loads, copies,
    commits and consumptions, the bytes the consumer took followed by the ones
    still in the ring are exactly the bytes published, in order; what is in the
    ring never exceeds the capacity.  No further step divides by zero or leaves the
    buffer.  The 64-bit counters may wrap when the capacity divides 2^64. *)
Theorem ring_fifo (buf : bytes) (es : list event) (s : state) (out : list (option Z))
    (Hcap : 0 < Z.of_nat (length buf) < 2 ^ 57)
    (Hw : (Z.of_nat (length buf) | 2 ^ 64) \/ Z.of_nat (length (published [] es)) < 2 ^ 64)
    (Hrun : run (mkState (ring_init buf) PIdle) es = Ret (s, out)) :
  (exists rest, Some <$> published [] es = out ++ (Some <$> rest)
   /\ available_read (ring s) = Z.of_nat (length rest)
   /\ Z.of_nat (length rest) <= capacity (ring s))
  /\ forall e, step s e = Stuck \/ exists x, step s e = Ret x.
Proof.
  destruct (run_inv _ _ _ _ 0 [] [] Hrun) as (T & q & p & Hr & Hp & Ho);
    [by apply rep_init|done|exact Hw|].
  split; [|intros e; by eapply step_safe].
  exists q. split_and!; [exact Ho|by eapply available_rep|apply Hr].
Qed.

Theorem ring_fifo_witness :
  let es := [Load; Copy [1; 2; 3]; Commit; Consume 2; Load; Copy [4; 5]; Consume 1; Commit; Consume 1] in
  exists s out, run (mkState (ring_init [0; 0; 0; 0]) PIdle) es = Ret (s, out)
  /\ out = Some <$> [1; 2; 3; 4]
  /\ exists rest, Some <$> published [] es = out ++ (Some <$> rest)
     /\ available_read (ring s) = Z.of_nat (length rest)
     /\ Z.of_nat (length rest) <= capacity (ring s).
Proof.
  eexists _, _. split; [vm_compute; reflexivity|]. split; [reflexivity|].
  apply (ring_fifo [0; 0; 0; 0] [Load; Copy [1; 2; 3]; Commit; Consume 2; Load; Copy [4; 5];
           Consume 1; Commit; Consume 1]); [by_eval|by right|vm_compute; reflexivity].
Defined.

(** C6: the slices given to [read_vectored] are exactly the free space.  A full
    ring is refused; otherwise the slices' cells are distinct, inside the buffer,
    disjoint from the queue's cells, and as many as the ring has free. *)
Theorem write_slices_exact (r : BodyRing) (T : Z) (q : bytes) (Hr : rep r T q)
    (Hw : wrap_ok r (T + Z.of_nat (length q))) :
  match write_slices (head r) (tail r) (capacity r) with
  | Ret None => Z.of_nat (length q) = capacity r
  | Ret (Some sl) =>
      NoDup (cells sl)
      /\ Z.of_nat (length (cells sl)) = capacity r - Z.of_nat (length q)
      /\ Forall (fun i => 0 <= i < Z.of_nat (length (buffer r))) (cells sl)
      /\ forall j, (j < length q)%nat -> (T + Z.of_nat j) mod capacity r ∉ cells sl
  | _ => False
  end.
Proof.
  pose proof (slices_rep r T q Hr Hw) as [Hfull Hfree]. pose proof (rep_size _ _ _ Hr).
  destruct (decide (Z.of_nat (length q) = capacity r)) as [He|He]; [by rewrite Hfull|].
  destruct Hfree as (sl & -> & Hc); [lia|].
  destruct (free_cells_facts r T q Hr (capacity r - Z.of_nat (length q))) as (Hnd & Hfa & _ & Hdis); [lia|].
  rewrite <- Hc in Hnd, Hfa, Hdis. split_and!; [done| |done|].
  - rewrite Hc, length_fmap, length_seqZ. lia.
  - intros j Hj [k Hk]%list_elem_of_lookup_1. by apply (Hdis j k Hj).
Qed.

Theorem write_slices_exact_witness :
  let r := mkRing [7; 8; 5; 6] 4 5 2 false in
  exists sl, write_slices (head r) (tail r) (capacity r) = Ret (Some sl) /\ NoDup (cells sl)
  /\ Z.of_nat (length (cells sl)) = 1.
Proof.
  eexists. split; [reflexivity|].
  destruct (write_slices_exact (mkRing [7; 8; 5; 6] 4 5 2 false) 2 [5; 6; 7]) as (H1 & H2 & _).
  - split; try by_eval.
    intros [|[|[|[|i]]]] b Hb; vm_compute in Hb |- *; congruence.
  - by right.
  - by split.
Defined.

(** C34: the two watermarks.  Filling pauses a connection when more than 95% of the
    ring is used, and it is resumed below 50%: the two never hold together, an
    empty ring always allows resuming if the capacity is at least 2, and with
    capacity 1 a paused connection can never be resumed. *)
Theorem watermarks (r : BodyRing) (T : Z) (q : bytes) (Hr : rep r T q) :
  (over_high_water r = true <-> capacity r * 95 / 100 < Z.of_nat (length q))
  /\ (under_low_water r = true <-> Z.of_nat (length q) < capacity r / 2)
  /\ (over_high_water r = true -> under_low_water r = false)
  /\ (2 <= capacity r -> q = [] -> under_low_water r = true)
  /\ (capacity r = 1 -> under_low_water r = false /\ (q <> [] -> over_high_water r = true)).
Proof.
  pose proof (rep_cap _ _ _ Hr). unfold over_high_water, under_low_water.
  rewrite (available_rep r T q Hr). unfold usize, wrap. rewrite !Z.mod_small by lia.
  replace (capacity r * 50 / 100) with (capacity r / 2).
  2:{ replace 100 with (2 * 50) by done. by rewrite Z.div_mul_cancel_r. }
  rewrite !Z.ltb_lt, !Z.ltb_ge. split_and!; try done.
  - intros Hh. assert (capacity r / 2 <= capacity r * 95 / 100); [|lia].
    apply Z.div_le_lower_bound; [lia|]. pose proof (Z.mul_div_le (capacity r) 2). lia.
  - intros Hc ->. cbn. apply Z.div_str_pos. lia.
  - intros ->. change (1 * 95 / 100) with 0. change (1 / 2) with 0. split; [lia|].
    intros Hq. destruct q; [done|]. cbn. lia.
Qed.

Theorem watermarks_witness :
  let r := mkRing [9] 1 1 0 false in
  over_high_water r = true /\ under_low_water r = false.
Proof.
  destruct (watermarks (mkRing [9] 1 1 0 false) 0 [9]) as (_ & _ & _ & _ & H).
  - split; try by_eval. intros [|i] b Hb; vm_compute in Hb |- *; congruence.
  - destruct (H eq_refl) as [H1 H2]. split; [by apply H2|done].
Defined.
