(* ===== verification/Net.v ===== *)
(** * The operating system and the protocol libraries, as the engine sees them

    Sockets (std, mio), TLS (rustls) and QUIC (quinn-proto) are not part of the
    program.  [Net] is the interface the engine's code uses; [NetLaws] states the
    documented facts it relies on.  The environment's own state is [W]: every call
    may read and change it.  [Toy] is a concrete environment for the witnesses. *)

From S2P Require Import Prelude Str.

(** [std::io::ErrorKind], as far as the code distinguishes it. *)
Inductive io_error := WouldBlock | OtherError.
#[export] Instance io_error_eq_dec : EqDecision io_error.
Proof. solve_decision. Defined.

Inductive protocol_version := TLSv1_2 | TLSv1_3 | OtherVersion.

Class Net := {
  W : Type;
  Addr : Type;
  (** TCP *)
  Stream : Type;
  to_socket_addrs : W -> str -> W * result (list Addr) unit;
  tcp_connect : W -> Addr -> W * result Stream unit;
  set_nodelay : W -> Stream -> W;
  sock_register : W -> Stream -> Z -> W * result unit unit;
  sock_deregister : W -> Stream -> W;
  sock_read : W -> Stream -> Z -> W * result bytes io_error;
  sock_write : W -> Stream -> bytes -> W * result Z io_error;
  sock_shutdown : W -> Stream -> W;
  sock_drop : W -> Stream -> W;
  (** [mio::Poll::poll]: the number of events delivered. *)
  poll_wait : W -> option Z -> W * result Z unit;
  (** rustls *)
  Tls : Type;
  server_name_ok : str -> bool;
  tls_new : str -> option Tls;
  read_tls : Tls -> bytes -> Tls * result Z unit;
  process_new_packets : Tls -> Tls * result unit unit;
  reader_read : Tls -> Z -> Tls * result bytes io_error;
  writer_write : Tls -> bytes -> Tls * result Z unit;
  wants_write : Tls -> bool;
  wants_read : Tls -> bool;
  write_tls : W -> Tls -> Stream -> W * Tls * result Z io_error;
  is_handshaking : Tls -> bool;
  tls_version : Tls -> option protocol_version;
  peer_certificates : Tls -> option (list bytes);
  (** UDP and quinn-proto *)
  Udp : Type;
  QEndpoint : Type;
  QConn : Type;
  QHandle : Type;
  QEvent : Type;
  q_handle_eqb : QHandle -> QHandle -> bool;
  now : W -> Z;
  udp_bind : W -> W * result Udp unit;
  udp_set_nonblocking : W -> Udp -> W * result unit unit;
  udp_local_addr : W -> Udp -> result Addr unit;
  udp_register : W -> Udp -> Z -> W * result unit unit;
  udp_deregister : W -> Udp -> W;
  udp_recv_from : W -> Udp -> Z -> W * result (bytes * Addr) io_error;
  udp_send_to : W -> Udp -> bytes -> Addr -> W;
  udp_drop : W -> Udp -> W;
  quic_config_ok : bool;
  endpoint_new : QEndpoint;
  endpoint_connect : QEndpoint -> Z -> Addr -> str -> QEndpoint * result (QHandle * QConn) unit;
  (** The connection event of a datagram, if it has one, and [tx_buf] afterwards. *)
  endpoint_handle : QEndpoint -> Z -> Addr -> bytes -> bytes
                    -> QEndpoint * bytes * option (QHandle * QEvent);
  handle_event : QConn -> QEvent -> QConn;
  poll_timeout : QConn -> QConn * option Z;
  handle_timeout : QConn -> Z -> QConn;
  (** The transmit's size and destination; the datagram goes to [tx_buf]. *)
  poll_transmit : QConn -> Z -> bytes -> QConn * bytes * option (Z * Addr);
  quic_close : QConn -> Z -> QConn;
}.

(** [Read] and [Write] never report more than the buffer they were given. *)
Class NetLaws `(Net) : Prop := {
  sock_read_len w s n b : 0 <= n -> snd (sock_read w s n) = Ok b -> Z.of_nat (length b) <= n;
  sock_write_len w s b n : snd (sock_write w s b) = Ok n -> 0 <= n <= Z.of_nat (length b);
  reader_read_len t n b : 0 <= n -> snd (reader_read t n) = Ok b -> Z.of_nat (length b) <= n;
  writer_write_len t b n : snd (writer_write t b) = Ok n -> 0 <= n <= Z.of_nat (length b);
}.

(** ** A concrete environment

    One script of socket reads, a log of what is sent, and a TLS layer that passes
    bytes through once its handshake byte has arrived. *)
Module Toy.
Record world := mkWorld {
  rx : list (result bytes io_error);
  tx : list bytes;
  tokens : list Z;
  sockets : Z;
}.

Record tls := mkTls { t_open : bool; t_raw : bytes; t_plain : bytes; t_out : bytes }.

Definition read (w : world) (s : Z) (n : Z) : world * result bytes io_error :=
  match rx w with
  | [] => (w, Err WouldBlock)
  | Err e :: r => (mkWorld r (tx w) (tokens w) (sockets w), Err e)
  | Ok b :: r => (mkWorld r (tx w) (tokens w) (sockets w), Ok (take (Z.to_nat n) b))
  end.

Definition write (w : world) (s : Z) (b : bytes) : world * result Z io_error :=
  (mkWorld (rx w) (tx w ++ [b]) (tokens w) (sockets w), Ok (Z.of_nat (length b))).

Definition send (w : world) (s : Z) (b : bytes) (a : Z) : world :=
  mkWorld (rx w) (tx w ++ [b]) (tokens w) (sockets w).

Definition register (w : world) (s tok : Z) : world * result unit unit :=
  (mkWorld (rx w) (tx w) (tokens w ++ [tok]) (sockets w), Ok tt).

Definition connect (w : world) (a : Z) : world * result Z unit :=
  (mkWorld (rx w) (tx w) (tokens w) (sockets w + 1), Ok (sockets w)).

(** A blocking socket: at the end of the script the peer has closed. *)
Definition read_blocking (w : world) (s : Z) (n : Z) : world * result bytes io_error :=
  match rx w with [] => (w, Ok []) | Err WouldBlock :: _ => (w, Err OtherError) | _ => read w s n end.

(** [cut] is the part of a chunk one [read_tls] takes, [clean] what becomes of
    plaintext. *)
Definition net_with (read : world -> Z -> Z -> world * result bytes io_error) (cut clean : bytes -> bytes)
  : Net := {|
  W := world; Addr := Z; Stream := Z;
  to_socket_addrs w s := (w, match s with [] => Err tt | _ => Ok [4; 6] end);
  tcp_connect := connect; set_nodelay w s := w;
  sock_register := register; sock_deregister w s := w;
  sock_read := read; sock_write := write; sock_shutdown w s := w; sock_drop w s := w;
  poll_wait w t := (w, Ok (Z.of_nat (length (rx w))));
  Tls := tls; server_name_ok s := negb (str_eqb s []);
  tls_new s := Some (mkTls false [] [] [1]);
  read_tls t b :=
    (mkTls (t_open t) (t_raw t ++ cut b) (t_plain t) (t_out t), Ok (Z.of_nat (length (cut b))));
  process_new_packets t :=
    (if t_open t then mkTls true [] (t_plain t ++ t_raw t) (t_out t)
     else match t_raw t with
          | [] => t
          | _ :: r => mkTls true [] (t_plain t ++ r) (t_out t)
          end, Ok tt);
  reader_read t n :=
    match t_plain t with
    | [] => (t, Err WouldBlock)
    | p => (mkTls (t_open t) (t_raw t) (drop (Z.to_nat n) p) (t_out t), Ok (clean (take (Z.to_nat n) p)))
    end;
  writer_write t b := (mkTls (t_open t) (t_raw t) (t_plain t) (t_out t ++ b), Ok (Z.of_nat (length b)));
  wants_write t := negb (bool_decide (t_out t = []));
  wants_read t := true;
  write_tls w t s :=
    (fst (write w s (t_out t)), mkTls (t_open t) (t_raw t) (t_plain t) [], Ok (Z.of_nat (length (t_out t))));
  is_handshaking t := negb (t_open t);
  tls_version t := if t_open t then Some TLSv1_3 else None;
  peer_certificates t := if t_open t then Some [[0x30; 0x82; 1]] else None;
  Udp := Z; QEndpoint := unit; QConn := list bytes; QHandle := Z; QEvent := bytes;
  q_handle_eqb := Z.eqb; now w := 0; udp_bind w := connect w 0;
  udp_set_nonblocking w s := (w, Ok tt); udp_local_addr w s := Ok 0;
  udp_register := register; udp_deregister w s := w;
  udp_recv_from w s n := let '(w, r) := read w s n in (w, match r with Ok b => Ok (b, 4) | Err e => Err e end);
  udp_send_to := send; udp_drop w s := w;
  quic_config_ok := true; endpoint_new := tt;
  endpoint_connect e t a s := (e, Ok (0, [[7; 7]]));
  endpoint_handle e t a d buf :=
    match d with
    | 0xC0 :: _ => (e, buf ++ [0xEE; 0xEE], None)
    | _ => (e, buf, Some (0, d))
    end;
  handle_event c d := c ++ [d];
  poll_timeout c := (c, None); handle_timeout c t := c;
  poll_transmit c t buf :=
    match c with [] => ([], buf, None) | d :: c => (c, buf ++ d, Some (Z.of_nat (length d), 4)) end;
  quic_close c t := c ++ [[0xFF]];
|}.
Definition net : Net := net_with read (fun b => b) (fun b => b).
Definition blocking : Net := net_with read_blocking (fun b => b) (fun b => b).
(** A TLS layer that takes at most two bytes at a time. *)
Definition narrow : Net := net_with read (take 2) (fun b => b).
(** Whatever the script holds, bytes arrive. *)
Definition read_u8 (w : world) (s : Z) (n : Z) : world * result bytes io_error :=
  let '(w, r) := read w s n in (w, match r with Ok b => Ok (u8 <$> b) | Err e => Err e end).
Definition typed : Net := net_with read_u8 (fun b => b) (fmap u8).

Lemma toy_net_laws : NetLaws net.
Proof.
  split; cbn.
  - intros w s n b Hn. unfold read. destruct (rx w) as [|[x|e] r]; cbn; try done.
    intros [= <-]. rewrite length_take. lia.
  - intros w s b n [= <-]. lia.
  - intros t n b Hn. destruct (t_plain t) as [|x p]; cbn; try done.
    intros [= <-]. rewrite length_take. lia.
  - intros t b n [= <-]. lia.
Qed.

Definition world0 : world := mkWorld [] [] [] 0.
End Toy.
