(* ===== verification/Engine.v ===== *)
(** * The network engine's state (engine/src/lib.rs)

    The [NetEngine] struct and its parts, the memory the C ABI works on, and the
    monad the exported functions are written in.  An engine handle is the address
    of a boxed [NetEngine]; [sys] holds the boxes, the ring descriptors shared with
    other processes, and the environment.  [wp] is a program logic for the monad:
    it excludes panics and undefined behaviour. *)

From S2P Require Import Prelude Utf8 Str Ffi Ring Net.

Definition NULL : Z := 0.
Definition NS_OK : Z := 0.
Definition NS_ERROR_FAILURE : Z := -2147467259.

Inductive NetError :=
| NoError | InvalidHandle | NotConnected | IoError | TlsError | NetWouldBlock | OutOfMemory
| AlreadyRunning.

(** [NetError as i32] *)
Definition NetError_code (e : NetError) : Z :=
  match e with
  | NoError => 0 | InvalidHandle => -1 | NotConnected => -2 | IoError => -3 | TlsError => -4
  | NetWouldBlock => -5 | OutOfMemory => -6 | AlreadyRunning => -7
  end.

Inductive ConnState := Closed | Connecting | Handshaking | Connected | Closing.

(** [ConnState as i32] *)
Definition ConnState_code (c : ConnState) : Z :=
  match c with Closed => 0 | Connecting => 1 | Handshaking => 2 | Connected => 3 | Closing => 4 end.

Definition MAX_BUFFER_SIZE : Z := 16384.

Section State.
Context {N : Net}.

(** The two 16 KiB buffers of the source are scratch space: each call that reads
    one has filled it first, so they carry nothing from call to call. *)
Record Connection := mkConnection {
  stream : Stream;
  conn_state : ConnState;
  is_paused : bool;
  host : str;
  port : Z;
  tlsconn : option Tls;
}.

(** [Connection::new] *)
Definition Connection_new (s : Stream) (h : str) (p : Z) : Connection :=
  mkConnection s Connecting false h p None.

Definition set_paused (c : Connection) (b : bool) : Connection :=
  mkConnection (stream c) (conn_state c) b (host c) (port c) (tlsconn c).
Definition set_tls (c : Connection) (t : option Tls) : Connection :=
  mkConnection (stream c) (conn_state c) (is_paused c) (host c) (port c) t.

Record TlsState := mkTlsState {
  tls_stream : Stream;
  tls : Tls;
  tls_host : str;
  tls_port : Z;
  tls_is_closed : bool;
}.
Definition set_session (s : TlsState) (t : Tls) : TlsState :=
  mkTlsState (tls_stream s) t (tls_host s) (tls_port s) (tls_is_closed s).

Record QuicEndpointEntry := mkQuicEndpointEntry {
  socket : Udp;
  endpoint : QEndpoint;
  server_addr : Addr;
  local_addr : Addr;
}.
Definition set_endpoint (q : QuicEndpointEntry) (e : QEndpoint) : QuicEndpointEntry :=
  mkQuicEndpointEntry (socket q) e (server_addr q) (local_addr q).

Record QuicConnectionEntry := mkQuicConnectionEntry {
  handle : QHandle;
  connection : QConn;
  remote : Addr;
}.
Definition set_connection (q : QuicConnectionEntry) (c : QConn) : QuicConnectionEntry :=
  mkQuicConnectionEntry (handle q) c (remote q).

(** [poll] and [events] belong to the environment; [tls_config] is the same empty
    root store in every engine. *)
Record NetEngine := mkNetEngine {
  connections : gmap Z Connection;
  next_tls_id : Z;
  tls_states : gmap Z TlsState;
  next_conn_id : Z;
  body_rings : gmap Z Z;
  conn_body_rings : gmap Z Z;
  quic_endpoints : gmap Z QuicEndpointEntry;
  quic_conns : gmap Z QuicConnectionEntry;
  next_quic_id : Z;
}.

Definition NetEngine_new : NetEngine := mkNetEngine ∅ 1 ∅ 1 ∅ ∅ ∅ ∅ 1.

Definition with_connections (f : gmap Z Connection -> gmap Z Connection) (e : NetEngine) : NetEngine :=
  mkNetEngine (f (connections e)) (next_tls_id e) (tls_states e) (next_conn_id e) (body_rings e)
  (conn_body_rings e) (quic_endpoints e) (quic_conns e) (next_quic_id e).
Definition with_tls_states (f : gmap Z TlsState -> gmap Z TlsState) (e : NetEngine) : NetEngine :=
  mkNetEngine (connections e) (next_tls_id e) (f (tls_states e)) (next_conn_id e) (body_rings e)
  (conn_body_rings e) (quic_endpoints e) (quic_conns e) (next_quic_id e).
Definition with_body_rings (f : gmap Z Z -> gmap Z Z) (e : NetEngine) : NetEngine :=
  mkNetEngine (connections e) (next_tls_id e) (tls_states e) (next_conn_id e) (f (body_rings e))
  (conn_body_rings e) (quic_endpoints e) (quic_conns e) (next_quic_id e).
Definition with_conn_body_rings (f : gmap Z Z -> gmap Z Z) (e : NetEngine) : NetEngine :=
  mkNetEngine (connections e) (next_tls_id e) (tls_states e) (next_conn_id e) (body_rings e)
  (f (conn_body_rings e)) (quic_endpoints e) (quic_conns e) (next_quic_id e).
Definition with_quic_endpoints (f : gmap Z QuicEndpointEntry -> gmap Z QuicEndpointEntry)
  (e : NetEngine) : NetEngine :=
  mkNetEngine (connections e) (next_tls_id e) (tls_states e) (next_conn_id e) (body_rings e)
  (conn_body_rings e) (f (quic_endpoints e)) (quic_conns e) (next_quic_id e).
Definition with_quic_conns (f : gmap Z QuicConnectionEntry -> gmap Z QuicConnectionEntry)
  (e : NetEngine) : NetEngine :=
  mkNetEngine (connections e) (next_tls_id e) (tls_states e) (next_conn_id e) (body_rings e)
  (conn_body_rings e) (quic_endpoints e) (f (quic_conns e)) (next_quic_id e).
(** [engine.next_conn_id += 1] and its two siblings, with release-mode wrapping. *)
Definition bump_conn_id (e : NetEngine) : NetEngine :=
  mkNetEngine (connections e) (next_tls_id e) (tls_states e) (usize (next_conn_id e + 1)) (body_rings e)
  (conn_body_rings e) (quic_endpoints e) (quic_conns e) (next_quic_id e).
Definition bump_tls_id (e : NetEngine) : NetEngine :=
  mkNetEngine (connections e) (usize (next_tls_id e + 1)) (tls_states e) (next_conn_id e) (body_rings e)
  (conn_body_rings e) (quic_endpoints e) (quic_conns e) (next_quic_id e).
Definition bump_quic_id (e : NetEngine) : NetEngine :=
  mkNetEngine (connections e) (next_tls_id e) (tls_states e) (next_conn_id e) (body_rings e)
  (conn_body_rings e) (quic_endpoints e) (quic_conns e) (usize (next_quic_id e + 1)).

Record sys := mkSys {
  os : W;
  mem : gmap Z BodyRing;
  engines : gmap Z NetEngine;
}.

(** ** The monad of an exported function *)

Definition M (A : Type) : Type := sys -> outcome (sys * A).
#[global] Instance M_ret : MRet M := fun A a s => Ret (s, a).
#[global] Instance M_bind : MBind M := fun A B f m s => '(s, a) ← m s; f a s.

Definition lift {A} (o : outcome A) : M A := fun s => a ← o; Ret (s, a).
Definition os_op {A} (f : W -> W * A) : M A :=
  fun s => let '(w, a) := f (os s) in Ret (mkSys w (mem s) (engines s), a).
Definition os_do (f : W -> W) : M unit := os_op (fun w => (f w, tt)).

(** [&mut *(handle as *mut NetEngine)], and writing through it. *)
Definition deref (h : Z) : M NetEngine :=
  fun s => match engines s !! h with Some e => Ret (s, e) | None => Undefined end.
Definition modify (h : Z) (f : NetEngine -> NetEngine) : M unit :=
  fun s => match engines s !! h with
  | Some e => Ret (mkSys (os s) (mem s) (<[h := f e]> (engines s)), tt)
  | None => Undefined
  end.

(** [&*ring_ptr], and writing through it. *)
Definition deref_ring (p : Z) : M BodyRing :=
  fun s => match mem s !! p with Some r => Ret (s, r) | None => Undefined end.
Definition store_ring (p : Z) (r : BodyRing) : M unit :=
  fun s => Ret (mkSys (os s) (<[p := r]> (mem s)) (engines s), tt).

(** The first address that accepts a connection. *)
Fixpoint connect_first (addrs : list Addr) : M (option Stream) :=
  match addrs with
  | [] => mret None
  | a :: addrs =>
      r ← os_op (fun w => tcp_connect w a);
      match r with Ok s => mret (Some s) | Err _ => connect_first addrs end
  end.

(** ** A program logic *)

Definition wp {A} (m : M A) (Q : A -> sys -> Prop) (s : sys) : Prop :=
  match m s with
  | Ret (s', a) => Q a s'
  | Stuck => True
  | Panicked | Undefined => False
  end.

Lemma wp_ret {A} (a : A) Q s : Q a s -> wp (mret a) Q s.
Proof. done. Qed.

Lemma wp_bind {A B} (m : M A) (f : A -> M B) Q s :
  wp m (fun a => wp (f a) Q) s -> wp (m ≫= f) Q s.
Proof. unfold wp, mbind, M_bind. by destruct (m s) as [[s' a]| | |]. Qed.

Lemma wp_mono {A} (m : M A) (P Q : A -> sys -> Prop) s :
  wp m P s -> (forall a s', P a s' -> Q a s') -> wp m Q s.
Proof. unfold wp. intros H HPQ. destruct (m s) as [[s' a]| | |]; auto. Qed.

Lemma wp_os_op {A} (f : W -> W * A) (Q : A -> sys -> Prop) s :
  (forall w a, f (os s) = (w, a) -> Q a (mkSys w (mem s) (engines s))) -> wp (os_op f) Q s.
Proof. unfold wp, os_op. intros H. destruct (f (os s)) as [w a] eqn:E. by apply H. Qed.

Lemma wp_deref h (Q : NetEngine -> sys -> Prop) s e :
  engines s !! h = Some e -> Q e s -> wp (deref h) Q s.
Proof. unfold wp, deref. by intros ->. Qed.

Lemma deref_run (s : sys) h e : engines s !! h = Some e -> deref h s = Ret (s, e).
Proof. unfold deref. by intros ->. Qed.

Lemma wp_modify h f (Q : unit -> sys -> Prop) s e :
  engines s !! h = Some e ->
  Q tt (mkSys (os s) (mem s) (<[h := f e]> (engines s))) -> wp (modify h f) Q s.
Proof. unfold wp, modify. by intros ->. Qed.

Lemma wp_deref_ring p (Q : BodyRing -> sys -> Prop) s r :
  mem s !! p = Some r -> Q r s -> wp (deref_ring p) Q s.
Proof. unfold wp, deref_ring. by intros ->. Qed.

Lemma wp_store_ring p r (Q : unit -> sys -> Prop) s :
  Q tt (mkSys (os s) (<[p := r]> (mem s)) (engines s)) -> wp (store_ring p r) Q s.
Proof. done. Qed.

Lemma wp_lift {A} (o : outcome A) (Q : A -> sys -> Prop) s a : o = Ret a -> Q a s -> wp (lift o) Q s.
Proof. unfold wp, lift. by intros ->. Qed.

(** ** Calls that always return

    [wp] is satisfied by a call that is [Stuck].  Code without loops on the peer
    never is, and then a [wp] is a total statement. *)

Definition returns {A} (m : M A) (Q : A -> sys -> Prop) (s : sys) : Prop :=
  exists s' a, m s = Ret (s', a) /\ Q a s'.

Definition steady {A} (m : M A) : Prop := forall s, m s <> Stuck.

Lemma steady_wp {A} (m : M A) Q s : steady m -> wp m Q s -> returns m Q s.
Proof. intros Hm. specialize (Hm s). unfold wp, returns. destruct (m s) as [[s' a]| | |]; by eauto. Qed.

Lemma steady_ret {A} (a : A) : steady (mret a).
Proof. done. Qed.

Lemma steady_bind {A B} (m : M A) (f : A -> M B) : steady m -> (forall a, steady (f a)) -> steady (m ≫= f).
Proof.
  intros Hm Hf s. specialize (Hm s). unfold mbind, M_bind. destruct (m s) as [[s' a]| | |]; try done.
  apply Hf.
Qed.

Lemma steady_lift {A} (o : outcome A) : o <> Stuck -> steady (lift o).
Proof. intros Ho s. unfold lift. by destruct o. Qed.

Lemma steady_os_op {A} (f : W -> W * A) : steady (os_op f).
Proof. intros s. unfold os_op. by destruct (f (os s)). Qed.

Lemma steady_os_do (f : W -> W) : steady (os_do f).
Proof. apply steady_os_op. Qed.

Lemma steady_store_ring p r : steady (store_ring p r).
Proof. done. Qed.

Lemma steady_deref h : steady (deref h).
Proof. intros s. unfold deref. by destruct (engines s !! h). Qed.

Lemma steady_modify h f : steady (modify h f).
Proof. intros s. unfold modify. by destruct (engines s !! h). Qed.

Lemma steady_deref_ring p : steady (deref_ring p).
Proof. intros s. unfold deref_ring. by destruct (mem s !! p). Qed.

Lemma steady_connect_first addrs : steady (connect_first addrs).
Proof.
  induction addrs as [|a addrs IH]; [apply steady_ret|]. apply steady_bind; [apply steady_os_op|].
  intros [st|]; [apply steady_ret|apply IH].
Qed.

(** ** What a call may change

    A relation between the states before and after that the environment cannot
    break; code [respects] it when each of its steps does. *)

Class SysOrder (R : relation sys) : Prop := {
  sys_preorder :: PreOrder R;
  sys_os s w : R s (mkSys w (mem s) (engines s));
}.

Definition respects (R : relation sys) {A} (m : M A) : Prop :=
  forall s s' a, m s = Ret (s', a) -> R s s'.

Section Respects.
Context (R : relation sys) {HR : SysOrder R}.

Lemma respects_ret {A} (a : A) : respects R (mret a).
Proof. intros s s' x [= <- <-]. reflexivity. Qed.

Lemma respects_stuck {A} : respects R (fun _ => Stuck : outcome (sys * A)).
Proof. by intros s s' x H. Qed.

Lemma respects_bind {A B} (m : M A) (f : A -> M B) :
  respects R m -> (forall a, respects R (f a)) -> respects R (m ≫= f).
Proof.
  intros Hm Hf s s' b H. unfold mbind, M_bind in H. destruct (m s) as [[s1 a]| | |] eqn:E; try done.
  etransitivity; [by eapply Hm|by eapply Hf].
Qed.

Lemma respects_os {A} (f : W -> W * A) : respects R (os_op f).
Proof. intros s s' a H. unfold os_op in H. destruct (f (os s)). simplify_eq. apply sys_os. Qed.

Lemma respects_os_do (f : W -> W) : respects R (os_do f).
Proof. apply respects_os. Qed.

Lemma respects_lift {A} (o : outcome A) : respects R (lift o).
Proof. intros s s' a H. unfold lift in H. destruct o; try done. cbn in H. simplify_eq. reflexivity. Qed.

Lemma respects_deref k : respects R (deref k).
Proof. intros s s' a H. unfold deref in H. case_match; simplify_eq. reflexivity. Qed.

Lemma respects_deref_ring p : respects R (deref_ring p).
Proof. intros s s' a H. unfold deref_ring in H. case_match; simplify_eq. reflexivity. Qed.

Lemma respects_modify k f :
  (forall s e, engines s !! k = Some e -> R s (mkSys (os s) (mem s) (<[k := f e]> (engines s)))) ->
  respects R (modify k f).
Proof.
  intros Hf s s' a H. unfold modify in H. destruct (engines s !! k) as [e|] eqn:E; [|done].
  simplify_eq. by apply Hf.
Qed.
End Respects.

(** The environment may change in any way; the rest of the state stays. *)
Definition os_stable (P : sys -> Prop) : Prop :=
  forall s w, P s -> P (mkSys w (mem s) (engines s)).

Lemma wp_connect_first addrs (Q : option Stream -> sys -> Prop) s :
  os_stable (fun s => forall o, Q o s) -> (forall o, Q o s) -> wp (connect_first addrs) Q s.
Proof.
  intros HQ. revert s. induction addrs as [|a addrs IH]; intros s H; [by apply wp_ret|].
  apply wp_bind, wp_os_op. intros w r E.
  destruct r; [apply wp_ret; by apply HQ|]. apply IH. by apply HQ.
Qed.
End State.

Create HintDb steady.
#[export] Hint Resolve steady_ret steady_os_op steady_os_do steady_store_ring steady_deref steady_modify steady_deref_ring
  steady_connect_first : steady.
Create HintDb respects.
Ltac respects_step :=
  lazymatch goal with
  | |- respects _ (mret _) => refine (respects_ret _ _)
  | |- respects _ (os_op _) => refine (respects_os _ _)
  | |- respects _ (os_do _) => refine (respects_os_do _ _)
  | |- respects _ (lift _) => refine (respects_lift _ _)
  | |- respects _ (deref _) => refine (respects_deref _ _)
  | |- respects _ (deref_ring _) => refine (respects_deref_ring _ _)
  | |- respects _ (fun _ => Stuck) => refine (respects_stuck _)
  | |- respects _ (mbind _ _) => refine (respects_bind _ _ _ _ _); [|intros ?]
  end.
Ltac respects := repeat first [ respects_step | progress eauto with respects | case_match ].
Ltac steady :=
  repeat first [ progress eauto with steady | apply steady_bind; [|intros ?] | case_match ].

(** ** Well-formedness

    [n] bounds the number of identifiers an engine has handed out, so that no
    identifier counter wraps while [n] is below 2^64 - 1. *)

Definition ring_ok (r : BodyRing) : Prop :=
  0 <= capacity r < 2 ^ 57 /\ Z.of_nat (length (buffer r)) = capacity r.

Section Wf.
Context {N : Net}.

Definition ids_below {A} (m : gmap Z A) (next : Z) : Prop :=
  forall id, is_Some (m !! id) -> 1 <= id < next.

Record engine_wf (n : Z) (mm : gmap Z BodyRing) (e : NetEngine) : Prop := mkEngineWf {
  wf_conn : 1 <= next_conn_id e <= n + 1;
  wf_tls : 1 <= next_tls_id e <= n + 1;
  wf_quic : 1 <= next_quic_id e <= n + 1;
  wf_connections : ids_below (connections e) (next_conn_id e);
  wf_tls_states : ids_below (tls_states e) (next_tls_id e);
  wf_quic_endpoints : ids_below (quic_endpoints e) (next_quic_id e);
  wf_quic_conns : forall id, is_Some (quic_conns e !! id) <-> is_Some (quic_endpoints e !! id);
  wf_rings : forall id p, body_rings e !! id = Some p -> exists r, mm !! p = Some r /\ ring_ok r;
}.

Definition sys_wf (n : Z) (s : sys) : Prop := map_Forall (fun _ e => engine_wf n (mem s) e) (engines s).

Lemma with_connections_ext f g e :
  f (connections e) = g (connections e) -> with_connections f e = with_connections g e.
Proof. unfold with_connections. by intros ->. Qed.

Lemma with_connections_id f e : f (connections e) = connections e -> with_connections f e = e.
Proof. intros H. rewrite (with_connections_ext f id) by done. by destruct e. Qed.

Lemma ids_below_empty {A} n : ids_below (∅ : gmap Z A) n.
Proof. intros id. rewrite lookup_empty. by intros [? ?]. Qed.

Lemma ids_below_insert {A} (m : gmap Z A) id x n :
  ids_below m n -> 1 <= id < n -> ids_below (<[id := x]> m) n.
Proof. intros H Hid k [y Hk]. rewrite lookup_insert_Some in Hk. destruct Hk as [[<- _]|[_ Hk]]; eauto. Qed.

Lemma ids_below_delete {A} (m : gmap Z A) id n : ids_below m n -> ids_below (delete id m) n.
Proof. intros H k [y [_ Hk]%lookup_delete_Some]. eauto. Qed.

Lemma ids_below_mono {A} (m : gmap Z A) n n' : ids_below m n -> n <= n' -> ids_below m n'.
Proof. intros H Hn k Hk. specialize (H k Hk). lia. Qed.

Lemma ids_below_fresh {A} (m : gmap Z A) n : ids_below m n -> m !! n = None.
Proof. intros H. apply eq_None_not_Some. intros Hs. specialize (H n Hs). lia. Qed.

Lemma engine_wf_new n mm : 0 <= n -> engine_wf n mm NetEngine_new.
Proof.
  intros Hn. split; cbn; try lia; try apply ids_below_empty.
  - intros id. rewrite !lookup_empty. done.
  - intros id p. by rewrite lookup_empty.
Qed.

Lemma engine_wf_mono n n' mm e : engine_wf n mm e -> n <= n' -> engine_wf n' mm e.
Proof. intros [] Hn. by split; try lia. Qed.

Lemma sys_wf_os n : os_stable (sys_wf n).
Proof. intros s w H. exact H. Qed.

Lemma sys_wf_mono n n' s : sys_wf n s -> n <= n' -> sys_wf n' s.
Proof. intros H Hn. eapply map_Forall_impl; [exact H|]. cbn. intros. by eapply engine_wf_mono. Qed.

Lemma sys_wf_lookup n s h e : sys_wf n s -> engines s !! h = Some e -> engine_wf n (mem s) e.
Proof. intros H He. by apply (H h e). Qed.

Lemma sys_wf_insert n s h e :
  sys_wf n s -> engine_wf n (mem s) e -> sys_wf n (mkSys (os s) (mem s) (<[h := e]> (engines s))).
Proof. intros H He. by apply map_Forall_insert_2. Qed.

(** Rewriting a descriptor keeps all rings usable if the new one is. *)
Lemma sys_wf_store n s p r :
  sys_wf n s -> ring_ok r -> sys_wf n (mkSys (os s) (<[p := r]> (mem s)) (engines s)).
Proof.
  intros H Hr. eapply map_Forall_impl; [exact H|]. cbn. intros h e [].
  split; try done. intros id q Hq. destruct (wf_rings0 id q Hq) as (r' & Hm & Hok).
  destruct (decide (p = q)) as [->|Hne]; [exists r; by rewrite lookup_insert_eq|].
  exists r'. by rewrite lookup_insert_ne.
Qed.

Lemma engine_wf_connections n mm e f :
  engine_wf n mm e -> ids_below (f (connections e)) (next_conn_id e) ->
  engine_wf n mm (with_connections f e).
Proof. intros [] H. by split. Qed.

Lemma engine_wf_tls_states n mm e f :
  engine_wf n mm e -> ids_below (f (tls_states e)) (next_tls_id e) ->
  engine_wf n mm (with_tls_states f e).
Proof. intros [] H. by split. Qed.

Lemma engine_wf_bump_conn n mm e :
  engine_wf n mm e -> n < 2 ^ 64 - 2 -> engine_wf (n + 1) mm (bump_conn_id e).
Proof.
  intros [] Hn. unfold bump_conn_id, usize, wrap. rewrite Z.mod_small by lia.
  split; cbn; try lia; try done. eapply ids_below_mono; [eassumption|lia].
Qed.

Lemma engine_wf_bump_tls n mm e :
  engine_wf n mm e -> n < 2 ^ 64 - 2 -> engine_wf (n + 1) mm (bump_tls_id e).
Proof.
  intros [] Hn. unfold bump_tls_id, usize, wrap. rewrite Z.mod_small by lia.
  split; cbn; try lia; try done. eapply ids_below_mono; [eassumption|lia].
Qed.

Lemma engine_wf_bump_quic n mm e :
  engine_wf n mm e -> n < 2 ^ 64 - 2 -> engine_wf (n + 1) mm (bump_quic_id e).
Proof.
  intros [] Hn. unfold bump_quic_id, usize, wrap. rewrite Z.mod_small by lia.
  split; cbn; try lia; try done. eapply ids_below_mono; [eassumption|lia].
Qed.
End Wf.

Create HintDb engine.
#[export] Hint Resolve ids_below_insert ids_below_delete ids_below_empty : engine.
#[export] Hint Resolve engine_wf_connections engine_wf_tls_states sys_wf_insert sys_wf_store : engine.
