(* ===== verification/Conn.v ===== *)
(** * Connections: the exported functions on TCP sockets and body rings
    (engine/src/lib.rs)

    A pointer argument that may be null is an [option] of the memory behind it:
    [buffer] is the caller's buffer of [buffer_len] bytes, [bytes_read] the cell the
    count goes to.  Functions that write through such pointers return their
    contents with the result code. *)

From S2P Require Import Prelude Utf8 Str Ffi Ring Net Engine.

Section Code.
Context {N : Net}.

(** ** Creation and destruction *)

(** [poll] is what [Poll::new] answered and [addr] where the engine is boxed. *)
Definition net_engine_create (poll : result unit unit) (addr : Z) : M Z :=
  match poll with
  | Ok _ => fun s => Ret (mkSys (os s) (mem s) (<[addr := NetEngine_new]> (engines s)), addr)
  | Err _ => mret NULL
  end.

Definition drop_engine (e : NetEngine) (w : W) : W :=
  let w := foldl (fun w p => sock_drop w (stream p.2)) w (map_to_list (connections e)) in
  let w := foldl (fun w p => sock_drop w (tls_stream p.2)) w (map_to_list (tls_states e)) in
  foldl (fun w p => udp_drop w (socket p.2)) w (map_to_list (quic_endpoints e)).

Definition free_engine (h : Z) : M unit :=
  fun s => Ret (mkSys (os s) (mem s) (delete h (engines s)), tt).

Definition net_engine_destroy (h : Z) : M unit :=
  if h =? NULL then mret tt
  else
  e ← deref h;
  _ ← os_do (drop_engine e);
  free_engine h.

(** ** Connecting and closing *)

Definition addr_str (host : str) (port : Z) : str := host ++ ch ":" :: decimal port.

(** TLS is set up on port 443 only; a host that is no server name, or a failing
    [ClientConnection::new], leaves the connection without TLS. *)
Definition initial_tls (host : str) (port : Z) : option Tls :=
  if port =? 443 then if server_name_ok host then tls_new host else None else None.

(** [CStr::from_ptr(host).to_string_lossy()]; the pointer is not checked for null. *)
Definition host_arg (host : option bytes) : outcome str :=
  match host with Some mem => cstr_lossy mem | None => Undefined end.

Definition net_connect (h : Z) (host : option bytes) (port : Z) : M Z :=
  if h =? NULL then mret NULL
  else
  _ ← deref h;
  host_str ← lift (host_arg host);
  addrs ← os_op (fun w => to_socket_addrs w (addr_str host_str port));
  match addrs with
  | Err _ => mret NULL
  | Ok addrs =>
      stream ← connect_first addrs;
      match stream with
      | None => mret NULL
      | Some stream =>
          _ ← os_do (fun w => set_nodelay w stream);
          engine ← deref h;
          let conn_id := next_conn_id engine in
          _ ← modify h bump_conn_id;
          reg ← os_op (fun w => sock_register w stream conn_id);
          match reg with
          | Err _ => _ ← os_do (fun w => sock_drop w stream); mret NULL
          | Ok _ =>
              let conn := set_tls (Connection_new stream host_str port) (initial_tls host_str port) in
              _ ← modify h (with_connections (insert conn_id conn));
              mret conn_id
          end
      end
  end.

Definition net_close (h conn : Z) : M Z :=
  if (h =? NULL) || (conn =? NULL) then mret NS_ERROR_FAILURE
  else
  engine ← deref h;
  match connections engine !! conn with
  | Some c =>
      _ ← modify h (with_connections (delete conn));
      _ ← os_do (fun w => sock_drop w (stream c));
      mret NS_OK
  | None => mret NS_ERROR_FAILURE
  end.

(** ** Reading *)

(** A prefix of a buffer overwritten. *)
Definition put (data buf : bytes) : bytes := data ++ drop (length data) buf.

(** Writing the count through [bytes_read], unless it is null. *)
Definition put_count (cell : option Z) (n : Z) : option Z :=
  match cell with Some _ => Some n | None => None end.

Definition update_conn (h conn : Z) (f : Connection -> Connection) : M unit :=
  modify h (with_connections (alter f conn)).

(** The part of [net_read] for a connection bound to the ring at [ring_ptr]. *)
Definition net_read_ring (h conn ring_ptr : Z) (bytes_read : option Z) : M (Z * option Z) :=
  ring ← deref_ring ring_ptr;
  engine ← deref h;
  match connections engine !! conn with
  | None => mret (NS_ERROR_FAILURE, bytes_read)
  | Some c =>
      slices ← lift (ring_slices ring);
      match slices with
      | None => mret (NS_ERROR_FAILURE, bytes_read)
      | Some slices =>
          res ← os_op (fun w => sock_read w (stream c) (Z.of_nat (length (cells slices))));
          match res with
          | Ok [] => mret (NS_ERROR_FAILURE, bytes_read)
          | Ok data =>
              let n := Z.of_nat (length data) in
              let ring := set_head (set_buffer ring (write_cells (buffer ring) (cells slices) data))
                                   (u64 (head ring + n)) in
              _ ← store_ring ring_ptr ring;
              _ ← (if over_high_water ring
                   then _ ← os_do (fun w => sock_deregister w (stream c));
                        update_conn h conn (fun c => set_paused c true)
                   else mret tt);
              mret (NS_OK, put_count bytes_read n)
          | Err _ => mret (NS_ERROR_FAILURE, bytes_read)
          end
      end
  end.

(** Feeding the TLS session what the socket has; [None] is an early return. *)
Definition feed_tls (h conn : Z) (c : Connection) (t : Tls) : M (option Tls) :=
  res ← os_op (fun w => sock_read w (stream c) MAX_BUFFER_SIZE);
  match res with
  | Ok [] => mret None
  | Ok raw =>
      let '(t, r) := read_tls t raw in
      match r with
      | Err _ => _ ← update_conn h conn (fun c => set_tls c (Some t)); mret None
      | Ok _ =>
          let '(t, r) := process_new_packets t in
          _ ← update_conn h conn (fun c => set_tls c (Some t));
          match r with Err _ => mret None | Ok _ => mret (Some t) end
      end
  | Err WouldBlock => mret (Some t)
  | Err OtherError => mret None
  end.

Definition net_read_tls (h conn : Z) (c : Connection) (t : Tls) (dst : bytes)
  (bytes_read : option Z) : M (Z * bytes * option Z) :=
  fed ← feed_tls h conn c t;
  match fed with
  | None => mret (NS_ERROR_FAILURE, dst, bytes_read)
  | Some t =>
      let '(t, r) := reader_read t (Z.of_nat (length dst)) in
      _ ← update_conn h conn (fun c => set_tls c (Some t));
      match r with
      | Ok data => mret (NS_OK, put data dst, put_count bytes_read (Z.of_nat (length data)))
      | Err _ => mret (NS_ERROR_FAILURE, dst, bytes_read)
      end
  end.

Definition net_read_plain (c : Connection) (dst : bytes) (bytes_read : option Z)
  : M (Z * bytes * option Z) :=
  res ← os_op (fun w => sock_read w (stream c) (Z.of_nat (length dst)));
  match res with
  | Ok data => mret (NS_OK, put data dst, put_count bytes_read (Z.of_nat (length data)))
  | Err _ => mret (NS_ERROR_FAILURE, dst, bytes_read)
  end.

(** The ring a connection is bound to, if that ring is registered. *)
Definition bound_ring (e : NetEngine) (conn : Z) : option Z :=
  conn_body_rings e !! conn ≫= (fun id => body_rings e !! id).

Definition net_read (h conn : Z) (buffer : option bytes) (bytes_read : option Z)
  : M (Z * option bytes * option Z) :=
  match (h =? NULL) || (conn =? NULL), buffer with
  | false, Some dst =>
      engine ← deref h;
      match bound_ring engine conn with
      | Some ring_ptr =>
          '(code, count) ← net_read_ring h conn ring_ptr bytes_read;
          mret (code, Some dst, count)
      | None =>
          match connections engine !! conn with
          | None => mret (NS_ERROR_FAILURE, Some dst, bytes_read)
          | Some c =>
              '(code, dst, count) ←
              match tlsconn c with
              | Some t => net_read_tls h conn c t dst bytes_read
              | None => net_read_plain c dst bytes_read
              end;
              mret (code, Some dst, count)
          end
      end
  | _, _ => mret (NS_ERROR_FAILURE, buffer, bytes_read)
  end.

(** ** Writing *)

(** [while tls.wants_write() { write_tls }]: [None] is an error, and the loop may
    go on as long as rustls has output, hence the fuel. *)
Fixpoint flush_loop (fuel : nat) (s : Stream) (t : Tls) : M (Tls * bool) :=
  if wants_write t then
  match fuel with
  | O => fun _ => Stuck
  | S fuel =>
      '(t, r) ← os_op (fun w => let '(w, t, r) := write_tls w t s in (w, (t, r)));
      match r with
      | Ok _ => flush_loop fuel s t
      | Err WouldBlock => mret (t, true)
      | Err OtherError => mret (t, false)
      end
  end
  else mret (t, true).

Definition net_write (fuel : nat) (h conn : Z) (data : option bytes) (bytes_written : option Z)
  : M (Z * option Z) :=
  match (h =? NULL) || (conn =? NULL), data with
  | false, Some src =>
      engine ← deref h;
      match connections engine !! conn with
      | None => mret (NS_ERROR_FAILURE, bytes_written)
      | Some c =>
          match tlsconn c with
          | Some t =>
              let '(t, r) := writer_write t src in
              match r with
              | Err _ =>
                  _ ← update_conn h conn (fun c => set_tls c (Some t));
                  mret (NS_ERROR_FAILURE, bytes_written)
              | Ok n =>
                  '(t, ok) ← flush_loop fuel (stream c) t;
                  _ ← update_conn h conn (fun c => set_tls c (Some t));
                  if ok : bool then mret (NS_OK, put_count bytes_written n)
                  else mret (NS_ERROR_FAILURE, bytes_written)
              end
          | None =>
              res ← os_op (fun w => sock_write w (stream c) src);
              match res with
              | Ok n => mret (NS_OK, put_count bytes_written n)
              | Err _ => mret (NS_ERROR_FAILURE, bytes_written)
              end
          end
      end
  | _, _ => mret (NS_ERROR_FAILURE, bytes_written)
  end.

(** ** Polling *)

(** One round of the resume loop of [NetEngine::poll]. *)
Definition resume_one (h : Z) (binding : Z * Z) : M unit :=
  let '(conn_id, ring_id) := binding in
  engine ← deref h;
  match connections engine !! conn_id with
  | Some c =>
      if is_paused c then
        match body_rings engine !! ring_id with
        | Some ring_ptr =>
            ring ← deref_ring ring_ptr;
            if under_low_water ring
            then _ ← os_op (fun w => sock_register w (stream c) conn_id);
                 update_conn h conn_id (fun c => set_paused c false)
            else mret tt
        | None => mret tt
        end
      else mret tt
  | None => mret tt
  end.

Fixpoint resume_all (h : Z) (order : list (Z * Z)) : M unit :=
  match order with
  | [] => mret tt
  | b :: order => _ ← resume_one h b; resume_all h order
  end.

(** [order] is the order in which the hash map of bindings is iterated. *)
Definition NetEngine_poll (h timeout_ms : Z) (order : list (Z * Z)) : M Z :=
  _ ← deref h;
  _ ← resume_all h order;
  let timeout := if 0 <=? timeout_ms then Some timeout_ms else None in
  res ← os_op (fun w => poll_wait w timeout);
  match res with Ok count => mret (i32 count) | Err _ => mret (-1) end.

Definition net_poll (h timeout_ms : Z) (order : list (Z * Z)) : M Z :=
  if h =? NULL then mret NS_ERROR_FAILURE else NetEngine_poll h timeout_ms order.

Definition net_conn_state (h conn : Z) : Z :=
  if conn =? NULL then ConnState_code Closed else ConnState_code Connected.

(** ** Rings *)

Definition net_body_ring_register (h id ptr : Z) : M Z :=
  if h =? NULL then mret NS_ERROR_FAILURE
  else _ ← modify h (with_body_rings (insert id ptr)); mret 0.

Definition net_body_ring_unregister (h id : Z) : M Z :=
  if h =? NULL then mret NS_ERROR_FAILURE
  else _ ← modify h (with_body_rings (delete id)); mret 0.

Definition net_conn_bind_body_ring (h conn id : Z) : M Z :=
  if (h =? NULL) || (conn =? NULL) then mret NS_ERROR_FAILURE
  else _ ← modify h (with_conn_body_rings (insert conn id)); mret 0.
End Code.

(** ** Every call keeps the engine well formed

    [wp] also says that the call neither panics nor runs into undefined behaviour,
    as long as the engine handle is null or live and C strings are terminated. *)

Definition handle_ok {N : Net} (s : sys) (h : Z) : Prop := h = NULL \/ is_Some (engines s !! h).

Section Safety.
Context {N : Net}.
Implicit Types (s : sys) (h conn n : Z).

(** Which calls always return: all but [net_write], whose flush loop depends on the
    TLS session. *)
Lemma cstr_from_ptr_answers mm : cstr_from_ptr mm <> Stuck.
Proof.
  induction mm as [|b mm IH]; [done|]. cbn. destruct (b =? 0); [done|]. by destruct (cstr_from_ptr mm).
Qed.

Lemma host_arg_answers host : host_arg host <> Stuck.
Proof.
  destruct host as [mm|]; [|done]. cbn. unfold cstr_lossy. pose proof (cstr_from_ptr_answers mm).
  by destruct (cstr_from_ptr mm).
Qed.

Lemma steady_host_arg host : steady (lift (host_arg host)).
Proof. apply steady_lift, host_arg_answers. Qed.
#[local] Hint Resolve steady_host_arg : steady.

Lemma steady_update_conn h conn f : steady (update_conn h conn f).
Proof. apply steady_modify. Qed.
#[local] Hint Resolve steady_update_conn : steady.

Lemma steady_create r addr : steady (net_engine_create r addr).
Proof. by destruct r. Qed.

Lemma steady_destroy h : steady (net_engine_destroy h).
Proof. unfold net_engine_destroy. steady. done. Qed.

Lemma steady_connect h host port : steady (net_connect h host port).
Proof. unfold net_connect. steady. Qed.

Lemma steady_close h conn : steady (net_close h conn).
Proof. unfold net_close. steady. Qed.

Lemma ring_slices_answers r : ring_slices r <> Stuck.
Proof.
  unfold ring_slices, write_slices, urem. destruct (_ <=? _); [done|]. destruct (_ =? 0); [done|].
  cbn [mbind outcome_bind]. unfold from_raw_parts_mut. destruct (_ <=? _); cbn [mbind outcome_bind]; by case_match.
Qed.

Lemma steady_ring_slices r : steady (lift (ring_slices r)).
Proof. apply steady_lift, ring_slices_answers. Qed.
#[local] Hint Resolve steady_ring_slices : steady.

Lemma steady_read h conn buf cnt : steady (net_read h conn buf cnt).
Proof. unfold net_read, net_read_ring, net_read_tls, feed_tls, net_read_plain. steady. Qed.

Lemma steady_poll h t order : steady (net_poll h t order).
Proof.
  assert (Hr : steady (resume_all h order)).
  { induction order as [|[id k] order IH]; cbn; [apply steady_ret|]. apply steady_bind; [|done].
    unfold resume_one. steady. }
  unfold net_poll, NetEngine_poll. steady.
Qed.

Lemma steady_ring_calls h conn id ptr :
  steady (net_body_ring_register h id ptr) /\ steady (net_body_ring_unregister h id)
  /\ steady (net_conn_bind_body_ring h conn id).
Proof.
  unfold net_body_ring_register, net_body_ring_unregister, net_conn_bind_body_ring.
  split_and!; steady.
Qed.

Lemma ids_below_alter {A} (f : A -> A) (m : gmap Z A) id k :
  ids_below m k -> ids_below (alter f id m) k.
Proof. intros H j Hj. apply H. by rewrite lookup_alter_is_Some in Hj. Qed.

Lemma wp_null h {A} (a : A) (m : M A) Q s :
  handle_ok s h -> Q a s -> (forall e, h <> NULL -> engines s !! h = Some e -> wp m Q s) ->
  wp (if h =? NULL then mret a else m) Q s.
Proof.
  intros Hh Hn Hm. destruct (Z.eqb_spec h NULL) as [->|Hne]; [by apply wp_ret|].
  destruct Hh as [?|[e He]]; [done|]. eauto.
Qed.

(** The state after an update of connections that keeps identifiers in range. *)
Lemma wp_update_conn h conn f (Q : unit -> sys -> Prop) s e :
  engines s !! h = Some e ->
  Q tt (mkSys (os s) (mem s) (<[h := with_connections (alter f conn) e]> (engines s))) ->
  wp (update_conn h conn f) Q s.
Proof. intros He HQ. by eapply wp_modify. Qed.

Lemma update_conn_wf n s h conn f :
  sys_wf n s -> is_Some (engines s !! h) -> wp (update_conn h conn f) (fun _ => sys_wf n) s.
Proof.
  intros Hw [e He]. eapply wp_update_conn; [exact He|].
  pose proof (sys_wf_lookup _ _ _ _ Hw He) as Hwe.
  apply sys_wf_insert; [done|]. apply engine_wf_connections; [done|]. apply ids_below_alter, Hwe.
Qed.

Lemma create_wf n s r addr : 0 <= n -> sys_wf n s -> wp (net_engine_create r addr) (fun _ => sys_wf n) s.
Proof.
  intros Hn Hw. destruct r; [|done]. cbn. apply sys_wf_insert; [done|]. by apply engine_wf_new.
Qed.

Lemma destroy_wf n s h : sys_wf n s -> handle_ok s h -> wp (net_engine_destroy h) (fun _ => sys_wf n) s.
Proof.
  intros Hw Hh. apply wp_null; [done..|]. intros e Hne He.
  apply wp_bind. eapply wp_deref; [exact He|]. apply wp_bind, wp_os_op. intros w [] _. cbn.
  by apply map_Forall_delete.
Qed.

(** What a call of [net_connect] comes to. *)
Lemma net_connect_run s h e host port hs :
  h <> NULL -> engines s !! h = Some e -> host_arg host = Ret hs ->
  wp (net_connect h host port) (fun id s' =>
    mem s' = mem s /\ exists e', engines s' = <[h := e']> (engines s)
    /\ (id = NULL /\ (e' = e \/ e' = bump_conn_id e)
        \/ id = next_conn_id e /\ exists st, e' = with_connections
             (insert id (mkConnection st Connecting false hs port (initial_tls hs port)))
             (bump_conn_id e))) s.
Proof.
  intros Hh He Hhost. unfold net_connect. rewrite (proj2 (Z.eqb_neq _ _)) by done.
  set (Q := fun (id : Z) (s' : sys) => _).
  assert (Hold : forall s', engines s' = engines s -> mem s' = mem s -> Q NULL s').
  { intros s' E M'. split; [done|]. exists e. split; [by rewrite E, insert_id|]. left. auto. }
  apply wp_bind. eapply wp_deref; [exact He|]. apply wp_bind. eapply wp_lift; [exact Hhost|].
  apply wp_bind, wp_os_op. intros w [addrs|] _; [|by apply Hold].
  apply wp_bind.
  eapply wp_mono; [apply (wp_connect_first addrs (fun _ s' => engines s' = engines s /\ mem s' = mem s))|].
  { intros s' w' H o. apply (H o). }
  { by intros o. }
  intros [st|] s1 [E1 M1]; [|by apply Hold].
  apply wp_bind, wp_os_op. intros w1 [] _. apply wp_bind. eapply wp_deref; [cbn; by rewrite E1|].
  apply wp_bind. eapply wp_modify; [cbn; by rewrite E1|]. cbn. rewrite E1.
  apply wp_bind, wp_os_op. intros w2 [[]|] _.
  - apply wp_bind. eapply wp_modify; [cbn; apply lookup_insert_eq|]. cbn. rewrite insert_insert_eq.
    split; [exact M1|]. eexists. split; [done|]. right. split; [done|]. by exists st.
  - apply wp_bind, wp_os_op. intros w3 [] _. cbn. split; [exact M1|]. eexists. split; [done|]. left. auto.
Qed.

Lemma bump_conn_next n mm e :
  engine_wf n mm e -> n < 2 ^ 64 - 2 -> next_conn_id (bump_conn_id e) = next_conn_id e + 1.
Proof.
  intros Hw Hn. pose proof (wf_conn _ _ _ Hw). unfold bump_conn_id, usize, wrap. cbn.
  rewrite Z.mod_small; lia.
Qed.

Lemma connect_wf n s h host port t :
  sys_wf n s -> handle_ok s h -> host_arg host = Ret t -> n < 2 ^ 64 - 2 ->
  wp (net_connect h host port) (fun _ => sys_wf (n + 1)) s.
Proof.
  intros Hw Hh Ht Hn. assert (Hm : sys_wf (n + 1) s) by (eapply sys_wf_mono; [done|lia]).
  destruct Hh as [->|[e He]]; [done|]. destruct (decide (h = NULL)) as [->|Hne]; [done|].
  pose proof (sys_wf_lookup _ _ _ _ Hw He) as Hwe. pose proof (wf_conn _ _ _ Hwe) as Hid.
  eapply wp_mono; [by eapply net_connect_run|]. cbn beta. intros id s' (M & e' & E & H).
  assert (Hb : engine_wf (n + 1) (mem s) (bump_conn_id e)) by (by apply engine_wf_bump_conn).
  unfold sys_wf. rewrite M, E. apply (sys_wf_insert (n + 1) s); [done|].
  destruct H as [[_ [-> | ->]]|[-> [st ->]]]; [by eapply sys_wf_lookup|done|].
  apply engine_wf_connections; [done|]. apply ids_below_insert; [apply Hb|].
  rewrite (bump_conn_next n (mem s)) by done. lia.
Qed.

Lemma close_wf n s h conn : sys_wf n s -> handle_ok s h -> wp (net_close h conn) (fun _ => sys_wf n) s.
Proof.
  intros Hw Hh. unfold net_close. destruct (conn =? NULL); [by rewrite orb_true_r|]. rewrite orb_false_r.
  apply wp_null; [done..|]. intros e Hne He. apply wp_bind. eapply wp_deref; [exact He|].
  destruct (connections e !! conn); [|done].
  apply wp_bind. eapply wp_modify; [exact He|]. apply wp_bind, wp_os_op. intros w [] _. apply wp_ret.
  pose proof (sys_wf_lookup _ _ _ _ Hw He) as Hwe. apply sys_wf_insert; [done|].
  apply engine_wf_connections; [done|]. apply ids_below_delete, Hwe.
Qed.

(** A continuation that only needs the invariant. *)
Lemma wp_then {A B} (m : M A) (f : A -> M B) (P : sys -> Prop) Q s :
  wp m (fun _ => P) s -> (forall a s', P s' -> wp (f a) Q s') -> wp (m ≫= f) Q s.
Proof. intros Hm Hf. apply wp_bind. eapply wp_mono; [exact Hm|]. cbn. auto. Qed.

Lemma os_op_wf {A} (f : W -> W * A) n s (Q : A -> sys -> Prop) :
  sys_wf n s -> (forall a s', sys_wf n s' -> engines s' = engines s -> mem s' = mem s -> Q a s') ->
  wp (os_op f) Q s.
Proof. intros Hw HQ. apply wp_os_op. intros w a _. by apply HQ. Qed.

Lemma feed_tls_wf n s h conn c t :
  sys_wf n s -> is_Some (engines s !! h) ->
  wp (feed_tls h conn c t) (fun _ s' => sys_wf n s' /\ is_Some (engines s' !! h)) s.
Proof.
  intros Hw [e He]. unfold feed_tls. apply wp_bind, (os_op_wf _ n); [done|].
  intros r s1 Hw1 E1 M1.
  assert (Hup : forall f B (b : B), wp (_ ← update_conn h conn f; mret b)
    (fun _ s' => sys_wf n s' /\ is_Some (engines s' !! h)) s1).
  { intros f B b. apply wp_bind. eapply wp_update_conn; [by rewrite E1|]. apply wp_ret.
    pose proof (sys_wf_lookup _ _ _ _ Hw He) as Hwe. cbn. rewrite lookup_insert_eq. split; [|eauto].
    apply sys_wf_insert; [done|]. rewrite M1. apply engine_wf_connections; [done|].
    apply ids_below_alter, Hwe. }
  assert (Hs1 : sys_wf n s1 /\ is_Some (engines s1 !! h)) by (rewrite E1; eauto).
  destruct r as [[|b raw]|[]]; try (by apply wp_ret).
  destruct (read_tls t (b :: raw)) as [t1 [k|]]; [|apply Hup].
  destruct (process_new_packets t1) as [t2 [[]|]]; apply Hup.
Qed.

Lemma net_read_tls_wf n s h conn c t dst cnt :
  sys_wf n s -> is_Some (engines s !! h) -> wp (net_read_tls h conn c t dst cnt) (fun _ => sys_wf n) s.
Proof.
  intros Hw Hh. apply wp_bind. eapply wp_mono; [by apply feed_tls_wf|]. cbn.
  intros [t1|] s1 [Hw1 Hh1]; [|done]. destruct (reader_read t1 _) as [t2 r].
  eapply wp_then; [by apply update_conn_wf|]. intros [] s2 Hw2. by destruct r.
Qed.

Lemma ring_ok_fill r idxs data hd : ring_ok r -> ring_ok (set_head (set_buffer r (write_cells (buffer r) idxs data)) hd).
Proof. intros [H1 H2]. split; cbn; [done|]. by rewrite write_cells_length. Qed.

Lemma net_read_ring_wf n s h conn p r cnt :
  sys_wf n s -> is_Some (engines s !! h) -> mem s !! p = Some r -> ring_ok r ->
  wp (net_read_ring h conn p cnt) (fun _ => sys_wf n) s.
Proof.
  intros Hw [e He] Hp Hok. apply wp_bind. eapply wp_deref_ring; [exact Hp|].
  apply wp_bind. eapply wp_deref; [exact He|].
  destruct (connections e !! conn) as [c|]; [|done].
  destruct (ring_slices_ok r) as (_ & sl & Hsl); [apply Hok..|].
  apply wp_bind. eapply wp_lift; [exact Hsl|]. destruct sl as [sl|]; [|done].
  apply wp_bind, (os_op_wf _ n); [done|]. intros res s1 Hw1 E1 M1.
  destruct res as [[|b data]|]; try done.
  apply wp_bind, wp_store_ring. cbn [os mem engines].
  set (r' := set_head _ _). assert (Hok' : ring_ok r') by (by apply ring_ok_fill).
  assert (Hw2 : sys_wf n (mkSys (os s1) (<[p:=r']> (mem s1)) (engines s1))) by (by apply sys_wf_store).
  eapply wp_then; [|intros [] s2 Hw3; by apply wp_ret].
  destruct (over_high_water r'); [|by apply wp_ret].
  apply wp_bind, wp_os_op. intros w [] _. apply update_conn_wf; [exact Hw2|]. cbn. rewrite E1. eauto.
Qed.

Lemma read_wf n s h conn buf cnt :
  sys_wf n s -> handle_ok s h -> wp (net_read h conn buf cnt) (fun _ => sys_wf n) s.
Proof.
  intros Hw Hh. unfold net_read. destruct (h =? NULL) eqn:Eh; [done|]. apply Z.eqb_neq in Eh.
  destruct Hh as [?|[e He]]; [done|]. destruct (conn =? NULL); [done|]. destruct buf as [dst|]; [|done].
  cbn [orb]. apply wp_bind. eapply wp_deref; [exact He|].
  destruct (bound_ring e conn) as [p|] eqn:Eb.
  - unfold bound_ring in Eb. apply bind_Some in Eb as (id & _ & Hp).
    destruct (wf_rings _ _ _ (sys_wf_lookup _ _ _ _ Hw He) id p Hp) as (r & Hr & Hok).
    eapply wp_then; [by eapply net_read_ring_wf|]. by intros [code k] s1 Hw1.
  - destruct (connections e !! conn) as [c|]; [|done].
    apply (wp_then _ _ (sys_wf n)); [|by intros [[code d] k] s1 Hw1].
    destruct (tlsconn c); [apply net_read_tls_wf; eauto|].
    apply wp_bind, (os_op_wf _ n); [done|]. intros r s1 Hw1 _ _. by destruct r.
Qed.

Lemma flush_loop_wf n fuel st t s :
  sys_wf n s -> wp (flush_loop fuel st t) (fun _ s' => sys_wf n s' /\ engines s' = engines s) s.
Proof.
  revert t s. induction fuel as [|fuel IH]; intros t s Hw; cbn; destruct (wants_write t); try done.
  apply wp_bind, wp_os_op. intros w [t1 r] _. destruct r as [k|[]]; [|done..].
  eapply wp_mono; [by apply IH|]. cbn. done.
Qed.

Lemma write_wf n fuel s h conn data cnt :
  sys_wf n s -> handle_ok s h -> wp (net_write fuel h conn data cnt) (fun _ => sys_wf n) s.
Proof.
  intros Hw Hh. unfold net_write. destruct (h =? NULL) eqn:Eh; [done|]. apply Z.eqb_neq in Eh.
  destruct Hh as [?|[e He]]; [done|]. destruct (conn =? NULL); [done|]. destruct data as [src|]; [|done].
  cbn [orb]. apply wp_bind. eapply wp_deref; [exact He|].
  destruct (connections e !! conn) as [c|]; [|done]. destruct (tlsconn c) as [t|].
  - destruct (writer_write t src) as [t1 [k|]].
    + apply wp_bind. eapply wp_mono; [by apply (flush_loop_wf n)|]. cbn.
      intros [t2 ok] s1 [Hw1 E1].
      eapply wp_then; [apply update_conn_wf; [exact Hw1|rewrite E1; eauto]|].
      intros [] s2 Hw2. by destruct ok.
    + eapply wp_then; [apply update_conn_wf; [exact Hw|eauto]|]. by intros [] s2 Hw2.
  - apply wp_bind, (os_op_wf _ n); [done|]. intros r s1 Hw1 _ _. by destruct r.
Qed.

Lemma resume_one_wf n s h b :
  sys_wf n s -> is_Some (engines s !! h) ->
  wp (resume_one h b) (fun _ s' => sys_wf n s' /\ is_Some (engines s' !! h)) s.
Proof.
  intros Hw [e He]. destruct b as [id ring]. unfold resume_one. apply wp_bind.
  eapply wp_deref; [exact He|]. assert (Hd : sys_wf n s /\ is_Some (engines s !! h)) by eauto.
  destruct (connections e !! id) as [c|]; [|by apply wp_ret].
  destruct (is_paused c); [|by apply wp_ret].
  destruct (body_rings e !! ring) as [p|] eqn:Ep; [|by apply wp_ret].
  pose proof (sys_wf_lookup _ _ _ _ Hw He) as Hwe.
  destruct (wf_rings _ _ _ Hwe ring p Ep) as (r & Hr & _).
  apply wp_bind. eapply wp_deref_ring; [exact Hr|]. destruct (under_low_water r); [|by apply wp_ret].
  apply wp_bind, wp_os_op. intros w a _. eapply wp_update_conn; [exact He|]. cbn.
  rewrite lookup_insert_eq. split; [|eauto]. apply sys_wf_insert; [done|].
  apply engine_wf_connections; [done|]. apply ids_below_alter, Hwe.
Qed.

Lemma resume_all_wf n s h order :
  sys_wf n s -> is_Some (engines s !! h) -> wp (resume_all h order) (fun _ => sys_wf n) s.
Proof.
  revert s. induction order as [|b order IH]; intros s Hw Hh; [done|]. cbn.
  apply wp_bind. eapply wp_mono; [by apply resume_one_wf|]. cbn. intros [] s1 [? ?]. by apply IH.
Qed.

Lemma poll_wf n s h t order :
  sys_wf n s -> handle_ok s h -> wp (net_poll h t order) (fun _ => sys_wf n) s.
Proof.
  intros Hw Hh. apply wp_null; [done..|]. intros e Hne He. apply wp_bind. eapply wp_deref; [exact He|].
  eapply wp_then; [apply resume_all_wf; eauto|]. intros [] s1 Hw1.
  apply wp_bind, (os_op_wf _ n); [done|]. intros r s2 Hw2 _ _. by destruct r.
Qed.

Lemma ring_register_wf n s h id p r :
  sys_wf n s -> handle_ok s h -> mem s !! p = Some r -> ring_ok r ->
  wp (net_body_ring_register h id p) (fun _ => sys_wf n) s.
Proof.
  intros Hw Hh Hp Hr. apply wp_null; [done..|]. intros e Hne He. apply wp_bind.
  eapply wp_modify; [exact He|]. apply wp_ret. apply sys_wf_insert; [done|].
  destruct (sys_wf_lookup _ _ _ _ Hw He). split; try done. cbn. intros id' p'.
  rewrite lookup_insert_Some. intros [[<- <-]|[_ H]]; eauto.
Qed.

Lemma ring_unregister_wf n s h id :
  sys_wf n s -> handle_ok s h -> wp (net_body_ring_unregister h id) (fun _ => sys_wf n) s.
Proof.
  intros Hw Hh. apply wp_null; [done..|]. intros e Hne He. apply wp_bind.
  eapply wp_modify; [exact He|]. apply wp_ret. apply sys_wf_insert; [done|].
  destruct (sys_wf_lookup _ _ _ _ Hw He). split; try done. cbn. intros id' p'.
  rewrite lookup_delete_Some. intros [_ H]; eauto.
Qed.

Lemma ring_bind_wf n s h conn id :
  sys_wf n s -> handle_ok s h -> wp (net_conn_bind_body_ring h conn id) (fun _ => sys_wf n) s.
Proof.
  intros Hw Hh. unfold net_conn_bind_body_ring. destruct (conn =? NULL); [by rewrite orb_true_r|].
  rewrite orb_false_r. apply wp_null; [done..|]. intros e Hne He. apply wp_bind.
  eapply wp_modify; [exact He|]. apply wp_ret. apply sys_wf_insert; [done|].
  by destruct (sys_wf_lookup _ _ _ _ Hw He).
Qed.
End Safety.
#[export] Hint Resolve steady_host_arg : steady.

(** ** Frames: what a call on one connection may touch *)

Section Frames.
Context {N : Net}.

(** Only the connection [conn] of the engine [h] may differ. *)
Definition same_but (h conn : Z) (s s' : sys) : Prop :=
  (forall h', h' <> h -> engines s' !! h' = engines s !! h')
  /\ match engines s !! h with
  | Some e => exists m, engines s' !! h = Some (with_connections (fun _ => m) e)
      /\ forall id, id <> conn -> m !! id = connections e !! id
  | None => engines s' !! h = None
  end.

Lemma same_but_engines h conn s s' : engines s' = engines s -> same_but h conn s s'.
Proof.
  intros E. unfold same_but. rewrite E. split; [done|]. destruct (engines s !! h) as [e|] eqn:He; [|done].
  exists (connections e). by destruct e.
Qed.

Lemma same_but_trans h conn s1 s2 s3 :
  same_but h conn s1 s2 -> same_but h conn s2 s3 -> same_but h conn s1 s3.
Proof.
  intros [H1 H2] [H3 H4]. split; [intros h' Hne; by rewrite H3, H1|].
  destruct (engines s1 !! h) as [e|].
  - destruct H2 as (m & E & Hm). rewrite E in H4. destruct H4 as (m' & E' & Hm').
    exists m'. split; [by rewrite E'|]. intros id Hid. rewrite Hm' by done. by apply Hm.
  - by rewrite H2 in H4.
Qed.

#[export] Instance same_but_order h conn : SysOrder (same_but h conn).
Proof.
  split; [split|].
  - intros s. by apply same_but_engines.
  - intros s1 s2 s3. apply same_but_trans.
  - intros s w. by apply same_but_engines.
Qed.

Lemma framed_store_ring h conn p r : respects (same_but h conn) (store_ring p r).
Proof. intros s s' a [= <- <-]. by apply same_but_engines. Qed.

Lemma framed_modify h conn f :
  (forall m id, id <> conn -> f m !! id = m !! id) ->
  respects (same_but h conn) (modify h (with_connections f)).
Proof.
  intros Hf. apply respects_modify. intros s e E.
  split; cbn; [intros h' Hne; by rewrite lookup_insert_ne|]. rewrite E, lookup_insert_eq.
  exists (f (connections e)). split; [done|]. auto.
Qed.

Lemma framed_update h conn f : respects (same_but h conn) (update_conn h conn f).
Proof. apply framed_modify. intros m id Hid. by rewrite lookup_alter_ne. Qed.
#[local] Hint Resolve framed_store_ring framed_update : respects.

Lemma framed_flush h conn fuel st t : respects (same_but h conn) (flush_loop fuel st t).
Proof. revert t. induction fuel as [|fuel IH]; intros t; cbn; respects. Qed.
#[local] Hint Resolve framed_flush : respects.

Lemma framed_read h conn buf cnt : respects (same_but h conn) (net_read h conn buf cnt).
Proof. unfold net_read, net_read_ring, net_read_tls, feed_tls, net_read_plain. respects. Qed.

Lemma framed_write fuel h conn data cnt : respects (same_but h conn) (net_write fuel h conn data cnt).
Proof. unfold net_write. respects. Qed.

Lemma framed_close h conn : respects (same_but h conn) (net_close h conn).
Proof.
  unfold net_close. respects. apply framed_modify. intros m id Hid. by rewrite lookup_delete_ne.
Qed.
End Frames.

(** ** Resuming paused connections *)

Section Resume.
Context {N : Net}.

(** Whether the loop of [poll] resumes a paused connection [id]: it is bound to a
    registered ring that is less than half full. *)
Definition resumes (mm : gmap Z BodyRing) (e : NetEngine) (id : Z) : bool :=
  match bound_ring e id ≫= (fun p => mm !! p) with
  | Some r => available_read r <? capacity r / 2
  | None => false
  end.

Lemma under_low_water_half r : ring_ok r -> under_low_water r = (available_read r <? capacity r / 2).
Proof.
  intros [Hc _]. unfold under_low_water, usize, wrap. rewrite Z.mod_small by lia.
  replace 100 with (2 * 50) by done. by rewrite Z.div_mul_cancel_r.
Qed.

(** The connections a poll resumes, in the order it visits them, and what the
    environment sees of it: each is registered again under its own token. *)
Definition resumed (mm : gmap Z BodyRing) (e : NetEngine) (order : list (Z * Z)) : list (Z * Connection) :=
  omap (fun b => c ← connections e !! fst b;
                 if is_paused c && resumes mm e (fst b) then Some (fst b, c) else None) order.

Definition register_all : W -> list (Z * Connection) -> W :=
  foldl (fun w p => fst (sock_register w (stream (snd p)) (fst p))).

Definition resume_map (mm : gmap Z BodyRing) (e : NetEngine) (ids : list Z)
  : gmap Z Connection -> gmap Z Connection :=
  map_imap (fun id c => Some (if bool_decide (id ∈ ids) && resumes mm e id then set_paused c false else c)).

Lemma set_paused_id c : is_paused c = false -> set_paused c false = c.
Proof. by destruct c; cbn; intros ->. Qed.

Lemma resume_one_spec n s h e id rid :
  sys_wf n s -> engines s !! h = Some e -> conn_body_rings e !! id = Some rid ->
  wp (resume_one h (id, rid))
  (fun _ s' => mem s' = mem s
  /\ engines s' = <[h := with_connections (resume_map (mem s) e [id]) e]> (engines s)
  /\ os s' = register_all (os s) (resumed (mem s) e [(id, rid)])) s.
Proof.
  intros Hw He Hb.
  assert (Hsame : (forall c, connections e !! id = Some c -> is_paused c = false \/ resumes (mem s) e id = false) ->
    engines s = <[h := with_connections (resume_map (mem s) e [id]) e]> (engines s)
    /\ resumed (mem s) e [(id, rid)] = []).
  { intros H. split.
    - rewrite insert_id; [done|]. rewrite He. f_equal. symmetry. apply with_connections_id.
      apply map_eq. intros j. unfold resume_map. rewrite map_lookup_imap.
      destruct (connections e !! j) as [c|] eqn:Ec; [|done]. cbn. f_equal.
      destruct (bool_decide (j ∈ [id])) eqn:Ej; [|done]. cbn [andb].
      apply bool_decide_eq_true, list_elem_of_singleton in Ej as ->.
      destruct (resumes _ _ _) eqn:Er; [|done]. destruct (H c Ec); [|congruence].
      by rewrite set_paused_id.
    - unfold resumed. cbn. destruct (connections e !! id) as [c|] eqn:Ec; [|done]. cbn.
      by destruct (H c eq_refl) as [-> | ->]; rewrite ?andb_false_r. }
  assert (Hno : (forall c, connections e !! id = Some c -> is_paused c = false \/ resumes (mem s) e id = false) ->
    wp (mret tt) (fun _ s' => mem s' = mem s
      /\ engines s' = <[h := with_connections (resume_map (mem s) e [id]) e]> (engines s)
      /\ os s' = register_all (os s) (resumed (mem s) e [(id, rid)])) s).
  { intros H. destruct (Hsame H) as [H1 H2]. apply wp_ret. by rewrite H2. }
  unfold resume_one. apply wp_bind. eapply wp_deref; [exact He|].
  destruct (connections e !! id) as [c|] eqn:Ec; [|by apply Hno].
  destruct (is_paused c) eqn:Ep; [|apply Hno; intros c' [= <-]; by left].
  destruct (body_rings e !! rid) as [p|] eqn:Er.
  2:{ apply Hno. intros c' _. right. unfold resumes, bound_ring. rewrite Hb. cbn. by rewrite Er. }
  destruct (wf_rings _ _ _ (sys_wf_lookup _ _ _ _ Hw He) rid p Er) as (r & Hr & Hok).
  assert (Hres : resumes (mem s) e id = under_low_water r).
  { rewrite under_low_water_half by done. unfold resumes, bound_ring. rewrite Hb. cbn. rewrite Er. cbn. by rewrite Hr. }
  apply wp_bind. eapply wp_deref_ring; [exact Hr|].
  destruct (under_low_water r) eqn:Eu; [|apply Hno; intros c' _; by right].
  apply wp_bind, wp_os_op. intros w a Ew. eapply wp_update_conn; [exact He|]. split; [done|]. split.
  - cbn. f_equal. apply with_connections_ext. apply map_eq. intros j.
    unfold resume_map. rewrite map_lookup_imap. destruct (decide (j = id)) as [->|Hj].
    + rewrite lookup_alter_eq, Ec. cbn. rewrite bool_decide_eq_true_2 by by apply list_elem_of_singleton.
      by rewrite Hres.
    + rewrite lookup_alter_ne by done. destruct (connections e !! j); [|done]. cbn.
      by rewrite bool_decide_eq_false_2 by by rewrite list_elem_of_singleton.
  - unfold resumed. cbn. rewrite Ec. cbn. rewrite Ep, Hres. cbn. by rewrite Ew.
Qed.

Lemma resume_map_cons mm e id ids m :
  resume_map mm e ids (resume_map mm e [id] m) = resume_map mm e (id :: ids) m.
Proof.
  apply map_eq. intros j. unfold resume_map. rewrite !map_lookup_imap.
  destruct (m !! j) as [c|]; [|done]. cbn. f_equal.
  destruct (decide (j = id)) as [->|Hj].
  - rewrite (bool_decide_eq_true_2 (id ∈ [id])), (bool_decide_eq_true_2 (id ∈ id :: ids)) by (by left).
    cbn. destruct (resumes mm e id); [|by rewrite andb_false_r]. by destruct (bool_decide _).
  - rewrite (bool_decide_eq_false_2 (j ∈ [id])) by by rewrite list_elem_of_singleton. cbn [andb].
    by rewrite (bool_decide_ext (j ∈ id :: ids) (j ∈ ids)) by (rewrite elem_of_cons; naive_solver).
Qed.

(** Resuming one connection leaves the others' turn as it was. *)
Lemma resumed_after mm e id order :
  (id ∉ order.*1) -> resumed mm (with_connections (resume_map mm e [id]) e) order = resumed mm e order.
Proof.
  induction order as [|b order IH]; intros Hid; [done|]. cbn [fmap list_fmap] in Hid.
  apply not_elem_of_cons in Hid as [Hb Hid]. unfold resumed in *. cbn [omap list_omap]. rewrite IH by done.
  replace (connections (with_connections (resume_map mm e [id]) e) !! fst b) with (connections e !! fst b); [done|].
  cbn. unfold resume_map. rewrite map_lookup_imap. destruct (connections e !! fst b); [|done]. cbn.
  by rewrite bool_decide_eq_false_2 by by rewrite list_elem_of_singleton.
Qed.

Lemma resume_all_spec n order s h e :
  sys_wf n s -> engines s !! h = Some e -> NoDup order.*1 ->
  (forall id rid, (id, rid) ∈ order -> conn_body_rings e !! id = Some rid) ->
  wp (resume_all h order)
  (fun _ s' => mem s' = mem s
  /\ engines s' = <[h := with_connections (resume_map (mem s) e order.*1) e]> (engines s)
  /\ os s' = register_all (os s) (resumed (mem s) e order)) s.
Proof.
  revert s e. induction order as [|[id rid] order IH]; intros s e Hw He Hnd Ho.
  - cbn. split; [done|]. split; [|done]. rewrite insert_id; [done|]. rewrite He. f_equal. symmetry.
    apply with_connections_id. apply map_eq. intros j. unfold resume_map. rewrite map_lookup_imap.
    by destruct (connections e !! j).
  - cbn [resume_all fmap list_fmap fst] in *. apply NoDup_cons in Hnd as [Hid Hnd]. apply wp_bind.
    assert (Hb : conn_body_rings e !! id = Some rid) by (apply Ho; by left).
    assert (Hw1 : wp (resume_one h (id, rid)) (fun _ s' => sys_wf n s' /\ mem s' = mem s
      /\ engines s' = <[h := with_connections (resume_map (mem s) e [id]) e]> (engines s)
      /\ os s' = register_all (os s) (resumed (mem s) e [(id, rid)])) s).
    { pose proof (resume_one_spec n s h e id rid Hw He Hb) as H1.
      pose proof (resume_one_wf n s h (id, rid) Hw (mk_is_Some _ _ He)) as H2.
      unfold wp in *. destruct (resume_one h (id, rid) s) as [[s' a]| | |]; tauto. }
    eapply wp_mono; [exact Hw1|]. cbn beta. intros _ s1 (Hws1 & M1 & E1 & O1).
    eapply wp_mono; [apply (IH s1 (with_connections (resume_map (mem s) e [id]) e))|].
    + done.
    + rewrite E1. apply lookup_insert_eq.
    + done.
    + intros id' rid' Hin. cbn. apply Ho. by right.
    + cbn beta. intros _ s2 (M2 & E2 & O2). split; [congruence|]. split.
      * rewrite E2, E1, insert_insert_eq, M1. f_equal. unfold with_connections; cbn. f_equal.
        exact (resume_map_cons (mem s) e id order.*1 (connections e)).
      * rewrite O2, O1, M1, resumed_after by done. unfold register_all. rewrite <- foldl_app. f_equal.
        exact (eq_sym (omap_app _ [(id, rid)] order)).
Qed.
End Resume.

(** ** Properties *)

(** A system with one fresh engine at address 100, for the witnesses. *)
Definition toy_sys (w : Toy.world) (mm : gmap Z BodyRing) (e : @NetEngine Toy.net) : @sys Toy.net :=
  @mkSys Toy.net w mm {[100 := e]}.

Lemma toy_wf w : sys_wf (N := Toy.net) 0 (toy_sys w ∅ NetEngine_new).
Proof. unfold sys_wf. apply map_Forall_singleton. by apply engine_wf_new. Qed.

#[local] Arguments addr_str : simpl never.

(** [dials w addrs w' found]: the addresses are tried in turn until one accepts. *)
Inductive dials {N : Net} : W -> list Addr -> W -> option Stream -> Prop :=
| dials_none w : dials w [] w None
| dials_refused w a addrs w1 e w2 found :
    tcp_connect w a = (w1, Err e) -> dials w1 addrs w2 found -> dials w (a :: addrs) w2 found
| dials_accepted w a addrs w1 st : tcp_connect w a = (w1, Ok st) -> dials w (a :: addrs) w1 (Some st).

Lemma connect_first_dials {N : Net} w addrs w' found :
  dials w addrs w' found -> forall s : sys, os s = w ->
  connect_first addrs s = Ret (mkSys w' (mem s) (engines s), found).
Proof.
  induction 1 as [w|w a addrs w1 [] w2 found E _ IH|w a addrs w1 st E]; intros s <-; cbn;
    unfold mbind, M_bind, os_op; cbn; rewrite ?E; cbn; [by destruct s| |done].
  by rewrite (IH (mkSys w1 (mem s) (engines s)) eq_refl).
Qed.

(** The session a new connection starts with, if any: on port 443 only, for a host
    that is a server name, when rustls makes one. *)
Definition session_for {N : Net} (hs : str) (port : Z) (o : option Tls) : Prop :=
  (o <> None -> port = 443 /\ server_name_ok hs = true) /\ (port = 443 -> server_name_ok hs = true -> o = tls_new hs).

(** C9: [net_connect], completely.  The host is resolved with its port and the
    addresses are dialled in turn.  If the name does not resolve or nothing answers,
    the handle is null and the engine is as it was.  Otherwise the socket gets
    TCP_NODELAY and is registered under the next identifier, which is used up in any
    case: when the poll refuses the socket it is dropped and the handle is null; else
    the identifier is the handle, not null and never a live connection of this engine,
    and the new connection carries the socket, the host and the port asked for, is not
    paused, and has a TLS session exactly on port 443 (when rustls accepts the host
    name).  Nothing else of the engine, no other engine and no ring changes. *)
Theorem net_connect_spec {N : Net} (n : Z) (s : sys) (h : Z) (e : NetEngine)
    (host : option bytes) (port : Z) (hs : str) (w2 : W) (found : option Stream)
    (Hw : sys_wf n s) (Hn : n < 2 ^ 64 - 2) (Hh : h <> NULL) (He : engines s !! h = Some e)
    (Hhost : host_arg host = Ret hs)
    (Hdial : let '(w1, resolved) := to_socket_addrs (os s) (hs ++ lit ":" ++ decimal port) in
             match resolved with Ok addrs => dials w1 addrs w2 found | Err _ => w2 = w1 /\ found = None end) :
  returns (net_connect h host port) (fun id s' =>
    mem s' = mem s /\
    match found with
    | None => id = NULL /\ os s' = w2 /\ engines s' = engines s
    | Some st =>
        let '(w3, registered) := sock_register (set_nodelay w2 st) st (next_conn_id e) in
        next_conn_id (bump_conn_id e) = next_conn_id e + 1 /\
        match registered with
        | Err _ => id = NULL /\ os s' = sock_drop w3 st /\ engines s' = <[h := bump_conn_id e]> (engines s)
        | Ok _ => id = next_conn_id e /\ id <> NULL /\ connections e !! id = None /\ os s' = w3
            /\ exists o, session_for hs port o
               /\ engines s' = <[h := with_connections
                    (insert id (mkConnection st Connecting false hs port o)) (bump_conn_id e)]> (engines s)
        end
    end) s.
Proof.
  pose proof (sys_wf_lookup _ _ _ _ Hw He) as Hwe. pose proof (wf_conn _ _ _ Hwe) as Hid.
  change (hs ++ lit ":" ++ decimal port) with (addr_str hs port) in Hdial.
  unfold returns, net_connect. rewrite (proj2 (Z.eqb_neq _ _)) by done.
  unfold mbind, M_bind. cbn beta. rewrite (deref_run s h e He). cbn. unfold lift. rewrite Hhost. cbn.
  unfold os_do, os_op.
  destruct (to_socket_addrs _ _) as [w1 [addrs|]].
  2:{ destruct Hdial as [-> ->]. cbn. eexists _, NULL. split; [done|]. by split_and!. }
  cbn. set (s1 := mkSys w1 (mem s) (engines s)).
  rewrite (connect_first_dials w1 addrs w2 found Hdial s1 eq_refl). cbn. destruct found as [st|].
  2:{ eexists _, NULL. split; [done|]. by split_and!. }
  unfold mbind, M_bind, deref, modify. cbn. rewrite He. cbn. rewrite He. cbn.
  destruct (sock_register _ _ _) as [w3 [[]|]]; cbn.
  - rewrite lookup_insert_eq. cbn. rewrite insert_insert_eq. eexists _, _. split; [done|]. split; [done|]. cbn.
    split; [by eapply bump_conn_next|]. split_and!; [done|unfold NULL; lia|eapply ids_below_fresh, Hwe|done|].
    exists (initial_tls hs port). split; [|done]. unfold session_for, initial_tls. split.
    + destruct (Z.eqb_spec port 443); [|done]. by destruct (server_name_ok hs).
    + by intros -> ->.
  - eexists _, NULL. split; [done|]. split; [done|]. split; [by eapply bump_conn_next|done].
Qed.

(** A first address accepts; the connection is the engine's first, with TLS. *)
Theorem net_connect_spec_witness :
  returns (N := Toy.net) (net_connect 100 (Some (c_mem (lit "h"))) 443) (fun id s' =>
    id = 1 /\ Toy.tokens (os s') = [1]
    /\ exists o, session_for (N := Toy.net) (lit "h") 443 o
       /\ engines s' = <[100 := with_connections
            (insert 1 (mkConnection (N := Toy.net) 0 Connecting false (lit "h") 443 o))
            (bump_conn_id NetEngine_new)]> {[100 := NetEngine_new]})
    (toy_sys Toy.world0 ∅ NetEngine_new).
Proof.
  destruct (net_connect_spec (N := Toy.net) 0 (toy_sys Toy.world0 ∅ NetEngine_new) 100 NetEngine_new
           (Some (c_mem (lit "h"))) 443 (lit "h") (Toy.mkWorld [] [] [] 1) (Some 0))
    as (s' & id & Hrun & _ & H).
  - apply toy_wf.
  - by_eval.
  - done.
  - reflexivity.
  - vm_compute. reflexivity.
  - apply (dials_accepted (N := Toy.net)). reflexivity.
  - destruct H as (_ & Hid & _ & _ & Hos & Ho). exists s', id. split; [exact Hrun|].
    split; [exact Hid|]. split; [by rewrite Hos|]. by rewrite Hid in Ho.
Defined.

(** The ring part of [net_read], exactly: [free] is the room left in the ring. *)
Lemma net_read_ring_run `{NetLaws} (s : sys) (h conn p : Z) (e : NetEngine) (c : Connection)
    (r : BodyRing) (T : Z) (q : bytes) (cnt : option Z) :
  engines s !! h = Some e -> connections e !! conn = Some c -> mem s !! p = Some r ->
  rep r T q -> wrap_ok r (T + Z.of_nat (length q)) ->
  let free := capacity r - Z.of_nat (length q) in
  let '(w, res) := sock_read (os s) (stream c) free in
  if free =? 0 then net_read_ring h conn p cnt s = Ret (s, (NS_ERROR_FAILURE, cnt))
  else match res with
       | Ok ((_ :: _) as data) => exists r', rep r' T (q ++ data) /\ capacity r' = capacity r
           /\ net_read_ring h conn p cnt s
              = Ret (mkSys (if over_high_water r' then sock_deregister w (stream c) else w)
                       (<[p := r']> (mem s))
                       (<[h := with_connections
                           (alter (fun c => if over_high_water r' then set_paused c true else c) conn) e]>
                         (engines s)),
                     (NS_OK, put_count cnt (Z.of_nat (length data))))
       | _ => net_read_ring h conn p cnt s = Ret (mkSys w (mem s) (engines s), (NS_ERROR_FAILURE, cnt))
       end.
Proof.
  intros He Hcon Hp Hr Hwrap free. destruct (sock_read (os s) (stream c) free) as [w res] eqn:Eres.
  pose proof (slices_rep r T q Hr Hwrap) as [Hfull Hfree]. pose proof (rep_size _ _ _ Hr) as Hsz.
  unfold net_read_ring, mbind, M_bind, deref_ring. cbn beta iota. rewrite Hp. cbn.
  rewrite (deref_run s h e He). cbn. rewrite Hcon. unfold lift, mbind, M_bind.
  rewrite (ring_slices_rep r T q Hr). destruct (Z.eqb_spec free 0) as [Hf|Hf].
  { by rewrite Hfull by lia. }
  destruct Hfree as (sl & -> & Hcells); [lia|]. cbn.
  assert (Hn : Z.of_nat (length (cells sl)) = free) by (rewrite Hcells, length_map, length_seqZ; lia).
  rewrite Hn. unfold mbind, M_bind, os_op. cbn. rewrite Eres. cbn.
  destruct res as [[|b data]|]; [done| |done]. set (d := b :: data).
  assert (Hlen : (length d <= length (cells sl))%nat).
  { pose proof (sock_read_len (os s) (stream c) free d) as Hl. rewrite Eres in Hl.
    specialize (Hl ltac:(lia) eq_refl). lia. }
  destruct (copy_rep r T q Hr sl _ d (Z.le_refl _) Hcells Hlen) as [Hr1 Hp1].
  pose proof (commit_rep _ T q Hr1 d Hp1) as Hr2.
  change (head (set_buffer r (write_cells (buffer r) (cells sl) d))) with (head r) in Hr2.
  set (r' := set_head _ _) in Hr2 |- *. exists r'. split; [exact Hr2|]. split; [done|].
  destruct (over_high_water r') eqn:Eo; unfold mbind, M_bind; cbn.
  - unfold update_conn, modify. cbn. by rewrite He.
  - rewrite with_connections_id; [by rewrite (insert_id (engines s))|].
    apply map_eq. intros j. destruct (decide (j = conn)) as [->|Hj].
    + rewrite lookup_alter_eq. by destruct (connections e !! conn).
    + by rewrite lookup_alter_ne.
Qed.

Lemma net_read_bound {N : Net} (s : sys) (h conn p : Z) (e : NetEngine) (dst : bytes) (cnt : option Z) s' a :
  h <> NULL -> conn <> NULL -> engines s !! h = Some e -> bound_ring e conn = Some p ->
  net_read_ring h conn p cnt s = Ret (s', a) ->
  net_read h conn (Some dst) cnt s = Ret (s', (fst a, Some dst, snd a)).
Proof.
  intros Hh Hc He Hb Hrun. unfold net_read. rewrite !(proj2 (Z.eqb_neq _ _)) by done. cbn [orb].
  unfold mbind, M_bind. cbn beta iota. rewrite (deref_run s h e He). cbn. rewrite Hb.
  unfold mbind, M_bind. rewrite Hrun. by destruct a.
Qed.

(** C7: reading a connection bound to a registered ring, completely.  If the ring is
    full nothing happens.  Otherwise the socket is read once, for exactly the room
    left; what it delivers is appended to the ring's queue in order, its length is
    reported, and the connection is paused and taken from the poll when the ring then
    holds more than 95% of its capacity.  An end of stream or a socket error is a
    failure that changes nothing.  The caller's buffer is never written. *)
Theorem net_read_ring_appends `{NetLaws} (s : sys) (h conn p : Z) (e : NetEngine)
    (c : Connection) (r : BodyRing) (T : Z) (q dst : bytes) (cnt : option Z)
    (Hh : h <> NULL) (Hc : conn <> NULL) (He : engines s !! h = Some e)
    (Hb : bound_ring e conn = Some p) (Hcon : connections e !! conn = Some c)
    (Hp : mem s !! p = Some r) (Hr : rep r T q)
    (Hwrap : wrap_ok r (T + Z.of_nat (length q))) :
  let free := capacity r - Z.of_nat (length q) in
  let '(w, res) := sock_read (os s) (stream c) free in
  if free =? 0 then net_read h conn (Some dst) cnt s = Ret (s, (NS_ERROR_FAILURE, Some dst, cnt))
  else match res with
       | Ok ((_ :: _) as data) => exists r', rep r' T (q ++ data)
           /\ net_read h conn (Some dst) cnt s
              = Ret (mkSys (if over_high_water r' then sock_deregister w (stream c) else w)
                       (<[p := r']> (mem s))
                       (<[h := with_connections
                           (alter (fun c => if over_high_water r' then set_paused c true else c) conn) e]>
                         (engines s)),
                     (NS_OK, Some dst, put_count cnt (Z.of_nat (length data))))
       | _ => net_read h conn (Some dst) cnt s
              = Ret (mkSys w (mem s) (engines s), (NS_ERROR_FAILURE, Some dst, cnt))
       end.
Proof.
  intros free. pose proof (net_read_ring_run s h conn p e c r T q cnt He Hcon Hp Hr Hwrap) as Hrun.
  cbv zeta in Hrun. fold free in Hrun. destruct (sock_read (os s) (stream c) free) as [w res].
  destruct (free =? 0); [by eapply (net_read_bound s) in Hrun|].
  destruct res as [[|b data]|]; try by eapply (net_read_bound s) in Hrun.
  destruct Hrun as (r' & Hr' & _ & Hrun). exists r'. split; [done|]. by eapply (net_read_bound s) in Hrun.
Qed.

(** One paused-capable connection 1 bound to ring 7, whose descriptor is at 500. *)
Definition toy_conn : @Connection Toy.net :=
  mkConnection (N := Toy.net) 0 Connecting false (lit "h") 80 None.
Definition toy_bound (c : @Connection Toy.net) : @NetEngine Toy.net :=
  mkNetEngine (N := Toy.net) {[1 := c]} 1 ∅ 2 {[7 := 500]} {[1 := 7]} ∅ ∅ 1.
Definition toy_ring : BodyRing := mkRing [7; 8; 5; 6] 4 5 2 false.

Lemma toy_ring_rep : rep toy_ring 2 [5; 6; 7].
Proof.
  split; try by_eval. intros [|[|[|[|i]]]] b Hb; vm_compute in Hb |- *; congruence.
Qed.

Lemma toy_bound_wf c w : sys_wf (N := Toy.net) 1 (toy_sys w {[500 := toy_ring]} (toy_bound c)).
Proof.
  apply map_Forall_singleton. split; cbn; try lia; try apply ids_below_empty.
  - intros id [x [<- _]%lookup_singleton_Some]. lia.
  - intros id. by rewrite !lookup_empty.
  - intros id p [<- <-]%lookup_singleton_Some. exists toy_ring. split; [by rewrite lookup_singleton_eq|].
    split; [cbn; lia|done].
Qed.

Theorem net_read_ring_appends_witness :
  let s := toy_sys (Toy.mkWorld [Ok [9; 9]] [] [] 1) {[500 := toy_ring]} (toy_bound toy_conn) in
  exists r' s', rep r' 2 [5; 6; 7; 9]
  /\ net_read (N := Toy.net) 100 1 (Some [0]) (Some 0) s = Ret (s', (NS_OK, Some [0], Some 1))
  /\ mem s' = <[500 := r']> (mem s).
Proof.
  intros s.
  destruct (net_read_ring_appends (H := Toy.net) (H0 := Toy.toy_net_laws) s
    100 1 500 (toy_bound toy_conn) toy_conn toy_ring 2 [5; 6; 7] [0] (Some 0)) as (r' & Hr & Hrun).
  - done.
  - done.
  - reflexivity.
  - reflexivity.
  - reflexivity.
  - reflexivity.
  - apply toy_ring_rep.
  - by right.
  - eexists r', _. split; [exact Hr|]. split; [exact Hrun|reflexivity].
Defined.

(** C8: one poll.  In whatever order the bindings are visited, exactly the paused
    connections that are bound to a registered ring less than half full are
    resumed: each is registered with the poll again, under its own token, and no
    longer marked as paused; every other connection and the rest of the engine stay
    as they were, and the environment sees nothing else before the wait.  The wait is
    for the caller's timeout, without limit if that is negative, and the answer the
    number of events, or -1.  In particular a connection paused on a ring that has
    been unregistered since is not resumed. *)
Theorem net_poll_resumes {N : Net} (n : Z) (s : sys) (h t : Z) (e : NetEngine) (order : list (Z * Z))
    (Hw : sys_wf n s) (Hh : h <> NULL) (He : engines s !! h = Some e)
    (Ho : order ≡ₚ map_to_list (conn_body_rings e)) :
  let '(w, res) := poll_wait (register_all (os s) (resumed (mem s) e order)) (if t <? 0 then None else Some t) in
  returns (net_poll h t order) (fun code s' =>
    os s' = w /\ mem s' = mem s
    /\ engines s' = <[h := with_connections
         (map_imap (fun id c => Some (if resumes (mem s) e id then set_paused c false else c))) e]>
         (engines s)
    /\ code = match res with Ok count => i32 count | Err _ => -1 end) s.
Proof.
  destruct (poll_wait _ _) as [w res] eqn:Ewait.
  apply steady_wp; [apply steady_poll|].
  unfold net_poll, NetEngine_poll. rewrite (proj2 (Z.eqb_neq _ _)) by done.
  apply wp_bind. eapply wp_deref; [exact He|]. apply wp_bind.
  eapply wp_mono; [apply (resume_all_spec n order s h e Hw He)|].
  { rewrite Ho. apply NoDup_fst_map_to_list. }
  { intros id rid Hin. rewrite Ho in Hin. by apply elem_of_map_to_list. }
  cbn beta. intros _ s1 (M1 & E1 & O1). apply wp_bind, wp_os_op. intros w' r Er.
  assert (Hres : with_connections (resume_map (mem s) e order.*1) e
    = with_connections
        (map_imap (fun id c => Some (if resumes (mem s) e id then set_paused c false else c))) e).
  { apply with_connections_ext. apply map_eq. intros j. unfold resume_map. rewrite !map_lookup_imap.
    destruct (connections e !! j) as [c|]; [|done]. cbn. f_equal.
    destruct (resumes (mem s) e j) eqn:Erj; [|by rewrite andb_false_r].
    rewrite bool_decide_eq_true_2; [done|]. unfold resumes, bound_ring in Erj.
    destruct (conn_body_rings e !! j) as [rid|] eqn:Ej; [|done].
    apply list_elem_of_fmap. exists (j, rid). split; [done|]. rewrite Ho. by apply elem_of_map_to_list. }
  rewrite Hres in E1. rewrite O1 in Er.
  assert (Ht : (if 0 <=? t then Some t else None) = if t <? 0 then None else Some t).
  { by destruct (Z.leb_spec 0 t), (Z.ltb_spec t 0); try lia. }
  rewrite Ht, Ewait in Er. injection Er as <- <-. by destruct res.
Qed.

(** The ring of four holds one byte: connection 1 is registered again. *)
Theorem net_poll_resumes_witness :
  let e := toy_bound (set_paused toy_conn true) in
  let s := toy_sys Toy.world0 {[500 := set_tail toy_ring 4]} e in
  returns (N := Toy.net) (net_poll 100 0 [(1, 7)]) (fun code s' =>
    code = 0 /\ Toy.tokens (os s') = [1] /\ mem s' = mem s
    /\ engines s' = <[100 := with_connections (map_imap (fun id c =>
         Some (if resumes (mem s) e id then set_paused c false else c))) e]> (engines s)) s
  /\ resumes (mem s) e 1 = true.
Proof.
  intros e s. split; [|vm_compute; reflexivity].
  assert (Hw : sys_wf (N := Toy.net) 1 s).
  { apply map_Forall_singleton. split; cbn; try lia; try apply ids_below_empty.
    + intros id [x [<- _]%lookup_singleton_Some]. lia.
    + intros id. by rewrite !lookup_empty.
    + intros id p [<- <-]%lookup_singleton_Some. exists (set_tail toy_ring 4).
      split; [by rewrite lookup_singleton_eq|]. split; [cbn; lia|done]. }
  destruct (net_poll_resumes (N := Toy.net) 1 s 100 0 e [(1, 7)] Hw ltac:(done) eq_refl ltac:(reflexivity))
    as (s' & code & Hrun & Hos & Hm & He & Hcode).
  exists s', code. split; [exact Hrun|]. split; [by rewrite Hcode|]. split; [by rewrite Hos|]. by split.
Defined.

(** C10: calls on one connection do not disturb the others.  Whatever [net_read],
    [net_write] and [net_close] answer, every other engine, and in this engine
    every other connection, every identifier, ring table, TLS session and QUIC
    connection is as before. *)
Theorem connection_isolation {N : Net} (fuel : nat) (s s' : sys) (h conn : Z)
    (Hrun : (exists buf cnt r, net_read h conn buf cnt s = Ret (s', r))
            \/ (exists data cnt r, net_write fuel h conn data cnt s = Ret (s', r))
            \/ (exists r, net_close h conn s = Ret (s', r))) :
  same_but h conn s s'.
Proof.
  destruct Hrun as [(buf & cnt & r & H)|[(data & cnt & r & H)|(r & H)]].
  - by eapply framed_read.
  - by eapply framed_write.
  - by eapply framed_close.
Qed.

Theorem connection_isolation_witness :
  exists s', net_close (N := Toy.net) 100 1 (toy_sys Toy.world0 ∅ (toy_bound toy_conn)) = Ret (s', NS_OK)
  /\ same_but (N := Toy.net) 100 1 (toy_sys Toy.world0 ∅ (toy_bound toy_conn)) s'.
Proof.
  eexists. split; [vm_compute; reflexivity|].
  apply (connection_isolation (N := Toy.net) 0). right. right. exists NS_OK. vm_compute. reflexivity.
Defined.

(** Reading a connection without a ring is safe for the caller's buffer: at most
    its length is written, from its start, the count is the number of bytes
    written, and on a failure neither buffer nor count changes. *)
Theorem net_read_buffer `{NetLaws} (n : Z) (s : sys) (h conn : Z) (e : NetEngine)
    (dst : bytes) (cnt : option Z)
    (Hw : sys_wf n s) (Hh : h <> NULL) (He : engines s !! h = Some e) (Hb : bound_ring e conn = None) :
  returns (net_read h conn (Some dst) cnt) (fun '(code, buf, cnt') _ =>
    code = NS_ERROR_FAILURE /\ buf = Some dst /\ cnt' = cnt
    \/ exists data, code = NS_OK /\ buf = Some (data ++ drop (length data) dst)
       /\ (length data <= length dst)%nat /\ cnt' = put_count cnt (Z.of_nat (length data))) s.
Proof.
  apply steady_wp; [apply steady_read|].
  unfold net_read. rewrite (proj2 (Z.eqb_neq h _)) by done. cbn [orb].
  destruct (conn =? NULL); [by left|]. apply wp_bind. eapply wp_deref; [exact He|]. rewrite Hb.
  destruct (connections e !! conn) as [c|]; [|by left]. apply wp_bind.
  destruct (tlsconn c) as [t|].
  - unfold net_read_tls. apply wp_bind. eapply wp_mono; [by apply (feed_tls_wf n); eauto|]. cbn beta.
    intros [t1|] s1 [Hw1 Hh1]; [|by left].
    destruct (reader_read t1 (Z.of_nat (length dst))) as [t2 r] eqn:Er.
    eapply wp_then; [by apply (update_conn_wf n)|]. intros [] s2 _.
    destruct r as [data|]; [|by left]. right. exists data. split_and!; try done.
    pose proof (reader_read_len t1 (Z.of_nat (length dst)) data) as Hl. rewrite Er in Hl.
    specialize (Hl ltac:(lia) eq_refl). lia.
  - unfold net_read_plain. apply wp_bind, wp_os_op. intros w r Er.
    destruct r as [data|]; [|by left]. right. exists data. split_and!; try done.
    pose proof (sock_read_len (os s) (stream c) (Z.of_nat (length dst)) data) as Hl. rewrite Er in Hl.
    specialize (Hl ltac:(lia) eq_refl). lia.
Qed.

Theorem net_read_buffer_witness :
  returns (N := Toy.net) (net_read 100 1 (Some [0; 0; 0]) (Some 0)) (fun '(code, buf, cnt') _ =>
    code = NS_ERROR_FAILURE /\ buf = Some [0; 0; 0] /\ cnt' = Some 0
    \/ exists data, code = NS_OK /\ buf = Some (data ++ drop (length data) [0; 0; 0])
       /\ (length data <= 3)%nat /\ cnt' = Some (Z.of_nat (length data)))
    (toy_sys (Toy.mkWorld [Ok [9; 9]] [] [] 1) {[500 := toy_ring]}
       (with_conn_body_rings (fun _ => ∅) (toy_bound toy_conn))).
Proof.
  apply (net_read_buffer (H := Toy.net) (H0 := Toy.toy_net_laws) 1
    (toy_sys (Toy.mkWorld [Ok [9; 9]] [] [] 1) {[500 := toy_ring]}
       (with_conn_body_rings (fun _ => ∅) (toy_bound toy_conn))) 100 1
    (with_conn_body_rings (fun _ => ∅) (toy_bound toy_conn)) [0; 0; 0] (Some 0)).
  - pose proof (sys_wf_lookup (N := Toy.net) _ _ 100 (toy_bound toy_conn)
      (toy_bound_wf toy_conn (Toy.mkWorld [Ok [9; 9]] [] [] 1)) eq_refl) as Hw.
    apply map_Forall_singleton. destruct Hw. by split.
  - done.
  - reflexivity.
  - reflexivity.
Defined.
