(* ===== verification/Write.v ===== *)
(** * Writing to connections (engine/src/lib.rs)

    [net_write] on a plain and on a TLS connection.  The flush loop goes on as long
    as rustls has output, so that it ends is a property of rustls: [Drains]. *)

From S2P Require Import Prelude Ring Net Engine Conn.

(** Every successful [write_tls] takes some output off the session. *)
Class Drains `(Net) (pending : Tls -> nat) : Prop := {
  drains_less w t st w' t' n :
    wants_write t = true -> write_tls w t st = (w', t', Ok n) -> (pending t' < pending t)%nat;
  drains_done t : pending t = 0%nat -> wants_write t = false;
}.

Section Flush.
Context {N : Net} {pending : Tls -> nat} {D : Drains N pending}.

(** How a flush ends: without output left, or with an error of the socket. *)
Definition flushed (st : Stream) (t : Tls) (ok : bool) : Prop :=
  if ok then wants_write t = false \/ exists w t0, snd (write_tls w t0 st) = Err WouldBlock
  else exists w t0, snd (write_tls w t0 st) = Err OtherError.

Lemma flush_loop_runs st fuel t s :
  (pending t <= fuel)%nat ->
  exists w t' ok, flush_loop fuel st t s = Ret (mkSys w (mem s) (engines s), (t', ok)) /\ flushed st t' ok.
Proof.
  revert t s. induction fuel as [|fuel IH]; intros t s Hf; cbn.
  - pose proof (drains_done t ltac:(lia)) as E. rewrite E. exists (os s), t, true. destruct s. by repeat first [split|left].
  - destruct (wants_write t) eqn:Ew; [|exists (os s), t, true; destruct s; by repeat first [split|left]].
    unfold mbind, M_bind, os_op. cbn. destruct (write_tls (os s) t st) as [[w t1] r] eqn:E. cbn.
    assert (Er : snd (write_tls (os s) t st) = r) by by rewrite E.
    destruct r as [k|[]].
    + apply drains_less in E; [|done].
      destruct (IH t1 (mkSys w (mem s) (engines s))) as (w' & t' & ok & -> & H); [lia|]. by eexists _, _, _.
    + eexists _, _, _. split; [done|]. right. by eexists _, _.
    + eexists _, _, _. split; [done|]. by eexists _, _.
Qed.

Lemma flush_loop_terminates st fuel t s :
  (pending t <= fuel)%nat -> exists s' r, flush_loop fuel st t s = Ret (s', r) /\ engines s' = engines s.
Proof. intros Hf. destruct (flush_loop_runs st fuel t s Hf) as (w & t' & ok & E & _). by eexists _, _. Qed.
End Flush.

(** What [net_write] answers on success and on failure. *)
Definition written (cnt : option Z) (r : result Z io_error) : Z * option Z :=
  match r with Ok n => (NS_OK, put_count cnt n) | Err _ => (NS_ERROR_FAILURE, cnt) end.

(** C12: writing.  On a live connection [net_write] returns.  Without TLS it is one
    write of the caller's bytes, whose answer it passes on, and the engine does not
    change.  With TLS, when rustls drains, as many rounds as the session has output
    after taking the bytes are enough; only this connection's session changes; the
    call fails, leaving the count, when rustls takes nothing or the socket fails, and
    otherwise reports exactly the bytes rustls took.  It reports success also when
    the socket would block with output still in the session. *)
Theorem net_write_spec {N : Net} (pending : Tls -> nat) {D : Drains N pending} (fuel : nat) (s : sys)
    (h conn : Z) (e : NetEngine) (c : Connection) (src : bytes) (cnt : option Z)
    (Hh : h <> NULL) (Hconn : conn <> NULL) (He : engines s !! h = Some e)
    (Hc : connections e !! conn = Some c)
    (Hfuel : forall t, tlsconn c = Some t -> (pending (fst (writer_write t src)) <= fuel)%nat) :
  match tlsconn c with
  | None =>
      net_write fuel h conn (Some src) cnt s
      = Ret (mkSys (fst (sock_write (os s) (stream c) src)) (mem s) (engines s),
             written cnt (snd (sock_write (os s) (stream c) src)))
  | Some t =>
      exists w t' ok, net_write fuel h conn (Some src) cnt s
      = Ret (mkSys w (mem s) (<[h := with_connections (alter (fun c => set_tls c (Some t')) conn) e]> (engines s)),
             match snd (writer_write t src) with
             | Ok n => if ok : bool then (NS_OK, put_count cnt n) else (NS_ERROR_FAILURE, cnt)
             | Err _ => (NS_ERROR_FAILURE, cnt)
             end)
      /\ match snd (writer_write t src) with
         | Ok _ => flushed (stream c) t' ok
         | Err _ => w = os s /\ t' = fst (writer_write t src)
         end
  end.
Proof.
  unfold net_write. rewrite !(proj2 (Z.eqb_neq _ _)) by done. cbn [orb].
  unfold mbind, M_bind. cbn beta. rewrite (deref_run s h e He). cbn. rewrite Hc.
  destruct (tlsconn c) as [t|].
  - specialize (Hfuel t eq_refl). destruct (writer_write t src) as [t1 [n|]]; cbn in Hfuel |- *.
    + destruct (flush_loop_runs (stream c) fuel t1 s Hfuel) as (w & t' & ok & E & Hfl).
      exists w, t', ok. unfold mbind, M_bind. rewrite E. cbn. unfold update_conn, modify. cbn. rewrite He. cbn.
      split; [by destruct ok|done].
    + exists (os s), t1, false. unfold mbind, M_bind, update_conn, modify. rewrite He. cbn. by split.
  - unfold mbind, M_bind, os_op. destruct (sock_write (os s) (stream c) src) as [w [n|]]; done.
Qed.

Definition toy_pending (t : Toy.tls) : nat := if bool_decide (Toy.t_out t = []) then 0 else 1.

Lemma toy_drains : Drains Toy.net toy_pending.
Proof.
  split.
  - intros w t st w' t' n Hw E. cbn in Hw, E. simplify_eq/=. unfold toy_pending. cbn.
    destruct (bool_decide (Toy.t_out t = [])); [done|]. cbn. lia.
  - intros t Ht. cbn. unfold toy_pending in Ht. by destruct (bool_decide (Toy.t_out t = [])).
Qed.

(** Two bytes on a TLS connection: they go out in one record. *)
Theorem net_write_spec_witness :
  let c := set_tls (N := Toy.net) toy_conn (Some (Toy.mkTls true [] [] [])) in
  let s := toy_sys Toy.world0 ∅ (toy_bound c) in
  exists w t' ok, net_write (N := Toy.net) 1 100 1 (Some [8; 9]) (Some 0) s
    = Ret (mkSys (N := Toy.net) w (mem s)
             (<[100 := with_connections (alter (fun c => set_tls c (Some t')) 1) (toy_bound c)]> (engines s)),
           if ok : bool then (NS_OK, Some 2) else (NS_ERROR_FAILURE, Some 0))
  /\ flushed (N := Toy.net) 0 t' ok.
Proof.
  intros c s.
  refine (net_write_spec (N := Toy.net) toy_pending (D := toy_drains) 1 s 100 1 (toy_bound c) c [8; 9] (Some 0)
    _ _ _ _ _).
  - done.
  - done.
  - reflexivity.
  - reflexivity.
  - intros t [= <-]. cbn. lia.
Defined.
