(* ===== verification/Tls.v ===== *)
(** * Standalone TLS connections (engine/src/lib.rs)

    The [net_tls_*] functions: a table of TLS sessions in the engine, each with its
    own blocking socket.  The two loops that depend on the peer (the handshake and
    the read loop) and the flush loop take fuel; running out of it is [Stuck]. *)

From S2P Require Import Prelude Utf8 Str Ffi Ring Net Engine Conn Write.

Definition TLS_CHUNK : Z := 16 * 1024.

Inductive TlsVerifyResult := Accepted | Rejected | NotEstablished.

(** [TlsVerifyResult as i32] *)
Definition TlsVerifyResult_code (r : TlsVerifyResult) : Z :=
  match r with Accepted => 0 | Rejected => -1 | NotEstablished => -2 end.

Section Code.
Context {N : Net}.

(** ** Creation *)

Definition TlsState_new (host : str) (port : Z) : M (result TlsState NetError) :=
  addrs ← os_op (fun w => to_socket_addrs w (addr_str host port));
  match addrs with
  | Err _ => mret (Err IoError)
  | Ok addrs =>
      stream ← connect_first addrs;
      match stream with
      | None => mret (Err IoError)
      | Some stream =>
          _ ← os_do (fun w => set_nodelay w stream);
          if server_name_ok host then
          match tls_new host with
          | Some t => mret (Ok (mkTlsState stream t host port false))
          | None => _ ← os_do (fun w => sock_drop w stream); mret (Err TlsError)
          end
          else _ ← os_do (fun w => sock_drop w stream); mret (Err TlsError)
      end
  end.

(** One pass of each half of the handshake loop: [Some] goes on, with the session
    and whether to leave the loop; [None] is an early return. *)
Definition handshake_write (s : Stream) (t : Tls) : M (option Tls) :=
  if wants_write t then
  '(t, r) ← os_op (fun w => let '(w, t, r) := write_tls w t s in (w, (t, r)));
  match r with
  | Ok _ | Err WouldBlock => mret (Some t)
  | Err OtherError => mret None
  end
  else mret (Some t).

Definition handshake_read (s : Stream) (t : Tls) : M (option (Tls * bool)) :=
  if wants_read t then
  res ← os_op (fun w => sock_read w s TLS_CHUNK);
  match res with
  | Ok [] => mret None
  | Ok raw =>
      let '(t, r) := read_tls t raw in
      match r with
      | Err _ => mret None
      | Ok _ =>
          let '(t, r) := process_new_packets t in
          match r with Err _ => mret None | Ok _ => mret (Some (t, false)) end
      end
  | Err WouldBlock => mret (Some (t, true))
  | Err OtherError => mret None
  end
  else mret (Some (t, false)).

Fixpoint handshake_loop (fuel : nat) (s : Stream) (t : Tls) : M (option Tls) :=
  if is_handshaking t then
  match fuel with
  | O => fun _ => Stuck
  | S fuel =>
      o ← handshake_write s t;
      match o with
      | None => mret None
      | Some t =>
          o ← handshake_read s t;
          match o with
          | None => mret None
          | Some (t, leave) =>
              if leave || negb (is_handshaking t) || (negb (wants_read t) && negb (wants_write t))
              then mret (Some t)
              else handshake_loop fuel s t
          end
      end
  end
  else mret (Some t).

(** [CStr::from_ptr(host).to_str()], as an owned string. *)
Definition strict_host (host : bytes) : outcome (option str) :=
  b ← cstr_from_ptr host; Ret (from_utf8 b).

Definition net_tls_create (fuel : nat) (h : Z) (host : option bytes) (port : Z) : M Z :=
  match h =? NULL, host with
  | false, Some host =>
      _ ← deref h;
      host_str ← lift (strict_host host);
      match host_str with
      | None => mret NULL
      | Some host_str =>
          state ← TlsState_new host_str port;
          match state with
          | Err _ => mret NULL
          | Ok state =>
              o ← handshake_loop fuel (tls_stream state) (tls state);
              match o with
              | None => _ ← os_do (fun w => sock_drop w (tls_stream state)); mret NULL
              | Some t =>
                  engine ← deref h;
                  let tls_id := next_tls_id engine in
                  _ ← modify h bump_tls_id;
                  _ ← modify h (with_tls_states (insert tls_id (set_session state t)));
                  mret tls_id
              end
          end
      end
  | _, _ => mret NULL
  end.

(** ** Reading and writing *)

Definition update_tls (h id : Z) (t : Tls) : M unit :=
  modify h (with_tls_states (alter (fun st => set_session st t) id)).

(** [loop { match stream.read(&mut tmp) ... }]: the session, and whether the loop
    was left by [break] rather than by a failing return. *)
Fixpoint read_loop (fuel : nat) (s : Stream) (t : Tls) : M (Tls * bool) :=
  match fuel with
  | O => fun _ => Stuck
  | S fuel =>
      res ← os_op (fun w => sock_read w s TLS_CHUNK);
      match res with
      | Ok [] => mret (t, false)
      | Ok raw =>
          let '(t, r) := read_tls t raw in
          match r with
          | Err _ => mret (t, false)
          | Ok _ =>
              let '(t, r) := process_new_packets t in
              match r with Err _ => mret (t, false) | Ok _ => read_loop fuel s t end
          end
      | Err WouldBlock => mret (t, true)
      | Err OtherError => mret (t, false)
      end
  end.

Definition net_tls_read (fuel : nat) (h id : Z) (buffer : option bytes) (bytes_read : option Z)
  : M (Z * option bytes * option Z) :=
  match (h =? NULL) || (id =? NULL), buffer with
  | false, Some dst =>
      engine ← deref h;
      match tls_states engine !! id with
      | None => mret (NS_ERROR_FAILURE, Some dst, bytes_read)
      | Some state =>
          if tls_is_closed state then mret (NS_ERROR_FAILURE, Some dst, bytes_read)
          else
          '(t, drained) ← read_loop fuel (tls_stream state) (tls state);
          if drained : bool then
          let '(t, r) := reader_read t (Z.of_nat (length dst)) in
          _ ← update_tls h id t;
          match r with
          | Ok [] | Err _ => mret (NS_ERROR_FAILURE, Some dst, bytes_read)
          | Ok data => mret (NS_OK, Some (put data dst), put_count bytes_read (Z.of_nat (length data)))
          end
          else _ ← update_tls h id t; mret (NS_ERROR_FAILURE, Some dst, bytes_read)
      end
  | _, _ => mret (NS_ERROR_FAILURE, buffer, bytes_read)
  end.

Definition net_tls_write (fuel : nat) (h id : Z) (data : option bytes) (bytes_written : option Z)
  : M (Z * option Z) :=
  match (h =? NULL) || (id =? NULL), data with
  | false, Some src =>
      engine ← deref h;
      match tls_states engine !! id with
      | None => mret (NS_ERROR_FAILURE, bytes_written)
      | Some state =>
          if tls_is_closed state then mret (NS_ERROR_FAILURE, bytes_written)
          else
          let '(t, r) := writer_write (tls state) src in
          match r with
          | Err _ => _ ← update_tls h id t; mret (NS_ERROR_FAILURE, bytes_written)
          | Ok n =>
              '(t, ok) ← flush_loop fuel (tls_stream state) t;
              _ ← update_tls h id t;
              if ok : bool then mret (NS_OK, put_count bytes_written n)
              else mret (NS_ERROR_FAILURE, bytes_written)
          end
      end
  | _, _ => mret (NS_ERROR_FAILURE, bytes_written)
  end.

(** ** Queries and closing *)

Definition net_tls_protocol_version (h id : Z) : M Z :=
  if (h =? NULL) || (id =? NULL) then mret 0
  else
  engine ← deref h;
  match tls_states engine !! id with
  | None => mret 0
  | Some state =>
      match tls_version (tls state) with
      | Some TLSv1_2 => mret 0x0303
      | Some TLSv1_3 => mret 0x0304
      | _ => mret 0
      end
  end.

Definition net_tls_close (h id : Z) : M Z :=
  if (h =? NULL) || (id =? NULL) then mret NS_ERROR_FAILURE
  else
  engine ← deref h;
  match tls_states engine !! id with
  | Some state =>
      _ ← modify h (with_tls_states (delete id));
      _ ← os_do (fun w => sock_drop (sock_shutdown w (tls_stream state)) (tls_stream state));
      mret NS_OK
  | None => mret NS_ERROR_FAILURE
  end.

Definition verify_state (state : TlsState) : TlsVerifyResult :=
  if tls_is_closed state then Rejected
  else if is_handshaking (tls state) then NotEstablished
  else match peer_certificates (tls state) with Some _ => Accepted | None => Rejected end.

Definition net_tls_verify_result (h id : Z) : M TlsVerifyResult :=
  if (h =? NULL) || (id =? NULL) then mret Rejected
  else
  engine ← deref h;
  match tls_states engine !! id with
  | Some state => mret (verify_state state)
  | None => mret Rejected
  end.

(** [copy_nonoverlapping] to the caller's memory. *)
Definition copy_to (data buf : bytes) : outcome bytes :=
  if (length data <=? length buf)%nat then Ret (put data buf) else Undefined.

(** The certificate is cut to the caller's [out_len] bytes. *)
Definition net_tls_peer_certificate (h id : Z) (out : option bytes) : M (Z * option bytes) :=
  match (h =? NULL) || (id =? NULL), out with
  | false, Some buf =>
      engine ← deref h;
      match tls_states engine !! id with
      | Some state =>
          match peer_certificates (tls state) with
          | Some (der :: _) =>
              let len := min (length der) (length buf) in
              buf ← lift (copy_to (take len der) buf);
              mret (i32 (Z.of_nat len), Some buf)
          | _ => mret (-1, Some buf)
          end
      | None => mret (-1, Some buf)
      end
  | _, _ => mret (-1, out)
  end.
End Code.

(** ** Well-formedness *)

Section Safety.
Context {N : Net}.
Implicit Types (s : sys) (h id n : Z).

(** An engine is untouched by code that only talks to sockets. *)
Definition quiet {A} (m : M A) : Prop :=
  forall s, wp m (fun _ s' => engines s' = engines s /\ mem s' = mem s) s.

Lemma quiet_ret {A} (a : A) : quiet (mret a).
Proof. by intros s. Qed.

Lemma quiet_bind {A B} (m : M A) (f : A -> M B) : quiet m -> (forall a, quiet (f a)) -> quiet (m ≫= f).
Proof.
  intros Hm Hf s. apply wp_bind. eapply wp_mono; [apply Hm|]. cbn beta. intros a s1 [E1 M1].
  eapply wp_mono; [apply Hf|]. cbn beta. intros b s2 [E2 M2]. by rewrite E2, M2.
Qed.

Lemma quiet_os {A} (f : W -> W * A) : quiet (os_op f).
Proof. intros s. by apply wp_os_op. Qed.

Lemma quiet_stuck {A} : quiet (fun _ => Stuck : outcome (sys * A)).
Proof. by intros s. Qed.

Lemma quiet_connect_first addrs : quiet (connect_first addrs).
Proof.
  induction addrs as [|a addrs IH]; [apply quiet_ret|]. apply quiet_bind; [apply quiet_os|].
  intros [s|]; [apply quiet_ret|apply IH].
Qed.

Ltac quiet :=
  repeat first [ apply quiet_ret | apply quiet_os | apply quiet_stuck | apply quiet_connect_first
| apply quiet_bind; [|intros ?] | case_match ].

(** A quiet call stays within any frame. *)
Lemma respects_quiet (R : relation sys) {HR : SysOrder R} {A} (m : M A) : quiet m -> respects R m.
Proof.
  intros Hm s s' a H. pose proof (Hm s) as Hs. unfold wp in Hs. rewrite H in Hs. destruct Hs as [E1 E2].
  destruct s' as [w mm ee]. cbn in E1, E2. subst mm ee. apply sys_os.
Qed.

Lemma quiet_TlsState_new host port : quiet (TlsState_new host port).
Proof. unfold TlsState_new. quiet. Qed.

Lemma quiet_handshake fuel st t : quiet (handshake_loop fuel st t).
Proof.
  revert t. induction fuel as [|fuel IH]; intros t; cbn; unfold handshake_write, handshake_read; quiet;
    try done; apply IH.
Qed.

Lemma quiet_read_loop fuel st t : quiet (read_loop fuel st t).
Proof. revert t. induction fuel as [|fuel IH]; intros t; cbn; quiet; try done; apply IH. Qed.

Lemma quiet_flush_loop fuel st t : quiet (flush_loop fuel st t).
Proof. revert t. induction fuel as [|fuel IH]; intros t; cbn; quiet; try done; apply IH. Qed.

Lemma wp_quiet {A} (m : M A) (Q : A -> sys -> Prop) s :
  quiet m -> (forall a s', engines s' = engines s -> mem s' = mem s -> Q a s') -> wp m Q s.
Proof. intros Hm HQ. eapply wp_mono; [apply Hm|]. cbn beta. intros a s' []. auto. Qed.

Lemma sys_wf_ext n s s' : sys_wf n s -> engines s' = engines s -> mem s' = mem s -> sys_wf n s'.
Proof. unfold sys_wf. by intros H -> ->. Qed.

Lemma update_tls_wf n s h id t :
  sys_wf n s -> is_Some (engines s !! h) -> wp (update_tls h id t) (fun _ => sys_wf n) s.
Proof.
  intros Hw [e He]. eapply wp_modify; [exact He|].
  pose proof (sys_wf_lookup _ _ _ _ Hw He) as Hwe. apply sys_wf_insert; [done|].
  apply engine_wf_tls_states; [done|]. apply ids_below_alter, Hwe.
Qed.

(** What a call of [net_tls_create] comes to, if it returns. *)
Lemma net_tls_create_run fuel s h e host port o :
  h <> NULL -> engines s !! h = Some e -> strict_host host = Ret o ->
  wp (net_tls_create fuel h (Some host) port) (fun id s' => mem s' = mem s
    /\ (engines s' = engines s
        \/ exists st, engines s' = <[h := with_tls_states (insert (next_tls_id e) st) (bump_tls_id e)]> (engines s)))
    s.
Proof.
  intros Hh He Ho. unfold net_tls_create. rewrite (proj2 (Z.eqb_neq _ _)) by done.
  apply wp_bind. eapply wp_deref; [exact He|]. apply wp_bind. eapply wp_lift; [exact Ho|].
  destruct o as [hs|]; [|apply wp_ret; auto]. apply wp_bind, wp_quiet; [apply quiet_TlsState_new|].
  intros [state|] s1 E1 M1; [|apply wp_ret; auto].
  apply wp_bind, wp_quiet; [apply quiet_handshake|]. intros [t|] s2 E2 M2.
  - apply wp_bind. eapply wp_deref; [by rewrite E2, E1|]. apply wp_bind.
    eapply wp_modify; [by rewrite E2, E1|]. apply wp_bind. eapply wp_modify; [cbn; apply lookup_insert_eq|].
    cbn. rewrite insert_insert_eq, E2, E1. split; [congruence|]. right. by eexists.
  - apply wp_bind, wp_os_op. intros w [] _. cbn. split; [congruence|]. left. congruence.
Qed.

Lemma tls_create_wf n fuel s h host port :
  sys_wf n s -> handle_ok s h -> n < 2 ^ 64 - 2 ->
  match host with Some mem => is_ret (strict_host mem) | None => True end ->
  wp (net_tls_create fuel h host port) (fun _ => sys_wf (n + 1)) s.
Proof.
  intros Hw Hh Hn Hhost. assert (Hm : sys_wf (n + 1) s) by (eapply sys_wf_mono; [done|lia]).
  destruct Hh as [->|[e He]]; [done|]. destruct (decide (h = NULL)) as [->|Hne]; [done|].
  destruct host as [mm|]; [|unfold net_tls_create; by case_match]. destruct Hhost as [o Ho].
  eapply wp_mono; [by eapply net_tls_create_run|]. cbn beta. intros id s' (M & [E|[st E]]);
    unfold sys_wf; rewrite M, E; [exact Hm|].
  pose proof (sys_wf_lookup _ _ _ _ Hw He) as Hwe. pose proof (wf_tls _ _ _ Hwe) as Hid.
  assert (Hb : engine_wf (n + 1) (mem s) (bump_tls_id e)) by (by apply engine_wf_bump_tls).
  apply (sys_wf_insert (n + 1) s); [done|]. apply engine_wf_tls_states; [done|].
  apply ids_below_insert; [apply Hb|]. unfold bump_tls_id, usize, wrap. cbn. rewrite Z.mod_small; lia.
Qed.

Lemma tls_read_wf n fuel s h id buf cnt :
  sys_wf n s -> handle_ok s h -> wp (net_tls_read fuel h id buf cnt) (fun _ => sys_wf n) s.
Proof.
  intros Hw Hh. unfold net_tls_read. destruct (h =? NULL) eqn:Eh; [done|]. apply Z.eqb_neq in Eh.
  destruct Hh as [?|[e He]]; [done|]. destruct (id =? NULL); [done|]. destruct buf as [dst|]; [|done].
  cbn [orb]. apply wp_bind. eapply wp_deref; [exact He|].
  destruct (tls_states e !! id) as [st|]; [|done]. destruct (tls_is_closed st); [done|].
  apply wp_bind, wp_quiet; [apply quiet_read_loop|]. intros [t b] s1 E1 M1.
  assert (Hw1 : sys_wf n s1) by (by eapply sys_wf_ext).
  assert (Hs1 : is_Some (engines s1 !! h)) by (rewrite E1; eauto).
  destruct b.
  - destruct (reader_read t _) as [t2 r]. eapply wp_then; [by apply update_tls_wf|].
    intros [] s2 Hw2. by destruct r as [[|? ?]|].
  - eapply wp_then; [by apply update_tls_wf|]. by intros [] s2 Hw2.
Qed.

Lemma tls_write_wf n fuel s h id data cnt :
  sys_wf n s -> handle_ok s h -> wp (net_tls_write fuel h id data cnt) (fun _ => sys_wf n) s.
Proof.
  intros Hw Hh. unfold net_tls_write. destruct (h =? NULL) eqn:Eh; [done|]. apply Z.eqb_neq in Eh.
  destruct Hh as [?|[e He]]; [done|]. destruct (id =? NULL); [done|]. destruct data as [src|]; [|done].
  cbn [orb]. apply wp_bind. eapply wp_deref; [exact He|].
  destruct (tls_states e !! id) as [st|]; [|done]. destruct (tls_is_closed st); [done|].
  destruct (writer_write (tls st) src) as [t [k|]].
  - apply wp_bind, wp_quiet; [apply quiet_flush_loop|]. intros [t2 ok] s1 E1 M1.
    eapply wp_then; [apply update_tls_wf; [by eapply sys_wf_ext|rewrite E1; eauto]|].
    intros [] s2 Hw2. by destruct ok.
  - eapply wp_then; [apply update_tls_wf; eauto|]. by intros [] s2 Hw2.
Qed.

Lemma tls_close_wf n s h id : sys_wf n s -> handle_ok s h -> wp (net_tls_close h id) (fun _ => sys_wf n) s.
Proof.
  intros Hw Hh. unfold net_tls_close. destruct (id =? NULL); [by rewrite orb_true_r|]. rewrite orb_false_r.
  apply wp_null; [done..|]. intros e Hne He. apply wp_bind. eapply wp_deref; [exact He|].
  destruct (tls_states e !! id); [|done]. apply wp_bind. eapply wp_modify; [exact He|].
  apply wp_bind, wp_os_op. intros w [] _. apply wp_ret.
  pose proof (sys_wf_lookup _ _ _ _ Hw He) as Hwe. apply sys_wf_insert; [done|].
  apply engine_wf_tls_states; [done|]. apply ids_below_delete, Hwe.
Qed.

Lemma copy_to_cut der buf :
  copy_to (take (min (length der) (length buf)) der) buf = Ret (put (take (min (length der) (length buf)) der) buf).
Proof. unfold copy_to. by rewrite (proj2 (Nat.leb_le _ _)) by (rewrite length_take; lia). Qed.

Lemma steady_copy_to data buf : steady (lift (copy_to data buf)).
Proof. apply steady_lift. unfold copy_to. by case_match. Qed.

(** The three queries change nothing. *)
Lemma tls_queries n s h id out :
  sys_wf n s -> handle_ok s h ->
  wp (net_tls_protocol_version h id) (fun _ => sys_wf n) s
  /\ wp (net_tls_verify_result h id) (fun _ => sys_wf n) s
  /\ wp (net_tls_peer_certificate h id out) (fun _ => sys_wf n) s.
Proof.
  intros Hw Hh. unfold net_tls_protocol_version, net_tls_verify_result, net_tls_peer_certificate.
  destruct (h =? NULL) eqn:Eh; [by split_and!|]. apply Z.eqb_neq in Eh.
  destruct Hh as [?|[e He]]; [done|]. destruct (id =? NULL); [by split_and!|]. cbn [orb].
  split_and!; [| |destruct out as [buf|]; [|done]]; apply wp_bind; (eapply wp_deref; [exact He|]);
    [by repeat case_match..|].
  destruct (tls_states e !! id) as [st|]; [|done]. destruct (peer_certificates (tls st)) as [[|der more]|]; try done.
  apply wp_bind. eapply wp_lift; [apply copy_to_cut|]. done.
Qed.
End Safety.
#[export] Hint Resolve steady_copy_to : steady.

(** ** Properties *)

(** A socket in blocking mode without a read timeout: [read] waits instead of
    answering [WouldBlock].  This is how [TlsState::new] leaves its socket. *)
Definition blocking_sockets (N : Net) : Prop :=
  forall w st n, snd (sock_read w st n) <> Err WouldBlock.

Lemma toy_blocking : blocking_sockets Toy.blocking.
Proof.
  intros w st n. cbn. unfold Toy.read_blocking, Toy.read. destruct (Toy.rx w) as [|[b|[]] r]; cbn; done.
Qed.

Definition toy_tls_engine (open : bool) : @NetEngine Toy.blocking :=
  mkNetEngine (N := Toy.blocking) ∅ 2
    {[1 := mkTlsState (N := Toy.blocking) 0 (Toy.mkTls open [] [] []) (lit "h") 853 false]} 1 ∅ ∅ ∅ ∅ 1.
Definition toy_tls_sys (w : Toy.world) (e : @NetEngine Toy.blocking) : @sys Toy.blocking :=
  @mkSys Toy.blocking w ∅ {[100 := e]}.

Lemma toy_tls_wf open w : sys_wf (N := Toy.blocking) 1 (toy_tls_sys w (toy_tls_engine open)).
Proof.
  apply map_Forall_singleton. split; cbn; try lia; try apply ids_below_empty.
  - intros id [x [<- _]%lookup_singleton_Some]. lia.
  - intros id. by rewrite !lookup_empty.
  - intros id p. by rewrite lookup_empty.
Qed.

Lemma read_loop_blocking {N : Net} fuel st t s s' r :
  blocking_sockets N -> read_loop fuel st t s = Ret (s', r) -> snd r = false.
Proof.
  intros Hb. revert t s. induction fuel as [|fuel IH]; intros t s H; [done|]. cbn in H.
  unfold mbind, M_bind, os_op in H. cbn in H.
  pose proof (Hb (os s) st TLS_CHUNK) as Hne. destruct (sock_read (os s) st TLS_CHUNK) as [w res].
  cbn in Hne, H. destruct res as [[|b raw]|[]]; [by injection H as <- <-| |done|by injection H as <- <-].
  destruct (read_tls t (b :: raw)) as [t1 [k|]]; [|by injection H as <- <-].
  destruct (process_new_packets t1) as [t2 [k2|]]; [|by injection H as <- <-]. by eapply IH.
Qed.

(** C38: [net_tls_read] never succeeds.  Its loop reads the socket until it would
    block, and on the blocking socket of a standalone connection that never
    happens: every call that returns reports a failure and leaves buffer and count
    alone, whatever plaintext the session holds. *)
Theorem net_tls_read_never_ok {N : Net} (Hb : blocking_sockets N) (fuel : nat) (s s' : sys)
    (h id : Z) (buf : option bytes) (cnt : option Z) (r : Z * option bytes * option Z)
    (H : net_tls_read fuel h id buf cnt s = Ret (s', r)) :
  r = (NS_ERROR_FAILURE, buf, cnt).
Proof.
  unfold net_tls_read in H. destruct (_ || _); [by injection H as <- <-|].
  destruct buf as [dst|]; [|by injection H as <- <-].
  unfold mbind, M_bind in H. cbn in H. destruct (deref h s) as [[s1 e]| | |]; try done. cbn in H.
  destruct (tls_states e !! id) as [st|]; [|by injection H as <- <-].
  destruct (tls_is_closed st); [by injection H as <- <-|].
  destruct (read_loop fuel (tls_stream st) (tls st) s1) as [[s2 [t b]]| | |] eqn:E; try done.
  apply read_loop_blocking in E; [|done]. cbn in E, H. subst b.
  unfold mbind, M_bind in H. cbn in H. destruct (update_tls h id t s2) as [[s3 []]| | |]; try done.
  by injection H as <- <-.
Qed.

(** Five bytes of plaintext arrive and the peer closes: still a failure. *)
Theorem net_tls_read_never_ok_witness :
  exists s' r, net_tls_read (N := Toy.blocking) 9 100 1 (Some [0; 0]) (Some 0)
      (toy_tls_sys (Toy.mkWorld [Ok [1; 2; 3; 4; 5]] [] [] 1) (toy_tls_engine true)) = Ret (s', r)
  /\ r = (NS_ERROR_FAILURE, Some [0; 0], Some 0).
Proof.
  eexists _, _. split; [vm_compute; reflexivity|].
  eapply (net_tls_read_never_ok (N := Toy.blocking) toy_blocking 9
    (toy_tls_sys (Toy.mkWorld [Ok [1; 2; 3; 4; 5]] [] [] 1) (toy_tls_engine true)) _ 100 1
    (Some [0; 0]) (Some 0)).
  vm_compute. reflexivity.
Defined.

(** A closed TLS handle is dead.  Once [net_tls_close] has answered success,
    every operation on the handle fails and changes nothing: reads, writes and a
    second close report a failure, the version is 0, the verification is rejected
    and there is no certificate. *)
Theorem net_tls_close_final {N : Net} (s s1 : sys) (h id : Z) (fuel : nat)
    (buf out data : option bytes) (cnt : option Z)
    (H : net_tls_close h id s = Ret (s1, NS_OK)) :
  net_tls_read fuel h id buf cnt s1 = Ret (s1, (NS_ERROR_FAILURE, buf, cnt))
  /\ net_tls_write fuel h id data cnt s1 = Ret (s1, (NS_ERROR_FAILURE, cnt))
  /\ net_tls_protocol_version h id s1 = Ret (s1, 0)
  /\ net_tls_verify_result h id s1 = Ret (s1, Rejected)
  /\ net_tls_peer_certificate h id out s1 = Ret (s1, (-1, out))
  /\ net_tls_close h id s1 = Ret (s1, NS_ERROR_FAILURE).
Proof.
  unfold net_tls_close in H at 1. destruct ((h =? NULL) || (id =? NULL)) eqn:Eg; [by inversion H|].
  unfold mbind, M_bind in H. cbn in H. destruct (engines s !! h) as [e|] eqn:He.
  2:{ unfold deref in H. by rewrite He in H. }
  rewrite (deref_run s h e He) in H. cbn in H.
  destruct (tls_states e !! id) as [st|]; [|by inversion H].
  unfold mbind, M_bind, modify in H. cbn in H. rewrite He in H. cbn in H.
  injection H as <-. set (e1 := with_tls_states (delete id) e). cbn.
  set (s1 := mkSys _ _ _). assert (H1 : engines s1 !! h = Some e1) by apply lookup_insert_eq.
  assert (H2 : tls_states e1 !! id = None) by apply lookup_delete_eq. clearbody s1 e1.
  unfold net_tls_read, net_tls_write, net_tls_protocol_version, net_tls_verify_result,
    net_tls_peer_certificate, net_tls_close. rewrite Eg.
  destruct buf, data, out; unfold mbind, M_bind; cbn beta iota; rewrite (deref_run s1 h e1 H1);
    cbn; rewrite H2; by split_and!.
Qed.

Theorem net_tls_close_final_witness :
  exists s1, net_tls_close (N := Toy.blocking) 100 1
      (toy_tls_sys Toy.world0 (toy_tls_engine true)) = Ret (s1, NS_OK)
  /\ net_tls_verify_result (N := Toy.blocking) 100 1 s1 = Ret (s1, Rejected).
Proof.
  eexists. split; [vm_compute; reflexivity|].
  refine (proj1 (proj2 (proj2 (proj2 (net_tls_close_final (N := Toy.blocking)
    (toy_tls_sys Toy.world0 (toy_tls_engine true)) _ 100 1 0 None None None None _))))).
  vm_compute. reflexivity.
Defined.

(** [net_tls_write] always returns when every successful [write_tls] takes some
    output off the session: as many rounds as the session has pending output after
    the plaintext was accepted are enough for the flush loop. *)
Theorem net_tls_write_returns {N : Net} (pending : Tls -> nat) {D : Drains N pending} (fuel : nat) (s : sys) (h id : Z) (e : NetEngine) (data : option bytes) (cnt : option Z)
    (He : engines s !! h = Some e)
    (Hfuel : forall st src, tls_states e !! id = Some st -> data = Some src ->
             (pending (fst (writer_write (tls st) src)) <= fuel)%nat) :
  exists s' r, net_tls_write fuel h id data cnt s = Ret (s', r).
Proof.
  unfold net_tls_write. destruct (_ || _); [by eexists _, _|].
  destruct data as [src|]; [|by eexists _, _].
  unfold mbind, M_bind. cbn. rewrite (deref_run s h e He). cbn.
  destruct (tls_states e !! id) as [st|] eqn:Es; [|by eexists _, _].
  destruct (tls_is_closed st); [by eexists _, _|]. specialize (Hfuel st src eq_refl eq_refl).
  destruct (writer_write (tls st) src) as [t r]. cbn in Hfuel. unfold mbind, M_bind. cbn.
  assert (Hup : forall s1 t1, engines s1 = engines s ->
    exists s2, update_tls h id t1 s1 = Ret (s2, tt)).
  { intros s1 t1 E. unfold update_tls, modify. rewrite E, He. by eexists. }
  destruct r as [k|].
  - destruct (flush_loop_terminates (tls_stream st) fuel t s Hfuel) as (s1 & [t1 ok] & -> & E1).
    cbn. destruct (Hup s1 t1 E1) as (s2 & ->). cbn. destruct ok; by eexists _, _.
  - destruct (Hup s t eq_refl) as (s2 & ->). by eexists _, _.
Qed.

Lemma toy_blocking_drains : Drains Toy.blocking toy_pending.
Proof. destruct toy_drains as [H1 H2]. by split; [apply H1|apply H2]. Qed.

Theorem net_tls_write_returns_witness :
  exists s' r, net_tls_write (N := Toy.blocking) 1 100 1 (Some [1; 2]) (Some 0)
    (toy_tls_sys Toy.world0 (toy_tls_engine true)) = Ret (s', r).
Proof.
  apply (net_tls_write_returns (N := Toy.blocking) toy_pending (D := toy_blocking_drains))
    with (e := toy_tls_engine true).
  - reflexivity.
  - intros st src _ _. unfold toy_pending. destruct (bool_decide _); lia.
Defined.

(** The certificate is copied within the caller's buffer.  For a live handle
    whose peer sent a certificate the call writes a prefix of its DER bytes, as much
    as fits, returns how many bytes it wrote, and leaves the rest of the buffer. *)
Theorem peer_certificate_in_bounds {N : Net} (s : sys) (h id : Z) (e : NetEngine) (st : TlsState)
    (der : bytes) (more : list bytes) (buf : bytes)
    (Hh : h <> NULL) (Hid : id <> NULL) (He : engines s !! h = Some e)
    (Hst : tls_states e !! id = Some st) (Hc : peer_certificates (tls st) = Some (der :: more))
    (Hlen : Z.of_nat (length buf) < 2 ^ 31) :
  let n := min (length der) (length buf) in
  exists buf', net_tls_peer_certificate h id (Some buf) s = Ret (s, (Z.of_nat n, Some buf'))
  /\ length buf' = length buf /\ take n buf' = take n der /\ drop n buf' = drop n buf.
Proof.
  intros n. unfold net_tls_peer_certificate. rewrite !(proj2 (Z.eqb_neq _ _)) by done. cbn [orb].
  unfold mbind, M_bind. cbn beta. rewrite (deref_run s h e He). cbn. rewrite Hst, Hc. unfold mbind, M_bind, lift. rewrite copy_to_cut. fold n. cbn.
  exists (put (take n der) buf).
  assert (Hn : length (take n der) = n) by (rewrite length_take; lia).
  unfold put. rewrite Hn. split_and!.
  - by rewrite i32_small by lia.
  - rewrite length_app, length_drop, Hn. lia.
  - rewrite <- Hn at 1. by rewrite take_app_length.
  - rewrite <- Hn at 1. by rewrite drop_app_length.
Qed.

Theorem peer_certificate_in_bounds_witness :
  exists buf', net_tls_peer_certificate (N := Toy.blocking) 100 1 (Some [0; 0])
      (toy_tls_sys Toy.world0 (toy_tls_engine true))
    = Ret (toy_tls_sys Toy.world0 (toy_tls_engine true), (2, Some buf'))
  /\ take 2 buf' = [0x30; 0x82].
Proof.
  destruct (peer_certificate_in_bounds (N := Toy.blocking)
    (toy_tls_sys Toy.world0 (toy_tls_engine true)) 100 1 (toy_tls_engine true)
    (mkTlsState (N := Toy.blocking) 0 (Toy.mkTls true [] [] []) (lit "h") 853 false)
    [0x30; 0x82; 1] [] [0; 0]) as (b & H1 & _ & H2 & _); try done.
  by exists b.
Defined.

(** What makes the handshake loop end: every write that is not an error and every
    chunk of input brings the session closer to its end by the measure [mu]. *)
Record handshake_progress {N : Net} (mu : W -> Tls -> nat) : Prop := mkProgress {
  write_progress w t st w' t' r :
    wants_write t = true -> write_tls w t st = (w', t', r) -> r <> Err OtherError ->
    (mu w' t' < mu w t)%nat;
  read_progress w t st w' b raw :
    sock_read w st TLS_CHUNK = (w', Ok (b :: raw)) ->
    (mu w' (fst (process_new_packets (fst (read_tls t (b :: raw))))) < mu w t)%nat;
}.

(** One round of the handshake loop. *)
Definition handshake_round {N : Net} (st : Stream) (t : Tls) : M (option (Tls * bool)) :=
  o ← handshake_write st t;
  match o with
  | None => mret None
  | Some t =>
      o ← handshake_read st t;
      match o with
      | None => mret None
      | Some (t, leave) =>
          mret (Some (t, leave || negb (is_handshaking t) || (negb (wants_read t) && negb (wants_write t))))
      end
  end.

Lemma handshake_loop_round {N : Net} fuel st t (s : sys) :
  is_handshaking t = true ->
  handshake_loop (S fuel) st t s
  = (o ← handshake_round st t;
     match o with
     | None => mret None
     | Some (t, leave) => if leave : bool then mret (Some t) else handshake_loop fuel st t
     end) s.
Proof.
  intros E. cbn [handshake_loop]. rewrite E. unfold handshake_round, mbind, M_bind.
  destruct (handshake_write st t s) as [[s1 [t1|]]| | |]; cbn; try done.
  by destruct (handshake_read st t1 s1) as [[s2 [[t2 l]|]]| | |].
Qed.

(** A session the loop may be left with. *)
Definition settled {N : Net} (t : Tls) : Prop :=
  is_handshaking t = false \/ wants_read t = false /\ wants_write t = false.

Lemma handshake_write_runs {N : Net} mu st t (s : sys) :
  handshake_progress mu ->
  exists w o, handshake_write st t s = Ret (mkSys w (mem s) (engines s), o)
  /\ match o with
     | Some t' => (mu w t' < mu (os s) t)%nat \/ w = os s /\ t' = t /\ wants_write t = false
     | None => True
     end.
Proof.
  intros Hmu. unfold handshake_write. destruct (wants_write t) eqn:Ew.
  - unfold mbind, M_bind, os_op. cbn. destruct (write_tls (os s) t st) as [[w t1] r] eqn:E. cbn.
    destruct r as [k|[]]; (eexists w, _; split; [reflexivity|]); try done; left;
      by eapply write_progress.
  - exists (os s), (Some t). split; [by destruct s|]. by right.
Qed.

Lemma handshake_read_runs {N : Net} mu st t (s : sys) :
  handshake_progress mu -> blocking_sockets N ->
  exists w o, handshake_read st t s = Ret (mkSys w (mem s) (engines s), o)
  /\ match o with
     | Some (t', leave) => leave = false
         /\ ((mu w t' < mu (os s) t)%nat \/ w = os s /\ t' = t /\ wants_read t = false)
     | None => True
     end.
Proof.
  intros Hmu Hb. unfold handshake_read. destruct (wants_read t) eqn:Er.
  - unfold mbind, M_bind, os_op. cbn. pose proof (Hb (os s) st TLS_CHUNK) as Hne.
    destruct (sock_read (os s) st TLS_CHUNK) as [w res] eqn:E. cbn in *.
    destruct res as [[|b raw]|[]]; [by exists w, None| |done|by exists w, None].
    pose proof (read_progress _ Hmu _ t _ _ _ _ E) as Hlt.
    destruct (read_tls t (b :: raw)) as [t1 [k|]]; [|by exists w, None]. cbn in Hlt.
    destruct (process_new_packets t1) as [t2 [k2|]]; [|by exists w, None].
    exists w, (Some (t2, false)). split; [done|]. split; [done|]. by left.
  - exists (os s), (Some (t, false)). split; [by destruct s|]. split; [done|]. by right.
Qed.

Lemma handshake_round_runs {N : Net} mu st t (s : sys) :
  handshake_progress mu -> blocking_sockets N ->
  exists w o, handshake_round st t s = Ret (mkSys w (mem s) (engines s), o)
  /\ match o with
     | Some (t', true) => settled t'
     | Some (t', false) => (mu w t' < mu (os s) t)%nat
     | None => True
     end.
Proof.
  intros Hmu Hb. unfold handshake_round, mbind, M_bind.
  destruct (handshake_write_runs mu st t s Hmu) as (w & o & -> & H). cbn.
  destruct o as [t1|]; [|by exists w, None].
  destruct (handshake_read_runs mu st t1 (mkSys w (mem s) (engines s)) Hmu Hb) as (w1 & o & -> & H1).
  cbn in *. destruct o as [[t2 leave]|]; [|by exists w1, None]. destruct H1 as [-> H1]. cbn [orb].
  eexists w1, _. split; [reflexivity|]. unfold settled.
  destruct (is_handshaking t2) eqn:Eh; [|by left]. cbn [negb orb].
  assert (Hlt : (mu w1 t2 < mu (os s) t)%nat \/ wants_read t2 = false /\ wants_write t2 = false).
  { destruct H1 as [H1|(-> & -> & H1)], H as [H|(-> & -> & H)]; auto with lia. }
  destruct (wants_read t2) eqn:Er, (wants_write t2) eqn:Ew; cbn [negb andb]; auto;
    by destruct Hlt as [|[? ?]].
Qed.

Lemma handshake_loop_returns {N : Net} mu st :
  handshake_progress mu -> blocking_sockets N -> forall k t (s : sys), (mu (os s) t < k)%nat ->
  exists w o, (forall fuel, (k <= fuel)%nat ->
                 handshake_loop fuel st t s = Ret (mkSys w (mem s) (engines s), o))
  /\ match o with Some t' => settled t' | None => True end.
Proof.
  intros Hmu Hb. induction k as [|k IH]; intros t s Hk; [lia|].
  destruct (is_handshaking t) eqn:Eh.
  - destruct (handshake_round_runs mu st t s Hmu Hb) as (w & o & E & H).
    assert (Hstep : forall fuel, handshake_loop (S fuel) st t s
      = match o with
        | None => Ret (mkSys w (mem s) (engines s), None)
        | Some (t', true) => Ret (mkSys w (mem s) (engines s), Some t')
        | Some (t', false) => handshake_loop fuel st t' (mkSys w (mem s) (engines s))
        end).
    { intros fuel. rewrite handshake_loop_round by done. unfold mbind, M_bind. rewrite E. cbn.
      by destruct o as [[t' []]|]. }
    destruct o as [[t' []]|].
    + exists w, (Some t'). split; [|done]. intros [|fuel] Hf; [lia|]. apply Hstep.
    + destruct (IH t' (mkSys w (mem s) (engines s))) as (w' & o & H1 & H2); [cbn; lia|].
      exists w', o. split; [|done]. intros [|fuel] Hf; [lia|]. rewrite Hstep. apply H1. lia.
    + exists w, None. split; [|done]. intros [|fuel] Hf; [lia|]. apply Hstep.
  - exists (os s), (Some t). split; [|by left]. intros [|fuel] _; cbn; rewrite Eh; by destruct s.
Qed.

Lemma connect_first_runs {N : Net} addrs (s : sys) :
  exists w o, connect_first addrs s = Ret (mkSys w (mem s) (engines s), o).
Proof.
  revert s. induction addrs as [|a addrs IH]; intros s; [exists (os s), None; by destruct s|].
  cbn [connect_first]. unfold mbind, M_bind, os_op. destruct (tcp_connect (os s) a) as [w [st|]]; cbn.
  - by eexists w, _.
  - destruct (IH (mkSys w (mem s) (engines s))) as (w' & o & ->). by eexists w', _.
Qed.

Lemma TlsState_new_runs {N : Net} hs port (s : sys) :
  exists w r, TlsState_new hs port s = Ret (mkSys w (mem s) (engines s), r)
  /\ match r with
     | Ok st => tls_host st = hs /\ tls_port st = port /\ tls_is_closed st = false
     | Err _ => True
     end.
Proof.
  unfold TlsState_new, mbind, M_bind, os_op. destruct (to_socket_addrs _ _) as [w [addrs|]]; cbn.
  - destruct (connect_first_runs addrs (mkSys w (mem s) (engines s))) as (w1 & o & ->). cbn.
    destruct o as [st|]; [|by eexists w1, _]. unfold os_do, os_op. cbn.
    destruct (server_name_ok hs); [|by eexists _, _]. destruct (tls_new hs); by eexists _, _.
  - by eexists w, _.
Qed.

(** C32: [net_tls_create] returns, and hands out a fresh handle for an open session.
    When rustls and the peer make progress, enough rounds bring the handshake loop
    to an end.  On success the handle is not null, was not in use, and names a
    session for the host and port asked for; otherwise the engine is unchanged.  The
    session need not have finished its handshake: it is also handed out when rustls
    neither wants to read nor to write. *)
Theorem net_tls_create_spec {N : Net} (Hb : blocking_sockets N) (mu : W -> Tls -> nat)
    (Hmu : handshake_progress mu) (n : Z) (s : sys)
    (h : Z) (e : NetEngine) (host : bytes) (port : Z) (hs : str)
    (Hw : sys_wf n s) (Hh : h <> NULL) (He : engines s !! h = Some e)
    (Hhost : strict_host host = Ret (Some hs)) :
  exists enough s' id,
    (forall fuel, (enough <= fuel)%nat -> net_tls_create fuel h (Some host) port s = Ret (s', id))
    /\ mem s' = mem s
    /\ (id = NULL /\ engines s' = engines s
        \/ id = next_tls_id e /\ id <> NULL /\ tls_states e !! id = None
           /\ exists st, engines s' = <[h := with_tls_states (insert id st) (bump_tls_id e)]> (engines s)
              /\ tls_host st = hs /\ tls_port st = port /\ tls_is_closed st = false
              /\ settled (tls st)).
Proof.
  unfold net_tls_create. rewrite (proj2 (Z.eqb_neq _ _)) by done. unfold mbind, M_bind.
  pose proof (sys_wf_lookup _ _ _ _ Hw He) as Hwe. pose proof (wf_tls _ _ _ Hwe) as Hid.
  rewrite (deref_run s h e He). cbn. unfold lift. rewrite Hhost. cbn.
  destruct (TlsState_new_runs hs port s) as (w & [st|] & -> & Hst); cbn.
  2:{ eexists 0%nat, _, _. split; [intros; reflexivity|]. split; [done|]. by left. }
  destruct (handshake_loop_returns mu (tls_stream st) Hmu Hb (S (mu w (tls st))) (tls st)
    (mkSys w (mem s) (engines s))) as (w1 & o & Hrun & Ho); [cbn; lia|].
  exists (S (mu w (tls st))). destruct o as [t|].
  - eexists _, _. split; [intros fuel Hf; rewrite Hrun by done; cbn; unfold deref, modify; cbn;
      rewrite He; cbn; rewrite He; cbn; rewrite lookup_insert_eq; cbn; reflexivity|].
    cbn. rewrite insert_insert_eq. split; [done|]. right.
    split_and!; [done|unfold NULL; lia|eapply ids_below_fresh, Hwe|].
    exists (set_session st t). by destruct Hst as (? & ? & ?).
  - eexists _, _. split; [intros fuel Hf; rewrite Hrun by done; reflexivity|]. split; [done|]. by left.
Qed.

(** Input still to come, and whether there is output. *)
Definition toy_progress (w : Toy.world) (t : Toy.tls) : nat := length (Toy.rx w) + toy_pending t.

Lemma toy_handshake_progress : handshake_progress (N := Toy.blocking) toy_progress.
Proof.
  split; cbn.
  - intros w t st w' t' r Hw E _. simplify_eq/=. unfold toy_progress, toy_pending. cbn.
    destruct (bool_decide (Toy.t_out t = [])); [done|]. cbn. lia.
  - intros w t st w' b raw E. unfold toy_progress, toy_pending, Toy.read_blocking, Toy.read in *.
    destruct (Toy.rx w) as [|[d|[]] r]; simplify_eq/=.
    destruct (Toy.t_open t); cbn; [lia|]. destruct (Toy.t_raw t ++ b :: raw); cbn; lia.
Qed.

Theorem net_tls_create_spec_witness :
  let s := toy_tls_sys (Toy.mkWorld [Ok [2]] [] [] 0) NetEngine_new in
  exists enough s' id,
    (forall fuel, (enough <= fuel)%nat ->
       net_tls_create (N := Toy.blocking) fuel 100 (Some (c_mem (lit "dns.example"))) 853 s = Ret (s', id))
    /\ mem s' = ∅
    /\ (id = NULL /\ engines s' = engines s
        \/ id = 1 /\ id <> NULL /\ tls_states (NetEngine_new (N := Toy.blocking)) !! id = None
           /\ exists st, engines s' = <[100 := with_tls_states (insert id st) (bump_tls_id NetEngine_new)]>
                                        (engines s)
              /\ tls_host st = lit "dns.example" /\ tls_port st = 853 /\ tls_is_closed st = false
              /\ settled (N := Toy.blocking) (tls st)).
Proof.
  apply (net_tls_create_spec (N := Toy.blocking) toy_blocking toy_progress toy_handshake_progress 0
    (toy_tls_sys (Toy.mkWorld [Ok [2]] [] [] 0) NetEngine_new) 100 NetEngine_new
    (c_mem (lit "dns.example")) 853 (lit "dns.example")).
  - apply map_Forall_singleton. by apply engine_wf_new.
  - done.
  - reflexivity.
  - vm_compute. reflexivity.
Defined.
