(* ===== verification/TlsLoss.v ===== *)
(** * What the TLS reads lose (engine/src/lib.rs)

    [rustls::ConnectionCommon::read_tls] may take only part of what it is given, and
    says how much.  The three places that feed a TLS session ([net_read],
    [net_tls_read] and the handshake of [net_tls_create]) read up to 16 KiB from the
    socket, hand them over in one call and do not look at the count. *)

From S2P Require Import Prelude Ring Net Engine Conn Tls.

(** [read_tls] works on the part of its input that it reports. *)
Class TakesPrefix `(Net) : Prop := {
  read_tls_prefix t kept lost :
    snd (read_tls t (kept ++ lost)) = Ok (Z.of_nat (length kept)) ->
    read_tls t (kept ++ lost) = read_tls t kept;
}.

Section Loss.
Context `{TakesPrefix}.

(** Two states that differ only in what the next read of [st] delivers: [kept] and
    [lost] to the one, of which the session takes [kept], and [kept] alone to the
    other. *)
Record surplus (st : Stream) (size : Z) (t : Tls) (kept lost : bytes) (s1 s2 : sys) : Prop := mkSurplus {
  sp_mem : mem s1 = mem s2;
  sp_engines : engines s1 = engines s2;
  sp_kept : kept <> [];
  sp_taken : snd (read_tls t (kept ++ lost)) = Ok (Z.of_nat (length kept));
  sp_reads : exists w, sock_read (os s1) st size = (w, Ok (kept ++ lost))
                    /\ sock_read (os s2) st size = (w, Ok kept);
}.

(** A step that reads the socket and feeds the session. *)
Lemma surplus_step {A} (f : result bytes io_error -> M A) st size t kept lost s1 s2 :
  surplus st size t kept lost s1 s2 ->
  (forall s, f (Ok (kept ++ lost)) s = f (Ok kept) s) ->
  (r ← os_op (fun w => sock_read w st size); f r) s1
  = (r ← os_op (fun w => sock_read w st size); f r) s2.
Proof.
  intros [Em Ee _ _ (w & E1 & E2)] Hf. unfold mbind, M_bind, os_op. rewrite E1, E2. cbn.
  by rewrite Em, Ee, Hf.
Qed.

Lemma surplus_reads st size t kept lost s1 s2 :
  surplus st size t kept lost s1 s2 ->
  (exists b k, kept = b :: k) /\ read_tls t (kept ++ lost) = read_tls t kept.
Proof. intros Hs. split; [|by apply read_tls_prefix, Hs]. destruct Hs. destruct kept; [done|eauto]. Qed.

(** Closes a goal [surplus] settles: the code after the read sees the same. *)
Ltac surplus Hs :=
  apply (surplus_step _ _ _ _ _ _ _ _ Hs); intros ?;
  let E := fresh in destruct (surplus_reads _ _ _ _ _ _ _ Hs) as [(? & ? & ->) E]; cbn [app] in *; by rewrite E.

Lemma feed_tls_surplus h conn c t kept lost s1 s2 :
  surplus (stream c) MAX_BUFFER_SIZE t kept lost s1 s2 ->
  feed_tls h conn c t s1 = feed_tls h conn c t s2.
Proof.
  intros Hs. unfold feed_tls. surplus Hs.
Qed.

Lemma read_loop_surplus fuel st t kept lost s1 s2 :
  surplus st TLS_CHUNK t kept lost s1 s2 -> read_loop fuel st t s1 = read_loop fuel st t s2.
Proof.
  intros Hs. destruct fuel as [|fuel]; [done|]. cbn [read_loop].
  surplus Hs.
Qed.

Lemma handshake_read_surplus st t kept lost s1 s2 :
  surplus st TLS_CHUNK t kept lost s1 s2 -> wants_read t = true ->
  handshake_read st t s1 = handshake_read st t s2.
Proof.
  intros Hs Hr. unfold handshake_read. rewrite Hr.
  surplus Hs.
Qed.
End Loss.

(** C13: what rustls does not take at once is lost.  Let the socket of a TLS
    connection deliver [kept ++ lost], of which [read_tls] takes [kept].  Then
    [net_read], and likewise [net_tls_read] and the handshake of a standalone
    session, ends with the same answer in the same state as if the peer had never
    sent [lost]: the bytes are gone from the socket, and nothing keeps or reports
    them. *)
Theorem tls_surplus_lost `{TakesPrefix} (s1 s2 : sys) (h id : Z) (e : NetEngine) (kept lost : bytes)
    (buf : option bytes) (cnt : option Z) (He : engines s1 !! h = Some e) :
  (forall c t, bound_ring e id = None -> connections e !! id = Some c -> tlsconn c = Some t ->
     surplus (stream c) MAX_BUFFER_SIZE t kept lost s1 s2 ->
     h <> NULL -> id <> NULL -> is_Some buf ->
     net_read h id buf cnt s1 = net_read h id buf cnt s2)
  /\ (forall fuel st, tls_states e !! id = Some st -> tls_is_closed st = false ->
     surplus (tls_stream st) TLS_CHUNK (tls st) kept lost s1 s2 ->
     h <> NULL -> id <> NULL -> is_Some buf ->
     net_tls_read fuel h id buf cnt s1 = net_tls_read fuel h id buf cnt s2)
  /\ (forall st t, wants_read t = true -> surplus st TLS_CHUNK t kept lost s1 s2 ->
     handshake_read st t s1 = handshake_read st t s2).
Proof.
  split_and!.
  - intros c t Hb Hc Ht Hs Hh Hid [dst ->]. pose proof (sp_engines _ _ _ _ _ _ _ Hs) as Ee.
    unfold net_read. rewrite !(proj2 (Z.eqb_neq _ _)) by done. cbn [orb].
    unfold mbind, M_bind. rewrite (deref_run s1 h e He), (deref_run s2 h e) by (by rewrite <- Ee).
    cbn. rewrite Hb, Hc, Ht. unfold net_read_tls, mbind, M_bind.
    by rewrite (feed_tls_surplus h id c t kept lost s1 s2 Hs).
  - intros fuel st Hst Hcl Hs Hh Hid [dst ->]. pose proof (sp_engines _ _ _ _ _ _ _ Hs) as Ee.
    unfold net_tls_read. rewrite !(proj2 (Z.eqb_neq _ _)) by done. cbn [orb].
    unfold mbind, M_bind. rewrite (deref_run s1 h e He), (deref_run s2 h e) by (by rewrite <- Ee).
    cbn. rewrite Hst, Hcl. by rewrite (read_loop_surplus fuel _ _ kept lost s1 s2 Hs).
  - intros st t Hr Hs. by apply (handshake_read_surplus st t kept lost).
Qed.

(** Four bytes arrive; the session takes two, and reading ends as if two had come. *)
Definition toy_narrow (rx : bytes) : @sys Toy.narrow :=
  let t := Toy.mkTls true [] [] [] in
  let c := set_tls (N := Toy.narrow) (Connection_new (N := Toy.narrow) 0 [] 443) (Some t) in
  mkSys (N := Toy.narrow) (Toy.mkWorld [Ok rx] [] [] 1) ∅
    {[100 := with_connections (N := Toy.narrow) (fun _ => {[1 := c]}) (NetEngine_new (N := Toy.narrow))]}.

Lemma toy_narrow_prefix : TakesPrefix Toy.narrow.
Proof.
  split. intros t kept lost [= E]. cbn in *. rewrite length_take, length_app in E.
  assert (Hk : (length kept <= 2)%nat) by lia.
  rewrite length_take, length_app. rewrite !(take_ge kept) by done.
  destruct (decide (lost = [])) as [->|Hne]; [by rewrite app_nil_r, take_ge, Nat.add_0_r, Nat.min_r by lia|].
  assert (length lost <> 0%nat) by by destruct lost.
  rewrite take_app_le, take_ge by lia. do 2 f_equal. lia.
Qed.

Theorem tls_surplus_lost_witness :
  net_read (N := Toy.narrow) 100 1 (Some (replicate 4 0)) (Some 0) (toy_narrow [2; 3; 4; 5])
  = net_read (N := Toy.narrow) 100 1 (Some (replicate 4 0)) (Some 0) (toy_narrow [2; 3]).
Proof.
  pose (t := Toy.mkTls true [] [] []).
  pose (c := set_tls (N := Toy.narrow) (Connection_new (N := Toy.narrow) 0 [] 443) (Some t)).
  destruct (tls_surplus_lost (H := Toy.narrow) (H0 := toy_narrow_prefix) (toy_narrow [2; 3; 4; 5])
    (toy_narrow [2; 3]) 100 1
    (with_connections (N := Toy.narrow) (fun _ => {[1 := c]}) (NetEngine_new (N := Toy.narrow)))
    [2; 3] [4; 5] (Some (replicate 4 0)) (Some 0)) as [Hread _]; [reflexivity|].
  apply (Hread c t); try done. split; try done. by eexists.
Defined.
