(* ===== verification/Quic.v ===== *)
(** * QUIC connections (engine/src/lib.rs)

    [net_http3_connect], [net_http3_drive] and [net_http3_close]: one quinn-proto
    endpoint and one connection per handle, each with its own UDP socket.  The
    loops of [net_http3_drive] end when the socket would block, the connection has
    no timer due and nothing to transmit; they take fuel. *)

From S2P Require Import Prelude Utf8 Str Ffi Ring Net Engine Conn.

Section Code.
Context {N : Net}.

(** ** Connecting *)

(** What follows the registration of the socket: the endpoint and the connection. *)
Definition http3_start (h conn_id : Z) (sock : Udp) (server local : Addr) (host : str) : M Z :=
  if quic_config_ok then
  now ← os_op (fun w => (w, now w));
  let '(ep, r) := endpoint_connect endpoint_new now server host in
  match r with
  | Err _ => _ ← os_do (fun w => udp_drop w sock); mret NULL
  | Ok (ch, conn) =>
      _ ← modify h (with_quic_endpoints (insert conn_id (mkQuicEndpointEntry sock ep server local)));
      _ ← modify h (with_quic_conns (insert conn_id (mkQuicConnectionEntry ch conn server)));
      mret conn_id
  end
  else _ ← os_do (fun w => udp_drop w sock); mret NULL.

Definition net_http3_connect (h : Z) (host : option bytes) (port : Z) : M Z :=
  if h =? NULL then mret NULL
  else
  _ ← deref h;
  host_str ← lift (host_arg host);
  addrs ← os_op (fun w => to_socket_addrs w (addr_str host_str port));
  match addrs with
  | Err _ | Ok [] => mret NULL
  | Ok (server :: _) =>
      bound ← os_op udp_bind;
      match bound with
      | Err _ => mret NULL
      | Ok sock =>
          nb ← os_op (fun w => udp_set_nonblocking w sock);
          w ← os_op (fun w => (w, w));
          match nb, udp_local_addr w sock with
          | Ok _, Ok local =>
              engine ← deref h;
              let conn_id := next_quic_id engine in
              _ ← modify h bump_quic_id;
              reg ← os_op (fun w => udp_register w sock conn_id);
              match reg with
              | Err _ => _ ← os_do (fun w => udp_drop w sock); mret NULL
              | Ok _ => http3_start h conn_id sock server local host_str
              end
          | _, _ => _ ← os_do (fun w => udp_drop w sock); mret NULL
          end
      end
  end.

(** ** Driving *)

Definition RX_BUF : Z := 2048.

(** An event reaches the connection only if it is for the entry's own handle. *)
Definition deliver (q : QuicConnectionEntry) (ev : option (QHandle * QEvent)) : QuicConnectionEntry :=
  match ev with
  | Some (ch, e) =>
      if q_handle_eqb (handle q) ch then set_connection q (handle_event (connection q) e) else q
  | None => q
  end.

(** The receive loop: datagrams are counted, decoded and delivered until the
    socket has no more (or fails). *)
Fixpoint recv_loop (fuel : nat) (time : Z) (sock : Udp) (ep : QEndpoint)
  (conn : option QuicConnectionEntry) (tx_buf : bytes) (processed : Z)
  : M (QEndpoint * option QuicConnectionEntry * bytes * Z) :=
  match fuel with
  | O => fun _ => Stuck
  | S fuel =>
      res ← os_op (fun w => udp_recv_from w sock RX_BUF);
      match res with
      | Ok (data, remote) =>
          let '(ep, tx_buf, ev) := endpoint_handle ep time remote data tx_buf in
          recv_loop fuel time sock ep ((fun q => deliver q ev) <$> conn) tx_buf (i32 (processed + 1))
      | Err _ => mret (ep, conn, tx_buf, processed)
      end
  end.

(** [while let Some(timeout) = poll_timeout()] *)
Fixpoint timeout_loop (fuel : nat) (time : Z) (c : QConn) : outcome QConn :=
  match fuel with
  | O => Stuck
  | S fuel =>
      match poll_timeout c with
      | (c, Some t) => if time <? t then Ret c else timeout_loop fuel time (handle_timeout c time)
      | (c, None) => Ret c
      end
  end.

(** [&buf[..n]] *)
Definition first_bytes (buf : bytes) (n : Z) : outcome bytes :=
  if Z.of_nat (length buf) <? n then Panicked else Ret (take (Z.to_nat n) buf).

(** [while let Some(transmit) = poll_transmit(...)] *)
Fixpoint transmit_loop (fuel : nat) (time : Z) (sock : Udp) (c : QConn) (tx_buf : bytes) : M QConn :=
  match fuel with
  | O => fun _ => Stuck
  | S fuel =>
      match poll_transmit c time tx_buf with
      | (c, tx_buf, Some (size, dest)) =>
          if Z.of_nat (length tx_buf) <? size then mret c
          else
          sent ← lift (first_bytes tx_buf size);
          _ ← os_do (fun w => udp_send_to w sock sent dest);
          transmit_loop fuel time sock c []
      | (c, _, None) => mret c
      end
  end.

Definition net_http3_drive (fuel : nat) (h conn : Z) : M Z :=
  if (h =? NULL) || (conn =? NULL) then mret (-1)
  else
  engine ← deref h;
  match quic_endpoints engine !! conn with
  | None => mret (-1)
  | Some entry =>
      time ← os_op (fun w => (w, now w));
      '(ep, q, tx_buf, processed) ←
      recv_loop fuel time (socket entry) (endpoint entry) (quic_conns engine !! conn) [] 0;
      _ ← modify h (with_quic_endpoints (insert conn (set_endpoint entry ep)));
      match q with
      | None => mret processed
      | Some q =>
          c ← lift (timeout_loop fuel time (connection q));
          c ← transmit_loop fuel time (socket entry) c tx_buf;
          _ ← modify h (with_quic_conns (insert conn (set_connection q c)));
          mret processed
      end
  end.

(** ** Closing *)

(** The connection is told to close after it has left the table, and is dropped
    with whatever it would have transmitted. *)
Definition net_http3_close (h conn : Z) : M Z :=
  if (h =? NULL) || (conn =? NULL) then mret NS_ERROR_FAILURE
  else
  engine ← deref h;
  _ ← match quic_conns engine !! conn with
      | Some q =>
          _ ← modify h (with_quic_conns (delete conn));
          _ ← os_op (fun w => (w, quic_close (connection q) (now w)));
          mret tt
      | None => mret tt
      end;
  _ ← match quic_endpoints engine !! conn with
      | Some entry =>
          _ ← modify h (with_quic_endpoints (delete conn));
          _ ← os_do (fun w => udp_deregister w (socket entry));
          os_do (fun w => udp_drop w (socket entry))
      | None => mret tt
      end;
  mret NS_OK.
End Code.

(** ** Well-formedness *)

Section Safety.
Context {N : Net}.
Implicit Types (s : sys) (h conn n : Z).

Lemma engine_wf_quic_insert n mm e id ep q :
  engine_wf n mm e -> 1 <= id < next_quic_id e ->
  engine_wf n mm (with_quic_conns (insert id q) (with_quic_endpoints (insert id ep) e)).
Proof.
  intros Hw Hid. split; cbn; try apply Hw; [apply ids_below_insert; [apply Hw|done]|].
  intros k. destruct (decide (k = id)) as [->|Hk]; [rewrite !lookup_insert_eq; split; eauto|].
  rewrite !lookup_insert_ne by done. apply (wf_quic_conns _ _ _ Hw).
Qed.

Lemma engine_wf_quic_delete n mm e id :
  engine_wf n mm e -> engine_wf n mm (with_quic_endpoints (delete id) (with_quic_conns (delete id) e)).
Proof.
  intros Hw. split; cbn; try apply Hw; [apply ids_below_delete, Hw|].
  intros k. destruct (decide (k = id)) as [->|Hk].
  - rewrite !lookup_delete_eq. split; by intros [? ?].
  - rewrite !lookup_delete_ne by done. apply (wf_quic_conns _ _ _ Hw).
Qed.

(** What a call of [net_http3_connect] comes to. *)
Lemma net_http3_connect_run s h e host port hs :
  h <> NULL -> engines s !! h = Some e -> host_arg host = Ret hs ->
  wp (net_http3_connect h host port) (fun id s' =>
    mem s' = mem s /\ exists e', engines s' = <[h := e']> (engines s)
    /\ (id = NULL /\ (e' = e \/ e' = bump_quic_id e)
        \/ id = next_quic_id e /\ exists ep q, remote q = server_addr ep
           /\ e' = with_quic_conns (insert id q) (with_quic_endpoints (insert id ep) (bump_quic_id e)))) s.
Proof.
  intros Hh He Hhost. unfold net_http3_connect. rewrite (proj2 (Z.eqb_neq _ _)) by done.
  set (Q := fun (id : Z) (s' : sys) => _).
  assert (Hold : forall s', engines s' = engines s -> mem s' = mem s -> Q NULL s').
  { intros s' E M'. split; [done|]. exists e. split; [by rewrite E, insert_id|]. left. auto. }
  assert (Hbump : forall w, Q NULL (mkSys w (mem s) (<[h := bump_quic_id e]> (engines s)))).
  { intros w. split; [done|]. eexists. split; [done|]. left. auto. }
  apply wp_bind. eapply wp_deref; [exact He|]. apply wp_bind. eapply wp_lift; [exact Hhost|].
  apply wp_bind, wp_os_op. intros w addrs _.
  destruct addrs as [[|server addrs]|]; [by apply Hold| |by apply Hold].
  apply wp_bind, wp_os_op. intros w1 bound _. destruct bound as [sock|]; [|by apply Hold].
  apply wp_bind, wp_os_op. intros w2 nb _. apply wp_bind, wp_os_op. intros w3 w4 [= <- <-]. cbn [os].
  destruct nb as [[]|], (udp_local_addr w2 sock) as [local|];
    try (apply wp_bind, wp_os_op; intros w' [] _; by apply Hold).
  apply wp_bind. eapply wp_deref; [exact He|]. apply wp_bind. eapply wp_modify; [exact He|]. cbn.
  apply wp_bind, wp_os_op. intros w5 reg _. cbn.
  destruct reg as [[]|]; [|apply wp_bind, wp_os_op; intros w' [] _; apply Hbump].
  unfold http3_start. destruct quic_config_ok; [|apply wp_bind, wp_os_op; intros w' [] _; apply Hbump].
  apply wp_bind, wp_os_op. intros w6 time _. cbn [os mem engines].
  destruct (endpoint_connect _ _ _ _) as [ep [[ch c]|]];
    [|apply wp_bind, wp_os_op; intros w' [] _; apply Hbump].
  apply wp_bind. eapply wp_modify; [cbn; apply lookup_insert_eq|]. cbn. rewrite insert_insert_eq.
  apply wp_bind. eapply wp_modify; [cbn; apply lookup_insert_eq|]. cbn. rewrite insert_insert_eq.
  split; [done|]. eexists. split; [done|]. right. split; [done|].
  by exists (mkQuicEndpointEntry sock ep server local), (mkQuicConnectionEntry ch c server).
Qed.

Lemma steady_http3_connect h host port : steady (net_http3_connect h host port).
Proof. unfold net_http3_connect, http3_start. steady. Qed.

Lemma http3_connect_wf n s h host port t :
  sys_wf n s -> handle_ok s h -> host_arg host = Ret t -> n < 2 ^ 64 - 2 ->
  wp (net_http3_connect h host port) (fun _ => sys_wf (n + 1)) s.
Proof.
  intros Hw Hh Ht Hn. assert (Hm : sys_wf (n + 1) s) by (eapply sys_wf_mono; [done|lia]).
  destruct Hh as [->|[e He]]; [done|]. destruct (decide (h = NULL)) as [->|Hne]; [done|].
  pose proof (sys_wf_lookup _ _ _ _ Hw He) as Hwe. pose proof (wf_quic _ _ _ Hwe) as Hid.
  eapply wp_mono; [by eapply net_http3_connect_run|]. cbn beta. intros id s' (M & e' & E & H).
  assert (Hb : engine_wf (n + 1) (mem s) (bump_quic_id e)) by (by apply engine_wf_bump_quic).
  unfold sys_wf. rewrite M, E. apply (sys_wf_insert (n + 1) s); [done|].
  destruct H as [[_ [-> | ->]]|[-> (ep & q & _ & ->)]]; [by eapply sys_wf_lookup|done|].
  apply engine_wf_quic_insert; [done|]. unfold bump_quic_id, usize, wrap. cbn. rewrite Z.mod_small; lia.
Qed.

Lemma recv_loop_quiet fuel time sock ep c buf k s (Q : _ -> sys -> Prop) :
  (forall a w, Q a (mkSys w (mem s) (engines s))) -> wp (recv_loop fuel time sock ep c buf k) Q s.
Proof.
  revert ep c buf k s. induction fuel as [|fuel IH]; intros ep c buf k s HQ; [done|]. cbn.
  apply wp_bind, wp_os_op. intros w [[data remote]|] _; [|apply HQ].
  destruct (endpoint_handle _ _ _ _ _) as [[ep1 buf1] ev]. apply IH. intros a w'. apply HQ.
Qed.

Lemma transmit_loop_quiet fuel time sock c buf s (Q : _ -> sys -> Prop) :
  (forall a w, Q a (mkSys w (mem s) (engines s))) -> wp (transmit_loop fuel time sock c buf) Q s.
Proof.
  revert c buf s. induction fuel as [|fuel IH]; intros c buf s HQ; [done|]. cbn.
  assert (Hs : forall a, Q a s) by (intros a; specialize (HQ a (os s)); by destruct s).
  destruct (poll_transmit c time buf) as [[c1 buf1] [[size dest]|]]; [|apply Hs].
  destruct (_ <? _) eqn:Esz; [apply Hs|]. apply wp_bind. eapply wp_lift; [unfold first_bytes; by rewrite Esz|].
  apply wp_bind, wp_os_op. intros w [] _. apply IH. intros a w'. apply HQ.
Qed.

Lemma timeout_loop_wp fuel time c (Q : QConn -> sys -> Prop) s :
  (forall c, Q c s) -> wp (lift (timeout_loop fuel time c)) Q s.
Proof.
  intros HQ. revert c. induction fuel as [|fuel IH]; intros c; [done|]. unfold wp, lift in IH |- *. cbn.
  destruct (poll_timeout c) as [c1 [t|]]; [|apply HQ]. destruct (time <? t); [apply HQ|apply IH].
Qed.

Lemma http3_drive_wf n fuel s h conn :
  sys_wf n s -> handle_ok s h -> wp (net_http3_drive fuel h conn) (fun _ => sys_wf n) s.
Proof.
  intros Hw Hh. unfold net_http3_drive. destruct (conn =? NULL); [by rewrite orb_true_r|]. rewrite orb_false_r.
  apply wp_null; [done..|]. intros e Hne He. apply wp_bind. eapply wp_deref; [exact He|].
  destruct (quic_endpoints e !! conn) as [entry|] eqn:Een; [|done].
  pose proof (sys_wf_lookup _ _ _ _ Hw He) as Hwe.
  assert (Hid : 1 <= conn < next_quic_id e) by (apply (wf_quic_endpoints _ _ _ Hwe); eauto).
  apply wp_bind, wp_os_op. intros w time _. apply wp_bind, recv_loop_quiet.
  intros [[[ep q] buf] k] w1. cbn. apply wp_bind. eapply wp_modify; [exact He|]. cbn.
  assert (Hw1 : engine_wf n (mem s) (with_quic_endpoints (insert conn (set_endpoint entry ep)) e)).
  { split; cbn; try apply Hwe; [apply ids_below_insert; [apply Hwe|done]|]. intros k'.
    rewrite (wf_quic_conns _ _ _ Hwe). destruct (decide (k' = conn)) as [->|Hk];
      [rewrite lookup_insert_eq, Een; split; eauto|by rewrite lookup_insert_ne]. }
  destruct q as [q|]; [|by apply (sys_wf_insert n s)].
  apply wp_bind, timeout_loop_wp. intros c. apply wp_bind, transmit_loop_quiet. intros c1 w2. cbn.
  apply wp_bind. eapply wp_modify; [cbn; apply lookup_insert_eq|]. cbn. rewrite insert_insert_eq.
  apply (sys_wf_insert n s); [done|]. by apply engine_wf_quic_insert.
Qed.
End Safety.

(** ** Properties *)

Lemma net_http3_close_spec_run {N : Net} (s : sys) (h conn : Z) (e : NetEngine)
    (Hh : h <> NULL) (Hc : conn <> NULL) (He : engines s !! h = Some e) :
  net_http3_close h conn s
  = Ret (mkSys match quic_endpoints e !! conn with
               | Some entry => udp_drop (udp_deregister (os s) (socket entry)) (socket entry)
               | None => os s
               end (mem s)
           (<[h := with_quic_endpoints (delete conn) (with_quic_conns (delete conn) e)]> (engines s)),
         NS_OK).
Proof.
  unfold net_http3_close. rewrite !(proj2 (Z.eqb_neq _ _)) by done. cbn [orb].
  unfold mbind, M_bind, deref, modify, os_do, os_op. cbn. rewrite He. cbn.
  destruct (quic_conns e !! conn) as [q|] eqn:Eq; cbn; rewrite ?He; cbn.
  - destruct (quic_endpoints e !! conn) as [en|] eqn:Ee; cbn; rewrite ?lookup_insert_eq; cbn;
      rewrite ?insert_insert_eq; repeat f_equal.
    unfold with_quic_endpoints. cbn. rewrite (delete_id (quic_endpoints e)) by done. by destruct e.
  - destruct (quic_endpoints e !! conn) as [en|] eqn:Ee; cbn; rewrite ?He; cbn; repeat f_equal.
    + unfold with_quic_endpoints, with_quic_conns. cbn. by rewrite (delete_id (quic_conns e)).
    + assert (Hsame : with_quic_endpoints (delete conn) (with_quic_conns (delete conn) e) = e).
      { unfold with_quic_endpoints, with_quic_conns. cbn.
        rewrite (delete_id (quic_conns e)), (delete_id (quic_endpoints e)) by done. by destruct e. }
      rewrite Hsame, insert_id by done. by destruct s.
Qed.

(** Closing a QUIC connection.  [net_http3_close] always answers success, also
    for handles it does not know; afterwards neither the endpoint nor the
    connection is in the engine and everything else is as before.  The environment
    only sees the socket deregistered and dropped: no datagram is sent, so the
    peer never gets a CONNECTION_CLOSE. *)
Theorem net_http3_close_spec {N : Net} (s : sys) (h conn : Z) (e : NetEngine)
    (Hh : h <> NULL) (Hc : conn <> NULL) (He : engines s !! h = Some e) :
  net_http3_close h conn s
  = Ret (mkSys match quic_endpoints e !! conn with
               | Some entry => udp_drop (udp_deregister (os s) (socket entry)) (socket entry)
               | None => os s
               end (mem s)
           (<[h := with_quic_endpoints (delete conn) (with_quic_conns (delete conn) e)]> (engines s)),
         NS_OK).
Proof. by apply net_http3_close_spec_run. Qed.

Definition toy_quic : @NetEngine Toy.net :=
  mkNetEngine (N := Toy.net) ∅ 1 ∅ 1 ∅ ∅
    {[1 := mkQuicEndpointEntry (N := Toy.net) 0 tt 4 0]}
    {[1 := mkQuicConnectionEntry (N := Toy.net) 0 [[7; 7]] 4]} 2.

Theorem net_http3_close_spec_witness :
  exists s', net_http3_close (N := Toy.net) 100 1 (toy_sys Toy.world0 ∅ toy_quic) = Ret (s', NS_OK)
  /\ Toy.tx (os s') = [].
Proof.
  eexists. split; [apply (net_http3_close_spec (N := Toy.net) (toy_sys Toy.world0 ∅ toy_quic) 100 1 toy_quic);
    [done|done|reflexivity]|reflexivity].
Defined.

(** [net_http3_connect] either hands out a fresh QUIC handle or leaves the QUIC
    tables as they were.  The handle is the QUIC counter, is not null and was not in
    use by a QUIC connection; endpoint and connection are entered under it together.
    TCP connections are not consulted, so the handle may equal that of a live TCP
    connection (both counters start at 1), and both sockets are then registered
    under the same token. *)
Theorem net_http3_connect_spec {N : Net} (n : Z) (s : sys) (h : Z) (e : NetEngine)
    (host : option bytes) (port : Z) (hs : str)
    (Hw : sys_wf n s) (Hh : h <> NULL) (He : engines s !! h = Some e) (Hhost : host_arg host = Ret hs) :
  returns (net_http3_connect h host port) (fun id s' =>
    mem s' = mem s /\ exists e', engines s' = <[h := e']> (engines s)
    /\ (id = NULL /\ (e' = e \/ e' = bump_quic_id e)
        \/ id = next_quic_id e /\ id <> NULL
           /\ quic_endpoints e !! id = None /\ quic_conns e !! id = None
           /\ exists ep q, remote q = server_addr ep
              /\ e' = with_quic_conns (insert id q)
                        (with_quic_endpoints (insert id ep) (bump_quic_id e)))) s.
Proof.
  apply steady_wp; [apply steady_http3_connect|].
  pose proof (sys_wf_lookup _ _ _ _ Hw He) as Hwe. pose proof (wf_quic _ _ _ Hwe) as Hid.
  eapply wp_mono; [by eapply net_http3_connect_run|]. cbn beta. intros id s' (M & e' & E & H).
  split; [done|]. exists e'. split; [done|]. destruct H as [?|[-> H]]; [by left|right].
  assert (Hfresh : quic_endpoints e !! next_quic_id e = None) by (eapply ids_below_fresh, Hwe).
  split_and!; [done|unfold NULL; lia|done| |done].
  destruct (quic_conns e !! next_quic_id e) eqn:Eq; [|done].
  destruct (proj1 (wf_quic_conns _ _ _ Hwe (next_quic_id e))) as [x Hx]; [by eexists|]. congruence.
Qed.

(** The engine already has TCP connection 1; the new QUIC connection is 1 as well. *)
Theorem net_http3_connect_spec_witness :
  let s := toy_sys Toy.world0 {[500 := toy_ring]} (toy_bound toy_conn) in
  returns (N := Toy.net) (net_http3_connect 100 (Some (c_mem (lit "h"))) 443) (fun id s' =>
    mem s' = mem s /\ exists e', engines s' = <[100 := e']> (engines s)
    /\ (id = NULL /\ (e' = toy_bound toy_conn \/ e' = bump_quic_id (toy_bound toy_conn))
        \/ id = 1 /\ id <> NULL
           /\ quic_endpoints (toy_bound toy_conn) !! id = None
           /\ quic_conns (toy_bound toy_conn) !! id = None
           /\ exists ep q, remote q = server_addr ep
              /\ e' = with_quic_conns (insert id q)
                        (with_quic_endpoints (insert id ep) (bump_quic_id (toy_bound toy_conn))))) s
  /\ is_Some (connections (toy_bound toy_conn) !! 1).
Proof.
  split; [|by eexists].
  apply (net_http3_connect_spec (N := Toy.net) 1
    (toy_sys Toy.world0 {[500 := toy_ring]} (toy_bound toy_conn)) 100 (toy_bound toy_conn)
    (Some (c_mem (lit "h"))) 443 (lit "h")).
  - apply toy_bound_wf.
  - done.
  - reflexivity.
  - vm_compute. reflexivity.
Defined.

(** What the socket has to offer until it would block. *)
Inductive Receives {N : Net} (sock : Udp) : W -> list (bytes * Addr) -> W -> Prop :=
| Receives_done w w' e : udp_recv_from w sock RX_BUF = (w', Err e) -> Receives sock w [] w'
| Receives_more w w1 d ds w' :
    udp_recv_from w sock RX_BUF = (w1, Ok d) -> Receives sock w1 ds w' ->
    Receives sock w (d :: ds) w'.

(** Endpoint, connection and transmit buffer after a list of datagrams. *)
Fixpoint absorb {N : Net} (time : Z) (ep : QEndpoint) (q : option QuicConnectionEntry) (buf : bytes)
    (ds : list (bytes * Addr)) : QEndpoint * option QuicConnectionEntry * bytes :=
  match ds with
  | [] => (ep, q, buf)
  | (data, from) :: ds =>
      let '(ep, buf, ev) := endpoint_handle ep time from data buf in
      absorb time ep ((fun q => deliver q ev) <$> q) buf ds
  end.

Lemma recv_loop_absorbs {N : Net} fuel time sock ds w w' ep q buf k mm en :
  Receives sock w ds w' -> (length ds < fuel)%nat -> 0 <= k -> k + Z.of_nat (length ds) < 2 ^ 31 ->
  recv_loop fuel time sock ep q buf k (mkSys w mm en)
  = Ret (mkSys w' mm en, (absorb time ep q buf ds, k + Z.of_nat (length ds))).
Proof.
  intros H. revert fuel ep q buf k. induction H as [w w' e E|w w1 [data from] ds w' E _ IH];
    intros fuel ep q buf k Hf Hk Hb.
  - destruct fuel as [|fuel]; [cbn in Hf; lia|]. cbn. unfold mbind, M_bind, os_op. cbn. rewrite E. cbn.
    by rewrite Z.add_0_r.
  - destruct fuel as [|fuel]; [cbn in Hf; lia|]. cbn [recv_loop absorb length].
    unfold mbind, M_bind, os_op. cbn. rewrite E. cbn.
    destruct (endpoint_handle ep time from data buf) as [[ep1 buf1] ev]. cbn [length] in *.
    rewrite i32_small by lia. rewrite IH by lia. do 3 f_equal. lia.
Qed.

(** What makes the two output loops end: handling a due timer leaves fewer timers
    due, and each transmit leaves less to transmit. *)
Record drive_progress {N : Net} (due pending : QConn -> nat) (time : Z) : Prop := mkDriveProgress {
  timer_progress c c' t :
    poll_timeout c = (c', Some t) -> t <= time -> (due (handle_timeout c' time) < due c)%nat;
  transmit_progress c buf c' buf' tr :
    poll_transmit c time buf = (c', buf', Some tr) -> (pending c' < pending c)%nat;
}.

Lemma timeout_loop_returns {N : Net} due pending time :
  drive_progress due pending time -> forall k c, (due c < k)%nat ->
  exists c', forall fuel, (k <= fuel)%nat -> timeout_loop fuel time c = Ret c'.
Proof.
  intros Hp. induction k as [|k IH]; intros c Hk; [lia|].
  destruct (poll_timeout c) as [c1 [t|]] eqn:E.
  - destruct (time <? t) eqn:Et.
    + exists c1. intros [|fuel] Hf; [lia|]. cbn. by rewrite E, Et.
    + apply (timer_progress _ _ _ Hp) in E as Hlt; [|lia].
      destruct (IH (handle_timeout c1 time)) as [c' H]; [lia|].
      exists c'. intros [|fuel] Hf; [lia|]. cbn. rewrite E, Et. apply H. lia.
  - exists c1. intros [|fuel] Hf; [lia|]. cbn. by rewrite E.
Qed.

Lemma transmit_loop_returns {N : Net} due pending time sock :
  drive_progress due pending time -> forall k c buf (s : sys), (pending c < k)%nat ->
  exists w c', forall fuel, (k <= fuel)%nat ->
    transmit_loop fuel time sock c buf s = Ret (mkSys w (mem s) (engines s), c').
Proof.
  intros Hp. induction k as [|k IH]; intros c buf s Hk; [lia|].
  destruct (poll_transmit c time buf) as [[c1 buf1] [[size dest]|]] eqn:E.
  - pose proof (transmit_progress _ _ _ Hp _ _ _ _ _ E) as Hlt.
    destruct (Z.of_nat (length buf1) <? size) eqn:Es.
    + exists (os s), c1. intros [|fuel] Hf; [lia|]. cbn. rewrite E, Es. by destruct s.
    + destruct (IH c1 [] (mkSys (udp_send_to (os s) sock (take (Z.to_nat size) buf1) dest) (mem s) (engines s)))
        as (w & c' & H); [lia|].
      exists w, c'. intros [|fuel] Hf; [lia|]. cbn. unfold first_bytes. rewrite E, Es. apply H. lia.
  - exists (os s), c1. intros [|fuel] Hf; [lia|]. cbn. rewrite E. by destruct s.
Qed.


Lemma toy_drive_progress time :
  drive_progress (N := Toy.net) (fun _ => 0%nat) (@length bytes) time.
Proof.
  split; cbn; [intros c c' t E Ht; by simplify_eq|].
  intros [|d c] buf c' buf' tr E; simplify_eq/=. lia.
Qed.

