(* ===== verification/System.v ===== *)
(** * The whole engine under arbitrary use

    Every exported engine function as one step of a system, together with the
    steps of its surroundings: another process mapping a ring or consuming from
    one, and the environment changing.  [allowed] is the contract of the C ABI:
    engine handles are null or live, C strings are terminated, registered rings are
    mapped. *)

From S2P Require Import Prelude Utf8 Str Ffi Ring Net Engine Conn Tls Quic.

Section System.
Context {N : Net}.

Inductive call :=
| SCreate (poll : result unit unit) (addr : Z)
| SDestroy (h : Z)
| SConnect (h : Z) (host : option bytes) (port : Z)
| SClose (h conn : Z)
| SRead (h conn : Z) (buffer : option bytes) (count : option Z)
| SWrite (fuel : nat) (h conn : Z) (data : option bytes) (count : option Z)
| SPoll (h timeout : Z) (order : list (Z * Z))
| SRingRegister (h id ptr : Z)
| SRingUnregister (h id : Z)
| SRingBind (h conn id : Z)
| STlsCreate (fuel : nat) (h : Z) (host : option bytes) (port : Z)
| STlsRead (fuel : nat) (h id : Z) (buffer : option bytes) (count : option Z)
| STlsWrite (fuel : nat) (h id : Z) (data : option bytes) (count : option Z)
| STlsVersion (h id : Z)
| STlsVerify (h id : Z)
| STlsCertificate (h id : Z) (out : option bytes)
| STlsClose (h id : Z)
| SHttp3Connect (h : Z) (host : option bytes) (port : Z)
| SHttp3Drive (fuel : nat) (h conn : Z)
| SHttp3Close (h conn : Z)
| SMapRing (ptr : Z) (r : BodyRing)
| SConsume (ptr k : Z)
| SEnvironment (w : W).

Definition discard {A} (m : M A) : M unit := _ ← m; mret tt.

Definition exec (c : call) : M unit :=
  match c with
  | SCreate poll addr => discard (net_engine_create poll addr)
  | SDestroy h => net_engine_destroy h
  | SConnect h host port => discard (net_connect h host port)
  | SClose h conn => discard (net_close h conn)
  | SRead h conn buf cnt => discard (net_read h conn buf cnt)
  | SWrite fuel h conn data cnt => discard (net_write fuel h conn data cnt)
  | SPoll h t order => discard (net_poll h t order)
  | SRingRegister h id ptr => discard (net_body_ring_register h id ptr)
  | SRingUnregister h id => discard (net_body_ring_unregister h id)
  | SRingBind h conn id => discard (net_conn_bind_body_ring h conn id)
  | STlsCreate fuel h host port => discard (net_tls_create fuel h host port)
  | STlsRead fuel h id buf cnt => discard (net_tls_read fuel h id buf cnt)
  | STlsWrite fuel h id data cnt => discard (net_tls_write fuel h id data cnt)
  | STlsVersion h id => discard (net_tls_protocol_version h id)
  | STlsVerify h id => discard (net_tls_verify_result h id)
  | STlsCertificate h id out => discard (net_tls_peer_certificate h id out)
  | STlsClose h id => discard (net_tls_close h id)
  | SHttp3Connect h host port => discard (net_http3_connect h host port)
  | SHttp3Drive fuel h conn => discard (net_http3_drive fuel h conn)
  | SHttp3Close h conn => discard (net_http3_close h conn)
  | SMapRing ptr r => store_ring ptr r
  | SConsume ptr k => r ← deref_ring ptr; store_ring ptr (set_tail r (u64 (tail r + k)))
  | SEnvironment w => os_do (fun _ => w)
  end.

(** The calls with a loop that goes on as long as a peer or a library makes it. *)
Definition waits (c : call) : bool :=
  match c with
  | SWrite _ _ _ _ _ | STlsCreate _ _ _ _ | STlsRead _ _ _ _ _ | STlsWrite _ _ _ _ _
  | SHttp3Drive _ _ _ => true
  | _ => false
  end.

Definition c_string (host : option bytes) : Prop := is_ret (host_arg host).

Definition allowed (s : sys) (c : call) : Prop :=
  match c with
  | SCreate _ addr => addr <> NULL /\ engines s !! addr = None
  | SDestroy h | SClose h _ | SRead h _ _ _ | SWrite _ h _ _ _ | SPoll h _ _
  | SRingUnregister h _ | SRingBind h _ _ | STlsRead _ h _ _ _ | STlsWrite _ h _ _ _
  | STlsVersion h _ | STlsVerify h _ | STlsCertificate h _ _ | STlsClose h _
  | SHttp3Drive _ h _ | SHttp3Close h _ => handle_ok s h
  | SConnect h host _ | SHttp3Connect h host _ => handle_ok s h /\ c_string host
  | STlsCreate _ h host _ => handle_ok s h /\ (host = None \/ c_string host)
  | SRingRegister h _ ptr => handle_ok s h /\ exists r, mem s !! ptr = Some r /\ ring_ok r
  | SMapRing ptr r => ring_ok r
  | SConsume ptr _ => exists r, mem s !! ptr = Some r /\ ring_ok r
  | SEnvironment _ => True
  end.

(** States reached from a process without engines by [n] allowed calls that
    returned. *)
Inductive runs : Z -> sys -> Prop :=
| runs_start s : engines s = ∅ -> runs 0 s
| runs_call n s c s' : runs n s -> allowed s c -> exec c s = Ret (s', tt) -> runs (n + 1) s'.

Lemma discard_unit (m : M unit) s : discard m s = m s.
Proof. unfold discard, mbind, M_bind. by destruct (m s) as [[s1 []]| | |]. Qed.

Lemma wp_discard {A} (m : M A) (P : sys -> Prop) s :
  wp m (fun _ => P) s -> wp (discard m) (fun _ => P) s.
Proof. intros H. by eapply wp_then. Qed.

Lemma wp_weaken {A} (m : M A) n s :
  wp m (fun _ => sys_wf n) s -> wp m (fun _ => sys_wf (n + 1)) s.
Proof. intros H. eapply wp_mono; [exact H|]. cbn. intros _ s' Hw. eapply sys_wf_mono; [exact Hw|lia]. Qed.

Lemma strict_host_ret host : c_string (Some host) -> is_ret (strict_host host).
Proof.
  intros [t Ht]. cbn in Ht. unfold cstr_lossy in Ht. apply outcome_bind_inv in Ht as (b & Hb & _).
  unfold strict_host. rewrite Hb. by eexists.
Qed.

Lemma http3_close_wf n s h conn :
  sys_wf n s -> handle_ok s h -> wp (net_http3_close h conn) (fun _ => sys_wf n) s.
Proof.
  intros Hw [->|[e He]]; [done|]. destruct (decide (h = NULL)) as [->|Hh]; [done|].
  destruct (decide (conn = NULL)) as [->|Hc].
  { unfold net_http3_close. by rewrite orb_true_r. }
  unfold wp. rewrite (net_http3_close_spec_run s h conn e Hh Hc He).
  pose proof (sys_wf_lookup _ _ _ _ Hw He). apply (sys_wf_insert n s); [done|]. by apply engine_wf_quic_delete.
Qed.

Lemma exec_wf n s c :
  sys_wf n s -> 0 <= n -> n < 2 ^ 64 - 2 -> allowed s c -> wp (exec c) (fun _ => sys_wf (n + 1)) s.
Proof.
  intros Hw H0 Hn Ha. destruct c; cbn [exec allowed] in *; try apply wp_discard.
  - by apply wp_weaken, create_wf.
  - by apply wp_weaken, destroy_wf.
  - destruct Ha as [Ha [t Ht]]. by eapply connect_wf.
  - by apply wp_weaken, close_wf.
  - by apply wp_weaken, read_wf.
  - by apply wp_weaken, write_wf.
  - by apply wp_weaken, poll_wf.
  - destruct Ha as [Ha (r & Hr & Hok)]. apply wp_weaken. by eapply ring_register_wf.
  - by apply wp_weaken, ring_unregister_wf.
  - by apply wp_weaken, ring_bind_wf.
  - destruct Ha as [Ha Hhost]. apply tls_create_wf; try done. destruct host as [m|]; [|done].
    destruct Hhost as [?|Hc]; [done|]. by apply strict_host_ret.
  - by apply wp_weaken, tls_read_wf.
  - by apply wp_weaken, tls_write_wf.
  - by apply wp_weaken, (tls_queries n s h id None).
  - by apply wp_weaken, (tls_queries n s h id None).
  - by apply wp_weaken, tls_queries.
  - by apply wp_weaken, tls_close_wf.
  - destruct Ha as [Ha [t Ht]]. by eapply http3_connect_wf.
  - by apply wp_weaken, http3_drive_wf.
  - by apply wp_weaken, http3_close_wf.
  - apply wp_weaken. by apply wp_store_ring, sys_wf_store.
  - destruct Ha as (r & Hr & [Hok1 Hok2]). apply wp_weaken, wp_bind. eapply wp_deref_ring; [exact Hr|].
    apply wp_store_ring, sys_wf_store; [done|]. by split.
  - apply wp_weaken, wp_os_op. intros w' [] _. exact Hw.
Qed.

Lemma exec_steady c : waits c = false -> steady (exec c).
Proof.
  intros Hc. destruct c; try discriminate Hc; cbn [exec]; try (apply steady_bind; [|auto with steady]).
  - apply steady_create.
  - apply steady_destroy.
  - apply steady_connect.
  - apply steady_close.
  - apply steady_read.
  - apply steady_poll.
  - apply (steady_ring_calls h 0 id ptr).
  - apply (steady_ring_calls h 0 id 0).
  - apply (steady_ring_calls h conn id 0).
  - unfold net_tls_protocol_version. steady.
  - unfold net_tls_verify_result. steady.
  - unfold net_tls_peer_certificate. steady.
  - unfold net_tls_close. steady.
  - apply steady_http3_connect.
  - unfold net_http3_close. steady.
  - auto with steady.
  - steady.
  - auto with steady.
Qed.

Lemma runs_nonneg n s : runs n s -> 0 <= n.
Proof. induction 1; lia. Qed.

Lemma runs_wf n s : runs n s -> n < 2 ^ 64 - 2 -> sys_wf n s.
Proof.
  induction 1 as [s Hs|n s c s' Hr IH Ha He]; intros Hn.
  - unfold sys_wf. rewrite Hs. apply map_Forall_empty.
  - pose proof (runs_nonneg _ _ Hr) as H0.
    pose proof (exec_wf n s c (IH ltac:(lia)) H0 ltac:(lia) Ha) as Hx.
    unfold wp in Hx. by rewrite He in Hx.
Qed.
End System.

(** C1: the engine is memory safe and stays well formed under every use that
    respects the contract of the C ABI.  In any state reached by allowed calls, in
    any order and with any behaviour of the network, the libraries and the ring
    consumers, the next allowed call neither panics nor runs into undefined
    behaviour, and leaves every engine well formed: all handles were handed out by
    its counters, endpoints and QUIC connections come in pairs, and every
    registered ring is mapped.  Calls without a loop on a peer always return. *)
Theorem system_safe {N : Net} (n : Z) (s : sys) (c : call)
    (Hr : runs n s) (Hn : n < 2 ^ 64 - 2) (Ha : allowed s c) :
  let good (_ : unit) (s' : sys) := map_Forall (fun _ e => engine_wf (n + 1) (mem s') e) (engines s') in
  wp (exec c) good s /\ (waits c = false -> returns (exec c) good s).
Proof.
  assert (Hwp : wp (exec c) (fun _ => sys_wf (n + 1)) s).
  { apply exec_wf; [by apply runs_wf|by eapply runs_nonneg|done|done]. }
  split; [exact Hwp|]. intros Hc. apply steady_wp; [by apply exec_steady|exact Hwp].
Qed.

Theorem system_safe_witness :
  let s := @mkSys Toy.net Toy.world0 ∅ {[100 := NetEngine_new]} in
  returns (N := Toy.net) (exec (SConnect 100 (Some (c_mem (lit "h"))) 443))
     (fun _ s' => map_Forall (fun _ e => engine_wf 2 (mem s') e) (engines s')) s.
Proof.
  apply (system_safe (N := Toy.net) 1 _ (SConnect 100 (Some (c_mem (lit "h"))) 443)); [| | |reflexivity].
  - apply (runs_call (N := Toy.net) 0 (@mkSys Toy.net Toy.world0 ∅ ∅) (SCreate (Ok tt) 100)).
    + by constructor.
    + by split.
    + reflexivity.
  - by_eval.
  - split; [right; by eexists|]. eexists. vm_compute. reflexivity.
Defined.
