(* ===== verification/ZigRing.v ===== *)
(** * Body rings on the Zig side (src/z_body_ring.zig)

    The ring descriptor's own arithmetic, and the table of regions whose entries are
    the descriptors the engine is given pointers to.  Zig's integers are checked: an
    overflow or a division by zero is illegal behaviour, [Undefined] here (safe builds
    abort). *)

From S2P Require Import Prelude Utf8 Str Ffi Ring Net Engine Conn.

(** ** The shared ring, as Zig computes with it *)

Module Zig.
(** [a - b] and [a * b] on [u64] and [usize]. *)
Definition sub (a b : Z) : outcome Z := if b <=? a then Ret (a - b) else Undefined.
Definition mul (a b : Z) : outcome Z := if a * b <? 2 ^ 64 then Ret (a * b) else Undefined.
Definition mod_ (a b : Z) : outcome Z := if b =? 0 then Undefined else Ret (a mod b).

Definition getAvailableRead (r : BodyRing) : outcome Z := sub (head r) (tail r).
Definition getAvailableWrite (r : BodyRing) : outcome Z := n ← sub (head r) (tail r); sub (capacity r) n.

(** The two slices, as start and length. *)
Definition getWriteBuffers (r : BodyRing) : outcome (list (Z * Z)) :=
  head_idx ← mod_ (head r) (capacity r);
  tail_idx ← mod_ (tail r) (capacity r);
  used ← sub (head r) (tail r);
  if used =? capacity r then Ret [(0, 0); (0, 0)]
  else if tail_idx <=? head_idx
  then Ret [(head_idx, capacity r - head_idx); (0, tail_idx)]
  else Ret [(head_idx, tail_idx - head_idx); (0, 0)].

(** [fetchAdd] wraps. *)
Definition commitWrite (r : BodyRing) (n : Z) : BodyRing := set_head r (u64 (head r + n)).
Definition isFull (r : BodyRing) : outcome bool := n ← getAvailableWrite r; Ret (n =? 0).
Definition shouldStopReading (r : BodyRing) : outcome bool :=
  n ← getAvailableRead r; c ← mul (capacity r) 95; Ret (c / 100 <? n).
Definition shouldResumeReading (r : BodyRing) : outcome bool :=
  n ← getAvailableRead r; c ← mul (capacity r) 50; Ret (n <? c / 100).

(** ** The table of regions *)

(** [BodyRingError], and what [put] adds to it. *)
Inductive BodyRingError := Full | Empty | InvalidRegion | AlreadyRegistered | NotRegistered | OutOfMemory.

(** The hash map holds the descriptors themselves, so that each region has an
    address: that of its entry. *)
Record BodyRingManager := mkManager { regions : gmap Z Z }.
Definition BodyRingManager_init : BodyRingManager := mkManager ∅.

(** What [put] finds: a free entry, a full table that is copied to a larger one whose
    entries are at [place], or no memory. *)
Inductive room := InPlace (addr : Z) | Grown (place : Z -> Z) | NoRoom.

(** [BodyRingDescriptor.init], on a buffer that holds [buf]. *)
Definition BodyRingDescriptor_init (buf : bytes) (cap : Z) : BodyRing := mkRing buf cap 0 0 false.

(** The descriptors by id, and the memory without them. *)
Definition entries (mg : BodyRingManager) (m : gmap Z BodyRing) : gmap Z BodyRing :=
  omap (fun p => m !! p) (regions mg).
Definition released (mg : BodyRingManager) (m : gmap Z BodyRing) : gmap Z BodyRing :=
  filter (fun '(p, _) => p ∉ (map_img (regions mg) : gset Z)) m.

Definition registerRegion (r : room) (id : Z) (buf : bytes) (cap : Z) (mg : BodyRingManager)
    (m : gmap Z BodyRing) : BodyRingManager * gmap Z BodyRing * result unit BodyRingError :=
  match regions mg !! id with
  | Some _ => (mg, m, Err AlreadyRegistered)
  | None =>
      let d := BodyRingDescriptor_init buf cap in
      match r with
      | NoRoom => (mg, m, Err OutOfMemory)
      | InPlace p => (mkManager (<[id := p]> (regions mg)), <[p := d]> m, Ok tt)
      | Grown place =>
          (mkManager (map_imap (fun i _ => Some (place i)) (<[id := 0]> (regions mg))),
           kmap place (<[id := d]> (entries mg m)) ∪ released mg m, Ok tt)
      end
  end.

(** [getPtr] *)
Definition getRegion (mg : BodyRingManager) (id : Z) : option Z := regions mg !! id.

Definition unregisterRegion (id : Z) (mg : BodyRingManager) (m : gmap Z BodyRing)
  : BodyRingManager * gmap Z BodyRing :=
  match regions mg !! id with
  | Some p => (mkManager (delete id (regions mg)), delete p m)
  | None => (mg, m)
  end.

Definition BodyRingManager_deinit (mg : BodyRingManager) (m : gmap Z BodyRing) : gmap Z BodyRing :=
  released mg m.
End Zig.

(** ** Properties *)

(** C21: both sides compute the same ring.  While the counters have not wrapped and
    the ring is not overfull, the Zig descriptor's free slices are the cells the
    engine writes to, and its counts and its two watermarks are the engine's; once
    [head] has wrapped and [tail] has not, every one of Zig's computations is illegal
    behaviour while the engine's goes on. *)
Theorem zig_ring_agrees (r : BodyRing)
    (Hcap : 0 < capacity r < 2 ^ 57) (Hh : in_u64 (head r)) (Ht : in_u64 (tail r)) :
  (tail r <= head r -> head r - tail r <= capacity r ->
     Zig.getAvailableRead r = Ret (available_read r)
     /\ Zig.shouldStopReading r = Ret (over_high_water r)
     /\ Zig.shouldResumeReading r = Ret (under_low_water r)
     /\ exists slices free, write_slices (head r) (tail r) (capacity r) = Ret free
        /\ Zig.isFull r = Ret (bool_decide (free = None))
        /\ Zig.getWriteBuffers r = Ret slices /\ cells slices = default [] (cells <$> free))
  /\ (head r < tail r -> Zig.getAvailableRead r = Undefined /\ Zig.getWriteBuffers r = Undefined
        /\ Zig.shouldStopReading r = Undefined /\ Zig.isFull r = Undefined).
Proof.
  unfold in_u64 in *. split.
  - intros Hle Hfull. unfold Zig.isFull, Zig.getAvailableWrite, Zig.shouldStopReading, Zig.shouldResumeReading,
      Zig.getAvailableRead, Zig.getWriteBuffers, Zig.sub, Zig.mul, Zig.mod_, over_high_water, under_low_water,
      available_read, write_slices, urem.
    rewrite wrapping_sub64_small by (unfold in_u64; lia).
    rewrite (proj2 (Z.leb_le (tail r) (head r))) by done. cbn [mbind outcome_bind].
    rewrite !(proj2 (Z.ltb_lt _ (2 ^ 64))) by lia. rewrite !(proj2 (Z.eqb_neq (capacity r) 0)) by lia.
    rewrite (proj2 (Z.leb_le (head r - tail r) _)) by done. cbn [mbind outcome_bind].
    unfold usize, wrap. rewrite !(Z.mod_small (capacity r * _)) by lia.
    pose proof (Z.mod_pos_bound (head r) (capacity r) ltac:(lia)).
    pose proof (Z.mod_pos_bound (tail r) (capacity r) ltac:(lia)).
    split_and!; try done.
    destruct (Z.leb_spec (capacity r) (head r - tail r)), (Z.eqb_spec (capacity r - (head r - tail r)) 0),
      (Z.eqb_spec (head r - tail r) (capacity r)); try lia.
    + eexists _, None. split_and!; [done| |done..]. by rewrite bool_decide_eq_true_2.
    + cbn [mbind outcome_bind]. destruct (_ <=? _); eexists _, (Some _); split_and!; try done;
        by rewrite bool_decide_eq_false_2.
  - intros Hlt. unfold Zig.isFull, Zig.getAvailableWrite, Zig.shouldStopReading, Zig.getAvailableRead,
      Zig.getWriteBuffers, Zig.sub, Zig.mod_.
    rewrite (proj2 (Z.leb_gt (tail r) (head r))) by done. rewrite (proj2 (Z.eqb_neq (capacity r) 0)) by lia.
    done.
Qed.

Theorem zig_ring_agrees_witness :
  exists slices free, write_slices (head toy_ring) (tail toy_ring) (capacity toy_ring) = Ret free
  /\ Zig.isFull toy_ring = Ret (bool_decide (free = None))
  /\ Zig.getWriteBuffers toy_ring = Ret slices /\ cells slices = default [] (cells <$> free).
Proof.
  destruct (zig_ring_agrees toy_ring) as [H _]; [by split|by split|by split|].
  apply H; vm_compute; discriminate.
Defined.

(** *** Regions and the pointers to them *)

Section Regions.
Import Zig.

(** Every region is mapped, and no two share an entry. *)
Definition manager_ok (mg : BodyRingManager) (m : gmap Z BodyRing) : Prop :=
  (forall id p, getRegion mg id = Some p -> is_Some (m !! p))
  /\ forall id1 id2 p, getRegion mg id1 = Some p -> getRegion mg id2 = Some p -> id1 = id2.

(** What an allocator may answer: an address in use by nothing else. *)
Definition room_ok (r : room) (id : Z) (mg : BodyRingManager) (m : gmap Z BodyRing) : Prop :=
  match r with
  | InPlace p => m !! p = None
  | Grown place => Inj (=) (=) place
      /\ forall i, i = id \/ is_Some (getRegion mg i) -> m !! place i = None
  | NoRoom => True
  end.

Lemma entries_lookup mg m id p : getRegion mg id = Some p -> entries mg m !! id = m !! p.
Proof. intros H. unfold entries. rewrite lookup_omap. unfold getRegion in H. by rewrite H. Qed.

Lemma released_lookup mg m id p : getRegion mg id = Some p -> released mg m !! p = None.
Proof.
  intros H. apply map_lookup_filter_None. right. intros r _ Hp. apply Hp.
  apply elem_of_map_img. by exists id.
Qed.

Lemma released_keeps mg m p :
  (forall id, getRegion mg id <> Some p) -> released mg m !! p = m !! p.
Proof.
  intros H. unfold released. destruct (m !! p) as [r|] eqn:E.
  - apply map_lookup_filter_Some. split; [done|]. rewrite elem_of_map_img. intros (id & Hid). by apply (H id).
  - apply map_lookup_filter_None. by left.
Qed.

Lemma registerRegion_new r id buf cap mg m :
  getRegion mg id = None -> registerRegion r id buf cap mg m =
  let d := BodyRingDescriptor_init buf cap in
  match r with
  | NoRoom => (mg, m, Err OutOfMemory)
  | InPlace p => (mkManager (<[id := p]> (regions mg)), <[p := d]> m, Ok tt)
  | Grown place =>
      (mkManager (map_imap (fun i _ => Some (place i)) (<[id := 0]> (regions mg))),
       kmap place (<[id := d]> (entries mg m)) ∪ released mg m, Ok tt)
  end.
Proof. unfold registerRegion, getRegion. by intros ->. Qed.

(** Where a region is after the table has grown, and what is there. *)
Lemma grown_region place id buf cap mg m i p :
  manager_ok mg m -> room_ok (Grown place) id mg m -> getRegion mg id = None -> getRegion mg i = Some p ->
  let '(mg', m', _) := registerRegion (Grown place) id buf cap mg m in
  getRegion mg' i = Some (place i) /\ m' !! place i = m !! p /\ m' !! p = None.
Proof.
  intros [Hmap _] [Hinj Hfree] Hid Hi. rewrite registerRegion_new by done. cbv zeta.
  assert (Hne : id <> i) by congruence. split_and!.
  - unfold getRegion. cbn. rewrite map_lookup_imap, lookup_insert_ne by done. unfold getRegion in Hi. by rewrite Hi.
  - destruct (Hmap i p Hi) as [r Hr]. rewrite Hr. apply lookup_union_Some_l.
    rewrite lookup_kmap, lookup_insert_ne, (entries_lookup _ _ i p) by done. done.
  - rewrite lookup_union_None. split; [|by eapply released_lookup].
    rewrite lookup_kmap_None by done. intros j ->. destruct (Hmap i (place j) Hi) as [r Hr].
    apply eq_None_not_Some. intros Hj. rewrite Hfree in Hr; [done|].
    destruct (decide (id = j)) as [->|Hne']; [by left|]. right. rewrite lookup_insert_ne in Hj by done.
    unfold entries in Hj. rewrite lookup_omap in Hj. destruct Hj as [x Hj].
    apply bind_Some in Hj as (q & Hq & _). by exists q.
Qed.

(** The table after a registration that found room. *)
Lemma register_ok r id buf cap mg m :
  manager_ok mg m -> room_ok r id mg m -> getRegion mg id = None ->
  let '(mg', m', _) := registerRegion r id buf cap mg m in manager_ok mg' m'.
Proof.
  intros Hok Hr Hid. pose proof Hok as [Hmap Hinj]. destruct r as [p0|place|]; rewrite registerRegion_new by done; [| |done].
  - assert (Hp : forall i, getRegion mg i = Some p0 -> False).
    { intros i Hi. destruct (Hmap _ _ Hi) as [r Hr']. cbn in Hr. congruence. }
    unfold manager_ok, getRegion in *. split; cbn.
    + intros i p Hi. apply lookup_insert_Some in Hi as [[-> ->]|[_ Hi]]; [rewrite lookup_insert_eq; by eexists|].
      rewrite lookup_insert_ne by (intros ->; by eapply Hp). by eapply Hmap.
    + intros i j p Hi Hj. apply lookup_insert_Some in Hi, Hj. naive_solver.
  - destruct Hr as [Hplace Hfree]. unfold manager_ok, getRegion in *. cbv zeta. split; cbn.
    + intros i p. rewrite map_lookup_imap. intros (x & Hx & [= <-])%bind_Some. destruct (decide (id = i)) as [->|Hne].
      * eexists. apply lookup_union_Some_l. rewrite lookup_kmap, lookup_insert_eq by done. done.
      * rewrite lookup_insert_ne in Hx by done. destruct (Hmap i x Hx) as [r Hr]. exists r. apply lookup_union_Some_l.
        rewrite lookup_kmap, lookup_insert_ne, (entries_lookup _ _ i x) by done. done.
    + intros i j p. rewrite !map_lookup_imap. intros (x & _ & [= <-])%bind_Some (y & _ & [= E])%bind_Some.
      by apply Hplace in E.
Qed.
End Regions.

(** The system with other ring memory. *)
Definition with_mem {N : Net} (m : gmap Z BodyRing) (s : sys) : sys := mkSys (os s) m (engines s).

(** C22: a new region may invalidate the pointers to all the others.  Registering a
    region keeps the table consistent.  If its entry fits the table, the engines stay
    well formed and every pointer handed out before is as good as ever.  If the table
    grows, every region keeps its contents, but at another address: a read of any
    connection that an engine has bound to an old pointer is undefined behaviour. *)
Theorem region_pointers {N : Net} (n : Z) (s : sys) (mg : Zig.BodyRingManager) (r : Zig.room) (id cap : Z)
    (buf : bytes) (Hok : manager_ok mg (mem s)) (Hr : room_ok r id mg (mem s))
    (Hid : Zig.getRegion mg id = None) (Hw : sys_wf n s) :
  let '(mg', m', ans) := Zig.registerRegion r id buf cap mg (mem s) in
  manager_ok mg' m'
  /\ match r with
     | Zig.NoRoom => ans = Err Zig.OutOfMemory /\ mg' = mg /\ m' = mem s
     | Zig.InPlace _ => ans = Ok tt /\ sys_wf n (with_mem m' s)
         /\ forall i p, Zig.getRegion mg i = Some p -> Zig.getRegion mg' i = Some p /\ m' !! p = mem s !! p
     | Zig.Grown _ => ans = Ok tt /\ forall i p, Zig.getRegion mg i = Some p ->
         (exists p', p' <> p /\ Zig.getRegion mg' i = Some p' /\ m' !! p' = mem s !! p)
         /\ forall h conn e dst cnt, h <> NULL -> conn <> NULL -> engines s !! h = Some e ->
              bound_ring e conn = Some p -> net_read h conn (Some dst) cnt (with_mem m' s) = Undefined
     end.
Proof.
  pose proof (register_ok r id buf cap mg (mem s) Hok Hr Hid) as Hok'.
  destruct r as [p0|place|].
  - rewrite registerRegion_new in * by done. cbv zeta in *. split; [done|]. split; [done|].
    destruct Hok as [Hmap _]. cbn in Hr. split.
    + eapply map_Forall_impl; [exact Hw|]. cbn. intros h e He. pose proof (wf_rings _ _ _ He) as Hrings.
      destruct He. split; try done. intros i q Hq. destruct (Hrings i q Hq) as (x & Hx & Hx2). exists x.
      rewrite lookup_insert_ne by congruence. done.
    + intros i p Hi. unfold Zig.getRegion in *. cbn. destruct (Hmap i p Hi) as [x Hx].
      rewrite !lookup_insert_ne by congruence. done.
  - pose proof (fun i p => grown_region place id buf cap mg (mem s) i p Hok Hr Hid) as Hg.
    rewrite registerRegion_new in * by done. cbv zeta in *. split; [done|]. split; [done|].
    intros i p Hi. destruct (Hg i p Hi) as (H1 & H2 & H3). split.
    + exists (place i). split; [|done]. intros <-. destruct Hok as [Hmap _]. destruct (Hmap _ _ Hi) as [x Hx].
      destruct Hr as [_ Hfree]. rewrite Hfree in Hx; [done|]. right. by exists (place i).
    + intros h conn e dst cnt Hh Hc He Hb. unfold net_read. rewrite !(proj2 (Z.eqb_neq _ _)) by done. cbn [orb].
      unfold mbind, M_bind, deref. cbn [engines with_mem]. rewrite He. cbn. rewrite Hb.
      unfold net_read_ring, mbind, M_bind, deref_ring. cbn. by rewrite H3.
  - rewrite registerRegion_new in * by done. by split.
Qed.

(** The table of one region is full: registering a second one makes the next read of
    connection 1 undefined. *)
Theorem region_pointers_witness :
  let mg := Zig.mkManager {[7 := 500]} in
  let s := toy_sys Toy.world0 {[500 := toy_ring]} (toy_bound toy_conn) in
  let '(_, m', ans) := Zig.registerRegion (Zig.Grown (fun i => 600 + i)) 8 [0; 0] 2 mg (mem s) in
  ans = Ok tt /\ net_read (N := Toy.net) 100 1 (Some [0; 0]) None (with_mem m' s) = Undefined.
Proof.
  intros mg s.
  destruct (region_pointers (N := Toy.net) 1 s mg (Zig.Grown (fun i => 600 + i)) 8 2 [0; 0]) as (_ & Ha & Hg).
  - split.
    + intros id p. unfold Zig.getRegion. cbn. intros [<- <-]%lookup_singleton_Some. by eexists.
    + intros i j p. unfold Zig.getRegion. cbn.
      intros [<- _]%lookup_singleton_Some [<- _]%lookup_singleton_Some. done.
  - split; [intros x y; lia|]. intros id. cbn. rewrite lookup_singleton_None.
    intros [->|[p Hp]]; [done|]. unfold Zig.getRegion in Hp. cbn in Hp. by apply lookup_singleton_Some in Hp as [<- _].
  - done.
  - apply map_Forall_singleton. split; cbn; try lia.
    + intros id [c Hc]. apply lookup_singleton_Some in Hc as [<- _]. lia.
    + intros id [c Hc]. by apply lookup_empty_Some in Hc.
    + intros id [c Hc]. by apply lookup_empty_Some in Hc.
    + intros id. rewrite !lookup_empty. done.
    + intros id p [<- <-]%lookup_singleton_Some. eexists. split; [reflexivity|]. split; by_eval.
  - split; [exact Ha|]. apply (Hg 7 500) with (e := toy_bound toy_conn); (done || reflexivity).
Defined.
