(* ===== verification/Types.v ===== *)
(** * The types of the engine (engine/src/lib.rs)

    The model keeps machine integers, bytes and texts as [Z] and lists; the source
    has them at [u16], [u64], [usize], [i32], [u8] and [String].  Here every call of
    the C ABI is shown to keep the state in these types and to answer in the type of
    its signature.  [gives] is the typing judgement of the monad. *)

From S2P Require Import Prelude Utf8 Str Ffi Ring Net Engine Conn Tls Quic System.

Definition is_bytes (b : bytes) : Prop := Forall in_u8 b.

(** The environment delivers bytes, and no more than was asked for. *)
Class NetTypes `(Net) : Prop := {
  sock_read_bytes w s n b : snd (sock_read w s n) = Ok b -> is_bytes b;
  reader_read_bytes t n b : snd (reader_read t n) = Ok b -> is_bytes b;
  peer_certificate_bytes t l : peer_certificates t = Some l -> Forall is_bytes l;
}.

Section Types.
Context {N : Net}.

Record typed_ring (r : BodyRing) : Prop := mkTypedRing {
  tr_buffer : is_bytes (buffer r);
  tr_capacity : in_u64 (capacity r);
  tr_head : in_u64 (head r);
  tr_tail : in_u64 (tail r);
}.

Definition typed_connection (c : Connection) : Prop := Forall scalar (host c) /\ in_u16 (port c).
Definition typed_session (t : TlsState) : Prop := Forall scalar (tls_host t) /\ in_u16 (tls_port t).

(** Every key is a [usize] and every entry has its type. *)
Definition typed_map {A} (P : A -> Prop) (m : gmap Z A) : Prop := map_Forall (fun k x => in_u64 k /\ P x) m.
Definition anything {A} (x : A) : Prop := True.

Record typed_engine (e : NetEngine) : Prop := mkTypedEngine {
  te_connections : typed_map typed_connection (connections e);
  te_next_tls : in_u64 (next_tls_id e);
  te_tls : typed_map typed_session (tls_states e);
  te_next_conn : in_u64 (next_conn_id e);
  te_rings : typed_map in_u64 (body_rings e);
  te_bindings : typed_map in_u64 (conn_body_rings e);
  te_endpoints : typed_map anything (quic_endpoints e);
  te_quic : typed_map anything (quic_conns e);
  te_next_quic : in_u64 (next_quic_id e);
}.

Record typed_sys (s : sys) : Prop := mkTypedSys {
  ts_mem : typed_map typed_ring (mem s);
  ts_engines : typed_map typed_engine (engines s);
}.

Lemma typed_empty {A} (P : A -> Prop) : typed_map P ∅.
Proof. apply map_Forall_empty. Qed.

Lemma typed_insert {A} (P : A -> Prop) (m : gmap Z A) k x :
  typed_map P m -> in_u64 k -> P x -> typed_map P (<[k := x]> m).
Proof. intros Hm Hk Hx. by apply map_Forall_insert_2. Qed.

Lemma typed_delete {A} (P : A -> Prop) (m : gmap Z A) k : typed_map P m -> typed_map P (delete k m).
Proof. intros Hm. by apply map_Forall_delete. Qed.

Lemma typed_alter {A} (P : A -> Prop) (m : gmap Z A) f k :
  typed_map P m -> (forall x, P x -> P (f x)) -> typed_map P (alter f k m).
Proof.
  intros Hm Hf j x Hj. destruct (decide (j = k)) as [->|Hne].
  - rewrite lookup_alter_eq in Hj. apply fmap_Some in Hj as (y & Hy & ->). destruct (Hm k y Hy). auto.
  - rewrite lookup_alter_ne in Hj by done. by apply Hm.
Qed.

Lemma typed_lookup {A} (P : A -> Prop) (m : gmap Z A) k x :
  typed_map P m -> m !! k = Some x -> in_u64 k /\ P x.
Proof. intros Hm. apply Hm. Qed.

Lemma typed_engine_new : typed_engine NetEngine_new.
Proof. split; cbn; try apply typed_empty; by split. Qed.

(** The updates of an engine. *)
Lemma typed_with_connections e f :
  typed_engine e -> (typed_map typed_connection (connections e) -> typed_map typed_connection (f (connections e))) ->
  typed_engine (with_connections f e).
Proof. intros [] Hf. split; cbn; auto. Qed.
Lemma typed_with_tls e f :
  typed_engine e -> (typed_map typed_session (tls_states e) -> typed_map typed_session (f (tls_states e))) ->
  typed_engine (with_tls_states f e).
Proof. intros [] Hf. split; cbn; auto. Qed.
Lemma typed_with_rings e f :
  typed_engine e -> (typed_map in_u64 (body_rings e) -> typed_map in_u64 (f (body_rings e))) ->
  typed_engine (with_body_rings f e).
Proof. intros [] Hf. split; cbn; auto. Qed.
Lemma typed_with_bindings e f :
  typed_engine e -> (typed_map in_u64 (conn_body_rings e) -> typed_map in_u64 (f (conn_body_rings e))) ->
  typed_engine (with_conn_body_rings f e).
Proof. intros [] Hf. split; cbn; auto. Qed.
Lemma typed_with_endpoints e f :
  typed_engine e -> (typed_map anything (quic_endpoints e) -> typed_map anything (f (quic_endpoints e))) ->
  typed_engine (with_quic_endpoints f e).
Proof. intros [] Hf. split; cbn; auto. Qed.
Lemma typed_with_quic e f :
  typed_engine e -> (typed_map anything (quic_conns e) -> typed_map anything (f (quic_conns e))) ->
  typed_engine (with_quic_conns f e).
Proof. intros [] Hf. split; cbn; auto. Qed.
Lemma typed_bump_conn e : typed_engine e -> typed_engine (bump_conn_id e).
Proof. intros []. split; cbn; try done. apply u64_range. Qed.
Lemma typed_bump_tls e : typed_engine e -> typed_engine (bump_tls_id e).
Proof. intros []. split; cbn; try done. apply u64_range. Qed.
Lemma typed_bump_quic e : typed_engine e -> typed_engine (bump_quic_id e).
Proof. intros []. split; cbn; try done. apply u64_range. Qed.

(** ** The typing judgement *)

Definition gives {A} (m : M A) (T : A -> Prop) : Prop :=
  forall s s' a, typed_sys s -> m s = Ret (s', a) -> typed_sys s' /\ T a.

Lemma gives_ret {A} (a : A) (T : A -> Prop) : T a -> gives (mret a) T.
Proof. intros Ha s s' x Hs [= <- <-]. done. Qed.

Lemma gives_bind {A B} (m : M A) (f : A -> M B) (T : A -> Prop) (Q : B -> Prop) :
  gives m T -> (forall a, T a -> gives (f a) Q) -> gives (m ≫= f) Q.
Proof.
  intros Hm Hf s s' b Hs H. unfold mbind, M_bind in H. destruct (m s) as [[s1 a]| | |] eqn:E; try done.
  destruct (Hm s s1 a Hs E) as [Hs1 Ha]. by apply (Hf a Ha s1).
Qed.

Lemma gives_weaken {A} (m : M A) (T Q : A -> Prop) : gives m T -> (forall a, T a -> Q a) -> gives m Q.
Proof. intros Hm HQ s s' a Hs H. destruct (Hm s s' a Hs H). auto. Qed.

Lemma gives_stuck {A} (T : A -> Prop) : gives (fun _ => Stuck : outcome (sys * A)) T.
Proof. by intros s s' a. Qed.

Lemma gives_os {A} (f : W -> W * A) (T : A -> Prop) : (forall w, T (snd (f w))) -> gives (os_op f) T.
Proof.
  intros Hf s s' a [Hm He] H. unfold os_op in H. specialize (Hf (os s)). destruct (f (os s)).
  injection H as <- <-. done.
Qed.

Lemma gives_os_any {A} (f : W -> W * A) : gives (os_op f) (fun _ => True).
Proof. by apply gives_os. Qed.

Lemma gives_lift {A} (o : outcome A) (T : A -> Prop) : (forall a, o = Ret a -> T a) -> gives (lift o) T.
Proof. intros Ho s s' a Hs H. unfold lift in H. destruct o; simplify_eq/=. auto. Qed.

Lemma gives_deref h : gives (deref h) typed_engine.
Proof.
  intros s s' e Hs H. unfold deref in H. destruct (engines s !! h) as [e0|] eqn:E; [|done].
  injection H as <- <-. split; [done|]. by apply (typed_lookup _ _ _ _ (ts_engines _ Hs) E).
Qed.

Lemma gives_deref_ring p : gives (deref_ring p) typed_ring.
Proof.
  intros s s' r Hs H. unfold deref_ring in H. destruct (mem s !! p) as [r0|] eqn:E; [|done].
  injection H as <- <-. split; [done|]. by apply (typed_lookup _ _ _ _ (ts_mem _ Hs) E).
Qed.

Lemma gives_modify h f : (forall e, typed_engine e -> typed_engine (f e)) -> gives (modify h f) (fun _ => True).
Proof.
  intros Hf s s' [] [Hm He] H. unfold modify in H. destruct (engines s !! h) as [e|] eqn:E; [|done].
  injection H as <-. split; [|done]. split; [done|]. cbn. destruct (typed_lookup _ _ _ _ He E).
  apply typed_insert; auto.
Qed.

Lemma gives_store_ring p r : in_u64 p -> typed_ring r -> gives (store_ring p r) (fun _ => True).
Proof. intros Hp Hr s s' [] [Hm He] [= <-]. split; [|done]. split; [by apply typed_insert|done]. Qed.

(** Code that only talks to the environment. *)
Lemma gives_quiet {A} (m : M A) : quiet m -> gives m (fun _ => True).
Proof.
  intros Hm s s' a [Hr He] H. specialize (Hm s). unfold wp in Hm. rewrite H in Hm.
  destruct Hm as [E1 E2].
  split; [split; by rewrite ?E1, ?E2|done].
Qed.

Lemma gives_update_conn h conn f :
  (forall c, typed_connection c -> typed_connection (f c)) -> gives (update_conn h conn f) (fun _ => True).
Proof.
  intros Hf. apply gives_modify. intros e He. apply typed_with_connections; [done|].
  intros Hc. by apply typed_alter.
Qed.

Lemma gives_update_tls h id t : gives (update_tls h id t) (fun _ => True).
Proof.
  apply gives_modify. intros e He. apply typed_with_tls; [done|]. intros Hc. by apply typed_alter.
Qed.
End Types.

Create HintDb gives.
#[export] Hint Resolve gives_update_tls gives_os_any : gives.

(** Steps whose results need no type: the state alone is followed. *)
Ltac gives_step :=
  lazymatch goal with
  | |- gives (mret _) _ => apply gives_ret
  | |- gives (fun _ => Stuck) _ => apply gives_stuck
  | |- gives (mbind _ (deref _)) _ => eapply gives_bind; [apply gives_deref|intros ? ?]
  | |- gives (mbind _ (os_op _)) _ => eapply gives_bind; [apply gives_os_any|intros ? _]
  | |- gives (mbind _ (os_do _)) _ => eapply gives_bind; [apply gives_os_any|intros ? _]
  end.
(** Conjunctions that show, not those inside a definition. *)
Ltac conjs := repeat lazymatch goal with |- _ /\ _ => apply conj end.
Ltac gives :=
  repeat first [ gives_step | lazymatch goal with |- gives (match ?x with _ => _ end) _ => destruct x eqn:? end ].

(** ** The calls *)

(** What a call answers through its result and the caller's memory. *)
Inductive value :=
| VUnit
| VHandle (id : Z)
| VCode (code : Z)
| VBuffer (code : Z) (buf : option bytes) (count : option Z)
| VCount (code : Z) (count : option Z).

Section Calls.
Context {N : Net}.

Definition answer {A} (f : A -> value) (m : M A) : M value := a ← m; mret (f a).

Definition perform (c : call) : M value :=
  match c with
  | SCreate poll addr => answer VHandle (net_engine_create poll addr)
  | SDestroy h => answer (fun _ => VUnit) (net_engine_destroy h)
  | SConnect h host port => answer VHandle (net_connect h host port)
  | SClose h conn => answer VCode (net_close h conn)
  | SRead h conn buf cnt => answer (fun '(c, b, n) => VBuffer c b n) (net_read h conn buf cnt)
  | SWrite fuel h conn data cnt => answer (fun '(c, n) => VCount c n) (net_write fuel h conn data cnt)
  | SPoll h t order => answer VCode (net_poll h t order)
  | SRingRegister h id ptr => answer VCode (net_body_ring_register h id ptr)
  | SRingUnregister h id => answer VCode (net_body_ring_unregister h id)
  | SRingBind h conn id => answer VCode (net_conn_bind_body_ring h conn id)
  | STlsCreate fuel h host port => answer VHandle (net_tls_create fuel h host port)
  | STlsRead fuel h id buf cnt => answer (fun '(c, b, n) => VBuffer c b n) (net_tls_read fuel h id buf cnt)
  | STlsWrite fuel h id data cnt => answer (fun '(c, n) => VCount c n) (net_tls_write fuel h id data cnt)
  | STlsVersion h id => answer VCode (net_tls_protocol_version h id)
  | STlsVerify h id => answer (fun r => VCode (TlsVerifyResult_code r)) (net_tls_verify_result h id)
  | STlsCertificate h id out => answer (fun '(c, b) => VBuffer c b None) (net_tls_peer_certificate h id out)
  | STlsClose h id => answer VCode (net_tls_close h id)
  | SHttp3Connect h host port => answer VHandle (net_http3_connect h host port)
  | SHttp3Drive fuel h conn => answer VCode (net_http3_drive fuel h conn)
  | SHttp3Close h conn => answer VCode (net_http3_close h conn)
  | SMapRing _ _ | SConsume _ _ | SEnvironment _ => answer (fun _ => VUnit) (exec c)
  end.

Lemma discard_answer {A} (f : A -> value) (m : M A) s : discard (answer f m) s = discard m s.
Proof. unfold discard, answer, mbind, M_bind. by destruct (m s) as [[s1 a]| | |]. Qed.

(** [perform] is the step of the system, with its answer. *)
Lemma exec_perform c s : exec c s = discard (perform c) s.
Proof. destruct c; cbn [exec perform]; by rewrite discard_answer, ?discard_unit. Qed.

Definition typed_buffer (b : option bytes) : Prop :=
  match b with Some b => is_bytes b /\ in_u64 (Z.of_nat (length b)) | None => True end.
Definition typed_count (n : option Z) : Prop := from_option in_u64 True n.

(** The arguments have the types of the signature. *)
Definition typed_call (c : call) : Prop :=
  match c with
  | SCreate _ addr => in_u64 addr
  | SConnect _ host port | STlsCreate _ _ host port | SHttp3Connect _ host port =>
      from_option is_bytes True host /\ in_u16 port
  | SRead _ id buf cnt | SWrite _ _ id buf cnt | STlsRead _ _ id buf cnt | STlsWrite _ _ id buf cnt =>
      in_u64 id /\ typed_buffer buf /\ typed_count cnt
  | SRingRegister _ id ptr => in_u64 id /\ in_u64 ptr
  | SRingBind _ conn id => in_u64 conn /\ in_u64 id
  | STlsCertificate _ _ out => typed_buffer out
  | SHttp3Drive _ _ conn => in_u64 conn
  | SMapRing ptr r => in_u64 ptr /\ typed_ring r
  | SConsume ptr _ => in_u64 ptr
  | _ => True
  end.

(** The buffer the caller handed over. *)
Definition buffer_of (c : call) : option bytes :=
  match c with
  | SRead _ _ buf _ | STlsRead _ _ _ buf _ => buf
  | STlsCertificate _ _ out => out
  | _ => None
  end.

(** The answer has the type of the signature; a buffer keeps its length. *)
Definition typed_answer (given : option bytes) (v : value) : Prop :=
  match v with
  | VUnit => True
  | VHandle id => in_u64 id
  | VCode code => in_i32 code
  | VBuffer code buf n =>
      in_i32 code /\ typed_buffer buf /\ typed_count n /\ length <$> buf = length <$> given
  | VCount code n => in_i32 code /\ typed_count n
  end.

Lemma gives_answer {A} (f : A -> value) (m : M A) (T : value -> Prop) :
  gives m (fun a => T (f a)) -> gives (answer f m) T.
Proof. intros Hm. eapply gives_bind; [exact Hm|]. intros a Ha. by apply gives_ret. Qed.

Lemma typed_put data buf :
  is_bytes data -> typed_buffer (Some buf) -> (length data <= length buf)%nat ->
  typed_buffer (Some (put data buf)) /\ length (put data buf) = length buf.
Proof.
  intros Hd [Hb Hl] Hle. assert (E : length (put data buf) = length buf).
  { unfold put. rewrite length_app, length_drop. lia. }
  split; [|done]. split; [|by rewrite E]. unfold put. apply Forall_app. split; [done|by apply Forall_drop].
Qed.

Lemma typed_put_count (cnt : option Z) n : in_u64 n -> typed_count (put_count cnt n).
Proof. by destruct cnt. Qed.

Lemma write_cells_bytes buf idxs data : is_bytes buf -> is_bytes data -> is_bytes (write_cells buf idxs data).
Proof.
  revert buf data. induction idxs as [|i idxs IH]; intros buf [|b data] Hb Hd; cbn; try done.
  inv Hd. apply IH; [|done]. by apply Forall_insert.
Qed.

End Calls.

Section Typing.
Context {N : Net} {HL : NetLaws N} {HT : NetTypes N}.

Lemma nonneg_bytes b : is_bytes b -> Forall (fun x => 0 <= x) b.
Proof. intros H. eapply Forall_impl; [exact H|]. unfold in_u8. cbn. lia. Qed.

Lemma cstr_bytes b t : is_bytes b -> cstr_from_ptr b = Ret t -> is_bytes t.
Proof.
  intros Hb. revert t. induction Hb as [|x b Hx _ IH]; intros t H; cbn in H; [done|].
  destruct (x =? 0); [injection H as <-; constructor|]. destruct (cstr_from_ptr b) as [u| | |]; try done.
  injection H as <-. constructor; [done|by apply IH].
Qed.

Lemma gives_host_arg host :
  from_option is_bytes True host -> gives (lift (host_arg host)) (Forall scalar).
Proof.
  intros Hh. apply gives_lift. intros t Ht. destruct host as [b|]; [|done]. cbn in *.
  by apply (cstr_lossy_valid b t Ht), nonneg_bytes.
Qed.

Lemma gives_strict_host b : is_bytes b -> gives (lift (strict_host b)) (from_option (Forall scalar) True).
Proof.
  intros Hb. apply gives_lift. intros o Ho. unfold strict_host in Ho.
  apply outcome_bind_inv in Ho as (t & Ht & [= <-]). destruct (from_utf8 t) as [s|] eqn:E; [|done].
  cbn. eapply from_utf8_scalar; [|exact E]. by apply nonneg_bytes, (cstr_bytes b).
Qed.

Lemma null_u64 : in_u64 NULL.
Proof. by split. Qed.
Lemma codes_i32 : in_i32 NS_OK /\ in_i32 NS_ERROR_FAILURE /\ in_i32 (-1).
Proof. by_eval. Qed.
Lemma small_i32 n : 0 <= n < 2 ^ 31 -> in_i32 n.
Proof. unfold in_i32. lia. Qed.
#[local] Hint Resolve null_u64 : core.
#[local] Hint Extern 1 (in_i32 _) => by_eval : core.

Lemma gives_create r addr : in_u64 addr -> gives (net_engine_create r addr) in_u64.
Proof.
  intros Ha. destruct r; [|by apply gives_ret]. intros s s1 x [Hm He] [= <- <-]. split; [|done].
  split; [done|]. apply typed_insert; [done..|]. apply typed_engine_new.
Qed.

Lemma gives_destroy h : gives (net_engine_destroy h) (fun _ => True).
Proof.
  unfold net_engine_destroy. gives; [done|]. intros s s' [] [Hm He] [= <-]. split; [|done].
  split; [done|]. by apply typed_delete.
Qed.

Lemma gives_connect h host port :
  from_option is_bytes True host -> in_u16 port -> gives (net_connect h host port) in_u64.
Proof.
  intros Hh Hp. unfold net_connect. gives; [done|].
  eapply gives_bind; [by apply gives_host_arg|]. intros hs Hs. gives; try done.
  eapply gives_bind; [apply gives_quiet, quiet_connect_first|]. intros st _. gives; try done.
  eapply gives_bind; [by apply gives_modify; intros; apply typed_bump_conn|]. intros [] _. gives; try done.
  eapply gives_bind.
  { apply gives_modify. intros e He. apply typed_with_connections; [done|]. intros Hc.
    apply typed_insert; [done| |by split]. by apply te_next_conn. }
  intros [] _. apply gives_ret. by apply te_next_conn.
Qed.

Lemma gives_close h conn : gives (net_close h conn) in_i32.
Proof.
  unfold net_close. gives; auto. eapply gives_bind.
  { apply gives_modify. intros e He. apply typed_with_connections; [done|]. apply typed_delete. }
  intros [] _. gives. auto.
Qed.

(** A read answered with the caller's buffer and count as they were. *)
Lemma typed_refusal buf cnt :
  typed_buffer buf -> typed_count cnt ->
  in_i32 NS_ERROR_FAILURE /\ typed_buffer buf /\ typed_count cnt /\ length <$> buf = length <$> buf.
Proof. conjs; auto. Qed.

(** A read answered with [data]. *)
Lemma typed_data data dst cnt :
  is_bytes data -> typed_buffer (Some dst) -> Z.of_nat (length data) <= Z.of_nat (length dst) ->
  typed_answer (Some dst) (VBuffer NS_OK (Some (put data dst)) (put_count cnt (Z.of_nat (length data)))).
Proof.
  intros Hd Hb Hle. destruct (typed_put data dst) as [H1 H2]; [done|done|lia|].
  cbn [typed_answer]. conjs; auto; [|cbn; by rewrite H2]. apply typed_put_count. destruct Hb as [_ Hl]. unfold in_u64 in *. lia.
Qed.

Definition read_answer (dst : bytes) '((code, buf, n) : Z * bytes * option Z) : Prop :=
  typed_answer (Some dst) (VBuffer code (Some buf) n).

Lemma gives_read_ring h conn p cnt :
  in_u64 p -> typed_count cnt ->
  gives (net_read_ring h conn p cnt) (fun '(code, n) => in_i32 code /\ typed_count n).
Proof.
  intros Hp Hn. unfold net_read_ring. eapply gives_bind; [apply gives_deref_ring|]. intros r Hr.
  eapply gives_bind; [apply gives_deref|]. intros e He.
  assert (Hno : gives (mret (NS_ERROR_FAILURE, cnt)) (fun '(code, n) => in_i32 code /\ typed_count n)).
  { apply gives_ret. by split; auto. }
  destruct (connections e !! conn) as [c|]; [|exact Hno].
  eapply (gives_bind _ _ (fun o => ring_slices r = Ret o)); [by apply gives_lift|]. intros sl Hsl.
  destruct sl as [slices|]; [|exact Hno].
  pose proof (ring_slices_bound r slices ltac:(apply Hr) Hsl) as Hc.
  eapply gives_bind.
  { apply (gives_os _ (fun res => forall b, res = Ok b -> is_bytes b /\ Z.of_nat (length b) <= capacity r)).
    intros w b Hb. split; [by eapply sock_read_bytes|].
    pose proof (sock_read_len w (stream c) _ b (Nat2Z.is_nonneg _) Hb). lia. }
  intros [[|b data]|e0] Hres; [exact Hno| |exact Hno]. destruct (Hres _ eq_refl) as [Hb Hl].
  eapply gives_bind.
  { apply gives_store_ring; [done|]. destruct Hr. split; cbn; try done; [|apply u64_range].
    by apply write_cells_bytes. }
  intros [] _. eapply (gives_bind _ _ (fun _ => True)).
  { gives; [|done]. apply gives_update_conn. intros c0 Hc0. exact Hc0. }
  intros [] _. apply gives_ret. split; [auto|]. apply typed_put_count.
  destruct Hr as [_ Hcap _ _]. unfold in_u64 in *. lia.
Qed.

(** What a read from the socket, or of plaintext, delivers. *)
Lemma gives_sock_read st n :
  0 <= n -> gives (os_op (fun w => sock_read w st n))
              (fun res => forall b, res = Ok b -> is_bytes b /\ Z.of_nat (length b) <= n).
Proof.
  intros Hn. apply gives_os. intros w b Hb. split; [by eapply sock_read_bytes|].
  by apply (sock_read_len w st n b).
Qed.

Lemma reader_data t t' (dst data : bytes) :
  reader_read t (Z.of_nat (length dst)) = (t', Ok data) ->
  is_bytes data /\ Z.of_nat (length data) <= Z.of_nat (length dst).
Proof.
  intros E. pose proof (reader_read_bytes t (Z.of_nat (length dst)) data) as H1.
  pose proof (reader_read_len t (Z.of_nat (length dst)) data (Nat2Z.is_nonneg _)) as H2.
  rewrite E in H1, H2. split; [by apply H1|by apply H2].
Qed.

Lemma gives_set_tls h conn t : gives (update_conn h conn (fun c => set_tls c t)) (fun _ => True).
Proof. apply gives_update_conn. intros c Hc. exact Hc. Qed.

Lemma gives_feed_tls h conn c t : gives (feed_tls h conn c t) (fun _ => True).
Proof.
  unfold feed_tls. gives; try done; eapply gives_bind; try apply gives_set_tls; intros [] _; gives; done.
Qed.

Definition unanswered (dst : bytes) (cnt : option Z) : Prop := typed_buffer (Some dst) /\ typed_count cnt.

Lemma gives_refusal dst cnt :
  unanswered dst cnt -> gives (mret (NS_ERROR_FAILURE, dst, cnt)) (read_answer dst).
Proof. intros [Hb Hn]. apply gives_ret. by apply typed_refusal. Qed.

Lemma gives_read_tls h conn c t dst cnt :
  unanswered dst cnt -> gives (net_read_tls h conn c t dst cnt) (read_answer dst).
Proof.
  intros Hu. pose proof (gives_refusal dst cnt Hu) as Hno. unfold net_read_tls.
  eapply gives_bind; [apply gives_feed_tls|]. intros [t1|] _; [|exact Hno].
  destruct (reader_read t1 _) as [t2 r] eqn:Er. eapply gives_bind; [apply gives_set_tls|]. intros [] _.
  destruct r as [data|]; [|exact Hno]. apply reader_data in Er as [Hd Hl]. apply gives_ret.
  by apply typed_data, Hl; [|apply Hu].
Qed.

Lemma gives_read_plain c dst cnt :
  unanswered dst cnt -> gives (net_read_plain c dst cnt) (read_answer dst).
Proof.
  intros Hu. unfold net_read_plain. eapply gives_bind; [apply gives_sock_read; lia|].
  intros [data|] Hres; [|by apply gives_refusal]. destruct (Hres _ eq_refl) as [Hd Hl]. apply gives_ret.
  by apply typed_data, Hl; [|apply Hu].
Qed.

(** The answer of a call that may read into [given]. *)
Definition buffer_answer (given : option bytes) '((code, buf, n) : Z * option bytes * option Z) : Prop :=
  typed_answer given (VBuffer code buf n).

Lemma gives_read h conn buf cnt :
  typed_buffer buf -> typed_count cnt -> gives (net_read h conn buf cnt) (buffer_answer buf).
Proof.
  intros Hb Hn. unfold net_read.
  assert (Hno : gives (mret (NS_ERROR_FAILURE, buf, cnt)) (buffer_answer buf)).
  { apply gives_ret. by apply typed_refusal. }
  destruct (_ || _); [exact Hno|]. destruct buf as [dst|]; [|exact Hno].
  eapply gives_bind; [apply gives_deref|]. intros e He. destruct (bound_ring e conn) as [p|] eqn:Er.
  - unfold bound_ring in Er. apply bind_Some in Er as (id & _ & Hp).
    eapply gives_bind; [apply gives_read_ring; [by eapply typed_lookup; [apply He|]|done]|].
    intros [code n] [Hc Hcn]. apply gives_ret. cbn [buffer_answer typed_answer]. conjs; done.
  - destruct (connections e !! conn) as [c|]; [|exact Hno]. apply (gives_bind _ _ (read_answer dst)).
    + destruct (tlsconn c); [by apply gives_read_tls|by apply gives_read_plain].
    + intros [[code b] n] Ha. by apply gives_ret.
Qed.

Definition count_answer '((code, n) : Z * option Z) : Prop := typed_answer None (VCount code n).

Lemma gives_unwritten cnt : typed_count cnt -> gives (mret (NS_ERROR_FAILURE, cnt)) count_answer.
Proof. intros Hn. apply gives_ret. by split; [auto|]. Qed.

Lemma gives_written n cnt src :
  0 <= n <= Z.of_nat (length src) -> typed_buffer (Some src) ->
  gives (mret (NS_OK, put_count cnt n)) count_answer.
Proof.
  intros Hn [_ Hl]. apply gives_ret. split; [auto|]. apply typed_put_count. unfold in_u64 in *. lia.
Qed.

Lemma gives_flush fuel st t : gives (flush_loop fuel st t) (fun _ => True).
Proof. apply gives_quiet, quiet_flush_loop. Qed.

Lemma gives_write fuel h conn data cnt :
  typed_buffer data -> typed_count cnt -> gives (net_write fuel h conn data cnt) count_answer.
Proof.
  intros Hb Hn. pose proof (gives_unwritten cnt Hn) as Hno. unfold net_write.
  destruct (_ || _); [exact Hno|]. destruct data as [src|]; [|exact Hno].
  eapply gives_bind; [apply gives_deref|]. intros e He.
  destruct (connections e !! conn) as [c|]; [|exact Hno]. destruct (tlsconn c) as [t|].
  - destruct (writer_write t src) as [t1 r] eqn:Ew. destruct r as [n|].
    + pose proof (writer_write_len t src n) as Hl. rewrite Ew in Hl.
      eapply gives_bind; [apply gives_flush|]. intros [t2 ok] _.
      eapply gives_bind; [apply gives_set_tls|]. intros [] _.
      destruct ok; [|exact Hno]. by apply (gives_written n cnt src); [apply Hl|].
    + eapply gives_bind; [apply gives_set_tls|]. intros [] _. exact Hno.
  - eapply gives_bind.
    { apply (gives_os _ (fun r => forall n, r = Ok n -> 0 <= n <= Z.of_nat (length src))).
      intros w n. apply sock_write_len. }
    intros [n|] Hr; [|exact Hno]. by apply (gives_written n cnt src); [apply Hr|].
Qed.

Lemma gives_poll h t order : gives (net_poll h t order) in_i32.
Proof.
  unfold net_poll, NetEngine_poll. destruct (_ =? _); [apply gives_ret; auto|].
  eapply gives_bind; [apply gives_deref|]. intros e _. apply (gives_bind _ _ (fun _ => True)).
  - induction order as [|[id r] order IH]; cbn; [by apply gives_ret|].
    apply (gives_bind _ _ (fun _ => True)); [|done]. unfold resume_one. gives; try done.
    eapply gives_bind; [apply gives_deref_ring|]. intros rg _. gives; [|done].
    apply gives_update_conn. intros c0 Hc. exact Hc.
  - intros [] _. gives; [|auto]. apply i32_range.
Qed.

Lemma gives_ring_register h id ptr :
  in_u64 id -> in_u64 ptr -> gives (net_body_ring_register h id ptr) in_i32.
Proof.
  intros Hi Hp. unfold net_body_ring_register. gives; auto.
  eapply gives_bind; [apply gives_modify; intros e He|intros [] _; apply gives_ret; auto].
  apply typed_with_rings; [done|]. intros Hr. by apply typed_insert.
Qed.

Lemma gives_ring_unregister h id : gives (net_body_ring_unregister h id) in_i32.
Proof.
  unfold net_body_ring_unregister. gives; auto.
  eapply gives_bind; [apply gives_modify; intros e He|intros [] _; apply gives_ret; auto].
  apply typed_with_rings; [done|]. apply typed_delete.
Qed.

Lemma gives_ring_bind h conn id : in_u64 conn -> in_u64 id -> gives (net_conn_bind_body_ring h conn id) in_i32.
Proof.
  intros Hc Hi. unfold net_conn_bind_body_ring. gives; auto.
  eapply gives_bind; [apply gives_modify; intros e He|intros [] _; apply gives_ret; auto].
  apply typed_with_bindings; [done|]. intros Hr. by apply typed_insert.
Qed.

Lemma gives_tls_create fuel h host port :
  from_option is_bytes True host -> in_u16 port -> gives (net_tls_create fuel h host port) in_u64.
Proof.
  intros Hh Hp. unfold net_tls_create. destruct (_ =? _); [by apply gives_ret|].
  destruct host as [host|]; [|by apply gives_ret]. gives.
  eapply gives_bind; [by apply gives_strict_host|]. intros [hs|] Hs; [|by apply gives_ret].
  eapply (gives_bind _ _ (fun r => forall st, r = Ok st -> typed_session st)).
  { intros s s' r Hs' Hrun. destruct (TlsState_new_runs hs port s) as (w & r' & E & Hr').
    rewrite E in Hrun. injection Hrun as <- <-. split; [by destruct Hs'; split|]. intros st ->.
    destruct Hr' as (E1 & E2 & _). unfold typed_session. by rewrite E1, E2. }
  intros [st|] Hst; [|by apply gives_ret]. specialize (Hst st eq_refl).
  eapply gives_bind; [apply gives_quiet, quiet_handshake|]. intros [t|] _; [|by gives].
  eapply gives_bind; [apply gives_deref|]. intros e He.
  eapply gives_bind; [apply gives_modify; intros; by apply typed_bump_tls|]. intros [] _.
  eapply gives_bind; [apply gives_modify; intros e1 He1; apply typed_with_tls; [done|]; intros Hm;
    apply typed_insert; [done|apply He|done]|].
  intros [] _. apply gives_ret, He.
Qed.

Lemma gives_tls_read fuel h id buf cnt :
  typed_buffer buf -> typed_count cnt -> gives (net_tls_read fuel h id buf cnt) (buffer_answer buf).
Proof.
  intros Hb Hn. unfold net_tls_read.
  assert (Hno : gives (mret (NS_ERROR_FAILURE, buf, cnt)) (buffer_answer buf)).
  { apply gives_ret. by apply typed_refusal. }
  destruct (_ || _); [exact Hno|]. destruct buf as [dst|]; [|exact Hno].
  eapply gives_bind; [apply gives_deref|]. intros e He. destruct (tls_states e !! id) as [st|]; [|exact Hno].
  destruct (tls_is_closed st); [exact Hno|].
  eapply gives_bind; [apply gives_quiet, quiet_read_loop|]. intros [t drained] _. destruct drained.
  - destruct (reader_read t _) as [t2 r] eqn:Er. eapply gives_bind; [apply gives_update_tls|]. intros [] _.
    destruct r as [data|]; [|exact Hno]. apply reader_data in Er as [Hd Hl]. destruct data as [|b data]; [exact Hno|].
    apply gives_ret. by apply typed_data.
  - eapply gives_bind; [apply gives_update_tls|]. intros [] _. exact Hno.
Qed.

Lemma gives_tls_write fuel h id data cnt :
  typed_buffer data -> typed_count cnt -> gives (net_tls_write fuel h id data cnt) count_answer.
Proof.
  intros Hb Hn. pose proof (gives_unwritten cnt Hn) as Hno. unfold net_tls_write.
  destruct (_ || _); [exact Hno|]. destruct data as [src|]; [|exact Hno].
  eapply gives_bind; [apply gives_deref|]. intros e He. destruct (tls_states e !! id) as [st|]; [|exact Hno].
  destruct (tls_is_closed st); [exact Hno|]. destruct (writer_write (tls st) src) as [t1 r] eqn:Ew.
  destruct r as [n|].
  - pose proof (writer_write_len (tls st) src n) as Hl. rewrite Ew in Hl.
    eapply gives_bind; [apply gives_flush|]. intros [t2 ok] _.
    eapply gives_bind; [apply gives_update_tls|]. intros [] _.
    destruct ok; [|exact Hno]. by apply (gives_written n cnt src); [apply Hl|].
  - eapply gives_bind; [apply gives_update_tls|]. intros [] _. exact Hno.
Qed.

Lemma gives_tls_protocol_version h id : gives (net_tls_protocol_version h id) in_i32.
Proof. unfold net_tls_protocol_version. gives; auto. Qed.

Lemma gives_tls_verify_result h id :
  gives (net_tls_verify_result h id) (fun r => in_i32 (TlsVerifyResult_code r)).
Proof. unfold net_tls_verify_result. gives; [by_eval| |by_eval]. by destruct (verify_state _). Qed.

Lemma gives_tls_peer_certificate h id out :
  typed_buffer out ->
  gives (net_tls_peer_certificate h id out) (fun '(c, b) => typed_answer out (VBuffer c b None)).
Proof.
  intros Hb. unfold net_tls_peer_certificate.
  assert (Hno : gives (mret (-1, out)) (fun '(c, b) => typed_answer out (VBuffer c b None))).
  { apply gives_ret. cbn [typed_answer]. conjs; auto; done. }
  destruct (_ || _); [exact Hno|]. destruct out as [buf|]; [|exact Hno].
  eapply gives_bind; [apply gives_deref|]. intros e _. destruct (tls_states e !! id) as [st|]; [|exact Hno].
  destruct (peer_certificates (tls st)) as [[|der more]|] eqn:Ep; [exact Hno| |exact Hno].
  pose proof (peer_certificate_bytes (tls st) _ Ep) as Hl. inv Hl.
  eapply (gives_bind _ _ (fun b => b = put (take (min (length der) (length buf)) der) buf)).
  { apply gives_lift. rewrite copy_to_cut. by intros b [= <-]. }
  intros ? ->. apply gives_ret.
  destruct (typed_put (take (min (length der) (length buf)) der) buf) as [H1' H2'];
    [by apply Forall_take|done|rewrite length_take; lia|].
  cbn [typed_answer]. conjs; [apply i32_range|done|done|]. cbn. by rewrite H2'.
Qed.

Lemma gives_tls_close h id : gives (net_tls_close h id) in_i32.
Proof.
  unfold net_tls_close. gives; auto.
  eapply gives_bind; [apply gives_modify; intros e He; apply typed_with_tls; [done|apply typed_delete]|].
  intros [] _. gives. auto.
Qed.

Lemma gives_http3_start h id sock server local hs :
  in_u64 id -> gives (http3_start h id sock server local hs) in_u64.
Proof.
  intros Hid. unfold http3_start. destruct quic_config_ok; gives; try done.
  eapply gives_bind.
  { apply gives_modify. intros e He. apply typed_with_endpoints; [done|]. intros Hm. by apply typed_insert. }
  intros [] _. eapply gives_bind.
  { apply gives_modify. intros e He. apply typed_with_quic; [done|]. intros Hm. by apply typed_insert. }
  intros [] _. by apply gives_ret.
Qed.

Lemma gives_http3_connect h host port :
  from_option is_bytes True host -> gives (net_http3_connect h host port) in_u64.
Proof.
  intros Hh. unfold net_http3_connect. gives; [done|].
  eapply gives_bind; [by apply gives_host_arg|]. intros hs _. gives; try done.
  eapply gives_bind; [apply gives_modify; intros; by apply typed_bump_quic|]. intros [] _. gives; try done.
  apply gives_http3_start. by apply te_next_quic.
Qed.

Lemma gives_recv_loop fuel time sock ep c buf k :
  in_i32 k -> gives (recv_loop fuel time sock ep c buf k) (fun '(_, _, _, n) => in_i32 n).
Proof.
  revert ep c buf k. induction fuel as [|fuel IH]; intros ep c buf k Hk; cbn [recv_loop]; gives; try done.
  apply IH, i32_range.
Qed.

Lemma gives_http3_drive fuel h conn : in_u64 conn -> gives (net_http3_drive fuel h conn) in_i32.
Proof.
  intros Hc. unfold net_http3_drive. gives; auto.
  eapply gives_bind; [by apply gives_recv_loop|]. intros [[[ep' q'] buf'] n] Hn.
  eapply gives_bind.
  { apply gives_modify. intros e He. apply typed_with_endpoints; [done|]. intros Hm. by apply typed_insert. }
  intros [] _. destruct q' as [q'|]; [|by apply gives_ret].
  apply (gives_bind _ _ (fun _ => True)); [by apply gives_lift|]. intros c' _.
  eapply gives_bind; [apply gives_quiet; intros s; by apply transmit_loop_quiet|]. intros c2 _.
  eapply gives_bind.
  { apply gives_modify. intros e He. apply typed_with_quic; [done|]. intros Hm. by apply typed_insert. }
  intros [] _. by apply gives_ret.
Qed.

Lemma gives_http3_close h conn : gives (net_http3_close h conn) in_i32.
Proof.
  unfold net_http3_close. destruct (_ || _); [apply gives_ret; auto|].
  eapply gives_bind; [apply gives_deref|]. intros e He. eapply (gives_bind _ _ (fun _ => True)).
  { destruct (quic_conns e !! conn); gives; [|done].
    eapply gives_bind; [|intros [] _; by gives].
    apply gives_modify. intros e1 He1. apply typed_with_quic; [done|]. apply typed_delete. }
  intros [] _. eapply (gives_bind _ _ (fun _ => True)).
  { destruct (quic_endpoints e !! conn); gives; [|done].
    eapply gives_bind; [|intros [] _; gives; apply gives_os_any].
    apply gives_modify. intros e1 He1. apply typed_with_endpoints; [done|]. apply typed_delete. }
  intros [] _. apply gives_ret. auto.
Qed.
End Typing.

(** ** Type soundness *)

Section Soundness.
Context {N : Net} {HL : NetLaws N} {HT : NetTypes N}.

Lemma perform_typed c : typed_call c -> gives (perform c) (typed_answer (buffer_of c)).
Proof.
  intros Hc. destruct c; cbn [perform buffer_of typed_call] in *; apply gives_answer.
  - by apply gives_create.
  - apply gives_destroy.
  - destruct Hc. by apply gives_connect.
  - apply gives_close.
  - destruct Hc as (_ & Hb & Hn). eapply gives_weaken; [by apply gives_read|]. by intros [[code b] n].
  - destruct Hc as (_ & Hb & Hn). eapply gives_weaken; [by apply gives_write|]. by intros [code n].
  - apply gives_poll.
  - destruct Hc. by apply gives_ring_register.
  - apply gives_ring_unregister.
  - destruct Hc. by apply gives_ring_bind.
  - destruct Hc. by apply gives_tls_create.
  - destruct Hc as (_ & Hb & Hn). eapply gives_weaken; [by apply gives_tls_read|]. by intros [[code b] n].
  - destruct Hc as (_ & Hb & Hn). eapply gives_weaken; [by apply gives_tls_write|]. by intros [code n].
  - apply gives_tls_protocol_version.
  - apply gives_tls_verify_result.
  - eapply gives_weaken; [by apply gives_tls_peer_certificate|]. by intros [code b].
  - apply gives_tls_close.
  - destruct Hc. by apply gives_http3_connect.
  - by apply gives_http3_drive.
  - apply gives_http3_close.
  - destruct Hc. by apply gives_store_ring.
  - eapply gives_bind; [apply gives_deref_ring|]. intros r [H1 H2 H3 H4].
    apply gives_store_ring; [done|]. split; cbn; try done. apply u64_range.
  - apply gives_os_any.
Qed.

(** What [exec] cannot do, [perform] cannot do either. *)
Lemma perform_wp c s :
  wp (exec c) (fun _ _ => True) s ->
  (forall s' v, perform c s = Ret (s', v) -> typed_sys s' /\ typed_answer (buffer_of c) v) ->
  wp (perform c) (fun v s' => typed_sys s' /\ typed_answer (buffer_of c) v) s.
Proof.
  unfold wp. rewrite exec_perform. unfold discard, mbind, M_bind. intros H Hp.
  destruct (perform c s) as [[s' v]| | |]; auto.
Qed.
End Soundness.

(** C2: the engine is type sound.  In any state that allowed calls reach and whose
    integers, bytes and texts have their types, an allowed call with typed arguments
    does not go wrong, leaves a typed state (counters, identifiers and ring counters
    in 64 bits, ports in 16, ring contents bytes, host names valid text) and answers
    in the type of its signature: handles in [usize], codes in [i32], counts in
    [usize], and a caller's buffer holds bytes and has kept its length. *)
Theorem engine_type_sound {N : Net} {HL : NetLaws N} {HT : NetTypes N} (n : Z) (s : sys) (c : call)
    (Hr : runs n s) (Hn : n < 2 ^ 64 - 2) (Ha : allowed s c) (Hs : typed_sys s) (Hc : typed_call c) :
  wp (perform c) (fun v s' => typed_sys s' /\ typed_answer (buffer_of c) v) s.
Proof.
  apply perform_wp; [|intros s' v; by apply perform_typed].
  eapply wp_mono; [|done]. apply (exec_wf n); [by apply runs_wf|by eapply runs_nonneg|done..].
Qed.

Lemma toy_typed_laws : NetLaws Toy.typed.
Proof.
  split; cbn.
  - intros w s n b Hn. unfold Toy.read_u8, Toy.read. destruct (Toy.rx w) as [|[x|e] r]; cbn; try done.
    intros [= <-]. rewrite length_fmap, length_take. lia.
  - intros w s b n [= <-]. lia.
  - intros t n b Hn. destruct (Toy.t_plain t) as [|x p]; [done|]. cbn [snd].
    intros [= <-]. rewrite length_fmap, length_take. lia.
  - intros t b n [= <-]. lia.
Qed.

Lemma u8_bytes (l : list Z) : is_bytes (u8 <$> l).
Proof. apply Forall_fmap, Forall_true. intros x. apply u8_range. Qed.

Lemma toy_typed_types : NetTypes Toy.typed.
Proof.
  split; cbn.
  - intros w s n b. unfold Toy.read_u8. destruct (Toy.read w s n) as [w' [x|e]]; cbn; [|done].
    intros [= <-]. apply u8_bytes.
  - intros t n b. destruct (Toy.t_plain t); [done|]. intros [= <-]. apply u8_bytes.
  - intros t l. case_match; [|done]. intros [= <-]. repeat constructor; by_eval.
Qed.

Theorem engine_type_sound_witness :
  let s := @mkSys Toy.typed Toy.world0 ∅ {[100 := NetEngine_new]} in
  let c := SConnect (N := Toy.typed) 100 (Some (c_mem (lit "h"))) 443 in
  wp (perform c) (fun v s' => typed_sys s' /\ typed_answer (buffer_of c) v) s.
Proof.
  apply (engine_type_sound (N := Toy.typed) (HL := toy_typed_laws) (HT := toy_typed_types) 1).
  - apply (runs_call (N := Toy.typed) 0 (@mkSys Toy.typed Toy.world0 ∅ ∅) (SCreate (Ok tt) 100)).
    + by constructor.
    + by split.
    + reflexivity.
  - by_eval.
  - split; [right; by eexists|]. eexists. vm_compute. reflexivity.
  - split; [apply typed_empty|]. apply typed_insert; [apply typed_empty|by split|apply typed_engine_new].
  - split; [|by split]. apply (bool_decide_unpack _). vm_compute. exact I.
Defined.
