(* ===== verification/Lifetime.v ===== *)
(** * Handles over the life of an engine

    The connection and session handles of an engine come from counters that only
    grow.  A handle that has been handed out and closed is therefore never handed out
    again: whatever calls follow, it stays unknown to the engine. *)

From S2P Require Import Prelude Utf8 Str Ffi Ring Net Engine Conn Tls Quic System.

Section Growth.
Context {N : Net}.
Implicit Types (s : sys) (h : Z).

(** No key below [next] appears that was not there. *)
Definition no_reuse {A} (next : Z) (m m' : gmap Z A) : Prop :=
  forall id, id < next -> m !! id = None -> m' !! id = None.

Record evolves (e e' : NetEngine) : Prop := mkEvolves {
  ev_conn_id : next_conn_id e <= next_conn_id e';
  ev_tls_id : next_tls_id e <= next_tls_id e';
  ev_quic_id : next_quic_id e <= next_quic_id e';
  ev_conns : no_reuse (next_conn_id e) (connections e) (connections e');
  ev_tls : no_reuse (next_tls_id e) (tls_states e) (tls_states e');
  ev_quic : no_reuse (next_quic_id e) (quic_endpoints e) (quic_endpoints e');
}.

(** The engine at [h], if there is one, is still there and has only moved on. *)
Definition evolved h s s' : Prop :=
  forall e, engines s !! h = Some e -> exists e', engines s' !! h = Some e' /\ evolves e e'.

#[export] Instance evolves_preorder : PreOrder evolves.
Proof.
  split.
  - intros e. split; try lia; by intros id.
  - intros e1 e2 e3 [] []. split; try lia; intros id Hid H; eauto with lia.
Qed.

#[export] Instance evolved_preorder h : PreOrder (evolved h).
Proof.
  split.
  - intros s e He. exists e. split; [done|reflexivity].
  - intros s1 s2 s3 H1 H2 e He. destruct (H1 e He) as (e2 & He2 & E2).
    destruct (H2 e2 He2) as (e3 & He3 & E3). exists e3. split; [done|]. by etransitivity.
Qed.

Lemma evolved_engines h s s' : engines s' = engines s -> evolved h s s'.
Proof. intros E e He. exists e. rewrite E. split; [done|reflexivity]. Qed.

Lemma evolved_insert h k e' s s' :
  (forall e, engines s !! k = Some e -> evolves e e') -> engines s' = <[k := e']> (engines s) ->
  evolved h s s'.
Proof.
  intros He E e Hh. rewrite E. destruct (decide (h = k)) as [->|Hne].
  - rewrite lookup_insert_eq. eauto.
  - rewrite lookup_insert_ne by done. exists e. split; [done|reflexivity].
Qed.

Lemma evolves_connections e f :
  no_reuse (next_conn_id e) (connections e) (f (connections e)) -> evolves e (with_connections f e).
Proof. intros H. split; try done; by intros id. Qed.
Lemma evolves_tls e f :
  no_reuse (next_tls_id e) (tls_states e) (f (tls_states e)) -> evolves e (with_tls_states f e).
Proof. intros H. split; try done; by intros id. Qed.
Lemma evolves_quic e f :
  no_reuse (next_quic_id e) (quic_endpoints e) (f (quic_endpoints e)) -> evolves e (with_quic_endpoints f e).
Proof. intros H. split; try done; by intros id. Qed.

Lemma no_reuse_alter {A} next (m : gmap Z A) f id : no_reuse next m (alter f id m).
Proof. intros k _ H. by rewrite lookup_alter_None. Qed.
Lemma no_reuse_delete {A} next (m : gmap Z A) id : no_reuse next m (delete id m).
Proof. intros k _ H. by apply lookup_delete_None; right. Qed.
Lemma no_reuse_insert_fresh {A} next (m : gmap Z A) id x : next <= id -> no_reuse next m (<[id := x]> m).
Proof. intros Hid k Hk H. by rewrite lookup_insert_ne by lia. Qed.
Lemma no_reuse_insert_live {A} next (m : gmap Z A) id x :
  is_Some (m !! id) -> no_reuse next m (<[id := x]> m).
Proof. intros [y Hy] k _ H. rewrite lookup_insert_ne; [done|]. intros ->. congruence. Qed.

#[export] Instance evolved_order h : SysOrder (evolved h).
Proof. split; [apply _|]. intros s w. by apply evolved_engines. Qed.

Lemma growing_modify h k f : (forall e, evolves e (f e)) -> respects (evolved h) (modify k f).
Proof.
  intros Hf. apply respects_modify. intros s e E. eapply evolved_insert; [|done].
  intros e0 He0. by simplify_eq.
Qed.

Lemma growing_store_ring h p r : respects (evolved h) (store_ring p r).
Proof. intros s s' a [= <- <-]. by apply evolved_engines. Qed.

End Growth.

(** ** The calls *)

Section Calls.
Context {N : Net}.
Implicit Types (s : sys) (h conn n : Z).

Lemma growing_update_conn h k conn f : respects (evolved h) (update_conn k conn f).
Proof. apply growing_modify. intros e. apply evolves_connections, no_reuse_alter. Qed.

Lemma growing_update_tls h k id t : respects (evolved h) (update_tls k id t).
Proof. apply growing_modify. intros e. apply evolves_tls, no_reuse_alter. Qed.

Lemma growing_flush h fuel st t : respects (evolved h) (flush_loop fuel st t).
Proof. apply (respects_quiet (evolved h)), quiet_flush_loop. Qed.

Lemma growing_read_loop h fuel st t : respects (evolved h) (read_loop fuel st t).
Proof. apply (respects_quiet (evolved h)), quiet_read_loop. Qed.

#[local] Hint Resolve growing_store_ring growing_update_conn growing_update_tls growing_flush
  growing_read_loop : respects.

Lemma growing_close h k conn : respects (evolved h) (net_close k conn).
Proof.
  unfold net_close. respects. apply growing_modify. intros e.
  apply evolves_connections, no_reuse_delete.
Qed.

Lemma growing_read h k conn buf cnt : respects (evolved h) (net_read k conn buf cnt).
Proof. unfold net_read, net_read_ring, net_read_tls, feed_tls, net_read_plain. respects. Qed.

Lemma growing_write h fuel k conn data cnt : respects (evolved h) (net_write fuel k conn data cnt).
Proof. unfold net_write. respects. Qed.

Lemma growing_poll h k t order : respects (evolved h) (net_poll k t order).
Proof.
  assert (Hr : respects (evolved h) (resume_all k order)).
  { induction order as [|[id r] order IH]; cbn; [apply (respects_ret (evolved h))|]. apply (respects_bind (evolved h)); [|done].
    unfold resume_one. respects. }
  unfold net_poll, NetEngine_poll. respects.
Qed.

Lemma growing_ring_calls h k conn id ptr :
  respects (evolved h) (net_body_ring_register k id ptr) /\ respects (evolved h) (net_body_ring_unregister k id)
  /\ respects (evolved h) (net_conn_bind_body_ring k conn id).
Proof.
  unfold net_body_ring_register, net_body_ring_unregister, net_conn_bind_body_ring.
  split_and!; respects; apply growing_modify; intros e; split; try done; by intros i.
Qed.

Lemma growing_tls_read h fuel k id buf cnt : respects (evolved h) (net_tls_read fuel k id buf cnt).
Proof. unfold net_tls_read. respects. Qed.

Lemma growing_tls_write h fuel k id data cnt : respects (evolved h) (net_tls_write fuel k id data cnt).
Proof. unfold net_tls_write. respects. Qed.

Lemma growing_tls_close h k id : respects (evolved h) (net_tls_close k id).
Proof.
  unfold net_tls_close. respects. apply growing_modify. intros e. apply evolves_tls, no_reuse_delete.
Qed.

Lemma growing_tls_queries h k id out :
  respects (evolved h) (net_tls_protocol_version k id) /\ respects (evolved h) (net_tls_verify_result k id)
  /\ respects (evolved h) (net_tls_peer_certificate k id out).
Proof.
  unfold net_tls_protocol_version, net_tls_verify_result, net_tls_peer_certificate. split_and!; respects.
Qed.

Lemma growing_http3_close h k conn : respects (evolved h) (net_http3_close k conn).
Proof.
  unfold net_http3_close. respects; apply growing_modify; intros e.
  - split; try done; by intros i.
  - apply evolves_quic, no_reuse_delete.
Qed.

(** Code that runs on an engine whose entry [conn] is known to be live. *)
Lemma growing_deref_bind {A} h k (f : NetEngine -> M A) :
  (forall e s s' a, engines s !! k = Some e -> f e s = Ret (s', a) -> evolved h s s') ->
  respects (evolved h) (deref k ≫= f).
Proof.
  intros Hf s s' a H. unfold mbind, M_bind, deref in H. destruct (engines s !! k) as [e|] eqn:E; [|done].
  by eapply Hf.
Qed.

Lemma quiet_bind_inv {A B} (m : M A) (f : A -> M B) s s' b :
  quiet m -> (m ≫= f) s = Ret (s', b) -> exists a s1, engines s1 = engines s /\ f a s1 = Ret (s', b).
Proof.
  intros Hm H. unfold mbind, M_bind in H. pose proof (Hm s) as Hs. unfold wp in Hs.
  destruct (m s) as [[s1 a]| | |]; try done. destruct Hs. eauto.
Qed.

Lemma modify_bind_inv {B} k F (f : unit -> M B) s s' b :
  (modify k F ≫= f) s = Ret (s', b) ->
  exists e, engines s !! k = Some e /\ f tt (mkSys (os s) (mem s) (<[k := F e]> (engines s))) = Ret (s', b).
Proof.
  unfold mbind, M_bind, modify. intros H. destruct (engines s !! k) as [e|]; [|done]. by exists e.
Qed.

Lemma quiet_recv_loop fuel time sock ep c buf k : quiet (recv_loop fuel time sock ep c buf k).
Proof. intros s. by apply recv_loop_quiet. Qed.
Lemma quiet_timeout_loop fuel time c : quiet (lift (timeout_loop fuel time c)).
Proof. intros s. by apply timeout_loop_wp. Qed.
Lemma quiet_transmit_loop fuel time sock c buf : quiet (transmit_loop fuel time sock c buf).
Proof. intros s. by apply transmit_loop_quiet. Qed.

Lemma growing_http3_drive h fuel k conn : respects (evolved h) (net_http3_drive fuel k conn).
Proof.
  unfold net_http3_drive. case_match; [apply (respects_ret (evolved h))|]. apply growing_deref_bind.
  intros e s s' a He. destruct (quic_endpoints e !! conn) as [entry|] eqn:Een.
  2:{ by apply (respects_ret (evolved h)). }
  intros Hr. apply quiet_bind_inv in Hr as (time & s1 & E1 & Hr); [|apply quiet_os].
  apply quiet_bind_inv in Hr as ([[[ep q] buf] n] & s2 & E2 & Hr); [|apply quiet_recv_loop].
  apply modify_bind_inv in Hr as (e1 & He1 & Hr). rewrite E2, E1, He in He1. injection He1 as <-.
  transitivity (mkSys (os s2) (mem s2)
    (<[k := with_quic_endpoints (insert conn (set_endpoint entry ep)) e]> (engines s2))).
  { eapply (evolved_insert h k _ s); [|cbn; by rewrite E2, E1].
    intros e0 He0. simplify_eq. apply evolves_quic, no_reuse_insert_live. eauto. }
  revert Hr. destruct q as [q|]; [|by apply (respects_ret (evolved h))]. apply (respects_bind (evolved h)).
  { apply (respects_quiet (evolved h)), quiet_timeout_loop. }
  intros c. apply (respects_bind (evolved h)); [apply (respects_quiet (evolved h)), quiet_transmit_loop|]. intros c'.
  apply (respects_bind (evolved h)); [|intros ?; apply (respects_ret (evolved h))]. apply growing_modify.
  intros e0. split; try done; by intros i.
Qed.
End Calls.

(** ** The three calls that hand out handles, and the engines themselves *)

Section Steps.
Context {N : Net}.
Implicit Types (s : sys) (h n : Z).

(** A counter below 2^64 - 1 moves up by one. *)
Lemma bump_evolves n mm e :
  engine_wf n mm e -> n < 2 ^ 64 - 2 ->
  evolves e (bump_conn_id e) /\ evolves e (bump_tls_id e) /\ evolves e (bump_quic_id e).
Proof.
  intros Hw Hn. pose proof (wf_conn _ _ _ Hw). pose proof (wf_tls _ _ _ Hw). pose proof (wf_quic _ _ _ Hw).
  unfold bump_conn_id, bump_tls_id, bump_quic_id, usize, wrap.
  split_and!; split; cbn; rewrite ?Z.mod_small by lia; try lia; by intros id.
Qed.

(** Entering something at the counter before it moved up. *)
Lemma evolves_insert_conn e e1 c :
  evolves e e1 -> evolves e (with_connections (insert (next_conn_id e) c) e1).
Proof.
  intros []. split; try done. cbn. intros id Hid H. rewrite lookup_insert_ne by lia. auto.
Qed.
Lemma evolves_insert_tls e e1 st :
  evolves e e1 -> evolves e (with_tls_states (insert (next_tls_id e) st) e1).
Proof.
  intros []. split; try done. cbn. intros id Hid H. rewrite lookup_insert_ne by lia. auto.
Qed.
Lemma evolves_insert_quic e e1 ep q :
  evolves e e1 ->
  evolves e (with_quic_conns (insert (next_quic_id e) q)
               (with_quic_endpoints (insert (next_quic_id e) ep) e1)).
Proof.
  intros []. split; try done. cbn. intros id Hid H. rewrite lookup_insert_ne by lia. auto.
Qed.

Lemma wp_run {A} (m : M A) Q s s' a : wp m Q s -> m s = Ret (s', a) -> Q a s'.
Proof. unfold wp. intros H Hr. by rewrite Hr in H. Qed.

(** The calls that allocate. *)
Lemma alloc_evolves n s h k s' :
  sys_wf n s -> n < 2 ^ 64 - 2 -> handle_ok s k ->
  (exists host port hs id, host_arg host = Ret hs /\ net_connect k host port s = Ret (s', id))
  \/ (exists fuel host port o id, strict_host host = Ret o
        /\ net_tls_create fuel k (Some host) port s = Ret (s', id))
  \/ (exists host port hs id, host_arg host = Ret hs /\ net_http3_connect k host port s = Ret (s', id)) ->
  evolved h s s'.
Proof.
  intros Hw Hn Hk Hrun. destruct (decide (k = NULL)) as [->|Hne].
  { destruct Hrun as [(? & ? & ? & ? & _ & H)|[(? & ? & ? & ? & ? & _ & H)|(? & ? & ? & ? & _ & H)]];
      injection H as <- <-; reflexivity. }
  destruct Hk as [?|[e He]]; [done|].
  destruct (bump_evolves n (mem s) e) as (B1 & B2 & B3); [by eapply sys_wf_lookup|done|].
  assert (Hins : forall e', engines s' = <[k := e']> (engines s) -> evolves e e' -> evolved h s s').
  { intros e' E He'. eapply evolved_insert; [|exact E]. intros e0 He0. by simplify_eq. }
  destruct Hrun as [(host & port & hs & id & Hh & H)
    |[(fuel & host & port & o & id & Hh & H)|(host & port & hs & id & Hh & H)]].
  - eapply wp_run in H; [|by eapply net_connect_run]. destruct H as (_ & e' & E & H).
    eapply Hins; [exact E|]. destruct H as [[_ [-> | ->]]|[-> [st ->]]]; [reflexivity|done|].
    by apply evolves_insert_conn.
  - eapply wp_run in H; [|by eapply net_tls_create_run].
    destruct H as (_ & [E|[st E]]); [by apply evolved_engines|]. eapply Hins; [exact E|].
    by apply evolves_insert_tls.
  - eapply wp_run in H; [|by eapply net_http3_connect_run]. destruct H as (_ & e' & E & H).
    eapply Hins; [exact E|]. destruct H as [[_ [-> | ->]]|[-> (ep & q & _ & ->)]]; [reflexivity|done|].
    by apply evolves_insert_quic.
Qed.

Lemma discard_inv {A} (m : M A) s s' : discard m s = Ret (s', tt) -> exists a, m s = Ret (s', a).
Proof.
  intros H. unfold discard, mbind, M_bind in H. cbn in H.
  destruct (m s) as [[s1 a]| | |]; try done. injection H as <-. by exists a.
Qed.

Lemma create_evolves h r addr s s' a :
  engines s !! addr = None -> net_engine_create r addr s = Ret (s', a) -> evolved h s s'.
Proof.
  intros Hn H. destruct r; injection H as <- <-; [|reflexivity].
  eapply evolved_insert; [|done]. intros e He. congruence.
Qed.

Lemma destroy_evolves h k s s' a : k <> h -> net_engine_destroy k s = Ret (s', a) -> evolved h s s'.
Proof.
  intros Hne. unfold net_engine_destroy. case_match; [by intros [= <- <-]|].
  intros Hr. unfold mbind, M_bind, deref in Hr. cbn in Hr.
  destruct (engines s !! k) as [e|]; [|done]. injection Hr as <- <-.
  intros e0 He0. exists e0. cbn. rewrite lookup_delete_ne by done. split; [done|reflexivity].
Qed.

Lemma exec_evolves n h c s s' :
  sys_wf n s -> n < 2 ^ 64 - 2 -> allowed s c -> c <> SDestroy h -> exec c s = Ret (s', tt) ->
  evolved h s s'.
Proof.
  intros Hw Hn Ha Hc H. destruct c; cbn [exec allowed] in *; try apply discard_inv in H as [a H].
  - eapply create_evolves; [apply Ha|exact H].
  - eapply destroy_evolves; [|exact H]. congruence.
  - destruct Ha as [Ha [t Ht]]. eapply alloc_evolves; [done..|]. left. by eexists _, _, _, _.
  - by eapply growing_close.
  - by eapply growing_read.
  - by eapply growing_write.
  - by eapply growing_poll.
  - by eapply (proj1 (growing_ring_calls h _ 0 id ptr)).
  - by eapply (proj1 (proj2 (growing_ring_calls h _ 0 id 0))).
  - by eapply (proj2 (proj2 (growing_ring_calls h _ conn id 0))).
  - destruct Ha as [Ha Hhost]. destruct host as [mm|].
    + destruct Hhost as [?|Hhost]; [done|]. apply strict_host_ret in Hhost as [o Ho].
      eapply alloc_evolves; [done..|]. right. left. by eexists _, _, _, _, _.
    + revert H. unfold net_tls_create. case_match; apply (respects_ret (evolved h)).
  - by eapply growing_tls_read.
  - by eapply growing_tls_write.
  - by eapply (proj1 (growing_tls_queries h _ id None)).
  - by eapply (proj1 (proj2 (growing_tls_queries h _ id None))).
  - by eapply (proj2 (proj2 (growing_tls_queries h _ id out))).
  - by eapply growing_tls_close.
  - destruct Ha as [Ha [t Ht]]. eapply alloc_evolves; [done..|]. right. right. by eexists _, _, _, _.
  - by eapply growing_http3_drive.
  - by eapply growing_http3_close.
  - injection H as <-. by apply evolved_engines.
  - eapply (respects_bind (evolved h)); [|intros ?|exact H]; [apply (respects_deref_ring (evolved h))|intros ?; apply growing_store_ring].
  - injection H as <-. by apply evolved_engines.
Qed.
End Steps.

(** ** Properties *)

(** [k] allowed calls that returned, none of which destroys the engine at [h]. *)
Inductive continues {N : Net} (h : Z) (s : sys) : Z -> sys -> Prop :=
| continues_start : continues h s 0 s
| continues_call k s1 c s2 :
    continues h s k s1 -> allowed s1 c -> c <> SDestroy h -> exec c s1 = Ret (s2, tt) ->
    continues h s (k + 1) s2.

Lemma continues_nonneg {N : Net} h s k s' : continues h s k s' -> 0 <= k.
Proof. induction 1; lia. Qed.

Lemma continues_runs {N : Net} n h s k s' : runs n s -> continues h s k s' -> runs (n + k) s'.
Proof.
  intros Hr. induction 1 as [|k s1 c s2 _ IH Ha _ He]; [by rewrite Z.add_0_r|].
  rewrite Z.add_assoc. by eapply runs_call.
Qed.

Lemma continues_evolved {N : Net} n h s k s' :
  runs n s -> n + k < 2 ^ 64 - 2 -> continues h s k s' -> evolved h s s'.
Proof.
  intros Hr. induction 2 as [|k s1 c s2 Hk IH Ha Hc He]; [reflexivity|].
  transitivity s1; [apply IH; lia|]. pose proof (continues_runs n h s k s1 Hr Hk) as Hr1.
  eapply exec_evolves; [apply runs_wf; [exact Hr1|lia]| |exact Ha|exact Hc|exact He]. lia.
Qed.

(** What the engine answers about a connection it does not have. *)
Lemma unknown_connection {N : Net} n s h e conn fuel buf data cnt :
  sys_wf n s -> engines s !! h = Some e -> connections e !! conn = None ->
  net_read h conn buf cnt s = Ret (s, (NS_ERROR_FAILURE, buf, cnt))
  /\ net_write fuel h conn data cnt s = Ret (s, (NS_ERROR_FAILURE, cnt))
  /\ net_close h conn s = Ret (s, NS_ERROR_FAILURE).
Proof.
  intros Hw He Hc. unfold net_read, net_write, net_close.
  destruct ((h =? NULL) || (conn =? NULL)) eqn:E; [done|].
  pose proof (deref_run s h e He) as Hd.
  split_and!; [destruct buf as [dst|]|destruct data as [src|]|]; try done;
    unfold mbind, M_bind; cbn beta iota; rewrite Hd; cbn; [|by rewrite Hc..].
  destruct (bound_ring e conn) as [p|] eqn:Eb; [|by rewrite Hc].
  assert (Hp : exists r, mem s !! p = Some r).
  { pose proof (sys_wf_lookup _ _ _ _ Hw He) as Hwe. unfold bound_ring in Eb.
    apply bind_Some in Eb as (id & _ & Hid). destruct (wf_rings _ _ _ Hwe id p Hid) as (r & Hr & _). eauto. }
  destruct Hp as [r Hr]. unfold net_read_ring, deref_ring, mbind, M_bind. cbn. rewrite Hr. cbn.
  rewrite Hd. cbn. by rewrite Hc.
Qed.

(** C11: a closed connection handle is dead for the life of its engine.  Take a handle
    the engine has handed out and no longer knows.  After any further allowed calls
    that leave the engine alive (opening any number of other connections), in any
    order and with any behaviour of the network, the handle is still unknown: reading,
    writing and closing it fail and change nothing.  Handles are never handed out
    twice. *)
Theorem closed_handle_stays_closed {N : Net} (n k : Z) (s s' : sys) (h conn : Z) (e : NetEngine)
    (fuel : nat) (buf data : option bytes) (cnt : option Z)
    (Hr : runs n s) (Hk : continues h s k s') (Hn : n + k < 2 ^ 64 - 2)
    (He : engines s !! h = Some e) (Hout : conn < next_conn_id e) (Hgone : connections e !! conn = None) :
  net_read h conn buf cnt s' = Ret (s', (NS_ERROR_FAILURE, buf, cnt))
  /\ net_write fuel h conn data cnt s' = Ret (s', (NS_ERROR_FAILURE, cnt))
  /\ net_close h conn s' = Ret (s', NS_ERROR_FAILURE).
Proof.
  destruct (continues_evolved n h s k s' Hr Hn Hk e He) as (e' & He' & Hev).
  apply unknown_connection with (n := n + k) (e := e'); [|done|by apply Hev].
  apply runs_wf; [by eapply continues_runs|done].
Qed.


(** The state after a call, for the witness. *)
Definition after (c : call (N := Toy.net)) (s : @sys Toy.net) : @sys Toy.net :=
  match exec c s with Ret (s', _) => s' | _ => s end.

Definition toy_connect : call (N := Toy.net) := SConnect 100 (Some (c_mem (lit "h"))) 80.
Definition toy_start : @sys Toy.net := @mkSys Toy.net Toy.world0 ∅ ∅.
Definition toy_closed : @sys Toy.net :=
  after (SClose 100 1) (after toy_connect (after (SCreate (Ok tt) 100) toy_start)).

Lemma toy_connect_allowed (s : @sys Toy.net) : is_Some (engines s !! 100) -> allowed s toy_connect.
Proof. intros Hs. split; [by right|]. eexists. vm_compute. reflexivity. Qed.

Lemma toy_closed_runs : runs 3 toy_closed.
Proof.
  apply (runs_call 2 (after toy_connect (after (SCreate (Ok tt) 100) toy_start)) (SClose 100 1));
    [|right; by eexists|reflexivity].
  apply (runs_call 1 (after (SCreate (Ok tt) 100) toy_start) toy_connect);
    [|apply toy_connect_allowed; by eexists|reflexivity].
  apply (runs_call 0 toy_start (SCreate (Ok tt) 100)); [by constructor|by split|reflexivity].
Qed.

(** Connection 1 is opened and closed; the next one is number 2, and 1 stays dead. *)
Theorem closed_handle_stays_closed_witness :
  net_close (N := Toy.net) 100 1 (after toy_connect toy_closed)
  = Ret (after toy_connect toy_closed, NS_ERROR_FAILURE)
  /\ exists e, engines (after toy_connect toy_closed) !! 100 = Some e /\ is_Some (connections e !! 2).
Proof.
  split; [|eexists; split; [reflexivity|by eexists]].
  eapply (closed_handle_stays_closed (N := Toy.net) 3 1 toy_closed (after toy_connect toy_closed) 100 1
    _ 0 None None None toy_closed_runs).
  - apply (continues_call 100 toy_closed 0 toy_closed toy_connect); [constructor| |done|reflexivity].
    apply toy_connect_allowed. by eexists.
  - by_eval.
  - reflexivity.
  - by_eval.
  - reflexivity.
Defined.
