(* ===== verification/Reads.v ===== *)
(** * What a caller gets to read over the life of a connection

    The counterpart of [Stream] for connections that are not bound to a ring: the
    bytes [net_read] hands to its caller, over any further use of the engine, against
    the bytes the socket gave.  What a TLS session does with its bytes is stated by
    [TlsSession]; the engine's part is to feed each byte to the session of this
    connection once, in order, and to keep the session between the calls. *)

From S2P Require Import Prelude Utf8 Str Ffi Ring Net Engine Conn Tls Quic System Lifetime.

(** What [read_tls] took of its input. *)
Definition part_taken (r : result Z unit) (b : bytes) : bytes :=
  match r with Ok n => take (Z.to_nat n) b | Err _ => [] end.

(** A session of rustls: [carries k t raw out] when the session [t] has taken the
    records [raw] and handed out the plaintext [out].  Under the key [k], [reveal k raw]
    is what the peer has sent in the records [raw]; the session hands it out in order. *)
Class TlsSession `(Net) (K : Type) := {
  carries : K -> Tls -> bytes -> bytes -> Prop;
  reveal : K -> bytes -> bytes;
  carries_new host t : tls_new host = Some t -> exists k, carries k t [] [];
  carries_read_tls k t raw out b :
    carries k t raw out ->
    carries k (fst (read_tls t b)) (raw ++ part_taken (snd (read_tls t b)) b) out;
  carries_process k t raw out : carries k t raw out -> carries k (fst (process_new_packets t)) raw out;
  carries_reader k t raw out n :
    carries k t raw out ->
    carries k (fst (reader_read t n)) raw
      (out ++ match snd (reader_read t n) with Ok data => data | Err _ => [] end);
  carries_writer k t raw out b : carries k t raw out -> carries k (fst (writer_write t b)) raw out;
  carries_write_tls k t raw out w st :
    carries k t raw out -> carries k (snd (fst (write_tls w t st))) raw out;
  carries_reveal k t raw out : carries k t raw out -> out `prefix_of` reveal k raw;
}.

Section Reads.
Context {N : Net} {K : Type} {TS : TlsSession N K}.
(** The engine and the connection. *)
Context (h conn : Z).
Implicit Types (s : sys) (d t : bytes).

(** ** The connection's history *)

(** The connection has been given [d] and has given its caller [t]. *)
Definition history (k : K) (o : option Tls) d t : Prop :=
  match o with Some ts => carries k ts d t | None => t = d end.

(** The bytes a read into [dst] moves from the socket into the connection: those the
    session takes of a chunk, without a session those the caller asked for. *)
Definition fed s (dst : bytes) : bytes :=
  match engines s !! h ≫= (fun e => connections e !! conn) with
  | Some c =>
      match tlsconn c with
      | Some ts =>
          match snd (sock_read (os s) (stream c) MAX_BUFFER_SIZE) with
          | Ok [] | Err _ => []
          | Ok raw => part_taken (snd (read_tls ts raw)) raw
          end
      | None =>
          match snd (sock_read (os s) (stream c) (Z.of_nat (length dst))) with Ok data => data | Err _ => [] end
      end
  | None => []
  end.

(** What the caller knows to have received: as many bytes of the buffer as the count
    says, when the call succeeded. *)
Definition received (a : Z * option bytes * option Z) : bytes :=
  match a with
  | (code, Some dst, Some n) => if code =? NS_OK then take (Z.to_nat n) dst else []
  | _ => []
  end.

(** The connection is bound to a registered ring: its reads go to the ring. *)
Definition bound s : bool :=
  match engines s !! h with
  | Some e => match bound_ring e conn with Some _ => true | None => false end
  | None => false
  end.

(** The calls of everyone else: any, but those that end the connection and its reads
    past a ring. *)
Definition spares s (c : call) : Prop :=
  match c with
  | SDestroy k => k <> h
  | SClose k id => k <> h \/ id <> conn
  | SRead k id _ _ => k <> h \/ id <> conn \/ bound s = true
  | _ => True
  end.

(** [life s n d t s']: after [n] allowed calls the connection has been given [d] and
    its caller has received [t]. *)
Inductive life s : Z -> bytes -> bytes -> sys -> Prop :=
| life_start : life s 0 [] [] s
| life_read n d t s1 dst cnt s2 a :
    life s n d t s1 -> handle_ok s1 h -> bound s1 = false ->
    net_read h conn (Some dst) (Some cnt) s1 = Ret (s2, a) ->
    life s (n + 1) (d ++ fed s1 dst) (t ++ received a) s2
| life_call n d t s1 c s2 :
    life s n d t s1 -> allowed s1 c -> spares s1 c -> exec c s1 = Ret (s2, tt) ->
    life s (n + 1) d t s2.

(** ** What the other calls leave alone *)

Definition same_history (o o' : option Tls) : Prop :=
  (is_Some o <-> is_Some o') /\ forall k d t, history k o d t -> history k o' d t.

Definition keeps s s' : Prop :=
  forall e c, engines s !! h = Some e -> connections e !! conn = Some c ->
  exists e' c', engines s' !! h = Some e' /\ connections e' !! conn = Some c'
  /\ same_history (tlsconn c) (tlsconn c').

#[export] Instance same_history_preorder : PreOrder same_history.
Proof. split; [by split|]. intros o1 o2 o3 [I1 H1] [I2 H2]. split; [by rewrite I1|auto]. Qed.

#[export] Instance keeps_order : SysOrder keeps.
Proof.
  split; [split|].
  - intros s e c He Hc. exists e, c. split_and!; [done..|reflexivity].
  - intros s1 s2 s3 H1 H2 e c He Hc. destruct (H1 e c He Hc) as (e2 & c2 & He2 & Hc2 & S2).
    destruct (H2 e2 c2 He2 Hc2) as (e3 & c3 & He3 & Hc3 & S3). exists e3, c3.
    split_and!; [done..|by transitivity (tlsconn c2)].
  - intros s w e c He Hc. exists e, c. split_and!; [done..|reflexivity].
Qed.

Lemma keeps_engines s s' : engines s' = engines s -> keeps s s'.
Proof. intros E e c He Hc. exists e, c. rewrite E. split_and!; [done..|reflexivity]. Qed.

(** An engine replaced by one with the same connection. *)
Lemma keeps_insert s s' k e' :
  engines s' = <[k := e']> (engines s) ->
  (k = h -> forall e c, engines s !! h = Some e -> connections e !! conn = Some c ->
   exists c', connections e' !! conn = Some c' /\ same_history (tlsconn c) (tlsconn c')) ->
  keeps s s'.
Proof.
  intros E H e c He Hc. rewrite E. destruct (decide (k = h)) as [->|Hne].
  - destruct (H eq_refl e c He Hc) as (c' & Hc' & Hs). exists e', c'. by rewrite lookup_insert_eq.
  - exists e, c. rewrite lookup_insert_ne by done. split_and!; [done..|reflexivity].
Qed.

Lemma keeps_modify k f :
  (k = h -> forall e c, connections e !! conn = Some c ->
   exists c', connections (f e) !! conn = Some c' /\ same_history (tlsconn c) (tlsconn c')) ->
  respects keeps (modify k f).
Proof.
  intros H. apply respects_modify. intros s e He. eapply keeps_insert; [done|].
  intros -> e0 c He0 Hc. rewrite He in He0. injection He0 as <-. by apply H.
Qed.

(** Changes elsewhere in the engine. *)
Lemma keeps_elsewhere k f : (forall e, connections (f e) = connections e) -> respects keeps (modify k f).
Proof. intros H. apply keeps_modify. intros _ e c Hc. exists c. rewrite H. by split. Qed.

Lemma keeps_update k id f : (forall c, tlsconn (f c) = tlsconn c) -> respects keeps (update_conn k id f).
Proof.
  intros Hf. apply keeps_modify. intros _ e c Hc. cbn. destruct (decide (id = conn)) as [->|Hne].
  - exists (f c). rewrite lookup_alter_eq, Hc, Hf. by split.
  - exists c. rewrite lookup_alter_ne by done. by split.
Qed.

Lemma keeps_store_ring p r : respects keeps (store_ring p r).
Proof. intros s s' a [= <- <-]. by apply keeps_engines. Qed.

Lemma keeps_same_but k id s s' : k <> h \/ id <> conn -> same_but k id s s' -> keeps s s'.
Proof.
  intros Hne [H1 H2] e c He Hc. destruct (decide (k = h)) as [->|Hk].
  - rewrite He in H2. destruct H2 as (m & E & Hm).
    assert (conn <> id) by (destruct Hne; congruence).
    exists (with_connections (fun _ => m) e), c. cbn. rewrite Hm by done. split_and!; [done..|reflexivity].
  - exists e, c. rewrite H1 by done. split_and!; [done..|reflexivity].
Qed.

(** ** The session through a write *)

Lemma same_session (ts ts' : Tls) :
  (forall k d t, carries k ts d t -> carries k ts' d t) -> same_history (Some ts) (Some ts').
Proof. intros H. split; [by split; eexists|exact H]. Qed.

Lemma flush_session fuel st ts s s' ts' ok :
  flush_loop fuel st ts s = Ret (s', (ts', ok)) ->
  engines s' = engines s /\ same_history (Some ts) (Some ts').
Proof.
  revert ts s. induction fuel as [|fuel IH]; intros ts s; cbn [flush_loop];
    destruct (wants_write ts); try done; try by intros [= <- <- <-].
  unfold mbind, M_bind, os_op. destruct (write_tls (os s) ts st) as [[w ts1] r] eqn:E. cbn.
  assert (H1 : same_history (Some ts) (Some ts1)).
  { apply same_session. intros k d t Hc. apply (carries_write_tls _ _ _ _ (os s) st) in Hc. by rewrite E in Hc. }
  destruct r as [n|[]]; [|by intros [= <- <- <-]..].
  intros H. apply IH in H as [E2 H2]. split; [done|by etransitivity].
Qed.

(** Storing what became of the connection's session. *)
Lemma keeps_set_tls s s1 e c ts' a :
  engines s !! h = Some e -> connections e !! conn = Some c -> engines s1 = engines s ->
  same_history (tlsconn c) (Some ts') ->
  update_conn h conn (fun c => set_tls c (Some ts')) s1 = Ret (a, tt) -> keeps s a.
Proof.
  intros He Hc E Hs H. unfold update_conn, modify in H. rewrite E, He in H. injection H as <-.
  eapply keeps_insert; [done|]. intros _ e0 c0 He0 Hc0. rewrite He in He0. injection He0 as <-.
  rewrite Hc in Hc0. injection Hc0 as <-. cbn. rewrite lookup_alter_eq, Hc.
  by exists (set_tls c (Some ts')).
Qed.

Lemma keeps_write fuel k id data cnt : respects keeps (net_write fuel k id data cnt).
Proof.
  intros s s' a H. destruct (decide (k = h /\ id = conn)) as [[-> ->]|Hne].
  2:{ apply (keeps_same_but k id); [destruct (decide (k = h)); [right|left]; naive_solver|].
      by eapply framed_write. }
  revert H. unfold net_write.
  destruct ((h =? NULL) || (conn =? NULL)); [intros [= <- _]; reflexivity|].
  destruct data as [src|]; [|intros [= <- _]; reflexivity].
  unfold mbind, M_bind, deref. destruct (engines s !! h) as [e|] eqn:He; [|done]. cbn.
  destruct (connections e !! conn) as [c|] eqn:Hc; [|intros H; injection H as <- _; reflexivity].
  destruct (tlsconn c) as [ts|] eqn:Ht.
  - destruct (writer_write ts src) as [ts1 r] eqn:Ew.
    assert (H1 : same_history (Some ts) (Some ts1)).
    { apply same_session. intros k d t Hk. apply (carries_writer _ _ _ _ src) in Hk. by rewrite Ew in Hk. }
    destruct r as [n|].
    + destruct (flush_loop fuel (stream c) ts1 s) as [[s1 [ts2 ok]]| | |] eqn:Ef; try done.
      apply flush_session in Ef as [E2 H2]. cbn.
      destruct (update_conn h conn (fun c => set_tls c (Some ts2)) s1) as [[s2 []]| | |] eqn:Eu; [|done..].
      intros H. assert (s2 = s') as <- by (destruct ok; by injection H).
      eapply keeps_set_tls; [done..| |exact Eu]. rewrite Ht. by etransitivity.
    + cbn. destruct (update_conn h conn (fun c => set_tls c (Some ts1)) s) as [[s2 []]| | |] eqn:Eu; [|done..].
      intros [= <- _]. eapply keeps_set_tls; [done..| |exact Eu]. by rewrite Ht.
  - unfold os_op. destruct (sock_write (os s) (stream c) src) as [w [n|]]; cbn;
      intros [= <- _]; by apply keeps_engines.
Qed.

(** ** All the other calls *)

#[local] Hint Resolve keeps_store_ring keeps_elsewhere keeps_update : respects.
#[local] Hint Extern 1 (respects _ (update_tls _ _ _)) => apply keeps_elsewhere : respects.
#[local] Hint Extern 1 (respects _ (flush_loop _ _ _)) => apply (respects_quiet keeps), quiet_flush_loop : respects.
#[local] Hint Extern 1 (respects _ (read_loop _ _ _)) => apply (respects_quiet keeps), quiet_read_loop : respects.
#[local] Hint Extern 1 (respects _ (recv_loop _ _ _ _ _ _ _)) =>
  apply (respects_quiet keeps), quiet_recv_loop : respects.
#[local] Hint Extern 1 (respects _ (transmit_loop _ _ _ _ _)) =>
  apply (respects_quiet keeps), quiet_transmit_loop : respects.
#[local] Hint Extern 1 (respects _ (lift (timeout_loop _ _ _))) =>
  apply (respects_quiet keeps), quiet_timeout_loop : respects.

(** A read of this connection while it is bound goes to the ring. *)
Lemma keeps_read_ring p cnt : respects keeps (net_read_ring h conn p cnt).
Proof. unfold net_read_ring. respects. Qed.

Lemma keeps_read k id buf cnt s s' a :
  k <> h \/ id <> conn \/ bound s = true -> net_read k id buf cnt s = Ret (s', a) -> keeps s s'.
Proof.
  intros Hne H. destruct (decide (k = h /\ id = conn)) as [[-> ->]|Hd].
  2:{ apply (keeps_same_but k id); [destruct (decide (k = h)); [right|left]; naive_solver|].
      by eapply framed_read. }
  destruct Hne as [?|[?|Hb]]; [done..|]. unfold bound in Hb. revert H. unfold net_read.
  destruct ((h =? NULL) || (conn =? NULL)); [intros [= <- _]; reflexivity|].
  destruct buf as [dst|]; [|intros [= <- _]; reflexivity].
  unfold mbind, M_bind, deref. destruct (engines s !! h) as [e|]; [|done]. cbn.
  destruct (bound_ring e conn) as [p|]; [|done].
  destruct (net_read_ring h conn p cnt s) as [[s1 [code n]]| | |] eqn:E; [|done..].
  intros H. injection H as <- _. by eapply keeps_read_ring.
Qed.

Lemma keeps_poll k ms order : respects keeps (net_poll k ms order).
Proof.
  assert (Hr : respects keeps (resume_all k order)).
  { induction order as [|[id r] order IH]; cbn; unfold resume_one; respects. }
  unfold net_poll, NetEngine_poll. respects.
Qed.

Lemma keeps_ring_calls k id ptr cid :
  respects keeps (net_body_ring_register k id ptr) /\ respects keeps (net_body_ring_unregister k id)
  /\ respects keeps (net_conn_bind_body_ring k cid id).
Proof.
  unfold net_body_ring_register, net_body_ring_unregister, net_conn_bind_body_ring. split_and!; respects.
Qed.

Lemma keeps_tls_calls fuel k id buf cnt :
  respects keeps (net_tls_read fuel k id buf cnt) /\ respects keeps (net_tls_write fuel k id buf cnt)
  /\ respects keeps (net_tls_protocol_version k id) /\ respects keeps (net_tls_verify_result k id)
  /\ respects keeps (net_tls_peer_certificate k id buf) /\ respects keeps (net_tls_close k id).
Proof.
  unfold net_tls_read, net_tls_write, net_tls_protocol_version, net_tls_verify_result,
    net_tls_peer_certificate, net_tls_close. split_and!; respects.
Qed.

Lemma keeps_http3 fuel k id :
  respects keeps (net_http3_drive fuel k id) /\ respects keeps (net_http3_close k id).
Proof. unfold net_http3_drive, net_http3_close. split; respects. Qed.

Lemma keeps_close k id s s' a : k <> h \/ id <> conn -> net_close k id s = Ret (s', a) -> keeps s s'.
Proof. intros Hne H. eapply keeps_same_but; [exact Hne|]. by eapply framed_close. Qed.

Lemma keeps_create r addr s s' a :
  engines s !! addr = None -> net_engine_create r addr s = Ret (s', a) -> keeps s s'.
Proof.
  intros Hn H. destruct r; injection H as <- <-; [|reflexivity].
  eapply keeps_insert; [done|]. intros -> e c He. congruence.
Qed.

Lemma keeps_destroy k s s' a : k <> h -> net_engine_destroy k s = Ret (s', a) -> keeps s s'.
Proof.
  intros Hne. unfold net_engine_destroy. case_match; [by intros [= <- <-]|].
  intros Hr. unfold mbind, M_bind, deref in Hr. cbn in Hr.
  destruct (engines s !! k) as [e|]; [|done]. injection Hr as <- <-.
  intros e0 c He Hc. exists e0, c. cbn. rewrite lookup_delete_ne by done. split_and!; [done..|reflexivity].
Qed.

(** The calls that hand out handles, to an engine that is there. *)
Lemma keeps_alloc n s k s' id :
  sys_wf n s -> handle_ok s k ->
  (exists host port hs, host_arg host = Ret hs /\ net_connect k host port s = Ret (s', id))
  \/ (exists fuel host port o, strict_host host = Ret o
        /\ net_tls_create fuel k (Some host) port s = Ret (s', id))
  \/ (exists host port hs, host_arg host = Ret hs /\ net_http3_connect k host port s = Ret (s', id)) ->
  keeps s s'.
Proof.
  intros Hw Hk Hrun. destruct (decide (k = NULL)) as [->|Hne].
  { destruct Hrun as [(? & ? & ? & _ & H)|[(? & ? & ? & ? & _ & H)|(? & ? & ? & _ & H)]];
      injection H as <- <-; reflexivity. }
  destruct Hk as [?|[e He]]; [done|].
  assert (Hins : forall e', engines s' = <[k := e']> (engines s) ->
    (forall c, connections e !! conn = Some c -> connections e' !! conn = Some c) -> keeps s s').
  { intros e' E He'. eapply keeps_insert; [exact E|]. intros -> e0 c He0 Hc.
    rewrite He in He0. injection He0 as <-. exists c. by split; [apply He'|]. }
  destruct Hrun as [(host & port & hs & Hh & H)|[(fuel & host & port & o & Hh & H)|(host & port & hs & Hh & H)]].
  - eapply wp_run in H; [|by eapply net_connect_run]. destruct H as (_ & e' & E & H).
    eapply Hins; [exact E|]. intros c Hc. destruct H as [[_ [-> | ->]]|[-> [st ->]]]; [done..|]. cbn.
    rewrite lookup_insert_ne; [exact Hc|]. intros <-.
    by rewrite (ids_below_fresh _ _ (wf_connections _ _ _ (sys_wf_lookup _ _ _ _ Hw He))) in Hc.
  - eapply wp_run in H; [|by eapply net_tls_create_run].
    destruct H as (_ & [E|[st E]]); [by apply keeps_engines|by eapply Hins].
  - eapply wp_run in H; [|by eapply net_http3_connect_run]. destruct H as (_ & e' & E & H).
    eapply Hins; [exact E|]. by destruct H as [[_ [-> | ->]]|[_ (? & ? & _ & ->)]].
Qed.

Lemma exec_keeps n c s s' :
  sys_wf n s -> allowed s c -> spares s c -> exec c s = Ret (s', tt) -> keeps s s'.
Proof.
  intros Hw Ha Hs H. destruct c; cbn [exec allowed spares] in *; try apply discard_inv in H as [a H].
  - by eapply keeps_create; [apply Ha|exact H].
  - by eapply keeps_destroy.
  - destruct Ha as [Ha [hs Hh]]. eapply keeps_alloc; [done..|]. left. by eexists _, _, _.
  - by eapply keeps_close.
  - by eapply keeps_read.
  - by eapply keeps_write.
  - by eapply keeps_poll.
  - by eapply (proj1 (keeps_ring_calls _ id ptr 0)).
  - by eapply (proj1 (proj2 (keeps_ring_calls _ id 0 0))).
  - by eapply (proj2 (proj2 (keeps_ring_calls _ id 0 _))).
  - destruct Ha as [Ha Hhost]. destruct host as [mm|].
    + destruct Hhost as [?|Hhost]; [done|]. apply strict_host_ret in Hhost as [o Ho].
      eapply keeps_alloc; [done..|]. right. left. by eexists _, _, _, _.
    + revert H. unfold net_tls_create. case_match; apply (respects_ret keeps).
  - by eapply (proj1 (keeps_tls_calls _ _ id buffer count)).
  - by eapply (proj1 (proj2 (keeps_tls_calls _ _ id data count))).
  - by eapply (proj1 (proj2 (proj2 (keeps_tls_calls 0 _ id None None)))).
  - by eapply (proj1 (proj2 (proj2 (proj2 (keeps_tls_calls 0 _ id None None))))).
  - by eapply (proj1 (proj2 (proj2 (proj2 (proj2 (keeps_tls_calls 0 _ id out None)))))).
  - by eapply (proj2 (proj2 (proj2 (proj2 (proj2 (keeps_tls_calls 0 _ id None None)))))).
  - destruct Ha as [Ha [hs Hh]]. eapply keeps_alloc; [done..|]. right. right. by eexists _, _, _.
  - by eapply (proj1 (keeps_http3 fuel _ _)).
  - by eapply (proj2 (keeps_http3 0 _ _)).
  - injection H as <-. by apply keeps_engines.
  - eapply (respects_bind keeps); [|intros ?|exact H]; [apply (respects_deref_ring keeps)|intros ?; apply keeps_store_ring].
  - injection H as <-. by apply keeps_engines.
Qed.

(** ** The connection's own reads *)

(** The connection is there and has the session [o], if any. *)
Definition holds s (o : option Tls) : Prop :=
  exists e c, engines s !! h = Some e /\ connections e !! conn = Some c /\ tlsconn c = o.

Lemma holds_engines s s' o : engines s' = engines s -> holds s o -> holds s' o.
Proof. intros E (e & c & He & Hc & Ht). exists e, c. by rewrite E. Qed.

Lemma holds_set_tls s o ts :
  holds s o -> exists s', update_conn h conn (fun c => set_tls c (Some ts)) s = Ret (s', tt)
  /\ os s' = os s /\ holds s' (Some ts).
Proof.
  intros (e & c & He & Hc & _). unfold update_conn, modify. rewrite He. eexists. split; [done|]. split; [done|].
  eexists _, (set_tls c (Some ts)). cbn. split; [apply lookup_insert_eq|]. cbn. by rewrite lookup_alter_eq, Hc.
Qed.

(** The bytes of one chunk that reach the session [ts]. *)
Definition chunk s (st : Stream) (ts : Tls) : bytes :=
  match snd (sock_read (os s) st MAX_BUFFER_SIZE) with
  | Ok [] | Err _ => []
  | Ok raw => part_taken (snd (read_tls ts raw)) raw
  end.

Lemma feed_tls_history k s c ts d t s' o :
  holds s (Some ts) -> carries k ts d t -> feed_tls h conn c ts s = Ret (s', o) ->
  exists ts', holds s' (Some ts') /\ carries k ts' (d ++ chunk s (stream c) ts) t
  /\ (o = None \/ o = Some ts').
Proof.
  intros Hs Hk. unfold feed_tls, chunk, mbind, M_bind, os_op.
  destruct (sock_read (os s) (stream c) MAX_BUFFER_SIZE) as [w r]. cbn.
  set (s1 := mkSys w (mem s) (engines s)).
  assert (H1 : holds s1 (Some ts)) by done.
  assert (Hsame : forall o', Ret (s1, o') = Ret (s', o) -> o' = None \/ o' = Some ts ->
    exists ts', holds s' (Some ts') /\ carries k ts' (d ++ []) t /\ (o = None \/ o = Some ts')).
  { intros o' [= <- <-] Ho. exists ts. by rewrite app_nil_r. }
  destruct r as [[|b raw]|[]]; [intros H; eapply Hsame; eauto..| |intros H; eapply Hsame; eauto|intros H; eapply Hsame; eauto].
  pose proof (carries_read_tls k ts d t (b :: raw) Hk) as Hr.
  destruct (read_tls ts (b :: raw)) as [ts1 r1]. cbn [fst snd] in Hr. destruct r1 as [n|].
  - pose proof (carries_process _ _ _ _ Hr) as Hp. destruct (process_new_packets ts1) as [ts2 r2]. cbn in Hp |- *.
    destruct (holds_set_tls s1 _ ts2 H1) as (s2 & -> & _ & H2). cbn.
    destruct r2; intros [= <- <-]; exists ts2; eauto.
  - destruct (holds_set_tls s1 _ ts1 H1) as (s2 & -> & _ & H2). cbn. intros [= <- <-]. exists ts1. eauto.
Qed.

Lemma take_put data dst : take (Z.to_nat (Z.of_nat (length data))) (put data dst) = data.
Proof. unfold put. by rewrite Nat2Z.id, take_app_length. Qed.

Lemma received_fail buf cnt : received (NS_ERROR_FAILURE, buf, cnt) = [].
Proof. by destruct buf, cnt. Qed.

Lemma received_ok data dst : received (NS_OK, Some (put data dst), Some (Z.of_nat (length data))) = data.
Proof. apply take_put. Qed.
#[local] Arguments received : simpl never.

Lemma read_tls_history k s c ts d t dst cnt s' code buf n :
  holds s (Some ts) -> carries k ts d t ->
  net_read_tls h conn c ts dst (Some cnt) s = Ret (s', (code, buf, n)) ->
  exists ts', holds s' (Some ts')
  /\ carries k ts' (d ++ chunk s (stream c) ts) (t ++ received (code, Some buf, n)).
Proof.
  intros Hs Hk. unfold net_read_tls, mbind at 1, M_bind at 1.
  destruct (feed_tls h conn c ts s) as [[s1 o]| | |] eqn:Ef; [|done..].
  destruct (feed_tls_history k s c ts d t s1 o Hs Hk Ef) as (ts1 & H1 & Hk1 & [-> | ->]); cbn.
  { intros [= <- <- <- <-]. exists ts1. by rewrite received_fail, app_nil_r. }
  pose proof (carries_reader _ _ _ _ (Z.of_nat (length dst)) Hk1) as Hr.
  destruct (reader_read ts1 (Z.of_nat (length dst))) as [ts2 r]. cbn in Hr |- *.
  unfold mbind, M_bind. destruct (holds_set_tls s1 _ ts2 H1) as (s2 & -> & _ & H2). cbn.
  destruct r as [data|]; intros H; injection H as <- <- <- <-; exists ts2; (split; [done|]).
  - cbn [put_count]. by rewrite received_ok.
  - by rewrite received_fail.
Qed.

Lemma read_history k s o d t dst cnt s' a :
  h <> NULL -> conn <> NULL -> bound s = false -> holds s o -> history k o d t ->
  net_read h conn (Some dst) (Some cnt) s = Ret (s', a) ->
  exists o', holds s' o' /\ (is_Some o <-> is_Some o')
  /\ history k o' (d ++ fed s dst) (t ++ received a).
Proof.
  intros Hh Hcn Hb (e & c & He & Hc & <-) Hk. unfold net_read, fed.
  rewrite !(proj2 (Z.eqb_neq _ _)) by done. cbn [orb]. unfold mbind, M_bind, deref. rewrite He. cbn.
  unfold bound in Hb. rewrite He in Hb. destruct (bound_ring e conn); [done|]. rewrite Hc.
  destruct (tlsconn c) as [ts|] eqn:Ht.
  - destruct (net_read_tls h conn c ts dst (Some cnt) s) as [[s1 [[code buf] n]]| | |] eqn:Er; [|done..].
    cbn. intros [= <- <-].
    destruct (read_tls_history k s c ts d t dst cnt s1 code buf n) as (ts' & H1 & H2); [|done..|].
    { by exists e, c. }
    exists (Some ts'). split_and!; [done|by split; eexists|exact H2].
  - unfold net_read_plain, mbind, M_bind, os_op. cbn [history] in Hk. subst t.
    destruct (sock_read (os s) (stream c) (Z.of_nat (length dst))) as [w [data|]]; cbn;
      intros H; injection H as <- <-; exists None; (split_and!; [by exists e, c|done|]); cbn [history].
    + by rewrite received_ok.
    + by rewrite received_fail.
Qed.

Lemma life_nonneg s n d t s' : life s n d t s' -> 0 <= n.
Proof. induction 1; lia. Qed.

Lemma life_runs m s n d t s' : runs m s -> life s n d t s' -> runs (m + n) s'.
Proof.
  intros Hr. induction 1 as [|n d t s1 dst cnt s2 a _ IH Ha _ He|n d t s1 c s2 _ IH Ha _ He];
    [by rewrite Z.add_0_r|rewrite Z.add_assoc; eapply runs_call..]; [exact IH| | |exact IH|exact Ha|exact He].
  - instantiate (1 := SRead h conn (Some dst) (Some cnt)). exact Ha.
  - cbn [exec]. unfold discard, mbind, M_bind. by rewrite He.
Qed.

(** The connection lives on, and its history grows by what the reads bring. *)
Lemma life_history k m s n d t s' o :
  h <> NULL -> conn <> NULL -> runs m s -> m + n < 2 ^ 64 - 2 -> life s n d t s' ->
  holds s o -> history k o [] [] ->
  exists o', holds s' o' /\ (is_Some o <-> is_Some o') /\ history k o' d t.
Proof.
  intros Hh Hcn Hr Hn Hl Hs Hk. induction Hl as [|n d t s1 dst cnt s2 a Hl IH _ Hb He|n d t s1 c s2 Hl IH Ha Hsp He].
  - by exists o.
  - destruct IH as (o1 & H1 & I1 & K1); [lia|].
    destruct (read_history k s1 o1 d t dst cnt s2 a Hh Hcn Hb H1 K1 He) as (o2 & H2 & I2 & K2).
    exists o2. split_and!; [done|by rewrite I1|done].
  - destruct IH as (o1 & (e & c1 & He1 & Hc1 & <-) & I1 & K1); [lia|].
    assert (Hw : sys_wf (m + n) s1) by (apply runs_wf; [by eapply life_runs|lia]).
    destruct (exec_keeps _ c s1 s2 Hw Ha Hsp He e c1 He1 Hc1) as (e2 & c2 & He2 & Hc2 & I2 & K2).
    exists (tlsconn c2). split_and!; [by exists e2, c2|by rewrite I1|by apply K2].
Qed.
End Reads.

(** The session of the toy environment: its first byte is the handshake. *)
Definition toy_carries (_ : unit) (t : Toy.tls) (raw out : bytes) : Prop :=
  if Toy.t_open t then exists b, raw = b :: out ++ Toy.t_plain t ++ Toy.t_raw t
  else raw = Toy.t_raw t /\ out = [] /\ Toy.t_plain t = [].

Definition toy_session : TlsSession Toy.net unit.
Proof.
  refine (Build_TlsSession Toy.net unit toy_carries (fun _ => drop 1) _ _ _ _ _ _ _); unfold toy_carries.
  - intros host t [= <-]. by exists tt.
  - intros _ [o r p w] raw out b. cbn. rewrite Nat2Z.id, firstn_all. destruct o; cbn.
    + intros [x ->]. exists x. by rewrite app_comm_cons, <- !app_assoc.
    + by intros (-> & -> & ->).
  - intros _ [o r p w] raw out. cbn. destruct o; cbn.
    + intros [x ->]. exists x. by rewrite app_nil_r.
    + intros (-> & -> & ->). destruct r as [|b r]; [done|]. exists b. by rewrite app_nil_r.
  - intros _ [o r p w] raw out n. cbn. destruct p as [|b p]; cbn; [by rewrite app_nil_r|].
    destruct o; cbn; [|by intros (_ & _ & ?)]. intros [x ->]. exists x.
    by rewrite <- (app_assoc out), (app_assoc (take _ _)), take_drop.
  - by intros _ [o r p w] raw out b.
  - by intros _ [o r p w] raw out s st.
  - intros _ [o r p w] raw out. cbn. destruct o; [|intros (_ & -> & _); apply prefix_nil].
    intros [x ->]. by eexists.
Defined.

(** ** Properties *)

(** C4: what [net_read] hands out over the life of a connection.  From the moment
    [net_connect] has handed out the handle, take any allowed calls that do not end the
    connection (reads, writes, polls, calls on other connections, sessions and engines,
    with any behaviour of the network).  Then it is still there.  Without TLS the caller
    has received exactly the bytes the socket gave to its reads, in order.  With TLS
    there is one key, the session's, such that the caller has received a prefix of the
    plaintext of what the session took: no call feeds a byte twice, out of order or to
    another session, and none loses the progress of an earlier one.  Reads made while
    the connection is bound to a ring go past all this, and count as other calls. *)
Theorem connection_stream {N : Net} {K : Type} {TS : TlsSession N K} {HK : Inhabited K}
    (m : Z) (s0 s : sys) (h conn : Z) (host : option bytes) (hs : str) (port : Z)
    (Hr : runs m s0) (Hok : handle_ok s0 h) (Hhost : host_arg host = Ret hs)
    (Hrun : net_connect h host port s0 = Ret (s, conn)) (Hc : conn <> NULL) :
  let at_end (n : Z) (d t : bytes) (s' : sys) :=
    life h conn s n d t s' /\ m + 1 + n < 2 ^ 64 - 2 in
  (forall n d t s', at_end n d t s' -> is_Some (engines s' !! h ≫= (fun e => connections e !! conn)))
  /\ match initial_tls hs port with
     | Some _ => exists k, forall n d t s', at_end n d t s' -> t `prefix_of` reveal k d
     | None => forall n d t s', at_end n d t s' -> t = d
     end.
Proof.
  assert (Hh : h <> NULL) by (intros ->; by injection Hrun as _ <-).
  assert (Hr1 : runs (m + 1) s).
  { eapply (runs_call _ _ (SConnect h host port)); [exact Hr|by split; [|by exists hs]|].
    cbn [exec]. unfold discard, mbind, M_bind. by rewrite Hrun. }
  assert (Hs : holds h conn s (initial_tls hs port)).
  { destruct Hok as [?|[e He]]; [done|].
    eapply wp_run in Hrun; [|by eapply net_connect_run]. destruct Hrun as (_ & e' & E & [[-> _]|[-> [st ->]]]); [done|].
    eexists _, _. rewrite E, lookup_insert_eq. split; [done|]. cbn. by rewrite lookup_insert_eq. }
  assert (Hlife : forall k n d t s', history k (initial_tls hs port) [] [] ->
    life h conn s n d t s' /\ m + 1 + n < 2 ^ 64 - 2 ->
    exists o', holds h conn s' o' /\ (is_Some (initial_tls hs port) <-> is_Some o') /\ history k o' d t).
  { intros k n d t s' Hk [Hl Hn]. by eapply life_history. }
  assert (Hkey : exists k : K, history k (initial_tls hs port) [] []).
  { destruct (initial_tls hs port) as [ts|] eqn:Ei; [|by exists inhabitant].
    unfold initial_tls in Ei. repeat case_match; try done. by eapply carries_new. }
  destruct Hkey as [k Hk]. split.
  - intros n d t s' Hend. destruct (Hlife k n d t s' Hk Hend) as (o' & (e & c & He & Hcon & _) & _).
    rewrite He. cbn. by exists c.
  - destruct (initial_tls hs port) as [ts|]; [exists k|]; intros n d t s' Hend;
      destruct (Hlife k n d t s' Hk Hend) as ([ts'|] & _ & I & Hend').
    + exact (carries_reveal _ _ _ _ Hend').
    + destruct (proj1 I); eauto. done.
    + destruct (proj2 I); eauto. done.
    + done.
Qed.

(** The handshake byte and three bytes of data in two chunks, read one byte at a time
    with a write in between. *)
Definition toy_start : @sys Toy.net :=
  mkSys (N := Toy.net) (Toy.mkWorld [Ok [1; 7]; Ok [8; 9]] [] [] 0) ∅ {[100 := NetEngine_new (N := Toy.net)]}.

Theorem connection_stream_witness :
  exists k s s', life (N := Toy.net) 100 1 s 4 [1; 7; 8; 9] [7; 8; 9] s'
  /\ [7; 8; 9] `prefix_of` reveal (TlsSession := toy_session) k [1; 7; 8; 9].
Proof.
  assert (Hconn : exists s, net_connect (N := Toy.net) 100 (Some (c_mem (lit "h"))) 443 toy_start = Ret (s, 1)
    /\ exists s', life (N := Toy.net) 100 1 s 4 [1; 7; 8; 9] [7; 8; 9] s').
  { eexists. split; [vm_compute; reflexivity|].
    match goal with |- exists s', life _ _ ?s _ _ _ _ =>
      assert (Hl : exists d t s', life (N := Toy.net) 100 1 s (0 + 1 + 1 + 1 + 1) d t s'
        /\ d = [1; 7; 8; 9] /\ t = [7; 8; 9]) end.
    { eexists _, _, _. split.
      - eapply (life_read (N := Toy.net) _ _ _ _ _ _ _ [0] 0);
          [eapply (life_read (N := Toy.net) _ _ _ _ _ _ _ [0] 0);
            [eapply (life_call (N := Toy.net) _ _ _ _ _ _ _ (SWrite 5 100 1 (Some [5; 5]) None));
              [eapply (life_read (N := Toy.net) _ _ _ _ _ _ _ [0] 0); [constructor|..]|..]|..]|..];
          first [exact I|right; by_eval|by_eval|vm_compute; reflexivity].
      - by_eval. }
    destruct Hl as (d & t & s' & Hl & -> & ->). by exists s'. }
  destruct Hconn as (s & Hrun & s' & Hl).
  destruct (connection_stream (TS := toy_session) 1 toy_start s 100 1 (Some (c_mem (lit "h"))) (lit "h") 443)
    as [_ [k Hk]]; [| | |exact Hrun|done|].
  - apply (runs_call (N := Toy.net) 0 (@mkSys Toy.net (os toy_start) ∅ ∅) (SCreate (Ok tt) 100)).
    + by constructor.
    + by split.
    + reflexivity.
  - right. by eexists.
  - vm_compute. reflexivity.
  - exists k, s, s'. split; [exact Hl|]. apply (Hk 4 _ _ s'). split; [exact Hl|by_eval].
Defined.
