(* ===== verification/Stream.v ===== *)
(** * From the socket to the consumer

    The purpose of a body ring: what the peer sends on a bound connection reaches the
    consumer in the other process.  [moves] interleaves the engine's reads and polls
    with the consumer's takes and with changes of the environment; the ring's
    refinement ([Ring]) and the exact description of a bound read ([Conn]) give the
    end-to-end property. *)

From S2P Require Import Prelude Ring Net Engine Conn.

Section Stream.
Context `{NetLaws}.
(** The engine, the connection, and the address of its ring. *)
Context (h conn p : Z).
Implicit Types (s : sys) (d : bytes) (t : list (option Z)).

(** What the socket hands over to a read in state [s]: it is asked for the room left
    in the ring, and not at all when there is none. *)
Definition delivered s : bytes :=
  match engines s !! h ≫= (fun e => connections e !! conn), mem s !! p with
  | Some c, Some r =>
      let free := capacity r - available_read r in
      if free =? 0 then []
      else match snd (sock_read (os s) (stream c) free) with Ok data => data | Err _ => [] end
  | _, _ => []
  end.

(** [moves s d t s']: from [s] to [s'] the socket has delivered [d] and the consumer
    has taken [t]. *)
Inductive moves s : bytes -> list (option Z) -> sys -> Prop :=
| moves_start : moves s [] [] s
| moves_read d t s1 dst cnt s2 a :
    moves s d t s1 -> net_read h conn (Some dst) cnt s1 = Ret (s2, a) ->
    moves s (d ++ delivered s1) t s2
| moves_poll d t s1 timeout order s2 a :
    moves s d t s1 -> net_poll h timeout order s1 = Ret (s2, a) -> moves s d t s2
| moves_take d t s1 r k :
    moves s d t s1 -> mem s1 !! p = Some r -> Z.of_nat k <= available_read r ->
    moves s d (t ++ peek r k)
      (mkSys (os s1) (<[p := set_tail r (u64 (tail r + Z.of_nat k))]> (mem s1)) (engines s1))
| moves_world d t s1 w : moves s d t s1 -> moves s d t (mkSys w (mem s1) (engines s1)).

(** The connection is there, bound to the ring at [p], which holds [q]. *)
Definition flowing s (q : bytes) : Prop :=
  exists e c r T, engines s !! h = Some e /\ connections e !! conn = Some c
  /\ bound_ring e conn = Some p /\ mem s !! p = Some r /\ rep r T q
  /\ (capacity r | 2 ^ 64).

(** ** Polling keeps the flow *)

Definition same_flow s s' : Prop :=
  mem s' = mem s /\ forall e c, engines s !! h = Some e -> connections e !! conn = Some c ->
  exists e' c', engines s' !! h = Some e' /\ connections e' !! conn = Some c'
  /\ bound_ring e' conn = bound_ring e conn.

#[local] Instance same_flow_order : SysOrder same_flow.
Proof.
  split; [split|].
  - intros s. split; [done|]. eauto.
  - intros s1 s2 s3 [M1 H1] [M2 H2]. split; [congruence|]. intros e c He Hc.
    destruct (H1 e c He Hc) as (e2 & c2 & He2 & Hc2 & B2).
    destruct (H2 e2 c2 He2 Hc2) as (e3 & c3 & He3 & Hc3 & B3). exists e3, c3. by rewrite B3.
  - intros s w. split; [done|]. eauto.
Qed.

Lemma same_flow_update id f : respects same_flow (update_conn h id f).
Proof.
  apply respects_modify. intros s e He. split; [done|]. intros e0 c He0 Hc. rewrite He in He0. injection He0 as <-. cbn.
  rewrite lookup_insert_eq. destruct (decide (id = conn)) as [->|Hne].
  - exists (with_connections (alter f conn) e), (f c). cbn. by rewrite lookup_alter_eq, Hc.
  - exists (with_connections (alter f id) e), c. cbn. by rewrite lookup_alter_ne.
Qed.
#[local] Hint Resolve same_flow_update : respects.

Lemma same_flow_poll timeout order : respects same_flow (net_poll h timeout order).
Proof.
  assert (Hr : respects same_flow (resume_all h order)).
  { induction order as [|[id rid] order IH]; cbn; unfold resume_one; respects. }
  unfold net_poll, NetEngine_poll. respects.
Qed.

(** ** Steps *)

Lemma flowing_same_flow s s' q : flowing s q -> same_flow s s' -> flowing s' q.
Proof.
  intros (e & c & r & T & He & Hc & Hb & Hp & Hr) [M Hs].
  destruct (Hs e c He Hc) as (e' & c' & He' & Hc' & Hb'). exists e', c', r, T.
  by rewrite Hb', M.
Qed.

Lemma flowing_read s q dst cnt s' a :
  h <> NULL -> conn <> NULL -> flowing s q -> net_read h conn (Some dst) cnt s = Ret (s', a) ->
  flowing s' (q ++ delivered s).
Proof.
  intros Hh Hcn (e & c & r & T & He & Hc & Hb & Hp & Hr & Hdiv) Hrun.
  pose proof (net_read_ring_run s h conn p e c r T q cnt He Hc Hp Hr (or_introl Hdiv)) as Hring.
  assert (Hd : delivered s = let free := capacity r - Z.of_nat (length q) in
    if free =? 0 then []
    else match snd (sock_read (os s) (stream c) free) with Ok data => data | Err _ => [] end).
  { unfold delivered. rewrite He. cbn. by rewrite Hc, Hp, (available_rep r T q Hr). }
  rewrite Hd. cbv zeta in Hring |- *. set (free := capacity r - Z.of_nat (length q)) in *.
  destruct (sock_read (os s) (stream c) free) as [w res]. cbn [snd].
  assert (Hkeep : forall w', flowing (mkSys w' (mem s) (engines s)) (q ++ [])).
  { intros w'. rewrite app_nil_r. by exists e, c, r, T. }
  assert (Hsame : flowing s (q ++ [])) by (rewrite app_nil_r; by exists e, c, r, T).
  destruct (free =? 0).
  { apply (net_read_bound s h conn p e dst) in Hring; [|done..]. rewrite Hring in Hrun. by simplify_eq. }
  destruct res as [[|b data]|].
  1,3: apply (net_read_bound s h conn p e dst) in Hring; [|done..];
    rewrite Hring in Hrun; simplify_eq; apply Hkeep.
  destruct Hring as (r' & Hr' & Hcap & Hring).
  apply (net_read_bound s h conn p e dst) in Hring; [|done..]. rewrite Hring in Hrun. simplify_eq.
  eexists _, _, r', T. split_and!.
  - cbn. apply lookup_insert_eq.
  - cbn. rewrite lookup_alter_eq, Hc. reflexivity.
  - exact Hb.
  - cbn. apply lookup_insert_eq.
  - done.
  - by rewrite Hcap.
Qed.

Lemma flowing_take s q r k :
  flowing s q -> mem s !! p = Some r -> Z.of_nat k <= available_read r ->
  peek r k = Some <$> take k q
  /\ flowing (mkSys (os s) (<[p := set_tail r (u64 (tail r + Z.of_nat k))]> (mem s)) (engines s)) (drop k q).
Proof.
  intros (e & c & r0 & T & He & Hc & Hb & Hp & Hr & Hdiv) Hp' Hk.
  rewrite Hp in Hp'. injection Hp' as ->.
  rewrite (available_rep r T q Hr) in Hk. split.
  - apply (peek_rep r T q Hr); [by left|lia].
  - eexists e, c, _, (T + Z.of_nat k). split_and!; [done..|apply lookup_insert_eq| |done].
    apply consume_rep; [done|lia].
Qed.

(** Everything delivered has been taken, in order, or is still in the ring. *)
Lemma moves_flow s d t s' q :
  h <> NULL -> conn <> NULL -> flowing s q -> moves s d t s' ->
  exists rest, Some <$> (q ++ d) = t ++ (Some <$> rest) /\ flowing s' rest.
Proof.
  intros Hh Hcn Hf. induction 1 as [|d t s1 dst cnt s2 a _ IH Hrun|d t s1 tm order s2 a _ IH Hrun
    |d t s1 r k _ IH Hp Hk|d t s1 w _ IH].
  - exists q. by rewrite app_nil_r.
  - destruct IH as (rest & E & Hf1). exists (rest ++ delivered s1). split; [|by eapply flowing_read].
    by rewrite app_assoc, fmap_app, E, <- app_assoc, fmap_app.
  - destruct IH as (rest & E & Hf1). exists rest. split; [done|].
    eapply flowing_same_flow; [exact Hf1|]. by eapply same_flow_poll.
  - destruct IH as (rest & E & Hf1). destruct (flowing_take s1 rest r k Hf1 Hp Hk) as [Ht Hf2].
    exists (drop k rest). split; [|done].
    by rewrite E, Ht, <- app_assoc, <- fmap_app, take_drop.
  - destruct IH as (rest & E & e & c & r & T & ?). exists rest. split; [done|]. by exists e, c, r, T.
Qed.

End Stream.

(** ** Properties *)

(** C3: no byte is lost, duplicated or reordered between the socket of a bound
    connection and the consumer of its ring.  In any interleaving of reads, polls,
    takes and changes of the environment, whether or not backpressure pauses the
    connection, the bytes the consumer has taken followed by those in the ring are
    those first in the ring followed by everything the socket has delivered, and the
    ring never holds more than its capacity. *)
Theorem stream_in_order `{NetLaws} (h conn p : Z) (s s' : sys) (d : bytes) (t : list (option Z))
    (e : NetEngine) (c : Connection) (r : BodyRing) (T : Z) (q : bytes)
    (Hh : h <> NULL) (Hc : conn <> NULL) (He : engines s !! h = Some e)
    (Hcon : connections e !! conn = Some c) (Hb : bound_ring e conn = Some p)
    (Hp : mem s !! p = Some r) (Hr : rep r T q) (Hcap : (capacity r | 2 ^ 64))
    (Hm : moves h conn p s d t s') :
  exists rest r', Some <$> (q ++ d) = t ++ (Some <$> rest)
  /\ mem s' !! p = Some r' /\ available_read r' = Z.of_nat (length rest)
  /\ Z.of_nat (length rest) <= capacity r'.
Proof.
  assert (Hf : flowing h conn p s q) by (by exists e, c, r, T).
  destruct (moves_flow h conn p s d t s' q Hh Hc Hf Hm) as (rest & E & _ & _ & r' & T' & _ & _ & _ & Hp' & Hr' & _).
  exists rest, r'. split_and!; [done|done|by eapply available_rep|apply Hr'].
Qed.

(** A ring of four cells with one of them free: three reads deliver two bytes into
    the room the consumer has made meanwhile. *)
Theorem stream_in_order_witness :
  let s := toy_sys (Toy.mkWorld [Ok [9]; Ok [10]] [] [] 1) {[500 := toy_ring]} (toy_bound toy_conn) in
  exists s' t rest r', moves (H := Toy.net) 100 1 500 s [9; 10] t s'
  /\ Some <$> ([5; 6; 7] ++ [9; 10]) = t ++ (Some <$> rest)
  /\ mem s' !! 500 = Some r' /\ available_read r' = Z.of_nat (length rest).
Proof.
  intros s.
  assert (Hm : exists d s' t, moves (H := Toy.net) 100 1 500 s d t s' /\ d = [9; 10]).
  { eexists _, _, _. split.
    - eapply (moves_read (H := Toy.net) 100 1 500 s _ _ _ [] None).
      + eapply (moves_take (H := Toy.net) 100 1 500 s _ _ _ _ 3).
        * eapply (moves_read (H := Toy.net) 100 1 500 s _ _ _ [] None).
          -- eapply (moves_read (H := Toy.net) 100 1 500 s [] _ _ [] None); [constructor|].
             vm_compute. reflexivity.
          -- vm_compute. reflexivity.
        * vm_compute. reflexivity.
        * by_eval.
      + vm_compute. reflexivity.
    - vm_compute. reflexivity. }
  destruct Hm as (d & s' & t & Hm & ->). exists s', t.
  destruct (stream_in_order (H := Toy.net) (H0 := Toy.toy_net_laws) 100 1 500 s s' [9; 10] t
    (toy_bound toy_conn) toy_conn toy_ring 2 [5; 6; 7]) as (rest & r' & E & Hp & Ha & _); try done.
  - apply toy_ring_rep.
  - exists (2 ^ 62). reflexivity.
  - exists rest, r'. by split_and!.
Defined.
