(* ===== verification/Scaffold.v ===== *)
(** * Placeholders of the engine (engine/src/monitoring, engine/src/protocols,
    engine/src/security and two functions of engine/src/lib.rs)

    Modules that so far hold a constructor and no state, the monitor with its
    constant metrics, and the two exported functions that are scaffolding. *)

From S2P Require Import Prelude Engine.

(** ** Handlers without state *)

Inductive HttpVersion := Http11 | Http2.

Record Http1Handler := mkHttp1Handler {}.
Definition Http1Handler_new : Http1Handler := mkHttp1Handler.
Record Http2Handler := mkHttp2Handler {}.
Definition Http2Handler_new : Http2Handler := mkHttp2Handler.
Record Http3Handler := mkHttp3Handler {}.
Definition Http3Handler_new : Http3Handler := mkHttp3Handler.
Record QpackHandler := mkQpackHandler {}.
Definition QpackHandler_new : QpackHandler := mkQpackHandler.
Record EarlyHintsHandler := mkEarlyHintsHandler {}.
Definition EarlyHintsHandler_new : EarlyHintsHandler := mkEarlyHintsHandler.

Record Doh3Client := mkDoh3Client {}.
Definition Doh3Client_new : Doh3Client := mkDoh3Client.
Record DotClient := mkDotClient {}.
Definition DotClient_new : DotClient := mkDotClient.
Record PrivacyDns := mkPrivacyDns { doh3 : Doh3Client; dot : DotClient }.
Definition PrivacyDns_new : PrivacyDns := mkPrivacyDns Doh3Client_new DotClient_new.
Record OcspHandler := mkOcspHandler {}.
Definition OcspHandler_new : OcspHandler := mkOcspHandler.

(** ** Metrics *)

(** The floats hold whole numbers only, and are integers here. *)
Record NetworkMetrics := mkNetworkMetrics {
  total_packets_sent : Z;
  total_packets_received : Z;
  packet_loss_rate : Z;
  average_latency_ms : Z;
  jitter_ms : Z;
  throughput_mbps : Z;
  connection_quality_score : Z;
}.

Record Monitor := mkMonitor {}.
Definition Monitor_new : Monitor := mkMonitor.
Definition Monitor_get_metrics (m : Monitor) : NetworkMetrics := mkNetworkMetrics 0 0 0 0 0 0 100.

(** [heap] holds the boxes the caller has been given, [addr] is where the allocator
    puts the next one. *)
Definition net_get_metrics (h addr : Z) (heap : gmap Z NetworkMetrics) : gmap Z NetworkMetrics * Z :=
  if h =? NULL then (heap, NULL)
  else (<[addr := mkNetworkMetrics 0 0 0 0 0 0 100]> heap, addr).

(** ** The fetch interface *)

Record FetchOptions := mkFetchOptions { fo_method : option bytes; fo_timeout : Z }.

Definition net_fetch_create (url : option bytes) (options : option FetchOptions) : Z := NULL.

(** ** Properties *)

(** A sequence of calls for metrics, each with a fresh address. *)
Fixpoint get_metrics_all (h : Z) (addrs : list Z) (heap : gmap Z NetworkMetrics) : gmap Z NetworkMetrics :=
  match addrs with
  | [] => heap
  | addr :: addrs => get_metrics_all h addrs (fst (net_get_metrics h addr heap))
  end.

(** Metrics leak.  Every call for metrics on an engine leaves a box behind that no
    function of the library frees: after [n] calls there are [n] more, all with the
    monitor's constant values. *)
Theorem net_get_metrics_leaks (h : Z) (addrs : list Z) (heap : gmap Z NetworkMetrics)
    (Hh : h <> NULL) (Hnd : NoDup addrs) (Hfresh : forall a, a ∈ addrs -> heap !! a = None) :
  size (get_metrics_all h addrs heap) = (length addrs + size heap)%nat
  /\ forall a, a ∈ addrs -> get_metrics_all h addrs heap !! a = Some (Monitor_get_metrics Monitor_new).
Proof.
  assert (Hkeep : forall l m k, k ∉ l -> get_metrics_all h l m !! k = m !! k).
  { intros l. induction l as [|x l IH]; intros m k Hk; [done|]. apply not_elem_of_cons in Hk as [Hx Hl]. cbn.
    rewrite IH by done. unfold net_get_metrics. rewrite (proj2 (Z.eqb_neq _ _)) by done. cbn.
    by rewrite lookup_insert_ne. }
  revert heap Hfresh. induction Hnd as [|x l Hx Hl IH]; intros heap Hf; [split; [done|]|].
  { intros a Ha. by apply elem_of_nil in Ha. }
  pose proof (Hf x ltac:(constructor)) as Hx0. cbn [get_metrics_all].
  assert (E : fst (net_get_metrics h x heap) = <[x := Monitor_get_metrics Monitor_new]> heap).
  { unfold net_get_metrics. by rewrite (proj2 (Z.eqb_neq _ _)). }
  rewrite E. destruct (IH (<[x := Monitor_get_metrics Monitor_new]> heap)) as [Hs Hv].
  { intros a Ha. rewrite lookup_insert_ne by (by intros ->). apply Hf. by constructor. }
  split.
  - rewrite Hs, map_size_insert_None by done. cbn. lia.
  - intros a Ha. apply elem_of_cons in Ha as [->|Ha]; [|by apply Hv].
    rewrite Hkeep by done. apply lookup_insert_eq.
Qed.

Theorem net_get_metrics_leaks_witness :
  size (get_metrics_all 100 [8; 16; 24] ∅) = 3%nat
  /\ forall a, a ∈ [8; 16; 24] -> get_metrics_all 100 [8; 16; 24] ∅ !! a = Some (Monitor_get_metrics Monitor_new).
Proof.
  destruct (net_get_metrics_leaks 100 [8; 16; 24] ∅) as [H1 H2].
  - done.
  - by_eval.
  - intros a _. apply lookup_empty.
  - split; [by rewrite H1, map_size_empty|exact H2].
Defined.
