(* ===== verification/Bridge.v ===== *)
(** * The Zig wrapper of the engine (src/z_network_bridge.zig)

    [NetworkEngine] and [Connection], which call the C ABI and turn its result codes
    into Zig errors.  A number outside an enum and a store outside an array are illegal
    behaviour, [Undefined] here (safe builds abort). *)

From S2P Require Import Prelude Utf8 Str Ffi Ring Net Engine Conn Tls Quic System Lifetime Scaffold.

(** ** The wrapper *)

Inductive ZigError := ZWouldBlock | ZIoError | ZTlsError | ZUnknown | ZInvalidHandle | ZHostTooLong
| ZUrlTooLong | ZMethodTooLong | ZConnectionFailed | ZMetricsUnavailable | ZRegistrationFailed | ZBindFailed
| ZPollFailed.

(** [NetworkEngine] and [Connection]: values that hold handles. *)
Record ZEngine := mkZEngine { ne_handle : Z }.
Record ZConnection := mkZConnection { zc_engine : Z; zc_handle : Z }.

(** [@enumFromInt] to an enum whose members [code] numbers. *)
Definition enumFromInt {E} (members : list E) (code : E -> Z) (n : Z) : outcome E :=
  match List.find (fun e => code e =? n) members with Some e => Ret e | None => Undefined end.

Definition NetErrorCode : Z -> outcome NetError :=
  enumFromInt [NoError; InvalidHandle; NotConnected; IoError; TlsError; NetWouldBlock; OutOfMemory; AlreadyRunning]
    NetError_code.
Definition ConnState_of : Z -> outcome ConnState :=
  enumFromInt [Closed; Connecting; Handshaking; Connected; Closing] ConnState_code.

(** [var buf: [size]u8 = undefined]; [junk] is what the memory held before. *)
Definition array (size : nat) (junk : bytes) : bytes := take size (junk ++ replicate size 170).

(** [buf[i] = b] outside an array is illegal, like [@memcpy] to a range outside. *)
Definition store_at (buf : bytes) (i : nat) (b : Z) : outcome bytes :=
  if (i <? length buf)%nat then Ret (<[i := b]> buf) else Undefined.

(** A text copied to such an array and terminated there; [None] when it is refused as
    too long. *)
Definition c_copy (size : nat) (text junk : bytes) : outcome (option bytes) :=
  if (size <=? length text)%nat then Ret None
  else
    buf ← copy_to text (array size junk);
    buf ← store_at buf (length text) 0;
    Ret (Some buf).

(** [NetworkEngine.fetch]: the buffers are filled one after the other. *)
Definition bridge_fetch (url url_junk method method_junk site site_junk origin origin_junk : bytes)
  : outcome (result Z ZigError) :=
  url_buf ← c_copy 1024 url url_junk;
  match url_buf with
  | None => Ret (Err ZUrlTooLong)
  | Some url_buf =>
      method_buf ← c_copy 16 method method_junk;
      match method_buf with
      | None => Ret (Err ZMethodTooLong)
      | Some method_buf =>
          site_buf ← c_copy 256 site site_junk;
          match site_buf with
          | None => Ret (Err ZHostTooLong)
          | Some _ =>
              origin_buf ← c_copy 256 origin origin_junk;
              match origin_buf with
              | None => Ret (Err ZHostTooLong)
              | Some _ => Ret (Ok (net_fetch_create (Some url_buf) (Some (mkFetchOptions (Some method_buf) 30000))))
              end
          end
      end
  end.

Definition bridge_getMetrics (x : ZEngine) (addr : Z) (heap : gmap Z NetworkMetrics)
  : gmap Z NetworkMetrics * result Z ZigError :=
  let '(heap, metrics) := net_get_metrics (ne_handle x) addr heap in
  (heap, if metrics =? 0 then Err ZMetricsUnavailable else Ok metrics).

Definition bridge_getBodyRing (c : ZConnection) : option Z := None.

Section Wrapper.
Context {N : Net}.

Definition bridge_init (poll : result unit unit) (addr : Z) : M ZEngine :=
  h ← net_engine_create poll addr; mret (mkZEngine h).

Definition bridge_deinit (x : ZEngine) : M ZEngine :=
  if ne_handle x =? NULL then mret x
  else _ ← net_engine_destroy (ne_handle x); mret (mkZEngine NULL).

(** [NetworkEngine.connect] *)
Definition bridge_connect (x : ZEngine) (host junk : bytes) (port : Z) : M (result ZConnection ZigError) :=
  if ne_handle x =? NULL then mret (Err ZInvalidHandle)
  else
  host_buf ← lift (c_copy 256 host junk);
  match host_buf with
  | None => mret (Err ZHostTooLong)
  | Some host_buf =>
      conn ← net_connect (ne_handle x) (Some host_buf) port;
      mret (if conn =? NULL then Err ZConnectionFailed else Ok (mkZConnection (ne_handle x) conn))
  end.

(** [NetworkEngine.connectHttp3] *)
Definition bridge_connectHttp3 (x : ZEngine) (host junk : bytes) (port : Z) : M (result Z ZigError) :=
  host_buf ← lift (c_copy 256 host junk);
  match host_buf with
  | None => mret (Err ZHostTooLong)
  | Some host_buf => conn ← net_http3_connect (ne_handle x) (Some host_buf) port; mret (Ok conn)
  end.

Definition bridge_registerBodyRing (x : ZEngine) (id ptr : Z) : M (result unit ZigError) :=
  r ← net_body_ring_register (ne_handle x) id ptr;
  mret (if r =? 0 then Ok tt else Err ZRegistrationFailed).

Definition bridge_unregisterBodyRing (x : ZEngine) (id : Z) : M unit :=
  _ ← net_body_ring_unregister (ne_handle x) id; mret tt.

Definition bridge_bindBodyRing (c : ZConnection) (id : Z) : M (result unit ZigError) :=
  r ← net_conn_bind_body_ring (zc_engine c) (zc_handle c) id;
  mret (if r =? 0 then Ok tt else Err ZBindFailed).

(** [Connection.read] *)
Definition bridge_read (c : ZConnection) (dst : bytes) : M (result Z ZigError * option bytes) :=
  '(code, buf, n) ← net_read (zc_engine c) (zc_handle c) (Some dst) (Some 0);
  e ← lift (NetErrorCode code);
  mret (match e with
        | NoError => Ok (default 0 n)
        | NetWouldBlock => Err ZWouldBlock
        | IoError => Err ZIoError
        | TlsError => Err ZTlsError
        | _ => Err ZUnknown
        end, buf).

(** [Connection.write] *)
Definition bridge_write (fuel : nat) (c : ZConnection) (data : bytes) : M (result Z ZigError) :=
  '(code, n) ← net_write fuel (zc_engine c) (zc_handle c) (Some data) (Some 0);
  e ← lift (NetErrorCode code);
  mret (match e with
        | NoError => Ok (default 0 n)
        | NetWouldBlock => Err ZWouldBlock
        | IoError => Err ZIoError
        | _ => Err ZUnknown
        end).

(** [Connection.close] *)
Definition bridge_close (c : ZConnection) : M ZConnection :=
  if zc_handle c =? NULL then mret c
  else _ ← net_close (zc_engine c) (zc_handle c); mret (mkZConnection (zc_engine c) NULL).

Definition bridge_getState (c : ZConnection) : outcome ConnState :=
  ConnState_of (net_conn_state (zc_engine c) (zc_handle c)).

Definition bridge_poll (h timeout : Z) (order : list (Z * Z)) : M (result Z ZigError) :=
  r ← net_poll h timeout order;
  mret (if r <? 0 then Err ZPollFailed else Ok r).

(** ** What the copies come to *)

(** The array after a text that fits. *)
Definition terminated (size : nat) (text junk : bytes) : bytes :=
  text ++ 0 :: drop (S (length text)) (array size junk).

Lemma array_length size junk : length (array size junk) = size.
Proof. unfold array. rewrite length_take, length_app, length_replicate. lia. Qed.

Lemma c_copy_ret size text junk :
  c_copy size text junk
  = Ret (if (length text <? size)%nat then Some (terminated size text junk) else None).
Proof.
  unfold c_copy, copy_to, store_at, terminated. rewrite array_length.
  destruct (Nat.leb_spec size (length text)), (Nat.ltb_spec (length text) size); try lia; [done|].
  rewrite (proj2 (Nat.leb_le _ _)) by lia. cbn [mbind outcome_bind]. unfold put.
  rewrite length_app, length_drop, array_length, (proj2 (Nat.ltb_lt _ _)) by lia. cbn [mbind outcome_bind].
  rewrite insert_app_r_alt, Nat.sub_diag by lia. do 3 f_equal.
  destruct (drop (length text) (array size junk)) as [|b l] eqn:E.
  - apply (f_equal length) in E. rewrite length_drop, array_length in E. cbn in E. lia.
  - rewrite <- Nat.add_1_r, <- drop_drop, E. done.
Qed.

Lemma terminated_c_string size text junk : c_string (Some (terminated size text junk)).
Proof.
  unfold terminated. generalize (drop (S (length text)) (array size junk)) as rest. intros rest.
  assert (Hc : exists t, cstr_from_ptr (text ++ 0 :: rest) = Ret t).
  { induction text as [|x b (t & IH)]; cbn; [by eexists|]. destruct (x =? 0); [by eexists|]. by rewrite IH; eexists. }
  destruct Hc as [t Ht]. unfold c_string. cbn. unfold cstr_lossy. rewrite Ht. by eexists.
Qed.

(** ** What the engine's calls answer with *)

Definition answers_with {A} (P : A -> Prop) (m : M A) : Prop := forall s s' a, m s = Ret (s', a) -> P a.

Lemma answers_ret {A} (P : A -> Prop) a : P a -> answers_with P (mret a).
Proof. by intros H s s' x [= <- <-]. Qed.

Lemma answers_seq {A B} (P : A -> Prop) (Q : B -> Prop) (m : M A) (f : A -> M B) :
  answers_with P m -> (forall a, P a -> answers_with Q (f a)) -> answers_with Q (m ≫= f).
Proof.
  intros Hm Hf s s' b H. unfold mbind, M_bind in H. destruct (m s) as [[s1 a]| | |] eqn:E; try done.
  by eapply Hf; [eapply Hm|].
Qed.

Lemma answers_bind {A B} (P : B -> Prop) (m : M A) (f : A -> M B) :
  (forall a, answers_with P (f a)) -> answers_with P (m ≫= f).
Proof. intros Hf. by apply (answers_seq (fun _ => True)); [|intros a _]. Qed.

Lemma answers_stuck {A} (P : A -> Prop) : answers_with P (fun _ => Stuck).
Proof. by intros s s' a. Qed.

Definition result_code (code : Z) : Prop := code = NS_OK \/ code = NS_ERROR_FAILURE.

Ltac answers :=
  repeat first [ apply answers_ret; cbn; by auto | apply answers_stuck | apply answers_bind; intros ?
               | lazymatch goal with |- answers_with _ (match ?x with _ => _ end) => destruct x end ].

Lemma net_write_codes fuel h conn data cnt :
  answers_with (fun '(code, _) => result_code code) (net_write fuel h conn data cnt).
Proof. unfold net_write, result_code. answers. Qed.

Lemma net_read_codes h conn buf cnt :
  answers_with (fun '(code, _, _) => result_code code) (net_read h conn buf cnt).
Proof.
  assert (Hring : forall p, answers_with (fun '(code, _) => result_code code) (net_read_ring h conn p cnt)).
  { intros p. unfold net_read_ring, result_code. answers. }
  assert (Hplain : forall c dst, answers_with (fun '(code, _, _) => result_code code)
    match tlsconn c with
    | Some t => net_read_tls h conn c t dst cnt
    | None => net_read_plain c dst cnt
    end).
  { intros c dst. unfold net_read_tls, net_read_plain, result_code. answers. }
  unfold net_read. destruct (_ || _); [apply answers_ret; by right|].
  destruct buf as [dst|]; [|apply answers_ret; by right]. apply answers_bind. intros e.
  destruct (bound_ring e conn) as [p|].
  - apply (answers_seq _ _ _ _ (Hring p)). intros [code n] Hc. by apply answers_ret.
  - destruct (connections e !! conn) as [c|]; [|apply answers_ret; by right].
    apply (answers_seq _ _ _ _ (Hplain c dst)). intros [[code b] n] Hc. by apply answers_ret.
Qed.

Lemma NetErrorCode_codes code :
  result_code code -> NetErrorCode code = if code =? NS_OK then Ret NoError else Undefined.
Proof. by intros [-> | ->]. Qed.
End Wrapper.

(** ** Properties *)

(** No failure of the engine reaches Zig as an error.  [net_read] and [net_write]
    answer every failure, a socket that would block included, with
    [NS_ERROR_FAILURE], which is none of the codes the wrapper's [NetErrorCode] has:
    a call that fails is illegal behaviour in [Connection.read] and
    [Connection.write], and one that succeeds gives its count. *)
Theorem bridge_failures_illegal {N : Net} (fuel : nat) (s s1 s2 : sys) (h conn : Z) (dst data : bytes)
    (code1 code2 : Z) (buf : option bytes) (n1 n2 : option Z)
    (Hr : net_read h conn (Some dst) (Some 0) s = Ret (s1, (code1, buf, n1)))
    (Hw : net_write fuel h conn (Some data) (Some 0) s = Ret (s2, (code2, n2))) :
  bridge_read (mkZConnection h conn) dst s = (if code1 =? NS_OK then Ret (s1, (Ok (default 0 n1), buf)) else Undefined)
  /\ bridge_write fuel (mkZConnection h conn) data s = (if code2 =? NS_OK then Ret (s2, Ok (default 0 n2)) else Undefined).
Proof.
  pose proof (net_read_codes h conn (Some dst) (Some 0) s s1 _ Hr) as H1.
  pose proof (net_write_codes fuel h conn (Some data) (Some 0) s s2 _ Hw) as H2. cbn in H1, H2.
  split.
  - unfold bridge_read, mbind, M_bind. cbn [zc_engine zc_handle]. rewrite Hr. cbn [mbind outcome_bind]. unfold lift. rewrite NetErrorCode_codes by done.
    by destruct (code1 =? NS_OK).
  - unfold bridge_write, mbind, M_bind. cbn [zc_engine zc_handle]. rewrite Hw. cbn [mbind outcome_bind]. unfold lift. rewrite NetErrorCode_codes by done.
    by destruct (code2 =? NS_OK).
Qed.

(** Nothing to read yet: the read would block, and the wrapper breaks. *)
Theorem bridge_failures_illegal_witness :
  let s := toy_sys Toy.world0 ∅ (with_conn_body_rings (fun _ => ∅) (toy_bound toy_conn)) in
  bridge_read (N := Toy.net) (mkZConnection 100 1) [0; 0] s = Undefined
  /\ exists s2, bridge_write (N := Toy.net) 0 (mkZConnection 100 1) [5; 6; 7] s = Ret (s2, Ok 3).
Proof.
  intros s. destruct (bridge_failures_illegal (N := Toy.net) 0 s s
    (mkSys (N := Toy.net) (fst (Toy.write Toy.world0 0 [5; 6; 7])) ∅ (engines s)) 100 1 [0; 0] [5; 6; 7]
    NS_ERROR_FAILURE NS_OK (Some [0; 0]) (Some 0) (Some 3)) as [H1 H2].
  - vm_compute. reflexivity.
  - vm_compute. reflexivity.
  - split; [exact H1|]. eexists. exact H2.
Defined.

(** The wrapper calls [net_connect] within its contract.  Whatever slice it is
    given, the host it passes is a terminated C string, so that on a null or live
    handle connecting neither panics nor runs into undefined behaviour; a slice of
    256 bytes or more is refused without a call, and the handle it answers with is
    never null. *)
Theorem bridge_connect_safe {N : Net} (n : Z) (s : sys) (h port : Z) (host junk : bytes)
    (Hr : runs n s) (Hn : n < 2 ^ 64 - 2) (Hh : handle_ok s h) :
  wp (bridge_connect (mkZEngine h) host junk port) (fun r s' =>
       sys_wf (n + 1) s' /\ match r with Ok conn => zc_handle conn <> NULL | Err _ => True end
       /\ ((256 <= length host)%nat -> engines s' = engines s)) s.
Proof.
  pose proof (runs_wf n s Hr Hn) as Hw.
  assert (Hm : sys_wf (n + 1) s) by (eapply sys_wf_mono; [exact Hw|lia]).
  unfold bridge_connect. cbn [ne_handle]. destruct (h =? NULL); [by apply wp_ret|].
  apply wp_bind. eapply wp_lift; [apply c_copy_ret|].
  destruct (Nat.ltb_spec (length host) 256) as [Hl|Hl]; [|by apply wp_ret].
  apply wp_bind. destruct (terminated_c_string 256 host junk) as [t Ht].
  eapply wp_mono; [by eapply (connect_wf n)|]. cbn beta.
  intros conn s' Hw'. destruct (Z.eqb_spec conn NULL); apply wp_ret; split_and!; try done; lia.
Qed.

Theorem bridge_connect_safe_witness :
  let s := @mkSys Toy.net Toy.world0 ∅ {[100 := NetEngine_new]} in
  wp (bridge_connect (N := Toy.net) (mkZEngine 100) (lit "h") [170; 170] 443) (fun r s' =>
       sys_wf 2 s' /\ match r with Ok conn => zc_handle conn <> NULL | Err _ => True end
       /\ ((256 <= length (lit "h"))%nat -> engines s' = engines s)) s.
Proof.
  apply (bridge_connect_safe (N := Toy.net) 1).
  - apply (runs_call (N := Toy.net) 0 (@mkSys Toy.net Toy.world0 ∅ ∅) (SCreate (Ok tt) 100)).
    + by constructor.
    + by split.
    + reflexivity.
  - by_eval.
  - right. by eexists.
Defined.
