(* ===== verification/Client.v ===== *)
(** * Programs on the Zig wrapper (src/z_network_bridge.zig)

    A Zig program holds [NetworkEngine] and [Connection] objects, may copy them, and
    runs beside the processes that share its rings.  Each of its steps is at most one
    call of the C ABI, so that the safety of the engine ([System]) becomes the safety
    of the program, as long as it uses no connection of an engine it has torn down. *)

From S2P Require Import Prelude Utf8 Str Ffi Ring Net Engine Conn Tls Quic System Lifetime Scaffold Bridge.

Section Client.
Context {N : Net}.

(** The objects of a program, by name. *)
Record zig := mkZig {
  zsys : sys;
  zengines : gmap Z ZEngine;
  zconns : gmap Z ZConnection;
}.

Inductive zop :=
| ZInit (x : Z) (poll : result unit unit) (addr : Z)
| ZDeinit (x : Z)
| ZConnect (x c : Z) (host junk : bytes) (port : Z)
| ZHttp3 (x : Z) (host junk : bytes) (port : Z)
| ZRegister (x id ptr : Z)
| ZUnregister (x id : Z)
| ZBind (c id : Z)
| ZRead (c : Z) (dst : bytes)
| ZWrite (fuel : nat) (c : Z) (data : bytes)
| ZClose (c : Z)
| ZState (c : Z)
| ZCopy (c c' : Z)
| ZPoll (x timeout : Z) (order : list (Z * Z))
| ZMapRing (ptr : Z) (r : BodyRing)
| ZConsume (ptr k : Z)
| ZEnvironment (w : W).

Definition set_sys (z : zig) (s : sys) : zig := mkZig s (zengines z) (zconns z).
Definition set_engine (x : Z) (ne : ZEngine) (z : zig) : zig := mkZig (zsys z) (<[x := ne]> (zengines z)) (zconns z).
Definition set_conn (c : Z) (k : ZConnection) (z : zig) : zig := mkZig (zsys z) (zengines z) (<[c := k]> (zconns z)).

(** Running code of the wrapper, and what the program does with its result. *)
Definition call_with {A} (m : M A) (k : A -> zig -> zig) (z : zig) : outcome zig :=
  '(s, a) ← m (zsys z); Ret (k a (set_sys z s)).
Definition ignore {A} (a : A) (z : zig) : zig := z.

(** A name the program does not have is no program. *)
Definition with_engine (z : zig) (x : Z) (f : ZEngine -> outcome zig) : outcome zig :=
  match zengines z !! x with Some ne => f ne | None => Stuck end.
Definition with_conn (z : zig) (c : Z) (f : ZConnection -> outcome zig) : outcome zig :=
  match zconns z !! c with Some k => f k | None => Stuck end.

Definition zexec (o : zop) (z : zig) : outcome zig :=
  match o with
  | ZInit x poll addr => call_with (bridge_init poll addr) (set_engine x) z
  | ZDeinit x => with_engine z x (fun ne => call_with (bridge_deinit ne) (set_engine x) z)
  | ZConnect x c host junk port =>
      with_engine z x (fun ne => call_with (bridge_connect ne host junk port)
        (fun r => match r with Ok k => set_conn c k | Err _ => fun z => z end) z)
  | ZHttp3 x host junk port => with_engine z x (fun ne => call_with (bridge_connectHttp3 ne host junk port) ignore z)
  | ZRegister x id ptr => with_engine z x (fun ne => call_with (bridge_registerBodyRing ne id ptr) ignore z)
  | ZUnregister x id => with_engine z x (fun ne => call_with (bridge_unregisterBodyRing ne id) ignore z)
  | ZBind c id => with_conn z c (fun k => call_with (bridge_bindBodyRing k id) ignore z)
  | ZRead c dst => with_conn z c (fun k => call_with (bridge_read k dst) ignore z)
  | ZWrite fuel c data => with_conn z c (fun k => call_with (bridge_write fuel k data) ignore z)
  | ZClose c => with_conn z c (fun k => call_with (bridge_close k) (set_conn c) z)
  | ZState c => with_conn z c (fun k => _ ← bridge_getState k; Ret z)
  | ZCopy c c' => with_conn z c (fun k => Ret (set_conn c' k z))
  | ZPoll x t order => with_engine z x (fun ne => call_with (bridge_poll (ne_handle ne) t order) ignore z)
  | ZMapRing ptr r => call_with (exec (SMapRing ptr r)) ignore z
  | ZConsume ptr k => call_with (exec (SConsume ptr k)) ignore z
  | ZEnvironment w => call_with (exec (SEnvironment w)) ignore z
  end.

(** The call of the C ABI behind a step, if it makes one. *)
Definition as_call (z : zig) (o : zop) : option call :=
  match o with
  | ZInit _ poll addr => Some (SCreate poll addr)
  | ZDeinit x =>
      ne ← zengines z !! x; if ne_handle ne =? NULL then None else Some (SDestroy (ne_handle ne))
  | ZConnect x _ host junk port =>
      ne ← zengines z !! x;
      if ne_handle ne =? NULL then None
      else if (length host <? 256)%nat
      then Some (SConnect (ne_handle ne) (Some (terminated 256 host junk)) port) else None
  | ZHttp3 x host junk port =>
      ne ← zengines z !! x;
      if (length host <? 256)%nat
      then Some (SHttp3Connect (ne_handle ne) (Some (terminated 256 host junk)) port) else None
  | ZRegister x id ptr => ne ← zengines z !! x; Some (SRingRegister (ne_handle ne) id ptr)
  | ZUnregister x id => ne ← zengines z !! x; Some (SRingUnregister (ne_handle ne) id)
  | ZBind c id => k ← zconns z !! c; Some (SRingBind (zc_engine k) (zc_handle k) id)
  | ZRead c dst => k ← zconns z !! c; Some (SRead (zc_engine k) (zc_handle k) (Some dst) (Some 0))
  | ZWrite fuel c data =>
      k ← zconns z !! c; Some (SWrite fuel (zc_engine k) (zc_handle k) (Some data) (Some 0))
  | ZClose c =>
      k ← zconns z !! c; if zc_handle k =? NULL then None else Some (SClose (zc_engine k) (zc_handle k))
  | ZState _ | ZCopy _ _ => None
  | ZPoll x t order => ne ← zengines z !! x; Some (SPoll (ne_handle ne) t order)
  | ZMapRing ptr r => Some (SMapRing ptr r)
  | ZConsume ptr k => Some (SConsume ptr k)
  | ZEnvironment w => Some (SEnvironment w)
  end.

(** ** What the program has to respect

    It names objects it has; it uses connections only while their engine exists (a
    closed one can be closed again); rings are mapped before they are registered; and
    the allocator answers with free addresses. *)
Definition usable (z : zig) (k : ZConnection) : Prop := handle_ok (zsys z) (zc_engine k).

Definition fit (z : zig) (o : zop) : Prop :=
  match o with
  | ZInit x _ addr => zengines z !! x = None /\ addr <> NULL /\ engines (zsys z) !! addr = None
  | ZDeinit x | ZConnect x _ _ _ _ | ZHttp3 x _ _ _ | ZUnregister x _ | ZPoll x _ _ => is_Some (zengines z !! x)
  | ZRegister x _ ptr => is_Some (zengines z !! x) /\ exists r, mem (zsys z) !! ptr = Some r /\ ring_ok r
  | ZBind c _ | ZRead c _ | ZWrite _ c _ => exists k, zconns z !! c = Some k /\ usable z k
  | ZClose c => exists k, zconns z !! c = Some k /\ (zc_handle k = NULL \/ usable z k)
  | ZState c | ZCopy c _ => is_Some (zconns z !! c)
  | ZMapRing _ r => ring_ok r
  | ZConsume ptr _ => exists r, mem (zsys z) !! ptr = Some r /\ ring_ok r
  | ZEnvironment _ => True
  end.

(** States reached by [n] such steps from a process without engines or objects. *)
Inductive zruns : Z -> zig -> Prop :=
| zruns_start s : engines s = ∅ -> zruns 0 (mkZig s ∅ ∅)
| zruns_step n z o z' : zruns n z -> fit z o -> zexec o z = Ret z' -> zruns (n + 1) z'.

(** Engine objects are null or live, and no two are the same engine. *)
Record objects_ok (z : zig) : Prop := mkObjectsOk {
  obj_live x ne : zengines z !! x = Some ne -> handle_ok (zsys z) (ne_handle ne);
  obj_apart x y ne : zengines z !! x = Some ne -> zengines z !! y = Some ne -> ne_handle ne <> NULL -> x = y;
}.

(** A read or write that the engine answers with a failure. *)
Definition failed_call (z : zig) (o : zop) : Prop :=
  match o with
  | ZRead c dst => exists k s code buf n, zconns z !! c = Some k
      /\ net_read (zc_engine k) (zc_handle k) (Some dst) (Some 0) (zsys z) = Ret (s, (code, buf, n))
      /\ code <> NS_OK
  | ZWrite fuel c data => exists k s code n, zconns z !! c = Some k
      /\ net_write fuel (zc_engine k) (zc_handle k) (Some data) (Some 0) (zsys z) = Ret (s, (code, n))
      /\ code <> NS_OK
  | _ => False
  end.

(** ** Each step is its call *)

(** [out] is the outcome of a step whose call is [c]; [bad] is what may go wrong
    besides. *)
Definition mirrors (z : zig) (c : call) (bad : Prop) (out : outcome zig) : Prop :=
  match out with
  | Ret z' => exec c (zsys z) = Ret (zsys z', tt) /\ ~ bad
  | Undefined => exec c (zsys z) = Undefined \/ bad
  | Panicked => exec c (zsys z) = Panicked
  | Stuck => exec c (zsys z) = Stuck
  end.

Lemma mirrors_call {A B} (m : M A) (f : A -> M B) (k : B -> zig -> zig) z c bad :
  (forall s, exec c s = discard m s) -> (forall b z, zsys (k b z) = zsys z) ->
  (forall s a, m (zsys z) = Ret (s, a) ->
     (exists b, f a s = Ret (s, b) /\ ~ bad) \/ f a s = Undefined /\ bad) ->
  mirrors z c bad (call_with (m ≫= f) k z).
Proof.
  intros Hc Hk Hf. unfold call_with, mirrors. rewrite Hc. unfold discard, mbind, M_bind. cbn.
  destruct (m (zsys z)) as [[s a]| | |]; cbn; try done; [|by left].
  destruct (Hf s a eq_refl) as [(b & -> & Hb)|[-> Hb]]; cbn; [|by right]. by rewrite Hk.
Qed.

(** A continuation that only computes. *)
Lemma mirrors_pure {A B} (m : M A) (g : A -> B) (k : B -> zig -> zig) z c :
  (forall s, exec c s = discard m s) -> (forall b z, zsys (k b z) = zsys z) ->
  mirrors z c False (call_with (a ← m; mret (g a)) k z).
Proof. intros Hc Hk. apply mirrors_call; [done..|]. intros s a _. left. exists (g a). by split; [|intros []]. Qed.

(** A host that fits, copied. *)
Lemma mirrors_fits {B} host junk (f : option bytes -> M B) (k : B -> zig -> zig) z c bad :
  (length host <? 256)%nat = true -> mirrors z c bad (call_with (f (Some (terminated 256 host junk))) k z) ->
  mirrors z c bad (call_with (buf ← lift (c_copy 256 host junk); f buf) k z).
Proof. intros Hl. unfold call_with, mbind, M_bind, lift. rewrite c_copy_ret, Hl. done. Qed.

Lemma mirrors_exec z c : mirrors z c False (call_with (exec c) ignore z).
Proof.
  unfold call_with, mirrors. destruct (exec c (zsys z)) as [[s []]| | |]; cbn; try done; [by split; [|intros []]|by left].
Qed.

Lemma NetErrorCode_result {A} code (f : NetError -> A) s bad :
  result_code code -> (bad <-> code <> NS_OK) ->
  (exists b, (e ← lift (NetErrorCode code); mret (f e)) s = Ret (s, b) /\ ~ bad)
  \/ (e ← lift (NetErrorCode code); mret (f e)) s = Undefined /\ bad.
Proof.
  intros Hc Hb. unfold lift, mbind, M_bind. rewrite NetErrorCode_codes by done.
  destruct (Z.eqb_spec code NS_OK); cbn; [left|right]; [eexists; split; [done|tauto]|tauto].
Qed.

Lemma zexec_mirrors z o c : as_call z o = Some c -> mirrors z c (failed_call z o) (zexec o z).
Proof.
  assert (Hset : forall x (b : ZEngine) z, zsys (set_engine x b z) = zsys z) by done.
  assert (Hcon : forall x (b : ZConnection) z, zsys (set_conn x b z) = zsys z) by done.
  assert (Hign : forall A (b : A) z, zsys (ignore b z) = zsys z) by done.
  destruct o; cbn [as_call zexec failed_call]; unfold with_engine, with_conn;
    try (intros [= <-]; apply mirrors_exec).
  - intros [= <-]. by apply mirrors_pure.
  - intros (ne & -> & H)%bind_Some. unfold bridge_deinit. destruct (ne_handle ne =? NULL); [done|]. injection H as <-.
    apply mirrors_pure; [intros s; symmetry; apply discard_unit|done].
  - intros (ne & -> & H)%bind_Some. unfold bridge_connect. destruct (ne_handle ne =? NULL); [done|].
    destruct (length host <? 256)%nat eqn:El; [|done]. injection H as <-.
    apply (mirrors_fits host junk _ _ _ _ _ El), mirrors_pure; [done|]. by intros [k|e] z'.
  - intros (ne & -> & H)%bind_Some. unfold bridge_connectHttp3.
    destruct (length host <? 256)%nat eqn:El; [|done]. injection H as <-.
    by apply (mirrors_fits host junk _ _ _ _ _ El), mirrors_pure.
  - intros (ne & -> & [= <-])%bind_Some. by apply mirrors_pure.
  - intros (ne & -> & [= <-])%bind_Some. by apply mirrors_pure.
  - intros (k & -> & [= <-])%bind_Some. by apply mirrors_pure.
  - intros (k & Hk & [= <-])%bind_Some. rewrite Hk. apply mirrors_call; [done..|]. intros s [[code buf] n] Hr.
    apply NetErrorCode_result; [exact (net_read_codes _ _ _ _ _ _ _ Hr)|].
    split; [intros (k' & s' & code' & b' & n' & [= <-] & H & ?); congruence|].
    intros Hc. by exists k, s, code, buf, n.
  - intros (k & Hk & [= <-])%bind_Some. rewrite Hk. apply mirrors_call; [done..|]. intros s [code n] Hr.
    apply NetErrorCode_result; [exact (net_write_codes _ _ _ _ _ _ _ _ Hr)|].
    split; [intros (k' & s' & code' & n' & [= <-] & H & ?); congruence|].
    intros Hc. by exists k, s, code, n.
  - intros (k & -> & H)%bind_Some. unfold bridge_close. destruct (zc_handle k =? NULL); [done|]. injection H as <-.
    by apply mirrors_pure.
  - intros (ne & -> & [= <-])%bind_Some. by apply mirrors_pure.
Qed.

(** ** What the steps keep *)

Lemma as_call_allowed z o c : objects_ok z -> fit z o -> as_call z o = Some c -> allowed (zsys z) c.
Proof.
  intros Hok Hf. destruct o; cbn [as_call fit] in *;
    repeat match goal with
    | |- None = Some _ -> _ => done
    | |- Some _ = Some _ -> _ => intros [= <-]
    | |- ((?m ≫= _) = Some _) -> _ =>
        let y := fresh "y" in let Hy := fresh "Hy" in let H := fresh in
        intros (y & Hy & H)%bind_Some; revert H
    | |- context [if ?b then _ else _] => destruct b eqn:?
    | |- (_ = _) -> _ => progress cbn
    end; cbn [allowed].
  all: try (by eapply obj_live); try done.
  - by destruct Hf as (_ & ? & ?).
  - split; [by eapply obj_live|apply terminated_c_string].
  - split; [by eapply obj_live|apply terminated_c_string].
  - destruct Hf as [_ (r & Hr & Hrok)]. split; [by eapply obj_live|by exists r].
  - destruct Hf as (k & Hk & Hu). by simplify_eq.
  - destruct Hf as (k & Hk & Hu). by simplify_eq.
  - destruct Hf as (k & Hk & Hu). by simplify_eq.
  - destruct Hf as (k & Hk & Hu). simplify_eq. destruct Hu as [Hn|Hu]; [|done]. rewrite Hn in Heqb. done.
Qed.

(** A step that makes no call always succeeds. *)
Lemma no_call_returns z o :
  fit z o -> as_call z o = None -> exists z', zexec o z = Ret z' /\ zsys z' = zsys z /\ zengines z' = zengines z.
Proof.
  intros Hf. destruct o; cbn [as_call fit zexec] in *; unfold with_engine, with_conn; try done.
  - destruct Hf as [ne Hne]. rewrite Hne. cbn. unfold bridge_deinit. destruct (ne_handle ne =? NULL) eqn:E; [|done].
    intros _. eexists. split; [done|]. split; [done|]. cbn. by rewrite insert_id.
  - destruct Hf as [ne Hne]. rewrite Hne. cbn [mbind option_bind]. unfold bridge_connect. destruct (ne_handle ne =? NULL); [by eexists|].
    unfold call_with, mbind, M_bind, lift. rewrite c_copy_ret.
    destruct (length host <? 256)%nat; [done|]. by eexists.
  - destruct Hf as [ne Hne]. rewrite Hne. cbn [mbind option_bind].
    unfold bridge_connectHttp3, call_with, mbind, M_bind, lift. rewrite c_copy_ret.
    destruct (length host <? 256)%nat; [done|]. by eexists.
  - destruct Hf as [[ne Hne] _]. by rewrite Hne.
  - destruct Hf as [ne Hne]. by rewrite Hne.
  - destruct Hf as (k & Hk & _). by rewrite Hk.
  - destruct Hf as (k & Hk & _). by rewrite Hk.
  - destruct Hf as (k & Hk & _). by rewrite Hk.
  - destruct Hf as (k & Hk & _). rewrite Hk. cbn. unfold bridge_close. destruct (zc_handle k =? NULL); [|done].
    intros _. by eexists.
  - destruct Hf as [k Hk]. rewrite Hk. unfold bridge_getState, ConnState_of, net_conn_state, enumFromInt.
    intros _. destruct (zc_handle k =? NULL); by eexists.
  - destruct Hf as [k Hk]. rewrite Hk. intros _. by eexists.
  - destruct Hf as [ne Hne]. by rewrite Hne.
Qed.

Definition makes_objects (o : zop) : bool :=
  match o with ZInit _ _ _ | ZDeinit _ => true | _ => false end.

Lemma call_with_inv {A} (m : M A) (k : A -> zig -> zig) z z' :
  call_with m k z = Ret z' -> exists s a, m (zsys z) = Ret (s, a) /\ z' = k a (set_sys z s).
Proof. unfold call_with. destruct (m (zsys z)) as [[s a]| | |]; try done. intros [= <-]. by exists s, a. Qed.

Lemma engines_kept z o z' : makes_objects o = false -> zexec o z = Ret z' -> zengines z' = zengines z.
Proof.
  intros Ho. destruct o; try discriminate Ho; cbn [zexec]; unfold with_engine, with_conn;
    try (intros (s & a & _ & ->)%call_with_inv; done).
  all: try (destruct (zengines z !! x) as [ne|]; [|done]).
  all: try (destruct (zconns z !! c) as [k|]; [|done]).
  all: try (intros (s & a & _ & ->)%call_with_inv; by destruct a).
  - intros H. destruct (bridge_getState k); cbn in H; by simplify_eq.
  - by intros [= <-].
Qed.

(** A handle that is null or live stays so, unless its engine is destroyed. *)
Lemma handle_kept n s c s' h :
  sys_wf n s -> n < 2 ^ 64 - 2 -> allowed s c -> c <> SDestroy h -> exec c s = Ret (s', tt) ->
  handle_ok s h -> handle_ok s' h.
Proof.
  intros Hw Hn Ha Hc He [->|[e Hl]]; [by left|]. right.
  destruct (exec_evolves n h c s s' Hw Hn Ha Hc He e Hl) as (e' & He' & _). by exists e'.
Qed.

Lemma init_objects z poll addr x s ne :
  objects_ok z -> zengines z !! x = None -> engines (zsys z) !! addr = None ->
  bridge_init poll addr (zsys z) = Ret (s, ne) -> (forall h, handle_ok (zsys z) h -> handle_ok s h) ->
  objects_ok (set_engine x ne (set_sys z s)).
Proof.
  intros Hok Hx0 Hfree Hm Hkeep.
  assert (Hne' : ne_handle ne = NULL \/ ne_handle ne = addr /\ is_Some (engines s !! addr)).
  { unfold bridge_init, net_engine_create in Hm. destruct poll as [[]|]; injection Hm as <- <-; cbn; [right|by left].
    split; [done|]. rewrite lookup_insert_eq. by eexists. }
  assert (Hold : forall y ne0, zengines z !! y = Some ne0 -> ne_handle ne0 <> NULL -> ne_handle ne0 <> addr).
  { intros y ne0 Hy Hnn E0. destruct (obj_live z Hok y ne0 Hy) as [?|[e E]]; [done|congruence]. }
  split; cbn.
  - intros y ne0 [[<- <-]|[Hyx Hy]]%lookup_insert_Some.
    + destruct Hne' as [H|[H1 H2]]; [by left|right; by rewrite H1].
    + apply Hkeep. by eapply obj_live.
  - intros y y' ne0 Hy Hy' Hnn. apply lookup_insert_Some in Hy as [[<- <-]|[Hyx Hy]],
      Hy' as [[<- E]|[Hyx' Hy']]; try done.
    + destruct Hne' as [?|[E _]]; [done|]. by destruct (Hold y' ne Hy').
    + subst. destruct Hne' as [?|[E _]]; [done|]. by destruct (Hold y ne0 Hy).
    + by eapply obj_apart.
Qed.

Lemma deinit_objects z x ne s ne' :
  objects_ok z -> zengines z !! x = Some ne -> ne_handle ne <> NULL -> bridge_deinit ne (zsys z) = Ret (s, ne') ->
  (forall h, h <> ne_handle ne -> handle_ok (zsys z) h -> handle_ok s h) ->
  objects_ok (set_engine x ne' (set_sys z s)).
Proof.
  intros Hok Hne Hnn Hm Hkeep. unfold bridge_deinit in Hm. rewrite (proj2 (Z.eqb_neq _ _)) in Hm by done.
  unfold mbind, M_bind in Hm. destruct (net_engine_destroy (ne_handle ne) (zsys z)) as [[s1 []]| | |]; try done.
  injection Hm as <- <-. split; cbn.
  - intros y ne0 [[<- <-]|[Hyx Hy]]%lookup_insert_Some; [by left|]. apply Hkeep; [|by eapply obj_live].
    intros E. apply Hyx. eapply obj_apart; [done|exact Hne| |exact Hnn]. destruct ne, ne0; cbn in *; by subst.
  - intros y y' ne0 Hy Hy' Hn0. apply lookup_insert_Some in Hy as [[<- <-]|[Hyx Hy]],
      Hy' as [[<- E]|[Hyx' Hy']]; try done; [by subst|by eapply obj_apart].
Qed.

Lemma not_destroy z o h : makes_objects o = false -> as_call z o <> Some (SDestroy h).
Proof.
  intros Ho Hc. destruct o; try discriminate Ho; cbn [as_call] in Hc; try discriminate Hc;
    apply bind_Some in Hc as (? & _ & Hc); try discriminate Hc; repeat case_match; try discriminate Hc;
    apply bind_Some in Hc as (? & _ & Hc); discriminate Hc.
Qed.

Lemma step_objects n z o z' :
  sys_wf n (zsys z) -> n < 2 ^ 64 - 2 -> objects_ok z -> fit z o -> zexec o z = Ret z' -> objects_ok z'.
Proof.
  intros Hw Hn Hok Hf Hx. destruct (as_call z o) as [c|] eqn:Hc.
  2:{ destruct (no_call_returns z o Hf Hc) as (z1 & H1 & H2 & H3). assert (z1 = z') as -> by congruence.
      destruct Hok. split; unfold handle_ok; rewrite ?H2, ?H3; done. }
  pose proof (as_call_allowed z o c Hok Hf Hc) as Ha.
  pose proof (zexec_mirrors z o c Hc) as Hm. rewrite Hx in Hm. destruct Hm as [He _].
  pose proof (fun h Hh => handle_kept n (zsys z) c (zsys z') h Hw Hn Ha Hh He) as Hkeep.
  destruct (makes_objects o) eqn:Ho.
  - destruct o; try discriminate Ho; cbn [as_call zexec fit] in *.
    + injection Hc as <-. destruct Hf as (Hx0 & Hne & Hfree). apply call_with_inv in Hx as (s & ne & Hm & ->).
      eapply init_objects; [done..|]. intros h. by apply Hkeep.
    + unfold with_engine in Hx. destruct (zengines z !! x) as [ne|] eqn:Hne; [|done]. cbn in Hc.
      destruct (Z.eqb_spec (ne_handle ne) NULL) as [|Hnn]; [done|]. injection Hc as <-.
      apply call_with_inv in Hx as (s & ne1 & Hm & ->). eapply deinit_objects; [done..|].
      intros h Hh. apply Hkeep. congruence.
  - pose proof (engines_kept z o z' Ho Hx) as Hen. split; rewrite Hen.
    + intros y ne Hy. apply Hkeep; [|by eapply obj_live]. intros ->. by eapply not_destroy.
    + intros y y'. by eapply obj_apart.
Qed.

Lemma zruns_inv n z : zruns n z -> n < 2 ^ 64 - 2 -> 0 <= n /\ sys_wf n (zsys z) /\ objects_ok z.
Proof.
  induction 1 as [s Hs|n z o z' Hr IH Hf Hx]; intros Hn.
  - split; [lia|]. split; [|split; cbn; intros *; by rewrite lookup_empty].
    unfold sys_wf. cbn. rewrite Hs. apply map_Forall_empty.
  - destruct IH as (H0 & Hw & Hok); [lia|]. split; [lia|]. split; [|eapply step_objects; [exact Hw|lia|exact Hok|exact Hf|exact Hx]].
    destruct (as_call z o) as [c|] eqn:Hc.
    + pose proof (zexec_mirrors z o c Hc) as Hm. rewrite Hx in Hm. destruct Hm as [He _].
      pose proof (exec_wf n (zsys z) c Hw H0 ltac:(lia) (as_call_allowed z o c Hok Hf Hc)) as Hwp.
      unfold wp in Hwp. by rewrite He in Hwp.
    + destruct (no_call_returns z o Hf Hc) as (z1 & H1 & H2 & _). assert (z1 = z') as -> by congruence.
      rewrite H2. eapply sys_wf_mono; [exact Hw|lia].
Qed.
End Client.

(** ** Properties *)

(** C20: programs on the Zig wrapper inherit the safety of the engine.  In any state a
    program has reached by steps that name its own objects and no connection of an
    engine it has torn down, the next such step is at most one allowed call of the C
    ABI, keeps the engines well formed and the program's engine objects null or live and
    apart; it waits only in a call that waits for a peer; and it goes wrong exactly when
    it is a read or write that the engine answers with a failure. *)
Theorem client_safe {N : Net} (n : Z) (z : zig) (o : zop)
    (Hr : zruns n z) (Hn : n < 2 ^ 64 - 3) (Hf : fit z o) :
  match zexec o z with
  | Ret z' => sys_wf (n + 1) (zsys z') /\ objects_ok z' /\ ~ failed_call z o
      /\ match as_call z o with
         | Some c => allowed (zsys z) c /\ exec c (zsys z) = Ret (zsys z', tt)
         | None => zsys z' = zsys z
         end
  | Undefined => failed_call z o
  | Stuck => exists c, as_call z o = Some c /\ waits c = true
  | Panicked => False
  end.
Proof.
  destruct (zruns_inv n z Hr ltac:(lia)) as (H0 & Hw & Hok).
  destruct (zexec o z) as [z'| | |] eqn:Hx.
  1: { destruct (zruns_inv (n + 1) z') as (_ & Hw' & Hok'); [by eapply zruns_step|lia|].
       split; [done|]. split; [done|]. destruct (as_call z o) as [c|] eqn:Hc.
       - pose proof (zexec_mirrors z o c Hc) as Hm. rewrite Hx in Hm. destruct Hm as [He Hb].
         split; [done|]. split; [by eapply as_call_allowed|done].
       - destruct (no_call_returns z o Hf Hc) as (z1 & H1 & H2 & _). split; [|congruence].
         destruct o; try (by intros []); exfalso; cbn in Hc; destruct Hf as (k & Hk & _); by rewrite Hk in Hc. }
  all: destruct (as_call z o) as [c|] eqn:Hc;
    [|destruct (no_call_returns z o Hf Hc) as (z1 & H1 & _); congruence].
  all: pose proof (zexec_mirrors z o c Hc) as Hm; rewrite Hx in Hm; cbn in Hm.
  all: pose proof (exec_wf n (zsys z) c Hw H0 ltac:(lia) (as_call_allowed z o c Hok Hf Hc)) as Hwp; unfold wp in Hwp.
  - by rewrite Hm in Hwp.
  - destruct Hm as [Hm|Hm]; [by rewrite Hm in Hwp|done].
  - exists c. split; [done|]. destruct (waits c) eqn:Ew; [done|]. by destruct (exec_steady c Ew (zsys z)).
Qed.

(** The state after a step. *)
Definition zafter (o : zop (N := Toy.net)) (z : zig (N := Toy.net)) : zig :=
  match zexec o z with Ret z' => z' | _ => z end.

Definition toy_program : zig (N := Toy.net) :=
  zafter (ZConnect 1 2 (lit "h") [170] 80) (zafter (ZInit 1 (Ok tt) 100) (mkZig toy_start ∅ ∅)).

(** An engine is created and a connection opened and closed. *)
Theorem client_safe_witness :
  exists z', zexec (N := Toy.net) (ZClose 2) toy_program = Ret z' /\ sys_wf 3 (zsys z') /\ objects_ok z'
  /\ allowed (zsys toy_program) (SClose 100 1).
Proof.
  assert (Hr : zruns (N := Toy.net) 2 toy_program).
  { apply (zruns_step 1 (zafter (ZInit 1 (Ok tt) 100) (mkZig toy_start ∅ ∅)) (ZConnect 1 2 (lit "h") [170] 80)).
    - apply (zruns_step 0 (mkZig toy_start ∅ ∅) (ZInit 1 (Ok tt) 100)); [by constructor| |reflexivity]. by split.
    - eexists. reflexivity.
    - vm_compute. reflexivity. }
  pose proof (client_safe (N := Toy.net) 2 toy_program (ZClose 2) Hr) as H.
  destruct (zexec (N := Toy.net) (ZClose 2) toy_program) as [z'| | |] eqn:E; [|by vm_compute in E..].
  destruct H as (H1 & H2 & _ & H3); [done| |].
  - exists (mkZConnection 100 1). split; [reflexivity|]. right. right. by eexists.
  - exists z'. split; [done|]. split; [exact H1|]. split; [exact H2|]. exact (proj1 H3).
Defined.

(** What the program must not do.  A connection whose engine has been torn down is not
    told apart from a live one (its state is still [Connected]), and reading, writing,
    binding or closing it is undefined behaviour; reading or writing a closed connection
    is illegal, while closing it again does nothing. *)
Theorem stale_connection {N : Net} (z : zig) (c id : Z) (k : ZConnection) (fuel : nat) (dst data : bytes)
    (Hk : zconns z !! c = Some k) :
  (zc_handle k <> NULL -> zc_engine k <> NULL -> engines (zsys z) !! zc_engine k = None ->
     bridge_getState k = Ret Connected
     /\ zexec (ZRead c dst) z = Undefined /\ zexec (ZWrite fuel c data) z = Undefined
     /\ zexec (ZBind c id) z = Undefined /\ zexec (ZClose c) z = Undefined)
  /\ (zc_handle k = NULL ->
     bridge_getState k = Ret Closed
     /\ zexec (ZRead c dst) z = Undefined /\ zexec (ZWrite fuel c data) z = Undefined
     /\ exists z', zexec (ZClose c) z = Ret z' /\ zsys z' = zsys z /\ zconns z' = zconns z).
Proof.
  cbn [zexec]. unfold with_conn. rewrite Hk. split.
  - intros Hc He Hd. unfold bridge_getState, bridge_read, bridge_write, bridge_bindBodyRing, bridge_close, net_read,
      net_write, net_conn_bind_body_ring, net_close, net_conn_state, call_with, mbind, M_bind, modify, deref.
    rewrite !(proj2 (Z.eqb_neq _ _)) by done. cbn. by rewrite Hd.
  - intros Hc. unfold bridge_getState, bridge_read, bridge_write, bridge_close, net_read, net_write, net_conn_state,
      call_with, mbind, M_bind. rewrite Hc, Z.eqb_refl, orb_true_r. split_and!; [done..|].
    eexists. split; [reflexivity|]. split; [done|]. cbn. by rewrite insert_id.
Qed.

(** The engine is gone, the connection is not. *)
Theorem stale_connection_witness :
  zexec (N := Toy.net) (ZRead 2 [0; 0]) (zafter (ZDeinit 1) toy_program) = Undefined.
Proof.
  eapply (proj1 (stale_connection (N := Toy.net) (zafter (ZDeinit 1) toy_program) 2 7 (mkZConnection 100 1) 0 [0; 0] []
    ltac:(vm_compute; reflexivity))).
  - vm_compute. discriminate.
  - vm_compute. discriminate.
  - vm_compute. reflexivity.
Defined.
