(* ===== verification/Http.v ===== *)
(** * HTTP messages of the pipeline (src/z_pipeline/pipeline.rs)

    Building and serialising requests, sending them over a [SocketConnection], and
    parsing responses.  The program's traits [SocketConnection] and [TlsConnection] are
    classes here; [Mock] holds the only implementations it has. *)

From S2P Require Import Prelude Utf8 Str.

Inductive PipelineError :=
| DNSResolutionFailed (msg : str)
| ConnectionFailed (msg : str)
| Timeout (msg : str)
| HTTPError (code : Z)
| TLSError (msg : str)
| MaxRetriesExceeded
| InvalidRedirect
| CacheError (msg : str)
| NetworkError (msg : str).
#[export] Instance PipelineError_eq_dec : EqDecision PipelineError.
Proof. solve_decision. Defined.

Record HttpRequest := mkHttpRequest {
  rq_method : str;
  rq_path : str;
  rq_version : str;
  rq_headers : gmap str str;
  rq_body : bytes;
}.

Record HttpResponse := mkHttpResponse {
  status_code : Z;
  headers : gmap str str;
  body : bytes;
}.
#[export] Instance HttpResponse_eq_dec : EqDecision HttpResponse.
Proof. solve_decision. Defined.

(** ** Parsing a response *)

(** [line[..colon_pos]] and [line[colon_pos + 1..]], trimmed. *)
Definition header_line (line : str) : outcome (option (str * str)) :=
  match find_char (ch ":") line with
  | None => Ret None
  | Some colon_pos =>
      k ← unwrap (slice_to colon_pos line);
      v ← unwrap (slice_from (colon_pos + 1) line);
      Ret (Some (trim k, trim v))
  end.

(** [for (i, line) in lines.iter().enumerate()]: the headers and [body_start]. *)
Fixpoint header_loop (i : nat) (lines : list str) (hs : gmap str str) : outcome (gmap str str * nat) :=
  match lines with
  | [] => Ret (hs, 0%nat)
  | line :: lines =>
      if decide (line = []) then Ret (hs, S i)
      else
        o ← header_line line;
        header_loop (S i) lines (match o with Some (k, v) => <[k := v]> hs | None => hs end)
  end.

Definition parse_http_response (data : str) : outcome (result HttpResponse str) :=
  let lines := split_crlf data in
  match lines with
  | [] => Ret (Err (lit "Empty response"))
  | status_line :: _ =>
      match split_whitespace status_line with
      | _ :: code :: _ =>
          match parse_u16 code with
          | None => Ret (Err (lit "Invalid status code"))
          | Some status =>
              '(hs, body_start) ← header_loop 0 lines ∅;
              Ret (Ok (mkHttpResponse status hs (default [] (as_bytes <$> lines !! body_start))))
          end
      | _ => Ret (Err (lit "Invalid status line"))
      end
  end.

(** ** Building and sending a request *)

Record Cookie := mkCookie { ck_name : str; ck_value : str }.

Definition USER_AGENT : str := lit "z-net NetStack/1.0".

(** [cookies] is what the cookie cache answered for the URL's host and path. *)
Definition build_http_request (path method : str) (option_headers : gmap str str)
    (cookies : result (list Cookie) str) : HttpRequest :=
  let hs := <[lit "Accept" := lit "*/*"]> (<[lit "User-Agent" := USER_AGENT]> option_headers) in
  let hs :=
    match cookies with
    | Ok (c :: cs) =>
        let pairs := (fun ck => ck_name ck ++ ch "=" :: ck_value ck) <$> c :: cs in
        <[lit "Cookie" := join (lit "; ") pairs]> hs
    | _ => hs
    end in
  mkHttpRequest method path (lit "HTTP/1.1") hs [].

Definition CRLF : str := [13; 10].

Definition header_text (p : str * str) : str := fst p ++ lit ": " ++ snd p ++ CRLF.

(** [order] is the order in which the header map is iterated. *)
Definition request_data (r : HttpRequest) (order : list (str * str)) : str :=
  rq_method r ++ lit " " ++ rq_path r ++ lit " HTTP/1.1" ++ CRLF
  ++ concat (header_text <$> order)
  ++ lit "Content-Length: " ++ decimal (Z.of_nat (length (rq_body r))) ++ CRLF ++ CRLF.

Class SocketConnection := {
  Sock : Type;
  sk_get_port : Sock -> Z;
  sk_connect : Sock -> str -> Z -> Sock * result unit str;
  sk_send : Sock -> bytes -> Sock * result Z str;
    (** the bytes placed at the start of a buffer of the given size *)
  sk_recv : Sock -> nat -> Sock * result bytes str;
  sk_set_timeout : Sock -> Z -> Sock * result unit str;
  sk_close : Sock -> Sock;
}.

Record TlsHandshakeInfo := mkTlsHandshakeInfo {
  protocol : str;
  cipher_suite : str;
  peer_certificate : option bytes;
  info_handshake_time : Z;
}.

Class TlsConnection := {
  TlsC : Type;
  tc_handshake : TlsC -> TlsC * result unit str;
  tc_send : TlsC -> bytes -> TlsC * result Z str;
  tc_recv : TlsC -> nat -> TlsC * result bytes str;
  tc_get_info : TlsC -> TlsHandshakeInfo;
}.


Definition RECV_BUF : nat := Z.to_nat 8192.

Definition send_http_request {C : SocketConnection} (s : Sock) (r : HttpRequest)
    (order : list (str * str)) : outcome (Sock * result HttpResponse PipelineError) :=
  let data := as_bytes (request_data r order) in
  match sk_send s data with
  | (s, Err e) => Ret (s, Err (NetworkError e))
  | (s, Ok sent) =>
      if negb (sent =? Z.of_nat (length data))
      then Ret (s, Err (NetworkError (lit "Failed to send complete request")))
      else
        let '(s, body_result) :=
          match rq_body r with
          | [] => (s, Ok tt)
          | b => match sk_send s b with
                 | (s, Err e) => (s, Err (NetworkError e))
                 | (s, Ok sent) =>
                     (s, if sent =? Z.of_nat (length b) then Ok tt
                         else Err (NetworkError (lit "Failed to send complete body")))
                 end
          end in
        match body_result with
        | Err e => Ret (s, Err e)
        | Ok _ =>
            match sk_recv s RECV_BUF with
            | (s, Err e) => Ret (s, Err (NetworkError e))
            | (s, Ok received) =>
                if (RECV_BUF <? length received)%nat then Panicked
                else
                  res ← parse_http_response (from_utf8_lossy received);
                  Ret (s, map_err NetworkError res)
            end
        end
  end.

(** ** The mock connections, the only ones the program has *)

Module Mock.

Definition get_port (s : unit) : Z := 80.
Definition connect (s : unit) (host : str) (port : Z) : unit * result unit str := (s, Ok tt).
Definition send (s : unit) (data : bytes) : unit * result Z str := (s, Ok (Z.of_nat (length data))).
Definition recv (s : unit) (n : nat) : unit * result bytes str := (s, Ok []).
Definition set_timeout (s : unit) (timeout : Z) : unit * result unit str := (s, Ok tt).
Definition close (s : unit) : unit := s.
Definition sock : SocketConnection :=
  {| Sock := unit; sk_get_port := get_port; sk_connect := connect; sk_send := send; sk_recv := recv;
     sk_set_timeout := set_timeout; sk_close := close |}.

Definition handshake (t : unit) : unit * result unit str := (t, Ok tt).
Definition tls_send (t : unit) (data : bytes) : unit * result Z str := (t, Ok (Z.of_nat (length data))).
Definition tls_recv (t : unit) (n : nat) : unit * result bytes str := (t, Ok []).
(** The duration is in nanoseconds. *)
Definition get_info (t : unit) : TlsHandshakeInfo :=
  mkTlsHandshakeInfo (lit "TLS 1.3") (lit "AES-256-GCM") None (100 * 1000000).
Definition tls : TlsConnection :=
  {| TlsC := unit; tc_handshake := handshake; tc_send := tls_send; tc_recv := tls_recv;
     tc_get_info := get_info |}.

Definition create_socket_connection : result (@Sock sock) str := Ok tt.
Definition create_tls_connection : result (@TlsC tls) str := Ok tt.
End Mock.

(** ** Lemmas *)

Section Lines.
Implicit Types (s a b : str).

Lemma split_crlf_cons c s : 13 <> c -> split_crlf (c :: s) = push_head c (split_crlf s).
Proof.
  intros Hc. destruct c as [|p|p]; [done| |done].
  do 4 (destruct p as [p|p|]; try done).
Qed.

Lemma split_crlf_cr s :
  split_crlf (13 :: s) = push_head 13 (split_crlf s)
  \/ exists r, s = 10 :: r /\ split_crlf (13 :: s) = [] :: split_crlf r.
Proof.
  destruct s as [|d r]; [by left|]. destruct (decide (d = 10)) as [->|Hd]; [right; by exists r|left].
  destruct d as [|p|p]; [done| |done]. do 4 (destruct p as [p|p|]; try done).
Qed.

Lemma split_crlf_app a b : (13 ∉ a) -> split_crlf (a ++ CRLF ++ b) = a :: split_crlf b.
Proof.
  induction a as [|c a IH]; intros H; [done|]. apply not_elem_of_cons in H as [Hc Ha].
  change ((c :: a) ++ CRLF ++ b) with (c :: (a ++ CRLF ++ b)).
  by rewrite split_crlf_cons, IH.
Qed.

Lemma split_crlf_not_nil s : split_crlf s <> [].
Proof.
  assert (H : forall n s, (length s < n)%nat -> split_crlf s <> []).
  { clear s. induction n as [|n IH]; intros s Hs; [lia|]. destruct s as [|c s]; [done|].
    assert (split_crlf (c :: s) = push_head c (split_crlf s) \/ exists l, split_crlf (c :: s) = [] :: l) as [E|[l E]].
    { destruct (decide (13 = c)) as [<-|Hc]; [|left; by apply split_crlf_cons].
      destruct (split_crlf_cr s) as [E|(r & _ & E)]; eauto. }
    - rewrite E. cbn in Hs. pose proof (IH s ltac:(lia)). by destruct (split_crlf s).
    - by rewrite E. }
  by apply (H (S (length s))); lia.
Qed.

(** What a reader of one line [key: value] expects. *)
Definition header_ok (p : str * str) : Prop :=
  ((ch ":" ∉ fst p) /\ (13 ∉ fst p) /\ no_ws_ends (fst p)) /\ (13 ∉ snd p) /\ no_ws_ends (snd p).

Lemma header_line_show k v :
  (ch ":" ∉ k) -> no_ws_ends k -> no_ws_ends v -> header_line (k ++ lit ": " ++ v) = Ret (Some (k, v)).
Proof.
  intros Hk Hk2 Hv. unfold header_line. change (k ++ lit ": " ++ v) with (k ++ ch ":" :: 32 :: v).
  rewrite find_char_app by done. rewrite slice_to_app. cbn [unwrap mbind outcome_bind].
  rewrite slice_after by done. cbn [unwrap mbind outcome_bind]. rewrite trim_id by done.
  change (trim (32 :: v)) with (trim v). by rewrite trim_id.
Qed.

Lemma header_line_total line : exists o, header_line line = Ret o.
Proof.
  unfold header_line. destruct (find_char (ch ":") line) as [n|] eqn:E; [|by eexists].
  apply find_char_Some in E as (a & b & -> & _ & ->).
  rewrite slice_to_app. cbn [unwrap mbind outcome_bind]. rewrite slice_after by done. by eexists.
Qed.

Lemma header_loop_total i lines hs : exists r, header_loop i lines hs = Ret r.
Proof.
  revert i hs. induction lines as [|l lines IH]; intros i hs; cbn; [by eexists|].
  destruct (decide (l = [])); [by eexists|]. destruct (header_line_total l) as [o ->]. cbn. apply IH.
Qed.

(** The headers a list of pairs denotes: later ones win. *)
Definition insert_all (hs : gmap str str) (ps : list (str * str)) : gmap str str :=
  foldl (fun m p => <[fst p := snd p]> m) hs ps.

Definition show_header (p : str * str) : str := fst p ++ lit ": " ++ snd p.

Lemma header_loop_shown i ps tail hs :
  Forall header_ok ps ->
  header_loop i ((show_header <$> ps) ++ tail) hs = header_loop (i + length ps) tail (insert_all hs ps).
Proof.
  intros H. revert i hs.
  induction H as [|[k v] ps [(Hk1 & Hk2 & Hk3) [Hv1 Hv2]] _ IH]; intros i hs.
  - cbn. by rewrite Nat.add_0_r.
  - change ((show_header <$> (k, v) :: ps) ++ tail) with (show_header (k, v) :: (show_header <$> ps) ++ tail).
    cbn [header_loop]. rewrite decide_False by (by destruct k). change (show_header (k, v)) with (k ++ lit ": " ++ v).
    cbn [fst snd] in *.
    rewrite header_line_show by done. cbn [mbind outcome_bind]. rewrite IH. cbn [length].
    by rewrite Nat.add_succ_r.
Qed.

Lemma insert_all_lookup hs ps k :
  insert_all hs ps !! k = match last (filter (fun p => fst p = k) ps) with
  | Some p => Some (snd p) | None => hs !! k end.
Proof.
  revert hs. induction ps as [|[k' v] ps IH]; intros hs; [done|]. cbn [insert_all foldl fst snd].
  change (foldl _ (<[k' := v]> hs) ps) with (insert_all (<[k' := v]> hs) ps). rewrite IH, filter_cons. cbn [fst].
  destruct (decide (k' = k)) as [->|Hne].
  - rewrite last_cons. destruct (last _); [done|]. cbn. by rewrite lookup_insert_eq.
  - destruct (last _); [done|]. by rewrite lookup_insert_ne.
Qed.
End Lines.

(** ** Printed messages *)

Definition show_headers (ps : list (str * str)) : str := concat ((fun p => show_header p ++ CRLF) <$> ps).

Definition status_line (version : str) (code : Z) (reason : str) : str :=
  version ++ 32 :: decimal code ++ 32 :: reason.

Definition show_response (version : str) (code : Z) (reason : str) (ps : list (str * str)) (text : str)
  : str := status_line version code reason ++ CRLF ++ show_headers ps ++ CRLF ++ text.

Section Messages.
Implicit Types (s a b : str).

Lemma show_header_no_cr p : header_ok p -> 13 ∉ show_header p.
Proof.
  intros [(_ & Hk & _) [Hv _]]. unfold show_header. rewrite !not_elem_of_app. split_and!; [done|by_eval|done].
Qed.

Lemma split_show_headers ps s :
  Forall header_ok ps -> split_crlf (show_headers ps ++ s) = (show_header <$> ps) ++ split_crlf s.
Proof.
  intros H. induction H as [|p ps Hp _ IH]; [done|].
  unfold show_headers. cbn [fmap list_fmap concat]. rewrite <- !app_assoc, split_crlf_app by by apply show_header_no_cr.
  fold (show_headers ps). change (concat (list_fmap _ _ _ ps)) with (show_headers ps). by rewrite IH.
Qed.

Lemma split_ws_token a b :
  Forall (fun c => is_whitespace c = false) a -> a <> [] ->
  split_whitespace (a ++ 32 :: b) = a :: split_whitespace b.
Proof.
  intros H Hne. unfold split_whitespace.
  assert (Hgo : forall cur, cur ++ a <> [] -> split_ws_go cur (a ++ 32 :: b) = (reverse cur ++ a) :: split_ws_go [] b).
  { clear Hne. induction H as [|c a Hc Ha IH]; intros cur Hcur.
    - cbn. destruct cur as [|x cur]; [done|]. by rewrite app_nil_r.
    - cbn [app split_ws_go]. rewrite Hc, IH by done. by rewrite reverse_cons, <- app_assoc. }
  by apply (Hgo []).
Qed.

Lemma decimal_plain n : 0 <= n ->
  Forall (fun c => is_whitespace c = false) (decimal n) /\ (13 ∉ decimal n) /\ (ch ":" ∉ decimal n).
Proof.
  intros Hn. pose proof (decimal_digits n Hn) as Hd. split_and!.
  - eapply Forall_impl; [exact Hd|]. intros c. unfold is_digit, is_whitespace, between. cbn.
    intros Hc. bool_facts. by decide_cmp.
  - intros Hin. rewrite Forall_forall in Hd. by apply Hd in Hin.
  - intros Hin. rewrite Forall_forall in Hd. by apply Hd in Hin.
Qed.

Lemma no_ws_no_cr a : Forall (fun c => is_whitespace c = false) a -> 13 ∉ a.
Proof. intros H Hin. rewrite Forall_forall in H. by apply H in Hin. Qed.

Lemma header_loop_no_blank i lines hs r : [] ∉ lines -> header_loop i lines hs = Ret r -> snd r = 0%nat.
Proof.
  revert i hs. induction lines as [|l lines IH]; intros i hs Hl H; cbn in H; [by simplify_eq|].
  apply not_elem_of_cons in Hl as [Hl1 Hl2]. rewrite decide_False in H by done.
  destruct (header_line_total l) as [o Ho]. rewrite Ho in H. cbn in H. by eapply IH.
Qed.
End Messages.

(** The response parser on a printed response. *)
Lemma parse_shown (version : str) (code : Z) (reason : str) (ps : list (str * str))
    (text : str)
    (Hver : Forall (fun c => is_whitespace c = false) version) (Hne : version <> [])
    (Hcol : (ch ":" ∉ version) /\ (ch ":" ∉ reason) /\ (13 ∉ reason))
    (Hcode : in_u16 code) (Hps : Forall header_ok ps) :
  exists kept dropped, text = kept ++ dropped /\ (dropped = [] \/ take 2 dropped = CRLF)
  /\ parse_http_response (show_response version code reason ps text)
     = Ret (Ok (mkHttpResponse code (insert_all ∅ ps) (as_bytes kept))).
Proof.
  destruct Hcol as (Hc1 & Hc2 & Hc3).
  destruct (decimal_plain code) as (Hd1 & Hd2 & Hd3); [apply Hcode|].
  assert (Hcr : 13 ∉ status_line version code reason).
  { unfold status_line. rewrite !not_elem_of_app, !not_elem_of_cons, !not_elem_of_app, !not_elem_of_cons.
    split_and!; try done. by apply no_ws_no_cr. }
  assert (Hcolon : ch ":" ∉ status_line version code reason).
  { unfold status_line. rewrite !not_elem_of_app, !not_elem_of_cons, !not_elem_of_app, !not_elem_of_cons.
    by split_and!. }
  assert (Hlines : split_crlf (show_response version code reason ps text)
    = status_line version code reason :: (show_header <$> ps) ++ [] :: split_crlf text).
  { unfold show_response. rewrite split_crlf_app by done. rewrite split_show_headers by done. done. }
  assert (Hsl : status_line version code reason <> []) by (unfold status_line; by destruct version).
  assert (Hbody : exists kept dropped rest, split_crlf text = kept :: rest /\ text = kept ++ dropped
    /\ (dropped = [] \/ take 2 dropped = CRLF)).
  { clear. assert (H : forall n s, (length s < n)%nat -> exists kept dropped rest,
      split_crlf s = kept :: rest /\ s = kept ++ dropped /\ (dropped = [] \/ take 2 dropped = CRLF)).
    { induction n as [|n IH]; intros s Hs; [lia|]. destruct s as [|c s]; [by exists [], [], []; auto|].
      assert (Hpush : split_crlf (c :: s) = push_head c (split_crlf s) -> exists kept dropped rest,
        split_crlf (c :: s) = kept :: rest /\ c :: s = kept ++ dropped
        /\ (dropped = [] \/ take 2 dropped = CRLF)).
      { intros E. cbn in Hs. destruct (IH s ltac:(lia)) as (k & d & r & E1 & -> & Hd).
        exists (c :: k), d, r. rewrite E, E1. by split_and!. }
      destruct (decide (13 = c)) as [<-|Hc]; [|by apply Hpush, split_crlf_cons].
      destruct (split_crlf_cr s) as [E|(r & -> & E)]; [by apply Hpush|].
      exists [], (13 :: 10 :: r), (split_crlf r). rewrite E. split_and!; [done|done|by right]. }
    apply (H (S (length text))). lia. }
  destruct Hbody as (kept & dropped & rest & Hsp & Ht & Hd). exists kept, dropped.
  split; [done|]. split; [done|]. unfold parse_http_response. rewrite Hlines.
  unfold status_line at 1. rewrite split_ws_token by done.
  rewrite (split_ws_token (decimal code)) by (done || apply decimal_not_nil).
  rewrite parse_u16_decimal by done. cbn [header_loop]. rewrite decide_False by done.
  unfold header_line at 1. rewrite (proj2 (find_char_None _ _)) by done. cbn [mbind outcome_bind].
  rewrite header_loop_shown by done. cbn [header_loop]. rewrite decide_True by done. cbn [mbind outcome_bind].
  assert (Hl : (status_line version code reason :: (show_header <$> ps) ++ [] :: split_crlf text)
    !! S (1 + length ps) = Some kept).
  { change (((show_header <$> ps) ++ [] :: split_crlf text) !! (1 + length ps)%nat = Some kept).
    rewrite lookup_app_r by (rewrite length_fmap; lia). rewrite length_fmap.
    replace (1 + length ps - length ps)%nat with 1%nat by lia. by rewrite Hsp. }
  by rewrite Hl.
Qed.

(** A socket that takes [data] whole and then delivers [reply]. *)
Record answers {C : SocketConnection} (s : Sock) (data reply : bytes) : Prop := mkAnswers {
  answers_sent : snd (sk_send s data) = Ok (Z.of_nat (length data));
  answers_received : snd (sk_recv (fst (sk_send s data)) RECV_BUF) = Ok reply;
}.

Lemma send_answered {C : SocketConnection} (s : Sock) (r : HttpRequest) order text :
  rq_body r = [] -> answers s (as_bytes (request_data r order)) (as_bytes text) ->
  Forall scalar text -> (length (as_bytes text) <= RECV_BUF)%nat ->
  exists s', send_http_request s r order
    = (res ← parse_http_response text; Ret (s', map_err NetworkError res)).
Proof.
  intros Hb [Hs Hr] Ht Hl. unfold send_http_request. rewrite Hb.
  destruct (sk_send s _) as [s1 r1]. cbn in Hs, Hr. subst r1. rewrite Z.eqb_refl. cbn [negb].
  destruct (sk_recv s1 RECV_BUF) as [s2 r2]. cbn in Hr. subst r2.
  rewrite (proj2 (Nat.ltb_ge _ _)) by done. rewrite from_utf8_lossy_as_bytes by done. by exists s2.
Qed.

(** ** Properties *)



(** The parser always returns, a well-formed response has a 16-bit status, and a
    response without the blank line after its headers is not refused: its body is
    then its own status line. *)
Theorem parse_response_total (data : str) :
  exists r, parse_http_response data = Ret r
  /\ match r with
     | Ok resp => in_u16 (status_code resp)
                  /\ ([] ∉ split_crlf data -> body resp = as_bytes (default [] (head (split_crlf data))))
     | Err _ => True
     end.
Proof.
  unfold parse_http_response. destruct (split_crlf data) as [|sl lines]; [by eexists|].
  destruct (split_whitespace sl) as [|x [|code l]]; [by eexists|by eexists|].
  destruct (parse_u16 code) as [status|] eqn:Ep; [|by eexists].
  destruct (header_loop_total 0 (sl :: lines) ∅) as [[hs n] E]. rewrite E. cbn [mbind outcome_bind].
  eexists. split; [done|]. split; [by eapply parse_u16_range|].
  intros Hb. apply header_loop_no_blank in E; [|done]. cbn in E. by subst n.
Qed.

(** C16: a serialised request carries its headers unharmed.  Read back line by line,
    what follows the request line gives exactly the header map of the request with
    the content length of its body, in whatever order the map was iterated, as long
    as names and values contain no CR, names no colon, and neither has surrounding
    blanks. *)
Theorem request_headers_roundtrip (r : HttpRequest) (order : list (str * str))
    (Hm : 13 ∉ rq_method r) (Hp : 13 ∉ rq_path r)
    (Ho : order ≡ₚ map_to_list (rq_headers r)) (Hok : Forall header_ok order) :
  exists request_line lines hs n, split_crlf (request_data r order) = request_line :: lines
  /\ request_line = rq_method r ++ lit " " ++ rq_path r ++ lit " HTTP/1.1"
  /\ header_loop 0 lines ∅ = Ret (hs, n)
  /\ hs = <[lit "Content-Length" := decimal (Z.of_nat (length (rq_body r)))]> (rq_headers r).
Proof.
  set (len := decimal (Z.of_nat (length (rq_body r)))).
  destruct (decimal_plain (Z.of_nat (length (rq_body r)))) as (Hl1 & Hl2 & Hl3); [lia|]. fold len in Hl1, Hl2, Hl3.
  set (cl := (lit "Content-Length", len)).
  assert (Hcl : header_ok cl).
  { split; [split_and!; [by_eval|by_eval|]|split; [done|by apply no_ws_ends_Forall]].
    split; intros c [= <-]; reflexivity. }
  assert (Hdata : request_data r order
    = (rq_method r ++ lit " " ++ rq_path r ++ lit " HTTP/1.1") ++ CRLF
      ++ show_headers (order ++ [cl]) ++ CRLF).
  { assert (E1 : concat (header_text <$> order) = show_headers order).
    { unfold show_headers. f_equal. apply list_fmap_ext. intros _ [k v] _.
      unfold header_text, show_header. cbn [fst snd]. by rewrite <- !app_assoc. }
    assert (E2 : show_headers (order ++ [cl]) = show_headers order ++ lit "Content-Length: " ++ len ++ CRLF).
    { unfold show_headers. rewrite fmap_app, concat_app. f_equal.
      change (concat ((fun p => show_header p ++ CRLF) <$> [cl])) with ((show_header cl ++ CRLF) ++ []).
      rewrite app_nil_r. unfold show_header. rewrite <- !app_assoc. reflexivity. }
    unfold request_data. rewrite E1, E2. fold len. by rewrite <- !app_assoc. }
  assert (Hall : Forall header_ok (order ++ [cl])) by (apply Forall_app; split; [done|by constructor]).
  eexists _, ((show_header <$> order ++ [cl]) ++ [[]; []]), _, _.
  split_and!; [|done| |].
  - rewrite Hdata, split_crlf_app.
    + rewrite split_show_headers by done. done.
    + rewrite !not_elem_of_app. split_and!; try done; by_eval.
  - rewrite header_loop_shown by done. reflexivity.
  - unfold insert_all. rewrite foldl_app. cbn [foldl fst snd cl]. f_equal.
    change (insert_all ∅ order = rq_headers r). apply map_eq. intros k. rewrite insert_all_lookup.
    assert (Hnd : NoDup order.*1) by (rewrite Ho; apply NoDup_fst_map_to_list).
    destruct (last (filter (fun p => fst p = k) order)) as [[k' v]|] eqn:El.
    + apply last_Some_elem_of, list_elem_of_filter in El as [<- Hin]. rewrite Ho in Hin.
      symmetry. by apply elem_of_map_to_list.
    + rewrite lookup_empty. symmetry. apply eq_None_not_Some. intros [v Hv].
      apply elem_of_map_to_list in Hv. rewrite <- Ho in Hv. apply last_None in El.
      assert (Hf : (k, v) ∈ filter (fun p => fst p = k) order) by (by apply list_elem_of_filter).
      rewrite El in Hf. by apply elem_of_nil in Hf.
Qed.

Theorem request_headers_roundtrip_witness :
  let r := mkHttpRequest (lit "GET") (lit "/") (lit "HTTP/1.1") {[lit "Accept" := lit "*/*"]} [1; 2] in
  exists request_line lines hs n,
    split_crlf (request_data r [(lit "Accept", lit "*/*")]) = request_line :: lines
  /\ request_line = rq_method r ++ lit " " ++ rq_path r ++ lit " HTTP/1.1"
  /\ header_loop 0 lines ∅ = Ret (hs, n)
  /\ hs = <[lit "Content-Length" := decimal (Z.of_nat (length (rq_body r)))]> (rq_headers r).
Proof.
  apply (request_headers_roundtrip
    (mkHttpRequest (lit "GET") (lit "/") (lit "HTTP/1.1") {[lit "Accept" := lit "*/*"]} [1; 2])
    [(lit "Accept", lit "*/*")]).
  - by_eval.
  - by_eval.
  - reflexivity.
  - repeat constructor; try by_eval; intros ? [= <-]; reflexivity.
Defined.
