(* ===== verification/Exchange.v ===== *)
(** * One request of the pipeline (src/z_pipeline/pipeline.rs)

    Connection pools and their lock, DNS with its cache, connecting, the TLS
    handshake, the exchange on the socket, the authentication trap-and-retry and the
    response cache: [execute_request] and what it calls.  The [url] crate and the
    machine's network are interfaces; sockets and TLS connections are the traits of
    [Http], the caches a class with the program's placeholders as its instance.
    Times are in nanoseconds; [clock] gives the successive answers of
    [Instant::now()].  The mutex around the pools is modelled, since the code takes
    it twice. *)

From S2P Require Import Prelude Utf8 Str Base64 Auth Http.

(** The [url] crate. *)
Class UrlLib := {
  Url : Type;
  url_parse : str -> option Url;
  url_scheme : Url -> str;
  url_host : Url -> option str;
  url_port : Url -> option Z;
  url_path : Url -> str;
  url_join : Url -> str -> option str;
}.

(** The part of the standard library's URL grammar the code relies on with
    [unwrap]. *)
Definition EXAMPLE_URL : str := lit "http://example.com".
Class UrlLibLaws `(UrlLib) : Prop := { example_parses : is_Some (url_parse EXAMPLE_URL) }.

(** ** Data *)

Definition SECOND : Z := 1000000000.

Record PipelineConfig := mkPipelineConfig {
  max_concurrent_connections : Z;
  connection_timeout : Z;
  dns_timeout : Z;
  max_requests_per_host : Z;
  retry_attempts : Z;
  retry_delay : Z;
  rate_limit_per_host : option Z;
}.
Definition PipelineConfig_default : PipelineConfig :=
  mkPipelineConfig 100 (30 * SECOND) (5 * SECOND) 10 3 SECOND (Some 10).

Inductive CacheMode := CacheDefault | ForceCache | NoCache | Revalidate.

Record RequestOptions := mkRequestOptions {
  method : str;
  option_headers : gmap str str;
  timeout : option Z;
  cache_mode : CacheMode;
  follow_redirects : bool;
  verify_ssl : bool;
  max_redirects : nat;
}.
Definition RequestOptions_default : RequestOptions :=
  mkRequestOptions (lit "GET") ∅ None CacheDefault true true 5.

Record PipelineResponse := mkPipelineResponse {
  pr_status : Z;
  pr_headers : gmap str str;
  pr_body : bytes;
  pr_url : str;
  pr_final_url : str;
  request_duration : Z;
  dns_time : option Z;
  connection_time : option Z;
  handshake_time : option Z;
  transfer_time : option Z;
  cache_hit : bool;
  from_cache : bool;
  redirects : list str;
}.

Record PipelineMetrics := mkPipelineMetrics {
  total_requests : Z;
  successful_requests : Z;
  failed_requests : Z;
  cache_hits : Z;
  cache_misses : Z;
  dns_time_total : Z;
  connection_time_total : Z;
  handshake_time_total : Z;
  transfer_time_total : Z;
  average_request_time : Z;
}.
Definition PipelineMetrics_default : PipelineMetrics := mkPipelineMetrics 0 0 0 0 0 0 0 0 0 0.

(** ** Caches

    [DnsCache], [HttpCache] and [CookieCache] behind one state; [NoCache] is what
    the program's own structs do. *)
Class Caches := {
  Cache : Type;
  get_dns_records : Cache -> str -> option (list str);
  put_dns_records : Cache -> str -> list str -> Cache;
  put_response : Cache -> str -> HttpResponse -> Cache * result unit str;
  get_cookies : Cache -> str -> str -> result (list Cookie) str;
}.

Module NoCache.
Definition dns_get (c : unit) (host : str) : option (list str) := None.
Definition dns_put (c : unit) (host : str) (records : list str) : unit := c.
Definition response_put (c : unit) (url : str) (r : HttpResponse) : unit * result unit str := (c, Ok tt).
Definition cookies_get (c : unit) (domain path : str) : result (list Cookie) str := Ok [].
Definition caches : Caches :=
  {| Cache := unit; get_dns_records := dns_get; put_dns_records := dns_put;
     put_response := response_put; get_cookies := cookies_get |}.
End NoCache.

Declare Scope pipe_scope.
Delimit Scope pipe_scope with pipe.
#[local] Open Scope pipe_scope.

Section Code.
Context {B64 : Base64} {U : UrlLib} {C : SocketConnection} {T : TlsConnection} {K : Caches}.
(** What [create_socket_connection] and [create_tls_connection] build, and the
    Kerberos library. *)
Context (create_socket_connection : result Sock str) (create_tls_connection : result TlsC str)
  (kerberos : option (result unit str)) (clock : nat -> Z).

Record ConnectionHandle := mkConnectionHandle {
  ch_id : Z;
  ch_host : str;
  ch_socket : Sock;
  ch_tls : option TlsC;
  ch_last_used : Z;
  ch_in_use : bool;
}.
Definition with_socket (c : ConnectionHandle) (s : Sock) : ConnectionHandle :=
  mkConnectionHandle (ch_id c) (ch_host c) s (ch_tls c) (ch_last_used c) (ch_in_use c).
Definition with_tls (c : ConnectionHandle) (t : option TlsC) : ConnectionHandle :=
  mkConnectionHandle (ch_id c) (ch_host c) (ch_socket c) t (ch_last_used c) (ch_in_use c).

Record ConnectionPool := mkConnectionPool {
  pool_connections : list ConnectionHandle;
  pool_in_use : bool;
  pool_last_used : Z;
}.

(** [ticks] counts the readings of the clock. *)
Record pipe := mkPipe {
  pools : gmap str ConnectionPool;
  pools_locked : bool;
  rate_limiters : gmap str Z;
  cache : Cache;
  metrics : PipelineMetrics;
  auth_states : gmap str AuthState;
  ticks : nat;
}.

Definition set_pools (p : pipe) m := mkPipe m (pools_locked p) (rate_limiters p) (cache p) (metrics p) (auth_states p) (ticks p).
Definition set_locked (p : pipe) b := mkPipe (pools p) b (rate_limiters p) (cache p) (metrics p) (auth_states p) (ticks p).
Definition set_limiters (p : pipe) m := mkPipe (pools p) (pools_locked p) m (cache p) (metrics p) (auth_states p) (ticks p).
Definition set_cache (p : pipe) c := mkPipe (pools p) (pools_locked p) (rate_limiters p) c (metrics p) (auth_states p) (ticks p).
Definition set_metrics (p : pipe) m := mkPipe (pools p) (pools_locked p) (rate_limiters p) (cache p) m (auth_states p) (ticks p).
Definition set_auth (p : pipe) a := mkPipe (pools p) (pools_locked p) (rate_limiters p) (cache p) (metrics p) a (ticks p).
Definition tick (p : pipe) : pipe :=
  mkPipe (pools p) (pools_locked p) (rate_limiters p) (cache p) (metrics p) (auth_states p) (S (ticks p)).

Definition Pipeline_new (c : Cache) : pipe := mkPipe ∅ false ∅ c PipelineMetrics_default ∅ 0.

Definition P (A : Type) : Type := pipe -> outcome (pipe * A).
#[global] Instance P_ret : MRet P := fun A a s => Ret (s, a).
#[global] Instance P_bind : MBind P := fun A B f m s => '(s, a) ← m s; f a s.

Definition gets {A} (f : pipe -> A) : P A := fun s => Ret (s, f s).
Definition update (f : pipe -> pipe) : P unit := fun s => Ret (f s, tt).
Definition raise {A} (o : outcome A) : P A := fun s => a ← o; Ret (s, a).

(** The [?] operator on what a step answered. *)
Definition attempt {A B} (m : P (result A PipelineError)) (f : A -> P (result B PipelineError))
  : P (result B PipelineError) :=
  r ← m; match r with Ok a => f a | Err e => mret (Err e) end.

Notation "x <-? m ; k" := (attempt m (fun x => k))
  (at level 20, m at level 100, k at level 200, only parsing) : pipe_scope.
Notation "' x <-? m ; k" := (attempt m (fun x => k))
  (at level 20, x pattern, m at level 100, k at level 200, only parsing) : pipe_scope.

(** [Instant::now()] *)
Definition instant : P Z := fun s => Ret (tick s, clock (ticks s)).

(** [self.connection_pools.lock().unwrap()]: a second lock by the task that holds
    the first never returns. *)
Definition lock_pools : P unit := fun s => if pools_locked s then Stuck else Ret (set_locked s true, tt).
Definition unlock_pools : P unit := update (fun s => set_locked s false).

(** ** Connections *)

(** [box_clone], of sockets and of TLS connections: not supported. *)
Definition socket_box_clone (s : Sock) : outcome Sock := Panicked.
Definition tls_box_clone (t : TlsC) : outcome TlsC := Panicked.

(** [ConnectionHandle::clone] *)
Definition handle_clone (c : ConnectionHandle) : outcome ConnectionHandle :=
  socket ← socket_box_clone (ch_socket c);
  tls ← match ch_tls c with
        | Some t => t' ← tls_box_clone t; Ret (Some t')
        | None => Ret None
        end;
  Ret (mkConnectionHandle (ch_id c) (ch_host c) socket tls (ch_last_used c) (ch_in_use c)).

Definition POOL_TIMEOUT : Z := 300 * SECOND.

(** [now.duration_since(t)] saturates at zero. *)
Definition keep_connection (now : Z) (c : ConnectionHandle) : bool :=
  negb (negb (ch_in_use c) && (POOL_TIMEOUT <? Z.max 0 (now - ch_last_used c))).

Definition cleanup_connection_pool (now : Z) (p : ConnectionPool) : ConnectionPool :=
  mkConnectionPool (List.filter (keep_connection now) (pool_connections p)) (pool_in_use p) (pool_last_used p).

(** The first idle connection to the host. *)
Definition idle_connection (host : str) (p : ConnectionPool) : option ConnectionHandle :=
  List.find (fun c => negb (ch_in_use c) && str_eqb (ch_host c) host) (pool_connections p).

(** [id] is the random identifier of a new connection. *)
Definition get_or_create_connection (id : Z) (pool_key host : str) (use_tls : bool)
  : P (result ConnectionHandle PipelineError) :=
  _ ← lock_pools;
  ps ← gets pools;
  match ps !! pool_key ≫= idle_connection host with
  | Some c => c ← raise (handle_clone c); _ ← unlock_pools; mret (Ok c)
  | None =>
      _ ← unlock_pools;
      socket <-? mret (map_err ConnectionFailed create_socket_connection);
      now ← instant;
      tls <-? mret (if use_tls then map_ok Some (map_err TLSError create_tls_connection) else Ok None);
      let c := mkConnectionHandle id host socket tls now true in
      _ ← lock_pools;
      ps ← gets pools;
      match ps !! pool_key with
      | Some p =>
          c' ← raise (handle_clone c);
          let p' := mkConnectionPool (pool_connections p ++ [c']) (pool_in_use p) (pool_last_used p) in
          _ ← update (fun s => set_pools s (<[pool_key := p']> (pools s)));
          _ ← unlock_pools; mret (Ok c)
      | None => _ ← unlock_pools; mret (Ok c)
      end
  end.

(** The port is the socket's own, not the URL's. *)
Definition connect_to_ip (s : Sock) (ip : str) : Sock * result unit str := sk_connect s ip (sk_get_port s).

(** [for ip in ips]: connecting is synchronous, so the timeout never fires. *)
Fixpoint establish_connection (s : Sock) (ips : list str) : Sock * result unit PipelineError :=
  match ips with
  | [] => (s, Err (ConnectionFailed (lit "Failed to connect to any IP")))
  | ip :: ips =>
      match connect_to_ip s ip with
      | (s, Ok _) => (s, Ok tt)
      | (s, Err _) => establish_connection s ips
      end
  end.

Definition perform_tls_handshake (c : ConnectionHandle) : ConnectionHandle * result unit PipelineError :=
  match ch_tls c with
  | Some t => let '(t, r) := tc_handshake t in (with_tls c (Some t), map_err TLSError r)
  | None => (c, Ok tt)
  end.

(** ** DNS *)

Definition build_dns_query (host : str) : bytes := replicate 512 0.

Definition parse_dns_response (data : bytes) (host : str) : result (list str) str :=
  Ok [lit "1.1.1.1"; lit "8.8.8.8"].

(** What the UDP exchange with the name server came to: a step that failed, with
    its message, or the bytes of the answer. *)
Definition perform_dns_resolution (io : result bytes str) (host : str) : result (list str) str :=
  match io with Err e => Err e | Ok data => parse_dns_response data host end.

(** [None] for [io] is the timeout. *)
Definition resolve_dns (io : option (result bytes str)) (host : str)
  : P (result (list str) PipelineError) :=
  c ← gets cache;
  match get_dns_records c host with
  | Some cached => mret (Ok cached)
  | None =>
      match (fun io => perform_dns_resolution io host) <$> io with
      | Some (Ok ips) =>
          _ ← update (fun s => set_cache s (put_dns_records (cache s) host ips));
          mret (Ok ips)
      | Some (Err e) => mret (Err (DNSResolutionFailed e))
      | None => mret (Err (Timeout (lit "DNS resolution timeout")))
      end
  end.

(** ** Authentication: trap and retry *)

Definition WWW : str := lit "www-authenticate".
Definition PROXY : str := lit "proxy-authenticate".

Definition header_name (h : AuthHeader) : str :=
  match h with Authorization => lit "Authorization" | ProxyAuthorization => lit "Proxy-Authorization" end.

Definition with_header (r : HttpRequest) (k v : str) : HttpRequest :=
  mkHttpRequest (rq_method r) (rq_path r) (rq_version r) (<[k := v]> (rq_headers r)) (rq_body r).

(** [orders] gives the iteration order of a header map. *)
Definition auth_trap (orders : gmap str str -> list (str * str)) (pool_key host : str) (s : Sock)
  (request : HttpRequest) (response : HttpResponse)
  : P (Sock * result HttpResponse PipelineError) :=
  states ← gets auth_states;
  let '(states, challenge) :=
  observe states pool_key (status_code response) (headers response !! WWW) (headers response !! PROXY) in
  _ ← update (fun p => set_auth p states);
  match challenge with
  | None => mret (s, Ok response)
  | Some c =>
      let '(states, r) := build_retry_header kerberos states pool_key c host in
      _ ← update (fun p => set_auth p states);
      match r with
      | Err _ => mret (s, Ok response)
      | Ok (h, value) =>
          let request := with_header request (header_name h) value in
          raise (send_http_request s request (orders (rq_headers request)))
      end
  end.

(** ** One request *)

Definition cache_response (url : str) (response : HttpResponse) (options : RequestOptions)
  : P (result unit PipelineError) :=
  match cache_mode options with
  | CacheDefault | ForceCache | Revalidate =>
      c ← gets cache;
      let '(c, r) := put_response c url response in
      _ ← update (fun s => set_cache s c);
      mret (map_err CacheError r)
  | NoCache => mret (Ok tt)
  end.

Definition default_port (scheme : str) : Z := if str_eqb scheme (lit "https") then 443 else 80.

Definition pool_key (host : str) (port : Z) (scheme : str) : str :=
  host ++ ch ":" :: decimal port ++ ch ":" :: scheme.

(** [send_http_request] on the connection's socket. *)
Definition send_request (s : Sock) (request : HttpRequest) (order : list (str * str))
  : P (result (Sock * HttpResponse) PipelineError) :=
  '(s, r) ← raise (send_http_request s request order);
  mret (map_ok (fun response => (s, response)) r).

(** The time a step takes on the clock. *)
Definition timed {A} (m : P (result A PipelineError)) : P (result (A * Z) PipelineError) :=
  start ← instant;
  a <-? m;
  stop ← instant;
  mret (Ok (a, stop - start)).

(** The part of [execute_request] that follows the connection. *)
Definition transact (orders : gmap str str -> list (str * str)) (io : option (result bytes str))
  (url : str) (u : Url) (key host : str) (options : RequestOptions)
  (c : ConnectionHandle) : P (result PipelineResponse PipelineError) :=
  '(ips, dns) <-? timed (resolve_dns io host);
  '(c, con) <-? timed (let '(s, r) := establish_connection (ch_socket c) ips in
                       mret (map_ok (fun _ => with_socket c s) r));
  '(c, handshake) <-?
    (if str_eqb (url_scheme u) (lit "https")
     then '(c, t) <-? timed (let '(c, r) := perform_tls_handshake c in mret (map_ok (fun _ => c) r));
          mret (Ok (c, Some t))
     else mret (Ok (c, None)));
  caches ← gets cache;
  let request := build_http_request (url_path u) (method options) (option_headers options)
                   (get_cookies caches host (url_path u)) in
  '(s, response, tr) <-?
        timed (send_request (ch_socket c) request (orders (rq_headers request)));
  response <-? ('(_, r) ← auth_trap orders key (default [] (url_host u)) s request response; mret r);
  _ <-? (if status_code response <? 400 then cache_response url response options else mret (Ok tt));
  mret (Ok (mkPipelineResponse (status_code response) (headers response) (body response)
    url url (dns + con + default 0 handshake + tr) (Some dns) (Some con)
    handshake (Some tr) false false [])).

Definition execute_request (id : Z) (orders : gmap str str -> list (str * str))
  (io : option (result bytes str)) (url : str)
  (options : RequestOptions) : P (result PipelineResponse PipelineError) :=
  match url_parse url with
  | None => mret (Err InvalidRedirect)
  | Some u =>
      match url_host u with
      | None => mret (Err (DNSResolutionFailed (lit "No host in URL")))
      | Some host =>
          let port := default (default_port (url_scheme u)) (url_port u) in
          let key := pool_key host port (url_scheme u) in
          _ ← lock_pools;
          ps ← gets pools;
          pool ← match ps !! key with
                 | Some pool => mret pool
                 | None => now ← instant; mret (mkConnectionPool [] false now)
                 end;
          now ← instant;
          _ ← update (fun s => set_pools s (<[key := cleanup_connection_pool now pool]> (pools s)));
          (* the guard of the lock lives until the end of the function *)
          r ← attempt (get_or_create_connection id key host (str_eqb (url_scheme u) (lit "https")))
                (transact orders io url u key host options);
          _ ← unlock_pools; mret r
      end
  end.
End Code.

Notation "x <-? m ; k" := (attempt m (fun x => k))
  (at level 20, m at level 100, k at level 200, only parsing) : pipe_scope.
Notation "' x <-? m ; k" := (attempt m (fun x => k))
  (at level 20, x pattern, m at level 100, k at level 200, only parsing) : pipe_scope.

(** ** A concrete setting for the witnesses

    Absolute [http] URLs on a fixed host, where joining replaces the URL. *)
Module Toy.
Record url := mkUrl { text : str; host : option str }.
Definition parse (s : str) : option url :=
  match strip_prefix (lit "http://") s with
  | Some [] => Some (mkUrl s None)
  | Some r => Some (mkUrl s (Some (default r (fst <$> split_once (ch "/") r))))
  | None => None
  end.
Definition lib_with (scheme : str) : UrlLib :=
  {| Url := url; url_parse := parse; url_scheme := fun _ => scheme; url_host := host;
     url_port := fun _ => None; url_path := fun _ => lit "/";
     url_join := fun _ r => text <$> parse r |}.
Definition lib : UrlLib := lib_with (lit "http").
(** The same library, with every URL an [https] one. *)
Definition https_lib : UrlLib := lib_with (lit "https").
Lemma url_lib_laws : UrlLibLaws lib.
Proof. split. by eexists. Qed.
End Toy.

Section Facts.
Context {B64 : Base64} {U : UrlLib} {C : SocketConnection} {T : TlsConnection} {K : Caches}.

Lemma get_or_create_locked sock tls clock id key host use_tls p :
  pools_locked p = true -> get_or_create_connection sock tls clock id key host use_tls p = Stuck.
Proof. intros H. unfold get_or_create_connection, mbind, P_bind, lock_pools. cbn. by rewrite H. Qed.

(** ** Running a step and undoing it *)

Lemma attempt_ok {A B} (m : P (result A PipelineError)) (f : A -> P (result B PipelineError)) p p' a :
  m p = Ret (p', Ok a) -> attempt m f p = f a p'.
Proof. unfold attempt, mbind, P_bind. by intros ->. Qed.

Lemma attempt_err {A B} (m : P (result A PipelineError)) (f : A -> P (result B PipelineError)) p p' e :
  m p = Ret (p', Err e) -> attempt m f p = Ret (p', Err e).
Proof. unfold attempt, mbind, P_bind. by intros ->. Qed.

Lemma attempt_inv {A B} (m : P (result A PipelineError)) (f : A -> P (result B PipelineError)) p p' b :
  attempt m f p = Ret (p', Ok b) -> exists p1 a, m p = Ret (p1, Ok a) /\ f a p1 = Ret (p', Ok b).
Proof. unfold attempt, mbind, P_bind. destruct (m p) as [[p1 [a|e]]| | |]; try done. by eauto. Qed.

Lemma bind_inv {A B} (m : P A) (f : A -> P B) p p' b :
  (m ≫= f) p = Ret (p', b) -> exists p1 a, m p = Ret (p1, a) /\ f a p1 = Ret (p', b).
Proof. unfold mbind, P_bind. destruct (m p) as [[p1 a]| | |]; try done. by eauto. Qed.

Lemma gets_bind {A B} (f : pipe -> A) (g : A -> P B) p : (gets f ≫= g) p = g (f p) p.
Proof. reflexivity. Qed.

Lemma timed_ok {A} clock (m : P (result A PipelineError)) p p' a :
  m (tick p) = Ret (p', Ok a) ->
  timed clock m p = Ret (tick p', Ok (a, clock (ticks p') - clock (ticks p))).
Proof. intros H. unfold timed, mbind, P_bind. cbn. by rewrite (attempt_ok _ _ _ _ _ H). Qed.

Lemma timed_err {A} clock (m : P (result A PipelineError)) p p' e :
  m (tick p) = Ret (p', Err e) -> timed clock m p = Ret (p', Err e).
Proof. intros H. unfold timed, mbind, P_bind. cbn. by rewrite (attempt_err _ _ _ _ _ H). Qed.

(** ** Nothing turns the clock back *)

Definition forward {A} (m : P A) : Prop := forall p p' a, m p = Ret (p', a) -> (ticks p <= ticks p')%nat.

Lemma forward_ret {A} (a : A) : forward (mret a).
Proof. by intros p p' x [= <- <-]. Qed.

Lemma forward_raise {A} (o : outcome A) : forward (raise o).
Proof. intros p p' x H. unfold raise in H. destruct o; simplify_eq/=. done. Qed.

Lemma forward_gets {A} (f : pipe -> A) : forward (gets f).
Proof. by intros p p' x [= <- <-]. Qed.

Lemma forward_update f : (forall p, ticks (f p) = ticks p) -> forward (update f).
Proof. intros Hf p p' x [= <- <-]. by rewrite Hf. Qed.

Lemma forward_bind {A B} (m : P A) (f : A -> P B) : forward m -> (forall a, forward (f a)) -> forward (m ≫= f).
Proof.
  intros Hm Hf p p' b (p1 & a & H1 & H2)%bind_inv. apply Hm in H1. apply Hf in H2. lia.
Qed.

Ltac forward :=
  repeat first [ apply forward_ret | apply forward_raise | apply forward_gets
               | apply forward_update; done | apply forward_bind; [|intros ?] | case_match ].

Lemma forward_resolve io host : forward (resolve_dns io host).
Proof. unfold resolve_dns. forward. Qed.

Lemma forward_cache url r options : forward (cache_response url r options).
Proof. unfold cache_response. forward. Qed.

Lemma forward_auth kerberos orders key host s request r : forward (auth_trap kerberos orders key host s request r).
Proof. unfold auth_trap. forward. Qed.

(** An interval of a clock that does not run backwards. *)
Definition monotone (clock : nat -> Z) : Prop := forall i j, (i <= j)%nat -> clock i <= clock j.

Lemma timed_inv {A} clock (m : P (result A PipelineError)) p p' a d :
  forward m -> timed clock m p = Ret (p', Ok (a, d)) ->
  exists p1, m (tick p) = Ret (p1, Ok a) /\ p' = tick p1 /\ d = clock (ticks p1) - clock (ticks p)
  /\ (S (ticks p) <= ticks p1)%nat.
Proof.
  intros Hf H. unfold timed, mbind, P_bind in H. cbn in H. apply attempt_inv in H as (p1 & x & H1 & H).
  unfold mbind, P_bind in H. cbn in H. unfold mret, P_ret in H. simplify_eq. exists p1. split_and!; try done.
  by apply Hf in H1.
Qed.
End Facts.

(** ** A request after its connection *)

Section Transact.
Context {B64 : Base64} {U : UrlLib} {C : SocketConnection} {T : TlsConnection} {K : Caches}.
Context (kerberos : option (result unit str)) (clock : nat -> Z)
  (orders : gmap str str -> list (str * str)) (io : option (result bytes str)).

Definition is_https (u : Url) : bool := str_eqb (url_scheme u) (lit "https").

(** A connection whose TLS handshake, if it has to make one, succeeds. *)
Definition shakes_hands (c : ConnectionHandle) : Prop :=
  match ch_tls c with Some t => snd (tc_handshake t) = Ok tt | None => True end.

Lemma handshake_runs c :
  shakes_hands c ->
  exists c', perform_tls_handshake c = (c', Ok tt) /\ ch_socket c' = ch_socket c.
Proof.
  unfold shakes_hands, perform_tls_handshake. destruct (ch_tls c) as [t|]; [|by exists c].
  destruct (tc_handshake t) as [t' r]. cbn. intros ->. by eexists.
Qed.

(** The request as it is built with the cookies of the cache. *)
Definition request_of (k : Cache) (u : Url) (host : str) (options : RequestOptions) : HttpRequest :=
  build_http_request (url_path u) (method options) (option_headers options)
    (get_cookies k host (url_path u)).

(** What follows the handshake, as a function of the socket. *)
Definition exchange (url : str) (u : Url) (key host : str) (options : RequestOptions) (dns con : Z)
    (handshake : option Z) (s : Sock) : P (result PipelineResponse PipelineError) :=
  caches ← gets cache;
  let request := request_of caches u host options in
  '(s, response, tr) <-?
        timed clock (send_request s request (orders (rq_headers request)));
  response <-? ('(_, r) ← auth_trap kerberos orders key (default [] (url_host u)) s request response; mret r);
  _ <-? (if status_code response <? 400 then cache_response url response options else mret (Ok tt));
  mret (Ok (mkPipelineResponse (status_code response) (headers response) (body response)
    url url (dns + con + default 0 handshake + tr) (Some dns) (Some con)
    handshake (Some tr) false false [])).

Lemma transact_exchange url u key host options c p p1 ips s :
  resolve_dns io host (tick p) = Ret (p1, Ok ips) ->
  establish_connection (ch_socket c) ips = (s, Ok tt) ->
  (is_https u = true -> shakes_hands c) ->
  let p2 := tick (tick (tick p1)) in
  transact kerberos clock orders io url u key host options c p
  = exchange url u key host options (clock (ticks p1) - clock (ticks p))
      (clock (S (S (ticks p1))) - clock (S (ticks p1)))
      (if is_https u then Some (clock (ticks (tick p2)) - clock (ticks p2)) else None) s
      (if is_https u then tick (tick p2) else p2).
Proof.
  intros Hd Hc Hs p2. unfold transact. rewrite (attempt_ok _ _ _ _ _ (timed_ok clock _ _ _ _ Hd)).
  erewrite attempt_ok by (apply timed_ok; rewrite Hc; reflexivity).
  fold (is_https u). destruct (is_https u).
  - destruct (handshake_runs (with_socket c s)) as (c' & E & Es); [by apply Hs|].
    erewrite attempt_ok by (erewrite attempt_ok by (apply timed_ok; rewrite E; reflexivity); reflexivity).
    unfold exchange. rewrite Es. reflexivity.
  - reflexivity.
Qed.

(** A response that is no challenge is passed on. *)
Lemma auth_trap_quiet key host s request response p :
  status_code response <> 401 -> status_code response <> 407 ->
  exists p', auth_trap kerberos orders key host s request response p = Ret (p', (s, Ok response))
  /\ cache p' = cache p /\ ticks p' = ticks p.
Proof.
  intros H1 H2. unfold auth_trap, observe. rewrite !(proj2 (Z.eqb_neq _ _)) by done.
  by destruct (between _ _ _); (eexists; split; [reflexivity|]).
Qed.

Definition stores (k : Cache) (url : str) (code : Z) (options : RequestOptions) : Prop :=
  code < 400 -> cache_mode options <> NoCache ->
  forall r, status_code r = code -> snd (put_response k url r) = Ok tt.

Lemma cache_response_runs url r options p :
  stores (cache p) url (status_code r) options ->
  exists p', (if status_code r <? 400 then cache_response url r options else mret (Ok tt)) p
    = Ret (p', Ok tt).
Proof.
  intros H. destruct (Z.ltb_spec (status_code r) 400) as [Hlt|]; [|by eexists].
  unfold cache_response, mbind, P_bind. cbn. unfold stores in H. specialize (H Hlt).
  destruct (cache_mode options); cbn; try specialize (H ltac:(done) r eq_refl);
    try destruct (put_response _ _ _) as [k []]; cbn in *; simplify_eq; by eexists.
Qed.

Lemma exchange_delivers url u key host options dns con hs s p
    (version : str) (code : Z) (reason : str) (ps : list (str * str)) (text : str) :
  let request := request_of (cache p) u host options in
  let shown := show_response version code reason ps text in
  Forall (fun c => is_whitespace c = false) version -> version <> [] ->
  (ch ":" ∉ version) /\ (ch ":" ∉ reason) /\ (13 ∉ reason) ->
  in_u16 code -> Forall header_ok ps -> code <> 401 -> code <> 407 ->
  Forall scalar shown -> (length (as_bytes shown) <= RECV_BUF)%nat ->
  answers s (as_bytes (request_data request (orders (rq_headers request)))) (as_bytes shown) ->
  stores (cache p) url code options ->
  exists p' kept dropped tr, text = kept ++ dropped /\ (dropped = [] \/ take 2 dropped = CRLF)
  /\ exchange url u key host options dns con hs s p
     = Ret (p', Ok (mkPipelineResponse code (insert_all ∅ ps) (as_bytes kept) url url
                      (dns + con + default 0 hs + tr) (Some dns) (Some con) hs (Some tr) false false [])).
Proof.
  intros request shown Hv Hne Hcol Hcode Hps H1 H2 Hsc Hlen Hans Hst.
  destruct (parse_shown version code reason ps text Hv Hne Hcol Hcode Hps) as (kept & dropped & Ht & Hd & Hparse).
  destruct (send_answered s request (orders (rq_headers request)) shown eq_refl Hans Hsc Hlen) as (s' & Hsend).
  fold shown in Hparse. rewrite Hparse in Hsend. set (resp := mkHttpResponse code (insert_all ∅ ps) (as_bytes kept)) in *.
  set (q := tick (tick p)).
  destruct (auth_trap_quiet key (default [] (url_host u)) s' request resp q H1 H2) as (p1 & Ha & Hk & _).
  destruct (cache_response_runs url resp options p1) as (p2 & Hc); [by rewrite Hk|].
  exists p2, kept, dropped, (clock (S (ticks p)) - clock (ticks p)). split_and!; [done..|].
  unfold exchange. rewrite gets_bind. fold request.
  erewrite attempt_ok.
    2:{ apply timed_ok. unfold send_request, mbind, P_bind, raise. rewrite Hsend. reflexivity. }
  cbn beta iota. erewrite attempt_ok; [|unfold mbind, P_bind; fold q; rewrite Ha; reflexivity].
  rewrite (attempt_ok _ _ _ _ _ Hc). reflexivity.
Qed.
End Transact.

(** What a call of [execute_request] comes to. *)
Lemma execute_request_run {B64 : Base64} {U : UrlLib} {C : SocketConnection} {T : TlsConnection}
    {K : Caches} (sock : result Sock str) (tls : result TlsC str) (kerberos : option (result unit str))
    (clock : nat -> Z) (id : Z) (orders : gmap str str -> list (str * str))
    (io : option (result bytes str)) (url : str) (options : RequestOptions) (p : pipe) :
  execute_request sock tls kerberos clock id orders io url options p
  = match url_parse url with
    | None => Ret (p, Err InvalidRedirect)
    | Some u => match url_host u with
                | None => Ret (p, Err (DNSResolutionFailed (lit "No host in URL")))
                | Some _ => Stuck
                end
    end.
Proof.
  unfold execute_request. destruct (url_parse url) as [u|]; [|done].
  destruct (url_host u) as [host|]; [|done].
  unfold mbind, P_bind, lock_pools. destruct (pools_locked p) eqn:El; [done|].
  cbn. by case_match; cbn; unfold attempt, mbind, P_bind; rewrite get_or_create_locked.
Qed.

(** ** Properties *)


(** A server that answers everything with one page. *)
Module Served.
Definition page : str := show_response (lit "HTTP/1.1") 200 (lit "OK") [(lit "Server", lit "x")] (lit "hello").
Definition sock : SocketConnection :=
  {| Sock := unit; sk_get_port := Mock.get_port; sk_connect := Mock.connect; sk_send := Mock.send;
     sk_recv := fun s _ => (s, Ok (as_bytes page)); sk_set_timeout := Mock.set_timeout; sk_close := Mock.close |}.
Definition handle : ConnectionHandle (C := sock) (T := Mock.tls) :=
  mkConnectionHandle (C := sock) (T := Mock.tls) 1 (lit "a") tt (Some tt) 0 true.
Definition url : Toy.url := Toy.mkUrl (lit "http://a/") (Some (lit "a")).
Definition start : pipe (C := sock) (T := Mock.tls) (K := NoCache.caches) :=
  Pipeline_new (C := sock) (T := Mock.tls) (K := NoCache.caches) tt.
End Served.


(** C18: the TLS connection of an [https] request carries nothing.  Once its
    handshake has succeeded the request goes over the socket itself: the whole
    exchange is the same as if the connection had no TLS at all. *)
Theorem tls_carries_nothing {B64 : Base64} {U : UrlLib} {C : SocketConnection} {T : TlsConnection} {K : Caches}
    (kerberos : option (result unit str)) (clock : nat -> Z) (orders : gmap str str -> list (str * str))
    (io : option (result bytes str)) (url : str) (u : Url) (key host : str) (options : RequestOptions)
    (c : ConnectionHandle) (p : pipe) (Htls : shakes_hands c) :
  transact kerberos clock orders io url u key host options c p
  = transact kerberos clock orders io url u key host options (with_tls c None) p.
Proof.
  destruct (resolve_dns io host (tick p)) as [[p1 [ips|e]]| | |] eqn:Ed.
  - destruct (establish_connection (ch_socket c) ips) as [s [[]|e]] eqn:Ec.
    + by rewrite !(transact_exchange kerberos clock orders io url u key host options _ p p1 ips s Ed).
    + unfold transact. rewrite !(attempt_ok _ _ _ _ _ (timed_ok clock _ _ _ _ Ed)).
      erewrite !attempt_err; [done|..]; (erewrite timed_err; [done|]); cbn; by rewrite Ec.
  - unfold transact. by rewrite !(attempt_err _ _ _ _ _ (timed_err clock _ _ _ _ Ed)).
  - unfold transact, attempt, timed, mbind, P_bind. cbn. unfold attempt, mbind, P_bind. by rewrite Ed.
  - unfold transact, attempt, timed, mbind, P_bind. cbn. unfold attempt, mbind, P_bind. by rewrite Ed.
  - unfold transact, attempt, timed, mbind, P_bind. cbn. unfold attempt, mbind, P_bind. by rewrite Ed.
Qed.

Theorem tls_carries_nothing_witness :
  transact (B64 := Rfc4648.engine) (U := Toy.https_lib) (C := Served.sock) (T := Mock.tls)
    (K := NoCache.caches) None Z.of_nat map_to_list (Some (Ok [])) (lit "http://a/") Served.url (lit "a:443:https")
    (lit "a") RequestOptions_default Served.handle Served.start
  = transact (B64 := Rfc4648.engine) (U := Toy.https_lib) (C := Served.sock) (T := Mock.tls)
    (K := NoCache.caches) None Z.of_nat map_to_list (Some (Ok [])) (lit "http://a/") Served.url (lit "a:443:https")
    (lit "a") RequestOptions_default (with_tls Served.handle None) Served.start.
Proof. apply (tls_carries_nothing (T := Mock.tls)). reflexivity. Defined.

(** With the program's own connections no request succeeds.  The mock socket
    answers nothing, so every exchange that gets past the name server fails with an
    invalid status line; otherwise it fails with the name server. *)
Theorem mock_requests_fail {B64 : Base64} {U : UrlLib}
    (kerberos : option (result unit str)) (clock : nat -> Z) (orders : gmap str str -> list (str * str))
    (io : option (result bytes str)) (url : str) (u : Url) (key host : str) (options : RequestOptions)
    (c : ConnectionHandle (C := Mock.sock) (T := Mock.tls))
    (p : pipe (C := Mock.sock) (T := Mock.tls) (K := NoCache.caches)) :
  exists p', transact (C := Mock.sock) (T := Mock.tls) (K := NoCache.caches) kerberos clock orders io url u key
               host options c p
  = Ret (p', Err (match io with
                  | None => Timeout (lit "DNS resolution timeout")
                  | Some (Err e) => DNSResolutionFailed e
                  | Some (Ok _) => NetworkError (lit "Invalid status line")
                  end)).
Proof.
  destruct io as [[data|e]|].
    - rewrite (transact_exchange (C := Mock.sock) (T := Mock.tls) (K := NoCache.caches)) with
      (p1 := set_cache (tick p) tt) (ips := [lit "1.1.1.1"; lit "8.8.8.8"]) (s := tt);
      [| |by destruct (ch_socket c)|intros _; unfold shakes_hands; by destruct (ch_tls c)].
    2: { unfold resolve_dns, mbind, P_bind, mret, P_ret, update. cbn. by destruct (cache p). }
    eexists. unfold exchange. rewrite gets_bind.
    apply (attempt_err (C := Mock.sock) (T := Mock.tls) (K := NoCache.caches)), timed_err.
    unfold send_request, mbind, P_bind, raise, send_http_request. cbn. by rewrite Z.eqb_refl.
  - eexists. by apply (attempt_err (C := Mock.sock) (T := Mock.tls) (K := NoCache.caches)), timed_err.
  - eexists. by apply (attempt_err (C := Mock.sock) (T := Mock.tls) (K := NoCache.caches)), timed_err.
Qed.

(** The times of a response.  On a clock that does not run backwards every phase
    takes a time of at least zero, only an [https] request has a handshake, the
    duration is the sum of the phases and no longer than the call; no response
    comes from a cache. *)
Theorem request_times {B64 : Base64} {U : UrlLib} {C : SocketConnection} {T : TlsConnection} {K : Caches}
    (kerberos : option (result unit str)) (clock : nat -> Z) (orders : gmap str str -> list (str * str))
    (io : option (result bytes str)) (url : str) (u : Url) (key host : str) (options : RequestOptions)
    (c : ConnectionHandle) (p p' : pipe) (r : PipelineResponse) (Hclock : monotone clock)
    (Hrun : transact kerberos clock orders io url u key host options c p = Ret (p', Ok r)) :
  exists dns con tr, dns_time r = Some dns /\ connection_time r = Some con /\ transfer_time r = Some tr
  /\ 0 <= dns /\ 0 <= con /\ 0 <= tr /\ 0 <= default 0 (handshake_time r)
  /\ (is_Some (handshake_time r) <-> is_https u = true)
  /\ request_duration r = dns + con + default 0 (handshake_time r) + tr
  /\ request_duration r <= clock (ticks p') - clock (ticks p)
  /\ cache_hit r = false /\ from_cache r = false.
Proof.
  unfold transact in Hrun.
  apply attempt_inv in Hrun as (p1 & [ips dns] & (p1' & _ & -> & -> & L1)%timed_inv & Hrun); [|apply forward_resolve].
  apply attempt_inv in Hrun as (p2 & [c2 con] & (p2' & _ & -> & -> & L2)%timed_inv & Hrun).
  2:{ destruct (establish_connection _ _). apply forward_ret. }
  apply attempt_inv in Hrun as (p3 & [c3 hs] & Hhs & Hrun).
  assert (L3 : (ticks (tick p2') <= ticks p3)%nat /\ 0 <= default 0 hs <= clock (ticks p3) - clock (ticks (tick p2'))
    /\ (is_Some hs <-> is_https u = true)).
  { fold (is_https u) in Hhs. destruct (is_https u).
    - apply attempt_inv in Hhs as (p4 & [c4 t] & (p4' & _ & -> & -> & L4)%timed_inv & Hhs).
      2:{ destruct (perform_tls_handshake _). apply forward_ret. }
      unfold mret, P_ret in Hhs. simplify_eq. cbn in *.
      pose proof (Hclock (S (ticks p2')) (ticks p4') ltac:(lia)).
      pose proof (Hclock (ticks p4') (S (ticks p4')) ltac:(lia)). split_and!; try lia. done.
    - unfold mret, P_ret in Hhs. simplify_eq. cbn. split_and!; try lia. split; [|done]. by intros [? ?]. }
  rewrite gets_bind in Hrun. cbn zeta in Hrun.
  apply attempt_inv in Hrun as (p4 & [[s1 resp] tr] & (p4' & _ & -> & -> & L4)%timed_inv & Hrun).
  2:{ unfold send_request. apply forward_bind; [apply forward_raise|]. intros []. apply forward_ret. }
  apply attempt_inv in Hrun as (p5 & resp2 & H5 & Hrun).
  assert (L5 : (ticks (tick p4') <= ticks p5)%nat).
  { refine (forward_bind _ _ _ _ _ _ _ H5); [apply forward_auth|]. intros []. apply forward_ret. }
  apply attempt_inv in Hrun as (p6 & [] & H6 & Hrun).
  assert (L6 : (ticks p5 <= ticks p6)%nat).
  { destruct (_ <? 400); [by apply forward_cache in H6|]. by apply forward_ret in H6. }
  unfold mret, P_ret in Hrun. injection Hrun as <- <-. cbn in *. destruct L3 as (L3 & Hh & Hi).
  pose proof (Hclock (ticks p) (ticks p1') ltac:(lia)).
  pose proof (Hclock (ticks p1') (S (ticks p1')) ltac:(lia)).
  pose proof (Hclock (S (ticks p1')) (ticks p2') ltac:(lia)).
  pose proof (Hclock (ticks p2') (S (ticks p2')) ltac:(lia)).
  pose proof (Hclock (ticks p3) (ticks p4') ltac:(lia)).
  pose proof (Hclock (ticks p4') (ticks p6) ltac:(lia)).
  eexists _, _, _. split_and!; try done; lia.
Qed.

Theorem request_times_witness :
  let run := transact (B64 := Rfc4648.engine) (U := Toy.lib) (C := Served.sock) (T := Mock.tls)
    (K := NoCache.caches) None Z.of_nat map_to_list (Some (Ok [])) (lit "http://a/") Served.url (lit "a:80:http")
    (lit "a") RequestOptions_default Served.handle Served.start in
  exists p' r, run = Ret (p', Ok r)
  /\ exists dns con tr, dns_time r = Some dns /\ connection_time r = Some con /\ transfer_time r = Some tr
  /\ 0 <= dns /\ 0 <= con /\ 0 <= tr /\ 0 <= default 0 (handshake_time r)
  /\ (is_Some (handshake_time r) <-> is_https (U := Toy.lib) Served.url = true)
  /\ request_duration r = dns + con + default 0 (handshake_time r) + tr
  /\ request_duration r <= Z.of_nat (ticks p') - Z.of_nat 0
  /\ cache_hit r = false /\ from_cache r = false.
Proof.
  intros run. eexists _, _. split; [vm_compute; reflexivity|].
  eapply (request_times (B64 := Rfc4648.engine) (U := Toy.lib) (C := Served.sock) (T := Mock.tls)
    (K := NoCache.caches) None Z.of_nat map_to_list (Some (Ok [])) (lit "http://a/") Served.url (lit "a:80:http")
    (lit "a") RequestOptions_default Served.handle Served.start).
  - intros i j Hij. lia.
  - vm_compute. reflexivity.
Defined.

(** Connections are never pooled.  Asked with the lock free,
    [get_or_create_connection] makes a fresh connection and leaves the pools as they
    are when the host has no pool; with a pool it panics, whether the pool has an
    idle connection to hand out or a new one is to be entered: both are copied, and
    copying a socket is not supported. *)
Theorem get_or_create_spec {C : SocketConnection} {T : TlsConnection} {K : Caches}
    (s : Sock) (t : TlsC) (clock : nat -> Z) (id : Z) (key host : str) (use_tls : bool) (p : pipe)
    (Hfree : pools_locked p = false) :
  get_or_create_connection (Ok s) (Ok t) clock id key host use_tls p
  = match pools p !! key with
    | Some _ => Panicked
    | None => Ret (tick p, Ok (mkConnectionHandle id host s (if use_tls then Some t else None)
                                 (clock (ticks p)) true))
    end.
Proof.
  unfold get_or_create_connection, attempt, mbind, P_bind, lock_pools, gets, unlock_pools, update, instant, raise.
  rewrite Hfree. cbn. destruct (pools p !! key) as [pool|] eqn:E; cbn.
  - destruct (idle_connection host pool); [done|]. destruct use_tls; cbn; rewrite E; done.
  - destruct p; cbn in *. subst. by destruct use_tls; cbn; rewrite E; cbn.
Qed.

Theorem get_or_create_spec_witness :
  get_or_create_connection (C := Served.sock) (T := Mock.tls) (K := NoCache.caches) (Ok tt) (Ok tt) Z.of_nat 1
    (lit "a:80:http") (lit "a") false Served.start
  = Ret (tick Served.start, Ok (mkConnectionHandle (C := Served.sock) (T := Mock.tls) 1 (lit "a") tt None 0 true)).
Proof.
  apply (get_or_create_spec (C := Served.sock) (T := Mock.tls) (K := NoCache.caches)). reflexivity.
Defined.

(** A cache that keeps what it is given. *)
Class CacheLaws `(Caches) : Prop := {
  get_put c host ips : get_dns_records (put_dns_records c host ips) host = Some ips;
}.

(** A resolved host is not asked for again.  With a cache that keeps its
    records, once a host has been resolved, asking again gives the same addresses
    whatever the network does, and changes nothing. *)
Theorem resolve_dns_cached `{CacheLaws} {C : SocketConnection} {T : TlsConnection}
    (io io' : option (result bytes str)) (host : str) (p p' : pipe) (ips : list str)
    (Hrun : resolve_dns io host p = Ret (p', Ok ips)) :
  resolve_dns io' host p' = Ret (p', Ok ips).
Proof.
  unfold resolve_dns in *. rewrite gets_bind in Hrun |- *.
  destruct (get_dns_records (cache p) host) as [l|] eqn:E.
  - unfold mret, P_ret in Hrun. simplify_eq. by rewrite E.
  - destruct ((fun io => perform_dns_resolution io host) <$> io) as [[l|e]|]; try done.
    unfold mbind, P_bind, update, mret, P_ret in Hrun. cbn in Hrun. simplify_eq. cbn. by rewrite get_put.
Qed.

Module MapCache.
Definition caches : Caches :=
  {| Cache := gmap str (list str); get_dns_records := fun c h => c !! h;
     put_dns_records := fun c h ips => <[h := ips]> c; put_response := fun c _ _ => (c, Ok tt);
     get_cookies := fun _ _ _ => Ok [] |}.
Lemma laws : CacheLaws caches.
Proof. split. intros c h ips. apply lookup_insert_eq. Qed.
End MapCache.

Theorem resolve_dns_cached_witness :
  exists p', resolve_dns (C := Mock.sock) (T := Mock.tls) (K := MapCache.caches) (Some (Ok [])) (lit "a")
      (Pipeline_new (C := Mock.sock) (T := Mock.tls) (K := MapCache.caches) ∅)
    = Ret (p', Ok [lit "1.1.1.1"; lit "8.8.8.8"])
  /\ resolve_dns (C := Mock.sock) (T := Mock.tls) (K := MapCache.caches) None (lit "a") p'
    = Ret (p', Ok [lit "1.1.1.1"; lit "8.8.8.8"]).
Proof.
  eexists. split; [reflexivity|].
  apply (resolve_dns_cached (H := MapCache.caches) (H0 := MapCache.laws) (C := Mock.sock) (T := Mock.tls)
    (Some (Ok [])) None (lit "a")
    (Pipeline_new (C := Mock.sock) (T := Mock.tls) (K := MapCache.caches) ∅)).
  reflexivity.
Defined.

(** No request ever completes.  [execute_request] holds the lock of the pools
    when it asks for a connection, and [get_or_create_connection] takes the same
    lock: for every URL with a host the call never returns, and it fails at once for
    the others. *)
Theorem execute_request_deadlocks {B64 : Base64} {U : UrlLib} {C : SocketConnection} {T : TlsConnection}
    {K : Caches} (sock : result Sock str) (tls : result TlsC str) (kerberos : option (result unit str))
    (clock : nat -> Z) (id : Z) (orders : gmap str str -> list (str * str))
    (io : option (result bytes str)) (url : str) (options : RequestOptions) (p : pipe) :
  execute_request sock tls kerberos clock id orders io url options p
  = match url_parse url with
    | None => Ret (p, Err InvalidRedirect)
    | Some u => match url_host u with
                | None => Ret (p, Err (DNSResolutionFailed (lit "No host in URL")))
                | Some _ => Stuck
                end
    end.
Proof. apply execute_request_run. Qed.

(** What an authentication exchange may change of the pipeline. *)
Definition only_auth_of {C : SocketConnection} {T : TlsConnection} {K : Caches} (key : str) (p p' : pipe) : Prop :=
  exists states, p' = set_auth p states /\ forall k, k <> key -> states !! k = auth_states p !! k.

(** The challenge of a response that can be answered, with the name of the header its
    answer goes in. *)
Definition asked (status : Z) (hs : gmap str str) : option (str * str) :=
  if status =? 401 then (fun v => (lit "Authorization", v)) <$> hs !! lit "www-authenticate"
  else if status =? 407 then (fun v => (lit "Proxy-Authorization", v)) <$> hs !! lit "proxy-authenticate"
  else None.

(** What there is to say to a challenge: the empty user and password, the first or the
    third NTLM message, the token of a build with Kerberos; nothing to any other
    scheme, or to an NTLM blob shorter than 32 bytes. *)
Definition credentials {B64 : Base64} (kerberos : option (result unit str)) (challenge : str) : option str :=
  c ← parse_challenge Authorization challenge;
  match ac_scheme c with
  | Basic => Some (lit "Basic " ++ b64_encode (as_bytes (lit ":")))
  | Ntlm =>
      match length (ac_payload c) with
      | O => Some (lit "NTLM " ++ b64_encode ntlm_type1_buf)
      | n => if (32 <=? n)%nat then Some (lit "NTLM " ++ b64_encode ntlm_type3_buf) else None
      end
  | Negotiate => match kerberos with Some (Ok _) => Some (lit "Negotiate " ++ b64_encode []) | _ => None end
  | _ => None
  end.

(** Reading a challenge does not depend on the header it came in, and [credentials]
    is the answer of the engine. *)
Lemma credentials_spec {B64 : Base64} kerberos h v c host :
  parse_challenge h v = Some c ->
  ac_header c = h
  /\ credentials kerberos v = match build_auth_response kerberos (ac_scheme c) (ac_payload c) host with
     | Ok value => Some value
     | Err _ => None
     end.
Proof.
  unfold credentials, parse_challenge. destruct (splitn2_ws (trim v)) as [first second].
  cbn [mbind option_bind]. intros [= <-]. split; [done|]. cbn [ac_scheme ac_payload]. destruct (AuthScheme_parse first); unfold build_auth_response; try reflexivity.
  - destruct (match split_whitespace (default [] second) with [] => [] | token :: _ => default [] (b64_decode token) end)
      as [|b l] eqn:E; [reflexivity|]. unfold ntlm_type3_message. cbn [length].
    destruct (Nat.leb_spec 32 (S (length l))), (Nat.ltb_spec (S (length l)) 32); by try lia.
  - unfold kerberos_apreq_token. by destruct kerberos as [[]|].
Qed.

(** What the engine observes is what is asked, and it leaves the retry unused. *)
Lemma observe_asked {B64 : Base64} states key status hs states' o :
  observe states key status (hs !! WWW) (hs !! PROXY) = (states', o) ->
  match o with
  | None => asked status hs = None
  | Some c => exists v, asked status hs = Some (header_name (ac_header c), v)
      /\ parse_challenge (ac_header c) v = Some c /\ retried (entry_or_default states' key) = false
  end.
Proof.
  unfold observe, asked, WWW, PROXY.
  assert (Hc : forall (h : AuthHeader) (ov : option str),
    match ov ≫= parse_challenge h with
    | Some c => (<[key := record_challenge (entry_or_default states key) c]> states, Some c)
    | None => (<[key := entry_or_default states key]> states, None)
    end = (states', o) ->
    match o with
    | None => (fun v => (header_name h, v)) <$> ov = None
    | Some c => exists v, (fun v => (header_name h, v)) <$> ov = Some (header_name (ac_header c), v)
        /\ parse_challenge (ac_header c) v = Some c /\ retried (entry_or_default states' key) = false
    end).
  { intros h [v|]; cbn; [|by intros [= _ <-]]. destruct (parse_challenge_some h v) as [c Hc]. rewrite Hc.
    intros [= <- <-]. exists v. destruct (credentials_spec None h v c [] Hc) as [Hh _]. rewrite Hh.
    split_and!; [done|done|]. unfold entry_or_default. by rewrite lookup_insert_eq. }
  destruct (status =? 401); [apply (Hc Authorization)|]. destruct (status =? 407); [apply (Hc ProxyAuthorization)|].
  destruct (between _ _ _); by intros [= _ <-].
Qed.

(** C37: one authentication retry per request.  A response with status 401 and a
    [www-authenticate] header, or 407 and a [proxy-authenticate] header, whose challenge
    can be answered, has the same request sent once more, with just the answer added
    under [Authorization] or [Proxy-Authorization]; whatever comes back is the result,
    even another challenge.  Any other response is passed on and nothing is sent.  Of the
    pipeline only the connection's own entry in the authentication engine changes. *)
Theorem auth_trap_once {B64 : Base64} {C : SocketConnection} {T : TlsConnection} {K : Caches}
    (kerberos : option (result unit str)) (orders : gmap str str -> list (str * str)) (key host : str) (s : Sock)
    (request : HttpRequest) (response : HttpResponse) (p : pipe) :
  exists p', only_auth_of key p p' /\ auth_trap kerberos orders key host s request response p
  = match '(h, v) ← asked (status_code response) (headers response); pair h <$> credentials kerberos v with
    | None => Ret (p', (s, Ok response))
    | Some (h, value) =>
        let hs := <[h := value]> (rq_headers request) in
        let again := mkHttpRequest (rq_method request) (rq_path request) (rq_version request) hs (rq_body request) in
        r ← send_http_request s again (orders hs); Ret (p', r)
    end.
Proof.
  unfold auth_trap, mbind, P_bind, gets, update, raise, mret, P_ret. cbn.
  destruct (run_call_writes kerberos (auth_states p)
    (CallObserve key (status_code response) (headers response !! WWW) (headers response !! PROXY))) as [st Hst].
  cbn in Hst. destruct (observe _ _ _ _ _) as [states o] eqn:Eo. cbn [fst snd] in *.
  change (states = <[key := st]> (auth_states p)) in Hst. subst states.
  assert (Hfr : forall st', only_auth_of key p (set_auth p (<[key := st']> (<[key := st]> (auth_states p))))).
  { intros st'. eexists. split; [done|]. intros k Hk. by rewrite !lookup_insert_ne. }
  apply observe_asked in Eo. destruct o as [c|]; cbn.
  2:{ rewrite Eo. eexists. split; [|done]. eexists. split; [done|]. intros k Hk. by rewrite lookup_insert_ne. }
  destruct Eo as (v & -> & Hp & Hr). cbn. rewrite (proj2 (credentials_spec kerberos _ v c host Hp)).
  unfold build_retry_header. rewrite Hr.
  destruct (build_auth_response _ _ _ _) as [value|e]; cbn; (eexists; split; [apply Hfr|]); [|done].
  by destruct (send_http_request _ _ _) as [[s' r]| | |].
Qed.

(** A server that challenges every request, and keeps what it was sent. *)
Module Challenging.
Definition page (status : Z) (name : str) : str :=
  show_response (lit "HTTP/1.1") status (lit "No") [(name, lit "Basic realm=x")] [].
Definition sock (status : Z) (name : str) : SocketConnection :=
  {| Sock := list bytes; sk_get_port := fun _ => 80; sk_connect := fun s _ _ => (s, Ok tt);
     sk_send := fun s b => (s ++ [b], Ok (Z.of_nat (length b))); sk_recv := fun s _ => (s, Ok (as_bytes (page status name)));
     sk_set_timeout := fun s _ => (s, Ok tt); sk_close := fun s => s |}.
Definition response (status : Z) (name : str) : HttpResponse := mkHttpResponse status {[name := lit "Basic realm=x"]} [].
Definition request : HttpRequest := mkHttpRequest (lit "GET") (lit "/") (lit "HTTP/1.1") ∅ [].
End Challenging.

Theorem auth_trap_once_witness :
  let run status name := auth_trap (B64 := Rfc4648.engine) (C := Challenging.sock status name) (T := Mock.tls)
    (K := NoCache.caches) None map_to_list (lit "a:80:http") (lit "a") [] Challenging.request
    (Challenging.response status name) (Pipeline_new (K := NoCache.caches) tt) in
  let sent header := [as_bytes (lit "GET / HTTP/1.1" ++ CRLF ++ header ++ lit ": Basic Og==" ++ CRLF
                                ++ lit "Content-Length: 0" ++ CRLF ++ CRLF)] in
  (exists p', run 401 WWW = Ret (p', (sent (lit "Authorization"), Ok (Challenging.response 401 WWW))))
  /\ (exists p', run 407 PROXY = Ret (p', (sent (lit "Proxy-Authorization"), Ok (Challenging.response 407 PROXY))))
  /\ exists p', run 401 PROXY = Ret (p', ([], Ok (Challenging.response 401 PROXY))).
Proof.
  intros run sent.
  pose proof (fun status name => auth_trap_once (B64 := Rfc4648.engine) (C := Challenging.sock status name)
    (T := Mock.tls) (K := NoCache.caches) None map_to_list (lit "a:80:http") (lit "a") [] Challenging.request
    (Challenging.response status name) (Pipeline_new (K := NoCache.caches) tt)) as H.
  split_and!.
  - destruct (H 401 WWW) as (p' & _ & E). exists p'. unfold run. rewrite E. vm_compute. reflexivity.
  - destruct (H 407 PROXY) as (p' & _ & E). exists p'. unfold run. rewrite E. vm_compute. reflexivity.
  - destruct (H 401 PROXY) as (p' & _ & E). exists p'. unfold run. rewrite E. vm_compute. reflexivity.
Defined.

(** Cleaning a pool drops exactly the idle connections unused for more than five
    minutes, keeps the others in their order, and cleaning again at the same time
    drops nothing more. *)
Theorem cleanup_pool_spec {C : SocketConnection} {T : TlsConnection} {K : Caches} (now : Z) (pool : ConnectionPool) :
  let cleaned := cleanup_connection_pool now pool in
  (forall c, In c (pool_connections cleaned)
             <-> In c (pool_connections pool)
                 /\ (ch_in_use c = true \/ now - ch_last_used c <= POOL_TIMEOUT))
  /\ sublist (pool_connections cleaned) (pool_connections pool)
  /\ cleanup_connection_pool now cleaned = cleaned.
Proof.
  intros cleaned. split_and!.
  - intros c. cbn. rewrite List.filter_In. unfold keep_connection.
    assert (Hp : 0 <= POOL_TIMEOUT) by (vm_compute; discriminate).
    destruct (ch_in_use c); cbn; [naive_solver|].
    destruct (Z.ltb_spec POOL_TIMEOUT (Z.max 0 (now - ch_last_used c))); cbn; split; intros [H1 H2];
      split; try done; [destruct H2; [done|lia]|right; lia].
  - cbn. induction (pool_connections pool) as [|c l IH]; [constructor|]. cbn.
    destruct (keep_connection now c); by constructor.
  - unfold cleaned, cleanup_connection_pool. cbn. f_equal.
    induction (pool_connections pool) as [|c l IH]; [done|]. cbn.
    destruct (keep_connection now c) eqn:E; [|done]. cbn. by rewrite E, IH.
Qed.
