(* ===== verification/Pipeline.v ===== *)
(** * The request pipeline (src/z_pipeline/pipeline.rs)

    [Pipeline::fetch]: the rate limiter, the redirect loop over the requests of
    [Exchange], and the metrics. *)

From S2P Require Import Prelude Str Base64 Auth Http Exchange.

(** ** Metrics *)

(** [update_metrics]; the average is computed on [u128] and cut to 64 bits.  (After
    2^64 requests the source divides by zero; the properties stay below that.) *)
Definition update_metrics (m : PipelineMetrics) (r : PipelineResponse) (request_duration : Z)
  : PipelineMetrics :=
  let total := u64 (total_requests m + 1) in
  let ok := pr_status r <? 400 in
  mkPipelineMetrics total
    (if ok then u64 (successful_requests m + 1) else successful_requests m)
    (if ok then failed_requests m else u64 (failed_requests m + 1))
    (if cache_hit r then u64 (cache_hits m + 1) else cache_hits m)
    (if cache_hit r then cache_misses m else u64 (cache_misses m + 1))
    (dns_time_total m + default 0 (dns_time r))
    (connection_time_total m + default 0 (connection_time r))
    (handshake_time_total m + default 0 (handshake_time r))
    (transfer_time_total m + default 0 (transfer_time r))
    (u64 ((average_request_time m * (total - 1) + request_duration) / total)).

Section Code.
Context {U : UrlLib} {C : SocketConnection} {T : TlsConnection} {K : Caches}.
Context (config : PipelineConfig) (clock : nat -> Z).

(** ** Rate limiting *)

(** The permit is identified by its host; dropping it gives it back. *)
Definition acquire_rate_limit (url : str) (limit : Z) : P (result str PipelineError) :=
  match url_parse url with
  | None => mret (Err InvalidRedirect)
  | Some u =>
      match url_host u with
      | None => mret (Err (DNSResolutionFailed (lit "No host")))
      | Some host =>
          ls ← gets rate_limiters;
          let available := default limit (ls !! host) in
          if 0 <? available
          then _ ← update (fun s => set_limiters s (<[host := available - 1]> ls)); mret (Ok host)
          else _ ← update (fun s => set_limiters s (<[host := available]> ls));
          mret (Err (NetworkError (lit "Rate limit exceeded")))
      end
  end.

Definition drop_permit (host : str) : P unit :=
  update (fun s => set_limiters s (alter (fun n => n + 1) host (rate_limiters s))).

(** The statement of [fetch]: the permit is a temporary, dropped at its end. *)
Definition rate_gate (url : str) : P (result unit PipelineError) :=
  match rate_limit_per_host config with
  | None => mret (Ok tt)
  | Some limit =>
      r ← acquire_rate_limit url limit;
      match r with
      | Err e => mret (Err e)
      | Ok permit => _ ← drop_permit permit; mret (Ok tt)
      end
  end.

(** ** Redirects *)

Definition resolve_relative_url (base_url relative_url : str) : outcome str :=
  let join base := default relative_url (url_join base relative_url) in
  match url_parse base_url with
  | Some base => Ret (join base)
  | None => match url_parse EXAMPLE_URL with
      | Some base => Ret (join base)
      | None => Panicked
      end
  end.

Definition LOCATION : str := lit "location".

Definition is_redirect (r : PipelineResponse) : bool :=
  (300 <=? pr_status r) && (pr_status r <? 400) && bool_decide (is_Some (pr_headers r !! LOCATION)).

Definition finish (r : PipelineResponse) (url current : str) (rs : list str) : PipelineResponse :=
  mkPipelineResponse (pr_status r) (pr_headers r) (pr_body r) url current (request_duration r)
  (dns_time r) (connection_time r) (handshake_time r) (transfer_time r) (cache_hit r) (from_cache r) rs.

(** [while redirect_count <= options.max_redirects]; [rounds] is the number of rounds
    the loop may still make, [exec] the request of one round. *)
Fixpoint fetch_loop (exec : str -> P (result PipelineResponse PipelineError)) (options : RequestOptions)
  (url : str) (start : Z) (rounds redirect_count : nat) (current : str) (rs : list str)
  : P (result PipelineResponse PipelineError) :=
  match rounds with
  | O => mret (Err MaxRetriesExceeded)
  | S rounds =>
      r ← exec current;
      match r with
      | Err e => mret (Err e)
      | Ok result =>
          if is_redirect result then
            if negb (follow_redirects options) then mret (Ok result)
            else
              new_url ← raise (resolve_relative_url current (default [] (pr_headers result !! LOCATION)));
              fetch_loop exec options url start rounds (S redirect_count) new_url
                (if (0 <? redirect_count)%nat then rs ++ [current] else rs)
          else
            let final := finish result url current rs in
            now ← instant clock;
            _ ← update (fun s => set_metrics s (update_metrics (metrics s) final (now - start)));
            mret (Ok final)
      end
  end.

Definition fetch_with (exec : str -> P (result PipelineResponse PipelineError)) (url : str)
  (options : RequestOptions) : P (result PipelineResponse PipelineError) :=
  start ← instant clock;
  gate ← rate_gate url;
  match gate with
  | Err e => mret (Err e)
  | Ok _ => fetch_loop exec options url start (S (max_redirects options)) 0 url []
  end.

Definition get_metrics : P PipelineMetrics := gets metrics.
End Code.

Definition fetch {B64 : Base64} {U : UrlLib} {C : SocketConnection} {T : TlsConnection} {K : Caches}
  (create_socket_connection : result Sock str) (create_tls_connection : result TlsC str)
  (kerberos : option (result unit str)) (config : PipelineConfig) (clock : nat -> Z) (id : Z)
  (orders : gmap str str -> list (str * str)) (io : option (result bytes str)) (url : str)
  (options : RequestOptions) : P (result PipelineResponse PipelineError) :=
  fetch_with config clock
    (fun current => execute_request create_socket_connection create_tls_connection kerberos clock
                      id orders io current options) url options.

Section Facts.
Context {U : UrlLib} {C : SocketConnection} {T : TlsConnection} {K : Caches}.
Context (config : PipelineConfig) (clock : nat -> Z).

Lemma gate_spec url u host limit p :
  rate_limit_per_host config = Some limit -> url_parse url = Some u -> url_host u = Some host ->
  rate_gate config url p
  = let available := default limit (rate_limiters p !! host) in
  Ret (set_limiters p (<[host := available]> (rate_limiters p)),
  if 0 <? available then Ok tt else Err (NetworkError (lit "Rate limit exceeded"))).
Proof.
  intros Hc Hu Hh. unfold rate_gate. rewrite Hc. unfold acquire_rate_limit. rewrite Hu, Hh. cbn zeta.
  unfold mbind, P_bind, gets, update. cbn. destruct (0 <? _); [|done]. cbn.
  rewrite (alter_as_insert _ _ host _ (lookup_insert_eq _ _ _)), insert_insert_eq.
  by rewrite Z.sub_add.
Qed.

(** A fetch gets past the rate limiter: there is no limit, or a permit is left for
    the host of its URL. *)
Definition admits (p : pipe) (host : str) : bool :=
  match rate_limit_per_host config with
  | None => true
  | Some limit => 0 <? default limit (rate_limiters p !! host)
  end.

Definition admitted (p : pipe) (url : str) : Prop :=
  rate_limit_per_host config = None
  \/ exists u host, url_parse url = Some u /\ url_host u = Some host /\ admits p host = true.

Lemma gate_admits url u host p :
  url_parse url = Some u -> url_host u = Some host ->
  exists ls, rate_gate config url p = Ret (set_limiters p ls,
    if admits p host then Ok tt else Err (NetworkError (lit "Rate limit exceeded"))).
Proof.
  intros Hu Hh. unfold admits. destruct (rate_limit_per_host config) as [limit|] eqn:Hc.
  - rewrite (gate_spec url u host limit p Hc Hu Hh). by eexists.
  - exists (rate_limiters p). unfold rate_gate. rewrite Hc. by destruct p.
Qed.

Lemma gate_open url p : admitted p url -> exists ls, rate_gate config url p = Ret (set_limiters p ls, Ok tt).
Proof.
  intros [Hc|(u & host & Hu & Hh & Ha)].
  - exists (rate_limiters p). unfold rate_gate. rewrite Hc. by destruct p.
  - destruct (gate_admits url u host p Hu Hh) as [ls E]. exists ls. by rewrite E, Ha.
Qed.

Lemma gate_frame url p p' r : rate_gate config url p = Ret (p', r) ->
  pools p' = pools p /\ pools_locked p' = pools_locked p /\ auth_states p' = auth_states p.
Proof.
  unfold rate_gate, acquire_rate_limit, drop_permit, gets, update, mret, P_ret, mbind, P_bind.
  intros H. repeat (case_match; cbn in *; simplify_eq); done.
Qed.

(** What is left of an admitted fetch is its loop. *)
Lemma fetch_admitted exec url options p :
  admitted p url -> exists ls, fetch_with config clock exec url options p
  = fetch_loop clock exec options url (clock (ticks p)) (S (max_redirects options)) 0 url [] (set_limiters (tick p) ls).
Proof.
  intros Ha. destruct (gate_open url (tick p)) as [ls E]; [exact Ha|]. exists ls.
  unfold fetch_with. unfold mbind at 1, P_bind at 1. unfold instant. cbn [mbind outcome_bind].
  unfold mbind at 1, P_bind at 1. by rewrite E.
Qed.

Lemma fetch_refused exec url u host options p :
  url_parse url = Some u -> url_host u = Some host -> admits p host = false ->
  exists p', fetch_with config clock exec url options p
  = Ret (p', Err (NetworkError (lit "Rate limit exceeded"))).
Proof.
  intros Hu Hh Ha. destruct (gate_admits url u host (tick p) Hu Hh) as [ls E]. eexists.
  unfold fetch_with. unfold mbind at 1, P_bind at 1. unfold instant. cbn [mbind outcome_bind].
  unfold mbind at 1, P_bind at 1. rewrite E. change (admits (tick p) host) with (admits p host).
  by rewrite Ha.
Qed.

(** [n] requests to the same URL pass the gate one after the other. *)
Fixpoint gates (n : nat) (url : str) : P (list (result unit PipelineError)) :=
  match n with
  | O => mret []
  | S n => r ← rate_gate config url; rs ← gates n url; mret (r :: rs)
  end.

Lemma gates_spec url u host limit n p :
  rate_limit_per_host config = Some limit -> url_parse url = Some u -> url_host u = Some host ->
  let available := default limit (rate_limiters p !! host) in
  exists p', gates n url p = Ret (p', replicate n (if 0 <? available then Ok tt
  else Err (NetworkError (lit "Rate limit exceeded"))))
  /\ default limit (rate_limiters p' !! host) = available.
Proof.
  intros Hc Hu Hh available. subst available. revert p. induction n as [|n IH]; intros p; [by eexists|].
  cbn [gates]. unfold mbind at 1, P_bind. rewrite (gate_spec url u host limit p Hc Hu Hh). cbn zeta.
  set (a := default limit (rate_limiters p !! host)).
  destruct (IH (set_limiters p (<[host := a]> (rate_limiters p)))) as (p' & E & Hp').
  cbn in E, Hp'. rewrite lookup_insert_eq in E, Hp'. cbn in E, Hp'. exists p'.
  unfold mbind, P_bind. cbn. rewrite E. by split.
Qed.

(** ** The redirect loop on a site that answers each URL in one way *)

Section Site.
Context (site : str -> PipelineResponse).
Context (exec : str -> P (result PipelineResponse PipelineError)).

(** Every request of the loop is answered by the site, whatever else it does. *)
Definition serves : Prop :=
  forall u p, exists p', exec u p = Ret (p', Ok (site u)) /\ metrics p' = metrics p.
Context (Hserve : serves).

(** One hop of the site: where its redirect at [u] leads. *)
Definition hop (u : str) : outcome str :=
  resolve_relative_url u (default [] (pr_headers (site u) !! LOCATION)).

(** [chain us u]: the site redirects along [us], one after the other, and then to
    [u]. *)
Fixpoint chain (us : list str) (u : str) : Prop :=
  match us with
  | [] => True
  | v :: us => is_redirect (site v) = true
      /\ hop v = Ret (match us with w :: _ => w | [] => u end) /\ chain us u
  end.

Lemma chain_prefix us w vs u : chain (us ++ w :: vs) u -> chain us w.
Proof.
  induction us as [|v us IH]; [done|]. intros (Hr & Hh & Hc). split_and!; [done| |by apply IH].
  rewrite Hh. by destruct us.
Qed.

(** A chain cut after [n] pages is a chain. *)
Lemma chain_cut n us u : chain us u -> (0 < n <= length us)%nat ->
  exists vs w, chain vs w /\ length vs = n
  /\ match us with v :: _ => v | [] => u end = match vs with v :: _ => v | [] => w end.
Proof.
  intros Hc Hn. destruct (decide (n = length us)) as [->|Hne]; [by exists us, u|].
  destruct (lookup_lt_is_Some_2 us n) as [w Hw]; [lia|]. exists (take n us), w.
  rewrite <- (take_drop_middle us n w Hw) in Hc. apply chain_prefix in Hc. split_and!; [done| |].
  - rewrite length_take. lia.
  - destruct us, n; cbn in *; by try lia.
Qed.

Lemma loop_chain options url start us u rounds rc rs p :
  follow_redirects options = true -> chain us u ->
  exists p', metrics p' = metrics p
  /\ fetch_loop clock exec options url start (length us + rounds) rc
       (match us with w :: _ => w | [] => u end) rs p
     = fetch_loop clock exec options url start rounds (rc + length us) u
         (rs ++ drop (if (0 <? rc)%nat then 0 else 1) us) p'.
Proof.
  intros Hf. revert rc rs p. induction us as [|v us IH]; intros rc rs p Hc.
  - exists p. by rewrite drop_nil, app_nil_r, Nat.add_0_r.
  - destruct Hc as (Hr & Hh & Hc). cbn [length Nat.add fetch_loop].
    destruct (Hserve v p) as (p1 & E & M). unfold mbind at 1, P_bind at 1. rewrite E. cbn [mbind outcome_bind].
    rewrite Hr, Hf. cbn [negb]. unfold hop in Hh. rewrite Hh.
    destruct (IH (S rc) (if (0 <? rc)%nat then rs ++ [v] else rs) p1 Hc) as (p' & M' & IH').
    exists p'. split; [congruence|].
    change (fetch_loop clock exec options url start (length us + rounds) (S rc)
      (match us with w :: _ => w | [] => u end) (if (0 <? rc)%nat then rs ++ [v] else rs) p1
      = fetch_loop clock exec options url start rounds (rc + S (length us)) u
          (rs ++ drop (if (0 <? rc)%nat then 0 else 1) (v :: us)) p').
    rewrite IH', Nat.add_succ_r. f_equal.
    destruct rc; cbn; [by rewrite drop_0|]. rewrite drop_0. by rewrite <- app_assoc.
Qed.
End Site.

(** ** Counting requests *)

(** A request that takes any state satisfying [I k] to one satisfying [I (k+1)], if
    it returns. *)
Definition counts (I : nat -> pipe -> Prop) {A} (m : P A) : Prop :=
  forall k p p' a, I k p -> m p = Ret (p', a) -> I (S k) p'.

(** Neither the clock nor the metrics matter to the count. *)
Definition insensitive (I : nat -> pipe -> Prop) : Prop :=
  forall k p p', I k p -> pools p' = pools p -> pools_locked p' = pools_locked p ->
  auth_states p' = auth_states p -> I k p'.

Lemma loop_counts I exec options url start rounds rc current rs k p p' r :
  (forall u, counts I (exec u)) -> insensitive I -> I k p ->
  fetch_loop clock exec options url start rounds rc current rs p = Ret (p', r) ->
  exists j, (j <= rounds)%nat /\ I (k + j)%nat p'.
Proof.
  intros He Hi. revert k rc current rs p. induction rounds as [|n IH]; intros k rc current rs p Hk H.
  - cbn in H. unfold mret, P_ret in H. simplify_eq. exists 0%nat. by rewrite Nat.add_0_r.
  - cbn [fetch_loop] in H. unfold mbind, P_bind in H.
    destruct (exec current p) as [[p1 r1]| | |] eqn:E; try done.
    pose proof (He current k p p1 r1 Hk E) as Hk1.
    assert (Hone : forall q, pools q = pools p1 -> pools_locked q = pools_locked p1 ->
      auth_states q = auth_states p1 -> exists j, (j <= S n)%nat /\ I (k + j)%nat q).
    { intros q H1 H2 H3. exists 1%nat. split; [lia|]. rewrite Nat.add_1_r. by eapply Hi. }
    destruct r1 as [res|e]; cbn in H.
    2:{ unfold mret, P_ret in H. simplify_eq. by apply Hone. }
    destruct (is_redirect res).
    + destruct (follow_redirects options); cbn in H.
      2:{ unfold mret, P_ret in H. simplify_eq. by apply Hone. }
      unfold raise in H. destruct (resolve_relative_url current _) as [nu| | |]; try done. cbn in H.
      destruct (IH _ _ _ _ _ Hk1 H) as (j & Hj & HI). exists (S j). split; [lia|].
      by rewrite Nat.add_succ_r.
    + unfold instant, update in H. cbn in H. unfold mret, P_ret in H. simplify_eq. by apply Hone.
Qed.
End Facts.

(** ** Metrics of a sequence of requests *)

Definition record_all (m : PipelineMetrics) (l : list (PipelineResponse * Z)) : PipelineMetrics :=
  foldl (fun m p => update_metrics m (fst p) (snd p)) m l.

Definition is_success (p : PipelineResponse * Z) : bool := pr_status (fst p) <? 400.
Definition is_hit (p : PipelineResponse * Z) : bool := cache_hit (fst p).
Definition count (f : PipelineResponse * Z -> bool) (l : list (PipelineResponse * Z)) : Z :=
  Z.of_nat (length (List.filter f l)).

(** The sum of one of the phases over the responses that had it. *)
Definition time_sum (phase : PipelineResponse -> option Z) (l : list (PipelineResponse * Z)) : Z :=
  foldr (fun p n => default 0 (phase (fst p)) + n) 0 l.

(** The counters after [n] recorded requests. *)
Record tally (m : PipelineMetrics) (l : list (PipelineResponse * Z)) : Prop := mkTally {
  t_total : total_requests m = Z.of_nat (length l);
  t_ok : successful_requests m = count is_success l;
  t_failed : failed_requests m = count (fun p => negb (is_success p)) l;
  t_hits : cache_hits m = count is_hit l;
  t_misses : cache_misses m = count (fun p => negb (is_hit p)) l;
  t_dns : dns_time_total m = time_sum dns_time l;
  t_connection : connection_time_total m = time_sum connection_time l;
  t_handshake : handshake_time_total m = time_sum handshake_time l;
  t_transfer : transfer_time_total m = time_sum transfer_time l;
}.

Lemma count_snoc f l p : count f (l ++ [p]) = count f l + (if f p then 1 else 0).
Proof. unfold count. rewrite List.filter_app, length_app. cbn. destruct (f p); cbn; lia. Qed.

Lemma count_bound f l : 0 <= count f l <= Z.of_nat (length l).
Proof. unfold count. pose proof (List.filter_length_le f l). lia. Qed.

Lemma count_ext f g l : (forall p, f p = g p) -> count f l = count g l.
Proof. intros H. unfold count. by rewrite (List.filter_ext f g H). Qed.

Lemma count_split f l : count f l + count (fun p => negb (f p)) l = Z.of_nat (length l).
Proof.
  induction l as [|p l IH] using rev_ind; [done|]. rewrite !count_snoc, length_app. cbn.
  destruct (f p); cbn; lia.
Qed.

Lemma time_sum_snoc f l p : time_sum f (l ++ [p]) = time_sum f l + default 0 (f (fst p)).
Proof. unfold time_sum. rewrite foldr_app. cbn. induction l as [|q l IH]; cbn; lia. Qed.

#[local] Arguments time_sum : simpl never.
#[local] Arguments count : simpl never.

Lemma tally_step m l p :
  tally m l -> Z.of_nat (length l) < 2 ^ 64 - 1 -> tally (update_metrics m (fst p) (snd p)) (l ++ [p]).
Proof.
  intros [] Hb. pose proof (count_bound is_success l). pose proof (count_bound (fun p => negb (is_success p)) l).
  pose proof (count_bound is_hit l). pose proof (count_bound (fun p => negb (is_hit p)) l).
  assert (Hu : forall n, 0 <= n <= Z.of_nat (length l) -> u64 (n + 1) = n + 1).
  { intros n Hn. apply u64_small. unfold in_u64. lia. }
  split; cbn; rewrite ?length_app, ?count_snoc, ?time_sum_snoc.
  - rewrite t_total0, Hu by lia. cbn. lia.
  - change (pr_status (fst p) <? 400) with (is_success p). rewrite t_ok0. destruct (is_success p); [|lia].
    by rewrite Hu.
  - change (pr_status (fst p) <? 400) with (is_success p). rewrite t_failed0.
    destruct (is_success p); cbn; [lia|]. by rewrite Hu.
  - change (cache_hit (fst p)) with (is_hit p). rewrite t_hits0. destruct (is_hit p); [|lia]. by rewrite Hu.
  - change (cache_hit (fst p)) with (is_hit p). rewrite t_misses0.
    destruct (is_hit p); cbn; [lia|]. by rewrite Hu.
  - by rewrite t_dns0.
  - by rewrite t_connection0.
  - by rewrite t_handshake0.
  - by rewrite t_transfer0.
Qed.

Lemma average_step m r d lo hi :
  0 <= total_requests m < 2 ^ 64 - 1 -> 0 <= lo -> lo <= d <= hi -> hi < 2 ^ 64 ->
  (total_requests m = 0 \/ lo <= average_request_time m <= hi) ->
  lo <= average_request_time (update_metrics m r d) <= hi.
Proof.
  intros Ht Hlo Hd Hhi Ha. cbn. rewrite (u64_small (total_requests m + 1)) by (unfold in_u64; lia).
  set (n := total_requests m) in *. set (a := average_request_time m) in *.
  replace (n + 1 - 1) with n by lia.
  assert (Hq : lo <= (a * n + d) / (n + 1) <= hi).
  { split; [apply Z.div_le_lower_bound|apply Z.div_le_upper_bound]; try lia;
      destruct Ha as [->|Ha]; nia. }
  rewrite u64_small; [done|]. unfold in_u64. lia.
Qed.

Lemma record_all_inv l lo hi :
  Z.of_nat (length l) < 2 ^ 64 -> 0 <= lo -> hi < 2 ^ 64 -> Forall (fun p => lo <= snd p <= hi) l ->
  tally (record_all PipelineMetrics_default l) l
  /\ (l <> [] -> lo <= average_request_time (record_all PipelineMetrics_default l) <= hi).
Proof.
  intros Hlen Hlo Hhi. induction l as [|p l IH] using rev_ind; intros Hall.
  - split; [by split|done].
  - rewrite length_app in Hlen. cbn in Hlen. apply Forall_app in Hall as [Hall Hp]. inv Hp.
    destruct IH as [Ht Ha]; [lia|done|]. unfold record_all. rewrite foldl_app. cbn [foldl].
    fold (record_all PipelineMetrics_default l). split; [apply tally_step; [done|lia]|]. intros _.
    apply average_step; try done.
    + rewrite (t_total _ _ Ht). lia.
    + destruct l as [|q l]; [by left|]. right. by apply Ha.
Qed.

(** ** Properties *)

(** C17: following redirects.  The request of one round is a parameter here, since the
    program's own never answers ([fetch_never_delivers]): it may do anything but touch
    the metrics, and answers each URL as [site] does.  Let the fetch get past the rate
    limiter, and the pages [us] redirect one after the other, ending in [u].
    If [u] does not redirect and the chain is no longer than the limit, the fetch
    returns the page at [u], with the URL asked for, [u] as its final URL, and the
    pages between the first and [u] as its redirects, and counts it once, as a success
    exactly below status 400; if the chain is longer than the limit it fails with
    [MaxRetriesExceeded] and records nothing.  With redirects turned off a first page
    that redirects is returned as it is, and nothing is recorded. *)
Theorem fetch_follows_chain {U : UrlLib} {C : SocketConnection} {T : TlsConnection} {K : Caches} (config : PipelineConfig)
    (clock : nat -> Z) (site : str -> PipelineResponse)
    (exec : str -> P (result PipelineResponse PipelineError)) (options : RequestOptions)
    (us : list str) (u : str) (p : pipe) (Hserve : serves site exec) (Hc : chain site us u) :
  let first := match us with w :: _ => w | [] => u end in
  let page := site u in
  admitted config p first ->
  (follow_redirects options = true -> is_redirect page = false -> (length us <= max_redirects options)%nat ->
   exists p' m, fetch_with config clock exec first options p
     = Ret (p', Ok (mkPipelineResponse (pr_status page) (pr_headers page) (pr_body page) first u
                      (request_duration page) (dns_time page) (connection_time page) (handshake_time page)
                      (transfer_time page) (cache_hit page) (from_cache page) (drop 1 us)))
   /\ m = metrics p' /\ total_requests m = u64 (total_requests (metrics p) + 1)
   /\ (successful_requests m, failed_requests m)
      = (if pr_status page <? 400
         then (u64 (successful_requests (metrics p) + 1), failed_requests (metrics p))
         else (successful_requests (metrics p), u64 (failed_requests (metrics p) + 1)))
   /\ (cache_hits m, cache_misses m)
      = (if cache_hit page then (u64 (cache_hits (metrics p) + 1), cache_misses (metrics p))
         else (cache_hits (metrics p), u64 (cache_misses (metrics p) + 1))))
  /\ (follow_redirects options = true -> (max_redirects options < length us)%nat ->
      exists p', fetch_with config clock exec first options p = Ret (p', Err MaxRetriesExceeded)
      /\ metrics p' = metrics p)
  /\ (follow_redirects options = false -> us <> [] ->
      exists p', fetch_with config clock exec first options p = Ret (p', Ok (site first))
      /\ metrics p' = metrics p).
Proof.
  intros first page Ha. destruct (fetch_admitted config clock exec first options p Ha) as [ls ->].
  set (q := set_limiters (tick p) ls). assert (Mq : metrics q = metrics p) by done. subst first. split_and!.
  - intros Hf Hu Hle.
    replace (S (max_redirects options)) with (length us + S (max_redirects options - length us))%nat by lia.
    edestruct (loop_chain clock site exec Hserve options) as (p1 & M1 & ->); [done..|].
    cbn [fetch_loop]. destruct (Hserve u p1) as (p2 & E & M2). unfold mbind at 1, P_bind at 1. rewrite E.
    cbn [mbind outcome_bind]. fold page. rewrite Hu. eexists _, _. split; [done|]. split; [done|]. cbn.
    rewrite M2, M1, Mq. by destruct (pr_status page <? 400), (cache_hit page).
  - intros Hf Hlen.
    destruct (chain_cut site (S (max_redirects options)) us u Hc) as (vs & w & Hvs & Hlv & ->); [lia..|].
    replace (S (max_redirects options)) with (length vs + 0)%nat by lia.
    edestruct (loop_chain clock site exec Hserve options) as (p1 & M1 & ->); [done..|].
    exists p1. split; [done|congruence].
  - intros Hf Hne. destruct us as [|v us]; [done|]. destruct Hc as (Hr & _ & _).
    destruct (Hserve v q) as (p2 & E & M2). exists p2. cbn [fetch_loop]. unfold mbind at 1, P_bind at 1. rewrite E.
    cbn [mbind outcome_bind]. rewrite Hr, Hf. split; [done|congruence].
Qed.

Module Demo.
(** Three pages: [http://a/] redirects to [http://b/], and that to [http://c/]. *)
Definition page (status : Z) (hs : gmap str str) : PipelineResponse :=
  mkPipelineResponse status hs [] [] [] 0 None None None None false false [].
Definition site (u : str) : PipelineResponse :=
  if str_eqb u (lit "http://a/") then page 302 {[LOCATION := lit "http://b/"]}
  else if str_eqb u (lit "http://b/") then page 301 {[LOCATION := lit "http://c/"]} else page 200 ∅.
Definition cached : PipelineResponse :=
  mkPipelineResponse 200 ∅ [] [] [] 0 (Some 7) None None None true true [].
Definition one_hop : RequestOptions :=
  mkRequestOptions (lit "GET") ∅ None CacheDefault true true 1.
Definition config : PipelineConfig := mkPipelineConfig 100 0 0 10 3 0 None.
Definition no_requests : PipelineConfig := mkPipelineConfig 100 0 0 10 3 0 (Some 0).
End Demo.

Theorem fetch_follows_chain_witness :
  let fetch := fetch_with (U := Toy.lib) (C := Mock.sock) (T := Mock.tls) (K := NoCache.caches)
    PipelineConfig_default (fun n => Z.of_nat n) (fun u => mret (Ok (Demo.site u))) (lit "http://a/") in
  let p := Pipeline_new (K := NoCache.caches) tt in
  (exists p', fetch RequestOptions_default p
    = Ret (p', Ok (mkPipelineResponse 200 ∅ [] (lit "http://a/") (lit "http://c/") 0 None None None None
                     false false [lit "http://b/"]))
   /\ (total_requests (metrics p'), successful_requests (metrics p'), cache_misses (metrics p')) = (1, 1, 1))
  /\ exists p', fetch Demo.one_hop p = Ret (p', Err MaxRetriesExceeded) /\ metrics p' = PipelineMetrics_default.
Proof.
  intros fetch p.
  pose proof (fun options => fetch_follows_chain (U := Toy.lib) (C := Mock.sock) (T := Mock.tls)
    (K := NoCache.caches) PipelineConfig_default (fun n => Z.of_nat n) Demo.site (fun u => mret (Ok (Demo.site u)))
    options [lit "http://a/"; lit "http://b/"] (lit "http://c/") p) as H.
  assert (Hs : serves (C := Mock.sock) (T := Mock.tls) (K := NoCache.caches) Demo.site
    (fun u => mret (Ok (Demo.site u)))) by (intros u q; by exists q).
  assert (Hc : chain (U := Toy.lib) Demo.site [lit "http://a/"; lit "http://b/"] (lit "http://c/"))
    by (split_and!; vm_compute; done).
  assert (Ha : admitted (U := Toy.lib) (C := Mock.sock) (T := Mock.tls) (K := NoCache.caches)
    PipelineConfig_default p (lit "http://a/")).
  { right. exists (Toy.mkUrl (lit "http://a/") (Some (lit "a"))), (lit "a"). split_and!; vm_compute; reflexivity. }
  split.
  - destruct (H RequestOptions_default Hs Hc Ha) as [H1 _].
    destruct H1 as (p' & m & E & -> & Ht & Hok & Hh); [reflexivity|vm_compute; reflexivity|cbn; lia|].
    exists p'. split; [exact E|]. injection Hok as -> _. injection Hh as _ ->. by rewrite Ht.
  - destruct (H Demo.one_hop Hs Hc Ha) as (_ & H2 & _). apply H2; [done|cbn; lia].
Defined.

(** A fetch makes at most [max_redirects + 1] requests, whatever the servers
    answer: if every request moves a counting predicate on by one, then when the
    fetch returns it has moved on by at most that much. *)
Theorem fetch_request_bound {U : UrlLib} {C : SocketConnection} {T : TlsConnection} {K : Caches} (config : PipelineConfig)
    (clock : nat -> Z) (exec : str -> P (result PipelineResponse PipelineError))
    (I : nat -> pipe -> Prop) (url : str) (options : RequestOptions) (k : nat) (p p' : pipe)
    (r : result PipelineResponse PipelineError)
    (He : forall u, counts I (exec u)) (Hi : insensitive I) (Hk : I k p)
    (Hrun : fetch_with config clock exec url options p = Ret (p', r)) :
  exists j, (j <= S (max_redirects options))%nat /\ I (k + j)%nat p'.
Proof.
  unfold fetch_with in Hrun. apply bind_inv in Hrun as (p1 & start & Hs & Hrun).
  apply bind_inv in Hrun as (p2 & gate & Hg & Hrun).
  unfold instant in Hs. simplify_eq. apply gate_frame in Hg as (H1 & H2 & H3).
  assert (Hk2 : I k p2) by by apply (Hi k p). destruct gate as [[]|e].
  - by apply (loop_counts clock I exec options url _ _ 0 url [] k p2 p' r He Hi Hk2 Hrun).
  - unfold mret, P_ret in Hrun. simplify_eq. exists 0%nat. rewrite Nat.add_0_r. split; [lia|done].
Qed.

(** Requests that add an entry to the authentication table, on a site whose only
    page redirects to itself: six requests with the default limit of five. *)
Definition logging {C : SocketConnection} {T : TlsConnection} {K : Caches} (u : str) : P (result PipelineResponse PipelineError) :=
  _ ← update (fun p => set_auth p (<[replicate (size (auth_states p)) 0 := AuthState_default]> (auth_states p)));
  mret (Ok (Demo.page 302 {[LOCATION := u]})).

Theorem fetch_request_bound_witness :
  exists p' r, fetch_with (U := Toy.lib) (C := Mock.sock) (T := Mock.tls) (K := NoCache.caches) Demo.config (fun n => 0) logging
      (lit "http://a/") RequestOptions_default (Pipeline_new (K := NoCache.caches) tt) = Ret (p', r)
  /\ exists j, (j <= 6)%nat /\ (fun k (p : pipe (C := Mock.sock) (T := Mock.tls) (K := NoCache.caches)) => (size (auth_states p) <= k)%nat) (0 + j)%nat p'.
Proof.
  eexists _, _. split; [vm_compute; reflexivity|].
  eapply (fetch_request_bound (U := Toy.lib) (C := Mock.sock) (T := Mock.tls) (K := NoCache.caches) Demo.config (fun n => 0) logging
    (fun k p => (size (auth_states p) <= k)%nat) (lit "http://a/") RequestOptions_default 0 (Pipeline_new (K := NoCache.caches) tt)).
  - intros u n p p' a Hn H. unfold logging, mbind, P_bind, update, mret, P_ret in H. cbn in H.
    simplify_eq. cbn. rewrite map_size_insert. case_match; cbn; lia.
  - intros n p p' Hn _ _ ->. done.
  - cbn. rewrite map_size_empty. done.
  - vm_compute. reflexivity.
Defined.

(** The rate limit never limits.  The permit of a fetch is given back before its
    request is made, so with a limit of at least one any number of fetches of a host
    pass, and with a limit of zero none does. *)
Theorem rate_limit_never_limits {U : UrlLib} {C : SocketConnection} {T : TlsConnection} {K : Caches} (config : PipelineConfig)
    (n : nat) (url host : str) (u : Url) (limit : Z) (p : pipe)
    (Hc : rate_limit_per_host config = Some limit) (Hu : url_parse url = Some u)
    (Hh : url_host u = Some host) (Hfresh : rate_limiters p !! host = None) :
  exists p', gates config n url p
  = Ret (p', replicate n (if 0 <? limit then Ok tt
                          else Err (NetworkError (lit "Rate limit exceeded")))).
Proof.
  destruct (gates_spec config url u host limit n p Hc Hu Hh) as (p' & E & _).
  rewrite Hfresh in E. by exists p'.
Qed.

Theorem rate_limit_never_limits_witness :
  exists p', gates (U := Toy.lib) (C := Mock.sock) (T := Mock.tls) (K := NoCache.caches) PipelineConfig_default 25 (lit "http://a/") (Pipeline_new (K := NoCache.caches) tt)
  = Ret (p', replicate 25 (Ok tt)).
Proof.
  apply (rate_limit_never_limits (U := Toy.lib) (C := Mock.sock) (T := Mock.tls) (K := NoCache.caches) PipelineConfig_default 25
    (lit "http://a/") (lit "a") (Toy.mkUrl (lit "http://a/") (Some (lit "a"))) 10 (Pipeline_new (K := NoCache.caches) tt)).
  - reflexivity.
  - vm_compute. reflexivity.
  - reflexivity.
  - reflexivity.
Defined.

(** C23: the metrics add up.  After any sequence of recorded responses the counters are
    exactly the number of responses, of those below status 400 and of the others, of
    those served by the cache and of the others, each phase's total is the sum of that
    phase over the responses that had it, and the average lies between the shortest
    and the longest request.  (For less than 2^64 requests.) *)
Theorem metrics_account (l : list (PipelineResponse * Z)) (lo hi : Z)
    (Hlen : Z.of_nat (length l) < 2 ^ 64) (Hlo : 0 <= lo) (Hhi : hi < 2 ^ 64)
    (Hl : Forall (fun p => lo <= snd p <= hi) l) (Hne : l <> []) :
  let m := record_all PipelineMetrics_default l in
  total_requests m = Z.of_nat (length l)
  /\ successful_requests m = count (fun p => pr_status (fst p) <? 400) l
  /\ failed_requests m = count (fun p => 400 <=? pr_status (fst p)) l
  /\ cache_hits m = count (fun p => cache_hit (fst p)) l
  /\ cache_misses m = count (fun p => negb (cache_hit (fst p))) l
  /\ successful_requests m + failed_requests m = total_requests m
  /\ cache_hits m + cache_misses m = total_requests m
  /\ dns_time_total m = time_sum dns_time l
  /\ connection_time_total m = time_sum connection_time l
  /\ handshake_time_total m = time_sum handshake_time l
  /\ transfer_time_total m = time_sum transfer_time l
  /\ lo <= average_request_time m <= hi.
Proof.
  destruct (record_all_inv l lo hi Hlen Hlo Hhi Hl) as [[] Ha]. intros m. subst m.
  split_and!; auto; [| | |by apply Ha..].
  - rewrite t_failed0. apply count_ext. intros p. unfold is_success.
    destruct (Z.ltb_spec (pr_status (fst p)) 400), (Z.leb_spec 400 (pr_status (fst p))); by try lia.
  - rewrite t_ok0, t_failed0, t_total0. apply count_split.
  - rewrite t_hits0, t_misses0, t_total0. apply count_split.
Qed.

Theorem metrics_account_witness :
  let l := [(Demo.page 200 ∅, 30); (Demo.page 404 ∅, 41); (Demo.cached, 35)] in
  let m := record_all PipelineMetrics_default l in
  (total_requests m, successful_requests m, failed_requests m, cache_hits m, cache_misses m, dns_time_total m)
    = (3, 2, 1, 1, 2, 7)
  /\ 30 <= average_request_time m <= 41.
Proof.
  intros l m. destruct (metrics_account l 30 41) as (H1 & H2 & H3 & H4 & H5 & _ & _ & H6 & _ & _ & _ & H);
    [by_eval..|done|]. fold m in H1, H2, H3, H4, H5, H6, H. split; [|exact H].
  by rewrite H1, H2, H3, H4, H5, H6.
Defined.

(** C19: no fetch delivers a response.  Whatever the URL, the options, the network and
    the state of the pipeline, a fetch that returns returns an error.  For a URL with a
    host that error can only be the rate limiter's, which lets the fetch pass exactly
    when there is no limit or a permit is left for the host; a fetch it lets pass does
    not return at all: its request waits for the lock it holds. *)
Theorem fetch_never_delivers {B64 : Base64} {U : UrlLib} {C : SocketConnection} {T : TlsConnection} {K : Caches}
    (sock : result Sock str) (tls : result TlsC str)
    (kerberos : option (result unit str)) (config : PipelineConfig) (clock : nat -> Z) (id : Z)
    (orders : gmap str str -> list (str * str)) (io : option (result bytes str)) (url : str)
    (options : RequestOptions) (p : pipe) :
  (forall p' r, fetch sock tls kerberos config clock id orders io url options p <> Ret (p', Ok r))
  /\ (forall u host, url_parse url = Some u -> url_host u = Some host ->
       let passes := match rate_limit_per_host config with
         | None => true
         | Some limit => 0 <? default limit (rate_limiters p !! host)
         end in
       if passes then fetch sock tls kerberos config clock id orders io url options p = Stuck
       else exists p', fetch sock tls kerberos config clock id orders io url options p
         = Ret (p', Err (NetworkError (lit "Rate limit exceeded")))).
Proof.
  set (exec := fun current => execute_request sock tls kerberos clock id orders io current options).
  assert (Hx : forall current q q' r, exec current q = Ret (q', Ok r) -> False).
  { intros current q q' r. unfold exec. rewrite execute_request_run. by repeat case_match. }
  assert (Hl : forall rounds rc current rs start q q' r,
    fetch_loop clock exec options url start rounds rc current rs q <> Ret (q', Ok r)).
  { intros [|rounds] rc current rs start q q' r; [done|]. cbn [fetch_loop]. unfold mbind, P_bind.
    destruct (exec current q) as [[q1 [res|e]]| | |] eqn:E; try done. by apply Hx in E. }
  split.
  - intros p' r H. unfold fetch, fetch_with in H. apply bind_inv in H as (p1 & start & _ & H).
    apply bind_inv in H as (p2 & gate & _ & H). destruct gate as [[]|e]; [|done]. by apply Hl in H.
  - intros u host Hu Hh. change (match rate_limit_per_host config with None => true | Some limit => _ end)
      with (admits config p host). cbn zeta. destruct (admits config p host) eqn:Ha.
    + unfold fetch. destruct (fetch_admitted config clock exec url options p) as [ls E]; [right; by eauto|].
      fold exec. rewrite E. cbn [fetch_loop]. unfold mbind, P_bind, exec. by rewrite execute_request_run, Hu, Hh.
    + by apply (fetch_refused config clock exec url u host options p).
Qed.

Theorem fetch_never_delivers_witness :
  let run config := fetch (B64 := Rfc4648.engine) (U := Toy.lib) (C := Mock.sock) (T := Mock.tls)
    (K := NoCache.caches) (Ok tt) (Ok tt) None config Z.of_nat 1 map_to_list None (lit "http://a/")
    RequestOptions_default (Pipeline_new (C := Mock.sock) (T := Mock.tls) (K := NoCache.caches) tt) in
  run PipelineConfig_default = Stuck
  /\ exists p', run Demo.no_requests = Ret (p', Err (NetworkError (lit "Rate limit exceeded"))).
Proof.
  pose proof (fun config => proj2 (fetch_never_delivers (B64 := Rfc4648.engine) (U := Toy.lib) (C := Mock.sock)
    (T := Mock.tls) (K := NoCache.caches) (Ok tt) (Ok tt) None config Z.of_nat 1 map_to_list None
    (lit "http://a/") RequestOptions_default
    (Pipeline_new (C := Mock.sock) (T := Mock.tls) (K := NoCache.caches) tt))
    (Toy.mkUrl (lit "http://a/") (Some (lit "a"))) (lit "a")) as H.
  split; [apply (H PipelineConfig_default)|apply (H Demo.no_requests)]; vm_compute; reflexivity.
Defined.
